(* ===== verification/_CoqProject ===== *)
-Q . S2P
Prelude.v
Hash.v
Merkle.v
Text.v
Unicode.v
Json.v
Jcs.v
Utc.v
Dsse.v
KeyLog.v
Checkpoint.v
Trust.v
Lexical.v
Entries.v
Bundle.v
Pki.v
Token.v
TokenPath.v
TokenSpec.v
Disclosure.v
CborWire.v
Cose.v
Scitt.v
PyValue.v
Times.v
Verdict.v
Authority.v
Certificate.v
Dispute.v
DisputeText.v
Exec.v
Cwt.v
CwtTypes.v
Counterparty.v
AdminProof.v
Assurance.v
AssuranceSpec.v
AssuranceChain.v
AssuranceReport.v
Instances.v
Example.v
ExampleWire.v
ExampleAction.v
ExampleCertificate.v
ExampleExchange.v
ExampleToken.v
Witnesses.v
WitnessesWire.v
WitnessesAction.v
WitnessesExchange.v
WitnessesToken.v
WitnessesText.v
