(* ===== verification/Prelude.v ===== *)
(** * swarrm-verify: a verification development for the Rust evidence verifier

    The crate [src/verify-rs] decides what a relying party may conclude from evidence it
    was handed: bundles of signed receipts exported from an append-only log, disclosures
    of committed payloads, action certificates over such bundles, registrations of
    certificates with a transparency service, dispute packages of two parties, and the
    presentations, refusals and acknowledgements of counterparties.  All of it is
    functions from bytes and JSON values to reports, without state between calls; the
    development is a shallow embedding of those functions and the theorems that say what
    their answers mean.

    ** Parts of the program, and where they are modelled

    - Foundations.  [Prelude]: integers, Rust control flow, lists, ordered objects and the
      shared tactics.  [Hash]: the digest.  [Text]: byte classes, hex, UTF-8, identifier
      grammars (lib.rs, scitt.rs).  [Unicode]: UTF-8 both ways.  [Json]:
      [serde_json::Value], its objects in key order.  [Jcs]: canonical JSON (jcs.rs).
      [Utc]: timestamps (lib.rs).
    - Log.  [Merkle]: RFC 9162 proofs (merkle.rs).  [Dsse]: envelopes, keys, receipt bodies;
      [KeyLog]: [replay_key_log] and the JWKS comparison; [Checkpoint]: signatures, the
      chain and continuity; [Entries]: admission, manifest, lineage, bound records;
      [Bundle]: [verify_bundle_facts], which composes them; [Disclosure]:
      [verify_disclosure] (all lib.rs).  [Trust]: the relying party's anchors;
      [Lexical]: the grammar behind its number scan (both trust.rs).
    - Timestamps (tsa.rs).  [Pki]: the values and operations of the CMS, X.509 and signature
      crates.  [Token]: RFC 3161 tokens, [walk_chain] and [verified_tst]; [TokenPath]: what
      the path builder decides; [TokenSpec]: what a verified token is, and the tokens of a
      bundle.
    - Wire.  [CborWire]: deterministic CBOR (cbor_wire.rs, cbor.rs).  [Cose]: COSE_Sign1
      (cose.rs).  [Scitt]: receipts and registration policies (scitt.rs).
    - Verdicts.  [PyValue]: how action.rs reads members, with its error value [Raise].
      [Verdict]: [derive_vector], a function per dimension; [Authority]: [authority_facts],
      the replay of roots, times, identity and grants from a bundle (both action.rs);
      [Times]: the order of [nts].  [Certificate]: [run], from bytes to a report
      (certificate.rs).  [Dispute]: [reverify], and [DisputeText]: the texts it compares
      (dispute.rs).
    - Counterparties (b28.rs).  [Exec]: the monad of computations that may panic, with
      weakest preconditions.  [Cwt]: signed statements and a validator per schema;
      [CwtTypes]: the members a valid core has.  [Counterparty]: the relying party's tables,
      contexts and pinned roots, and [verified_acknowledgement].  [AdminProof]: the
      administrator's WebAuthn assertion.  [Assurance]: [evaluate], a function per stage of
      a presentation, [evaluate_refusal] and the entry point [verify_b28_cwt];
      [AssuranceSpec] and [AssuranceChain]: what each stage establishes, and the stages
      composed; [AssuranceReport]: refusals and what is printed.
    - Evaluation.  [Instances] gives concrete functions for the external operations,
      [Example], [ExampleWire], [ExampleAction], [ExampleCertificate], [ExampleExchange] and
      [ExampleToken] build a small log, a registration, an evaluated action, a certificate,
      a dispute, a counterparty exchange and a timestamped checkpoint, and [Witnesses],
      [WitnessesWire], [WitnessesAction], [WitnessesExchange], [WitnessesToken] and
      [WitnessesText] apply the theorems to them.

    Calls go down this list: a certificate embeds a bundle ([Bundle], [Authority]), feeds
    the verdict engine ([Verdict]) and checks a registration ([Scitt]); a dispute verifies
    two bundles; an acknowledgement is checked by [Counterparty] and assessed against a
    bundle; everything rests on the log and wire layers.

    ** Conventions

    Definitions keep the source's names; a name that Rocq reserves or that several
    files share gets an underscore or a prefix, and the comment above a definition
    names the source function.  Early returns are [reject_if] and [let_some], the [?]
    operator is the option bind.  [u64], [i64] and [usize] values are [Z] with the bounds
    the code checks or the type imposes written out.  JSON objects are association lists
    in key order, as serde_json's maps iterate.  Mutated accumulators ([BundleFacts],
    [KeyLog], the claims of a party, an agent's lineage) are threaded through folds.
    A function that prints its result is modelled up to the value it prints.  b28.rs
    indexes maps, unwraps options and subtracts where a missing case panics; there a
    function returns [exec], whose [Panic] is that case, and the theorems show it is
    never reached.

    External code is a typeclass parameter with, where a theorem needs it, a class of laws:
    SHA-256 ([Hash], of 32-byte outputs; no collision-freedom is assumed: theorems that
    need it end in "or a collision is exhibited"), Ed25519, base64, serde_json's readers
    and string writer and ryu-js ([Serde]), ciborium's reader ([Ciborium], and
    [CiboriumAt] with a recursion limit), P-256 ([P256]), the CMS, X.509 and signature
    crates of tsa.rs ([Pki], with the derived decoder of its struct, [SignedDataDecode]), and
    [Display] of JSON numbers and values (what serde_json prints is [SerdeText]).  [Tsa] is
    the interface between [Bundle] and tsa.rs: the bundle theorems assume its law
    ([TsaLaws]), [TokenSpec] discharges it.

    ** What the theorems show

    - The log: inclusion and consistency proofs bind ([inclusion_sound],
      [consistency_sound]); an accepted chain is append-only, and a dense one is bound by
      its head; the key log refines declarative rules, issuers descend from genesis and
      revocation is final; entries and manifests satisfy their specifications, a bundle
      verifies exactly when it satisfies its own ([verify_bundle_exact]), a verified bundle
      is one history, and trust never changes a verdict.
    - Timestamps: the path builder terminates, what it finds is a path of CA certificates
      with room for those below and every such path is found ([path_found]); a token
      verifies exactly when it meets its specification ([verified_tst_exact]); a checkpoint
      reported as trusted has such a token ([trusted_checkpoint_path]).
    - Encodings: canonical JSON and CBOR name one value, the CBOR scan accepts exactly a
      grammar within its budgets and the JSON number scan exactly one of bounded tokens,
      timestamps are the reference calendar's instants and their normal forms compare
      chronologically.
    - Registration and disclosure: accepted COSE envelopes, SCITT receipts and policies are
      what they claim; a disclosure verifies exactly when the first carried receipt of the
      named hash commits to the opening ([verify_disclosure_exact]).
    - Verdicts: the engine is total and typed; its one error path gives the weak vector on
      an explicit predicate of the document; without anchors nothing favourable is
      reachable; ELIGIBLE and the favourable provenance values rest on named evidence; a
      material contradiction is terminal.
    - Authority: the root timeline is a chain of signatures; intervals are proven and
      never inverted; the mandate walk ends; VERIFIED identity and authority are sound;
      the facts are typed and follow the bundle's verdict.
    - Certificates: a report always comes back, its verdict bit is its error list, an
      accepted one is bound to its bytes and consistent with its bundle, a failed one
      is never a partial pass, and the receipt flag is derived; a certificate whose core
      does not carry a pack naming its own hash is neither ELIGIBLE nor REGISTERED.
    - Disputes: outcomes are decided by the compared values and favour neither party; an
      accepted package is the recomputation, complete, with counts that add up; the texts
      compared name the values, so agreement is of values ([outcome_by_values]).
    - Counterparties: no validator, parser or stage panics, whatever the bytes
      ([validate_core_typed], [parse_local_context_total], [verify_b28_cwt_total]); a
      signature names one statement and a schema has exactly two spellings; the assertion
      is the bound administrator's ([verify_admin_sound]); DURABLE_REPLAY_REQUIRED and
      SIGNED_REFUSAL are printed only with the facts they stand for
      ([durable_replay_sound], [signed_refusal_sound]), and no result says more; a covered
      acknowledgement rests on a signed statement and a verified bundle.

    ** Fuel and bounds

    Recursion is structural but for six loops.  [skip_even] and [skip_odd] get 64 turns,
    the width of the integers they shift ([skip_even_exits]); [partition_point_from] gets
    the length of its list; [scan_loop] gets the source's own item budget, so running out is
    the source's rejection; [mandate_loop] gets one turn per issued grant and one more,
    which [mandate_id_terminates] proves enough; [keys_loop] gets the length of the client
    data, which [keys_loop_fuel] proves enough; [walk_loop] gets the cube of the number of
    certificates, which [walk_terminates] proves enough.  Machine bounds appear where the source
    has them: caps on entries, proofs, chains, signatures and documents, the 2^53 profile
    of numbers, [u64] tree sizes, saturating casts of grant versions.

    ** Not modelled

    - The DER, CMS and X.509 parsers and the signature crates under tsa.rs, nor a panic
      inside them (the repository's own fuzz target reports one on arbitrary PEM bytes).
    - The wasm-bindgen exports (serialisation of the results above), the fuzz targets, the
      tests and the other languages of the repository.
    - Floating-point formatting (ryu-js, Display) and the float parser of serde_json.

    ** Plan

    A specification of the float texts a dispute compares; which certificates are accepted,
    exactly. *)
From Stdlib Require Export ZArith Lia Ascii String.
From Stdlib Require Export Floats.SpecFloat.
From stdpp Require Export base tactics option list gmap strings sorting pretty.

#[global] Open Scope Z_scope.
#[global] Set Warnings "-register-all,-clear-no-such-hyp".

(** ** Machine data

    A [u8] is an integer of [Z]; the functions that produce bytes keep it in
    range, the theorems that need the range say so.  A Rust [&str] or [String]
    is the [string] of its UTF-8 bytes; [&[u8]] and [Vec<u8>] are [bytes]. *)

Abbreviation u8 := Z (only parsing).
Abbreviation bytes := (list Z) (only parsing).

Definition U64_MAX : Z := 18446744073709551615.
Definition I64_MAX : Z := 9223372036854775807.
Definition I64_MIN : Z := -9223372036854775808.
Definition USIZE_MAX : Z := U64_MAX.

Definition is_byte (b : u8) : Prop := 0 <= b < 256.
Definition is_u64 (n : Z) : Prop := 0 <= n <= U64_MAX.

#[global] Instance is_byte_dec b : Decision (is_byte b).
Proof. unfold is_byte; apply _. Defined.
#[global] Instance is_u64_dec n : Decision (is_u64 n).
Proof. unfold is_u64; apply _. Defined.

(** Length as the [usize] the source compares against. *)
Definition zlen {A} (l : list A) : Z := Z.of_nat (length l).
Definition slen (s : string) : Z := Z.of_nat (String.length s).

(** Byte-string equality, as [==] on slices. *)
Definition bytes_eqb (a b : bytes) : bool := bool_decide (a = b).

(** ** Rust control flow

    [let_some p := e else d; k] is [let Some(p) = e else { return d }; k];
    [reject_if c with d; k] is [if c { return d } k]; the [?] operator is
    stdpp's option bind [x ← e; k]. *)

Declare Scope rust_scope.
Delimit Scope rust_scope with rust.
#[global] Open Scope rust_scope.

Notation "'let_some' p := e 'else' d ; k" :=
  (match e with Some p => k | None => d end)
  (at level 10, p pattern, e at level 100, d at level 100, k at level 200,
   format "'[v' 'let_some'  p  :=  e  'else'  d ; '/' k ']'") : rust_scope.
Notation "'reject_if' c 'with' d ; k" :=
  (if c then d else k)
  (at level 10, c at level 100, d at level 100, k at level 200,
   format "'[v' 'reject_if'  c  'with'  d ; '/' k ']'") : rust_scope.

(** [Option::is_some_and], [Option::is_none_or], [bool::then_some],
    [Option::filter], [Option::unwrap_or]. *)
Definition is_some_and {A} (o : option A) (f : A -> bool) : bool :=
  match o with Some x => f x | None => false end.
Definition is_none_or {A} (o : option A) (f : A -> bool) : bool :=
  match o with Some x => f x | None => true end.
Definition then_some {A} (b : bool) (x : A) : option A := if b then Some x else None.
Definition opt_filter {A} (o : option A) (f : A -> bool) : option A :=
  x ← o; then_some (f x) x.
Definition unwrap_or {A} (o : option A) (d : A) : A :=
  match o with Some x => x | None => d end.
Definition is_some {A} (o : option A) : bool := match o with Some _ => true | None => false end.
Definition is_none {A} (o : option A) : bool := negb (is_some o).

(** [slice.windows(2)] and [iter().position(p)], [Vec::last]. *)
Fixpoint windows2 {A} (l : list A) : list (A * A) :=
  match l with
  | x :: (y :: _) as t => (x, y) :: windows2 t
  | _ => []
  end.
Fixpoint position_from {A} (p : A -> bool) (i : Z) (l : list A) : option Z :=
  match l with
  | [] => None
  | x :: t => if p x then Some i else position_from p (i + 1) t
  end.
Definition position {A} (p : A -> bool) (l : list A) : option Z := position_from p 0 l.
(** [iter().enumerate()]. *)
Fixpoint enumerate_from {A} (i : Z) (l : list A) : list (Z * A) :=
  match l with [] => [] | x :: t => (i, x) :: enumerate_from (i + 1) t end.
Definition enumerate {A} (l : list A) : list (Z * A) := enumerate_from 0 l.

(** [slice.sort_by] is a stable sort: insertion before the first entry that is
    not smaller. *)
Fixpoint insert_by {A} (leb : A -> A -> bool) (x : A) (l : list A) : list A :=
  match l with
  | [] => [x]
  | y :: t => if leb x y then x :: y :: t else y :: insert_by leb x t
  end.
Definition sort_by {A} (leb : A -> A -> bool) (l : list A) : list A :=
  foldr (insert_by leb) [] l.

(** Byte-wise lexicographic order: [Ord] of [&[u8]], [&str] and [String]. *)
Fixpoint bytes_compare (a b : bytes) : comparison :=
  match a, b with
  | [], [] => Eq
  | [], _ => Lt
  | _, [] => Gt
  | x :: a', y :: b' => match Z.compare x y with Eq => bytes_compare a' b' | c => c end
  end.
Definition bytes_ltb (a b : bytes) : bool := match bytes_compare a b with Lt => true | _ => false end.
Definition bytes_leb (a b : bytes) : bool := match bytes_compare a b with Gt => false | _ => true end.

(** ** Strings as bytes *)

Definition ascii_byte (c : ascii) : u8 := Z.of_N (N_of_ascii c).
Definition byte_ascii (b : u8) : ascii := ascii_of_N (Z.to_N (b mod 256)).
Definition str_bytes (s : string) : bytes := map ascii_byte (list_ascii_of_string s).
Definition bytes_str (b : bytes) : string := string_of_list_ascii (map byte_ascii b).
Definition str_ltb (a b : string) : bool := bytes_ltb (str_bytes a) (str_bytes b).

(** The one-byte string literal [b'x']. *)
Notation "'#' c" := (ascii_byte c%char) (at level 1, c at level 0, format "'#' c") : rust_scope.

(** ** Automation

    [rust] collects the lemmas that turn the source's boolean tests into the
    propositions they decide; [bool_prop] applies it to every hypothesis. *)
Create HintDb rust.
Create Rewrite HintDb rust.
#[export] Hint Rewrite andb_true_iff andb_false_iff orb_true_iff orb_false_iff negb_true_iff
  negb_false_iff Z.eqb_eq Z.eqb_neq Z.leb_le Z.leb_gt Z.ltb_lt Z.ltb_ge bool_decide_eq_true
  bool_decide_eq_false : rust.

Ltac bool_prop := autorewrite with rust in *; destruct_and?.

(** One [match] or [if] of hypothesis [H] at a time, discarding the branches
    that return early with another value. *)
Ltac case_step H :=
  match type of H with
  | context [match ?e with _ => _ end] =>
      let E := fresh "E" in destruct e eqn:E; try discriminate H
  end.
Ltac case_all H := repeat (case_step H).

(** ** Shared lemmas *)

Lemma bytes_eqb_true a b : bytes_eqb a b = true <-> a = b.
Proof. apply bool_decide_eq_true. Qed.

Lemma is_some_and_true {A} (o : option A) f :
  is_some_and o f = true <-> exists x, o = Some x /\ f x = true.
Proof. destruct o as [y|]; cbn; split; [eauto|intros (? & [= <-] & ?); done|done|intros (? & ? & ?); done]. Qed.

Lemma is_none_or_true {A} (o : option A) f :
  is_none_or o f = true <-> forall x, o = Some x -> f x = true.
Proof. destruct o as [y|]; cbn; split; [intros H ? [= <-]; done|auto|done|done]. Qed.

Lemma opt_filter_Some {A} (o : option A) f x :
  opt_filter o f = Some x <-> o = Some x /\ f x = true.
Proof.
  destruct o as [y|]; cbn; [|split; [done|intros [? ?]; done]].
  unfold then_some. destruct (f y) eqn:E; split; intros H; destruct_and?; simplify_eq; auto; congruence.
Qed.

Lemma then_some_Some {A} b (x y : A) : then_some b x = Some y <-> b = true /\ x = y.
Proof. destruct b; cbn; split; intros H; destruct_and?; simplify_eq; auto. Qed.

#[export] Hint Rewrite @is_some_and_true @is_none_or_true bytes_eqb_true : rust.

Lemma existsb_false {A} (f : A -> bool) l : existsb f l = false <-> forall x, x ∈ l -> f x = false.
Proof.
  induction l as [|y l IH]; cbn; [split; [intros _ x Hx; by apply elem_of_nil in Hx|done]|].
  rewrite orb_false_iff, IH. setoid_rewrite elem_of_cons.
  split; [intros [Hy Hl] x [->|Hx]; auto|auto].
Qed.

Lemma zlen_nonneg {A} (l : list A) : 0 <= zlen l.
Proof. unfold zlen; lia. Qed.
Lemma zlen_app {A} (l k : list A) : zlen (l ++ k) = zlen l + zlen k.
Proof. unfold zlen; rewrite length_app; lia. Qed.
Lemma zlen_cons {A} x (l : list A) : zlen (x :: l) = 1 + zlen l.
Proof. unfold zlen; cbn [length]; lia. Qed.
Lemma zlen_nil {A} : zlen (@nil A) = 0.
Proof. reflexivity. Qed.
#[export] Hint Rewrite @zlen_app @zlen_cons @zlen_nil : rust.

(** Bits: the low [k] bits of [x << k | l]. *)
Lemma land_shiftl_low h l k : 0 <= k -> 0 <= l < 2 ^ k -> Z.land (Z.shiftl h k) l = 0.
Proof.
  intros Hk Hl. apply Z.bits_inj'. intros i Hi. rewrite Z.land_spec, Z.bits_0.
  destruct (Z_lt_le_dec i k).
  - rewrite Z.shiftl_spec_low by lia. done.
  - rewrite <- (Z.mod_small l (2 ^ k)) by lia. rewrite Z.mod_pow2_bits_high by lia. apply andb_false_r.
Qed.
Lemma lor_shiftl h l k : 0 <= k -> 0 <= l < 2 ^ k -> Z.lor (Z.shiftl h k) l = h * 2 ^ k + l.
Proof.
  intros Hk Hl. rewrite <- Z.add_nocarry_lor by (apply land_shiftl_low; lia).
  rewrite Z.shiftl_mul_pow2 by lia. done.
Qed.
Lemma land_ones_mod b k : 0 <= k -> Z.land b (2 ^ k - 1) = b mod 2 ^ k.
Proof. intros Hk. replace (2 ^ k - 1) with (Z.ones k) by (rewrite Z.ones_equiv; lia). by apply Z.land_ones. Qed.

Lemma insert_by_perm {A} leb (x : A) l : insert_by leb x l ≡ₚ x :: l.
Proof.
  induction l as [|y t IH]; cbn; [done|]. destruct (leb x y); [done|].
  rewrite IH. apply Permutation_swap.
Qed.
Lemma sort_by_perm {A} leb (l : list A) : sort_by leb l ≡ₚ l.
Proof. induction l as [|x t IH]; cbn; [done|]. rewrite insert_by_perm. by f_equiv. Qed.

Section SortBy.
Context {A : Type} (leb : A -> A -> bool).
Context (leb_total : forall x y, leb x y = true \/ leb y x = true).

Lemma insert_by_sorted x l :
  Sorted (fun a b => leb a b = true) l -> Sorted (fun a b => leb a b = true) (insert_by leb x l).
Proof.
  induction 1 as [|y t Hs IH Hh]; cbn; [repeat constructor|].
  destruct (leb x y) eqn:E; [repeat constructor; auto|].
  assert (leb y x = true) as Hyx by (destruct (leb_total x y); congruence).
  constructor; [done|]. destruct t as [|z t]; cbn; [by constructor|].
  inversion Hh; subst. destruct (leb x z); constructor; auto.
Qed.
Lemma sort_by_sorted l : Sorted (fun a b => leb a b = true) (sort_by leb l).
Proof. induction l as [|x t IH]; cbn; [constructor|]. by apply insert_by_sorted. Qed.
End SortBy.

(** [slice.sort_by_key(f)]. *)
Lemma sort_by_key_sorted {A} (f : A -> Z) (l : list A) :
  StronglySorted (fun a b => f a <= f b) (sort_by (fun a b => f a <=? f b) l).
Proof.
  apply Sorted_StronglySorted; [intros x y z; lia|].
  assert (Sorted (fun a b => (f a <=? f b) = true) (sort_by (fun a b => f a <=? f b) l)) as Hs.
  { apply sort_by_sorted. intros x y. destruct (Z.leb_spec (f x) (f y)); [by left|right; apply Z.leb_le; lia]. }
  induction Hs as [|x t Hs IH Hh]; [constructor|]. constructor; [done|].
  destruct Hh; constructor. by apply Z.leb_le.
Qed.

(** The byte order is a total order. *)
Lemma bytes_compare_refl a : bytes_compare a a = Eq.
Proof. induction a as [|x a IH]; cbn; [done|]. by rewrite Z.compare_refl. Qed.
Lemma bytes_compare_eq a b : bytes_compare a b = Eq <-> a = b.
Proof.
  split; [|intros ->; apply bytes_compare_refl]. revert b.
  induction a as [|x a IH]; intros [|y b]; cbn; try done.
  destruct (Z.compare_spec x y); try done. intros H1. subst. f_equal. auto.
Qed.
Lemma bytes_compare_antisym a b : bytes_compare b a = CompOpp (bytes_compare a b).
Proof.
  revert b. induction a as [|x a IH]; intros [|y b]; cbn; try done.
  rewrite (Z.compare_antisym x y). destruct (Z.compare x y); cbn; auto.
Qed.
Lemma bytes_compare_trans a b c :
  bytes_compare a b = Lt -> bytes_compare b c = Lt -> bytes_compare a c = Lt.
Proof.
  revert b c. induction a as [|x a IH]; intros [|y b] [|z c]; cbn; try done.
  destruct (Z.compare_spec x y), (Z.compare_spec y z), (Z.compare_spec x z); subst; try done; try lia; eauto.
Qed.
Lemma bytes_ltb_lt a b : bytes_ltb a b = true <-> bytes_compare a b = Lt.
Proof. unfold bytes_ltb. destruct (bytes_compare a b); split; congruence. Qed.
Lemma bytes_leb_total a b : bytes_leb a b = true \/ bytes_leb b a = true.
Proof. unfold bytes_leb. rewrite (bytes_compare_antisym a b). destruct (bytes_compare a b); cbn; auto. Qed.
Lemma bytes_leb_compare a b : bytes_leb a b = true <-> bytes_compare a b = Lt \/ a = b.
Proof.
  unfold bytes_leb. rewrite <- bytes_compare_eq. destruct (bytes_compare a b); split; intros; destruct_or?; auto; done.
Qed.
#[export] Instance bytes_lt_trans : Transitive (fun a b => bytes_compare a b = Lt).
Proof. intros a b c. apply bytes_compare_trans. Qed.
Lemma bytes_lt_irrefl a : bytes_compare a a <> Lt.
Proof. by rewrite bytes_compare_refl. Qed.

Lemma elem_of_rev {A} (x : A) l : x ∈ rev l <-> x ∈ l.
Proof. by rewrite !list_elem_of_In, <- in_rev. Qed.
Lemma length_omap_le {A C} (f : A -> option C) l : (length (omap f l) <= length l)%nat.
Proof. induction l as [|x l IH]; cbn; [done|]. destruct (f x); cbn; lia. Qed.
Lemma size_list_to_set_le `{Countable A} (l : list A) : (size (list_to_set l : gset A) <= length l)%nat.
Proof.
  induction l as [|x l IH]; cbn [list_to_set length]; [by rewrite size_empty|]. destruct (decide (x ∈ l)).
  - rewrite subseteq_union_1_L by set_solver. lia.
  - rewrite size_union by set_solver. rewrite size_singleton. lia.
Qed.
