(* ===== verification/Hash.v ===== *)
(** * Hash: the digest function the verifier is built on

    [sha2] is a third-party crate, so SHA-256 is a parameter: a typeclass of one
    operation, with its documented law (32 bytes of output) in a separate class.
    The module also fixes the domain-separated uses the sources make of it. *)
From S2P Require Import Prelude.

(** ** Interface *)

Class Hash := sha256_digest : bytes -> bytes.

Class HashLaws {H : Hash} : Prop := {
  digest_length : forall m, length (sha256_digest m) = 32%nat;
  digest_bytes : forall m, Forall is_byte (sha256_digest m);
}.

Section Hash.
Context {H : Hash}.

(** [sha256] of lib.rs; the hasher is fed the whole slice. *)
Definition sha256 (data : bytes) : bytes := sha256_digest data.

(** An explicit collision: two different inputs, one from each list, with one digest. *)
Definition Collision (l k : list bytes) : Prop :=
  exists x y, x ∈ l /\ y ∈ k /\ x <> y /\ sha256 x = sha256 y.

Lemma collision_weaken l l' k k' : l ⊆ l' -> k ⊆ k' -> Collision l k -> Collision l' k'.
Proof. intros Hl Hk (x & y & ? & ? & ? & ?). exists x, y; auto. Qed.

Lemma collision_or_equal x y l k :
  x ∈ l -> y ∈ k -> sha256 x = sha256 y -> x = y \/ Collision l k.
Proof. intros Hx Hy E. destruct (decide (x = y)); [left|right; exists x, y]; auto. Qed.

Lemma sha256_length {L : HashLaws} m : length (sha256 m) = 32%nat.
Proof. apply digest_length. Qed.
End Hash.
