(* ===== verification/Merkle.v ===== *)
(** * Merkle: RFC 9162 inclusion and consistency proofs (merkle.rs)

    First the functions of merkle.rs, then the Merkle tree they are about (the
    tree hash, audit path and consistency proof of RFC 9162 section 2.1, as
    reference definitions), then the theorems that relate the two: the honest
    proofs are accepted, and an accepted proof binds the leaf or the prefix up to
    an explicit SHA-256 collision. *)
From S2P Require Import Prelude Hash.

(** ** The verifier *)

Section Verify.
Context {H : Hash}.

(** [fn node]. *)
Definition node (l r : bytes) : bytes := sha256 ([1] ++ l ++ r).

(** [fn lsb]. *)
Definition lsb (n : Z) : bool := Z.land n 1 =? 1.

(** The loop [while !lsb(fnn) && fnn != 0 { fnn >>= 1; sn >>= 1 }]: 64 turns are
    enough for a [u64] ([skip_even_exits]). *)
Fixpoint skip_even (fuel : nat) (fnn sn : Z) : Z * Z :=
  match fuel with
  | O => (fnn, sn)
  | S fuel =>
      if negb (lsb fnn) && negb (fnn =? 0)
      then skip_even fuel (Z.shiftr fnn 1) (Z.shiftr sn 1)
      else (fnn, sn)
  end.

(** The loop [while lsb(fnn) { fnn >>= 1; sn >>= 1 }]. *)
Fixpoint skip_odd (fuel : nat) (fnn sn : Z) : Z * Z :=
  match fuel with
  | O => (fnn, sn)
  | S fuel =>
      if lsb fnn then skip_odd fuel (Z.shiftr fnn 1) (Z.shiftr sn 1) else (fnn, sn)
  end.

(** The [for p in proof] loop of [verify_inclusion]; [None] is its early [return false]. *)
Fixpoint inclusion_loop (fnn sn : Z) (r : bytes) (proof : list bytes) : option (Z * bytes) :=
  match proof with
  | [] => Some (sn, r)
  | p :: proof =>
      reject_if sn =? 0 with None;
      let '(r, (fnn, sn)) :=
        if lsb fnn || (fnn =? sn)
        then (node p r, if negb (lsb fnn) then skip_even 64 fnn sn else (fnn, sn))
        else (node r p, (fnn, sn)) in
      inclusion_loop (Z.shiftr fnn 1) (Z.shiftr sn 1) r proof
  end.

(** [fn verify_inclusion]. *)
Definition verify_inclusion (leaf_hash : bytes) (leaf_index tree_size : Z)
    (proof : list bytes) (root : bytes) : bool :=
  reject_if (tree_size <=? leaf_index) || negb (zlen leaf_hash =? 32) with false;
  let_some (sn, r) := inclusion_loop leaf_index (tree_size - 1) leaf_hash proof else false;
  (sn =? 0) && bytes_eqb r root.

(** [fn consistency_seed]: the seed and what is left of the proof iterator. *)
Definition consistency_seed (fnn : Z) (first_root : bytes) (it : list bytes)
    : option (bytes * list bytes) :=
  if negb (fnn =? 0) then
    match it with [] => None | c :: it => Some (c, it) end
  else
    reject_if negb (zlen first_root =? 32) with None;
    Some (first_root, it).

(** [fn consistency_step] on the state [(fnn, sn, fr, sr)] it updates in place;
    [None] is [false]. *)
Definition consistency_step (c : bytes) (st : Z * Z * bytes * bytes)
    : option (Z * Z * bytes * bytes) :=
  let '(fnn, sn, fr, sr) := st in
  reject_if sn =? 0 with None;
  let '(fnn, sn, fr, sr) :=
    if lsb fnn || (fnn =? sn) then
      let '(fnn', sn') := if negb (lsb fnn) then skip_even 64 fnn sn else (fnn, sn) in
      (fnn', sn', node c fr, node c sr)
    else (fnn, sn, fr, node sr c) in
  Some (Z.shiftr fnn 1, Z.shiftr sn 1, fr, sr).

(** The [for c in it] loop. *)
Fixpoint consistency_loop (st : Z * Z * bytes * bytes) (it : list bytes)
    : option (Z * Z * bytes * bytes) :=
  match it with
  | [] => Some st
  | c :: it => st ← consistency_step c st; consistency_loop st it
  end.

(** [fn verify_consistency]. *)
Definition verify_consistency (first second : Z) (first_root second_root : bytes)
    (proof : list bytes) : bool :=
  reject_if (second <? first) || (first =? 0) with false;
  reject_if first =? second with
    (match proof with [] => true | _ => false end) && bytes_eqb first_root second_root;
  let '(fnn, sn) := skip_odd 64 (first - 1) (second - 1) in
  let_some (seed, it) := consistency_seed fnn first_root proof else false;
  let_some (_, sn, fr, sr) := consistency_loop (fnn, sn, seed, seed) it else false;
  (sn =? 0) && bytes_eqb fr first_root && bytes_eqb sr second_root.
End Verify.

(** ** The tree of RFC 9162 section 2.1 *)

Section Tree.
Context {H : Hash}.

(** The largest power of two smaller than [n], for [n >= 2]. *)
Definition split_point (n : nat) : nat := 2 ^ Nat.log2 (n - 1).

(** MTH over leaf hashes, on fuel. *)
Fixpoint mth_fuel (fuel : nat) (l : list bytes) : bytes :=
  match fuel, l with
  | _, [] => sha256 []
  | _, [x] => x
  | O, _ => []
  | S fuel, _ =>
      let k := split_point (length l) in
      node (mth_fuel fuel (take k l)) (mth_fuel fuel (drop k l))
  end.
Definition mth (l : list bytes) : bytes := mth_fuel (length l) l.

(** The audit path PATH(m, D_n). *)
Fixpoint path_fuel (fuel m : nat) (l : list bytes) : list bytes :=
  match fuel, l with
  | _, [] | _, [_] | O, _ => []
  | S fuel, _ =>
      let k := split_point (length l) in
      if decide (m < k)%nat
      then path_fuel fuel m (take k l) ++ [mth (drop k l)]
      else path_fuel fuel (m - k) (drop k l) ++ [mth (take k l)]
  end.
Definition path (m : nat) (l : list bytes) : list bytes := path_fuel (length l) m l.

(** Every input hashed on the way to [mth l]. *)
Fixpoint mth_inputs_fuel (fuel : nat) (l : list bytes) : list bytes :=
  match fuel, l with
  | _, [] | _, [_] | O, _ => []
  | S fuel, _ =>
      let k := split_point (length l) in
      mth_inputs_fuel fuel (take k l) ++ mth_inputs_fuel fuel (drop k l) ++
        [[1] ++ mth (take k l) ++ mth (drop k l)]
  end.
Definition mth_inputs (l : list bytes) : list bytes := mth_inputs_fuel (length l) l.

(** SUBPROOF(m, D_n, b) and PROOF(m, D_n) of RFC 9162 section 2.1.4.1. *)
Fixpoint subproof_fuel (fuel m : nat) (l : list bytes) (b : bool) : list bytes :=
  match fuel with
  | O => []
  | S fuel =>
      if decide (m = length l) then if b then [] else [mth l]
      else
        let k := split_point (length l) in
        if decide (m <= k)%nat
        then subproof_fuel fuel m (take k l) b ++ [mth (drop k l)]
        else subproof_fuel fuel (m - k) (drop k l) false ++ [mth (take k l)]
  end.
Definition consistency_proof (m : nat) (l : list bytes) : list bytes :=
  subproof_fuel (length l) m l true.

(** Every input the inclusion verifier hashes. *)
Fixpoint inclusion_inputs (fnn sn : Z) (r : bytes) (proof : list bytes) : list bytes :=
  match proof with
  | [] => []
  | p :: proof =>
      if sn =? 0 then [] else
      if lsb fnn || (fnn =? sn) then
        let '(fnn, sn) := if negb (lsb fnn) then skip_even 64 fnn sn else (fnn, sn) in
        ([1] ++ p ++ r) :: inclusion_inputs (Z.shiftr fnn 1) (Z.shiftr sn 1) (node p r) proof
      else ([1] ++ r ++ p) :: inclusion_inputs (Z.shiftr fnn 1) (Z.shiftr sn 1) (node r p) proof
  end.

(** Every input the consistency verifier hashes for the second root. *)
Definition consistency_inputs (first second : Z) (first_root : bytes) (proof : list bytes)
    : list bytes :=
  let '(fnn, sn) := skip_odd 64 (first - 1) (second - 1) in
  match consistency_seed fnn first_root proof with
  | Some (seed, it) => inclusion_inputs fnn sn seed it
  | None => []
  end.
End Tree.

(** ** Index arithmetic *)

Lemma lsb_odd n : lsb n = Z.odd n.
Proof.
  unfold lsb. change 1 with (Z.ones 1) at 1. rewrite Z.land_ones by lia.
  change (2 ^ 1) with 2. rewrite Zmod_odd. destruct (Z.odd n); reflexivity.
Qed.
Lemma shr1 n : Z.shiftr n 1 = n / 2.
Proof. rewrite Z.shiftr_div_pow2 by lia. reflexivity. Qed.
#[local] Hint Rewrite lsb_odd shr1 : rust.

Lemma odd_half n : Z.odd n = true -> n = 2 * (n / 2) + 1.
Proof. intros H. rewrite (Z.div_mod n 2) at 1 by lia. rewrite Zmod_odd, H. lia. Qed.
Lemma even_half n : Z.odd n = false -> n = 2 * (n / 2).
Proof. intros H. rewrite (Z.div_mod n 2) at 1 by lia. rewrite Zmod_odd, H. lia. Qed.

Lemma skip_even_enough k j f s :
  0 <= f < 2 ^ Z.of_nat k -> skip_even (k + j) f s = skip_even k f s.
Proof.
  revert f s; induction k as [|k IH]; intros f s Hf.
  - change (2 ^ Z.of_nat 0) with 1 in Hf. assert (f = 0) as -> by lia. destruct j; reflexivity.
  - cbn [Nat.add skip_even]. destruct (_ && _); [|reflexivity].
    autorewrite with rust. apply IH. rewrite Nat2Z.inj_succ, Z.pow_succ_r in Hf by lia. 
    split; [apply Z.div_pos; lia | apply Z.div_lt_upper_bound; lia].
Qed.

(** The loop [while !lsb(fnn) && fnn != 0] has ended within 64 turns of a [u64]. *)
Lemma skip_even_exits k f s :
  0 <= f < 2 ^ Z.of_nat k ->
  let f' := (skip_even k f s).1 in lsb f' = true \/ f' = 0.
Proof.
  revert f s; induction k as [|k IH]; intros f s Hf; cbn [skip_even].
  - change (2 ^ Z.of_nat 0) with 1 in Hf. right; cbn; lia.
  - destruct (lsb f) eqn:E; cbn; [auto|]. destruct (Z.eqb_spec f 0); cbn; [auto|].
    rewrite !shr1. apply IH. rewrite Nat2Z.inj_succ, Z.pow_succ_r in Hf by lia.
    split; [apply Z.div_pos; lia | apply Z.div_lt_upper_bound; lia].
Qed.

Lemma skip_odd_exits k f s :
  0 <= f < 2 ^ Z.of_nat k -> lsb (skip_odd k f s).1 = false.
Proof.
  revert f s; induction k as [|k IH]; intros f s Hf; cbn [skip_odd].
  - change (2 ^ Z.of_nat 0) with 1 in Hf. assert (f = 0) as -> by lia. reflexivity.
  - destruct (lsb f) eqn:E; cbn; [|auto].
    rewrite !shr1. apply IH. rewrite Nat2Z.inj_succ, Z.pow_succ_r in Hf by lia.
    split; [apply Z.div_pos; lia | apply Z.div_lt_upper_bound; lia].
Qed.

(** At an even position that is the last of its level the code skips levels
    together; one skip at a time is the same. *)
Lemma skip_even_step f s :
  0 < f <= U64_MAX -> Z.odd f = false -> skip_even 64 f s = skip_even 64 (f / 2) (s / 2).
Proof.
  intros Hf He. transitivity (skip_even 63 (f / 2) (s / 2)).
  - change (skip_even 64 f s) with
      (if negb (lsb f) && negb (f =? 0)
       then skip_even 63 (Z.shiftr f 1) (Z.shiftr s 1) else (f, s)).
    autorewrite with rust. rewrite He. destruct (Z.eqb_spec f 0); [lia|]. reflexivity.
  - symmetry. apply (skip_even_enough 63 1). unfold U64_MAX in Hf.
    split; [apply Z.div_pos; lia | apply Z.div_lt_upper_bound; lia].
Qed.
Lemma skip_even_odd f s : Z.odd f = true -> skip_even 64 f s = (f, s).
Proof. intros E. cbn. rewrite lsb_odd, E. reflexivity. Qed.

(** ** The tree by levels

    One level up: adjacent hashes are paired, a last hash without a partner is
    promoted.  The tree hash is unchanged ([mth_level_up]), which is how the
    bottom-up loops of the verifier meet the top-down tree of the RFC. *)
Section Levels.
Context {H : Hash}.

Fixpoint level_up (l : list bytes) : list bytes :=
  match l with
  | a :: b :: t => node a b :: level_up t
  | l => l
  end.

Lemma pair_ind (P : list bytes -> Prop) :
  P [] -> (forall x, P [x]) -> (forall a b t, P t -> P (a :: b :: t)) -> forall l, P l.
Proof.
  intros H0 H1 H2. fix F 1. intros [|a [|b t]]; [exact H0 | exact (H1 a) | exact (H2 a b t (F t))].
Qed.

Lemma level_up_app l k :
  Nat.Even (length l) -> level_up (l ++ k) = level_up l ++ level_up k.
Proof.
  induction l as [|x|a b t IH] using pair_ind; cbn; intros E; [done| |].
  - destruct E; lia.
  - rewrite IH; [done|]. destruct E as [m E]. exists (m - 1)%nat. lia.
Qed.

Lemma length_level_up l : length (level_up l) = (S (length l) / 2)%nat.
Proof.
  induction l as [|x|a b t IH] using pair_ind; [done..|].
  cbn [level_up length]. rewrite IH.
  replace (S (S (S (length t)))) with (S (length t) + 1 * 2)%nat by lia.
  rewrite Nat.div_add by lia. lia.
Qed.

(** Entry [i] of the next level. *)
Lemma level_up_pair i l a b :
  l !! (2 * i)%nat = Some a -> l !! (2 * i + 1)%nat = Some b ->
  level_up l !! i = Some (node a b).
Proof.
  revert i; induction l as [|x|u v t IH] using pair_ind; intros i Ha Hb.
  - done.
  - rewrite Nat.add_1_r in Hb. done.
  - destruct i as [|i]; cbn.
    + cbn in Ha, Hb. congruence.
    + replace (2 * S i)%nat with (S (S (2 * i))) in * by lia. cbn in Ha, Hb. auto.
Qed.
Lemma level_up_last i l a :
  l !! (2 * i)%nat = Some a -> length l = (2 * i + 1)%nat -> level_up l !! i = Some a.
Proof.
  revert i; induction l as [|x|u v t IH] using pair_ind; intros i Ha Hl; cbn in Hl.
  - lia.
  - assert (i = 0)%nat as -> by lia. exact Ha.
  - destruct i as [|i]; [lia|].
    replace (2 * S i)%nat with (S (S (2 * i))) in * by lia. cbn in Ha |- *. apply IH; [auto|lia].
Qed.
Lemma level_up_take i l :
  (2 * i <= length l)%nat -> take i (level_up l) = level_up (take (2 * i) l).
Proof.
  revert l; induction i as [|i IH]; intros l Hl; [done|].
  destruct l as [|a [|b t]]; cbn in Hl; try lia.
  replace (2 * S i)%nat with (S (S (2 * i))) by lia. cbn. f_equal. apply IH. lia.
Qed.

Lemma level_up_short l : (2 <= length l)%nat -> (length (level_up l) < length l)%nat.
Proof.
  intros Hl. rewrite length_level_up. apply Nat.Div0.div_lt_upper_bound; lia.
Qed.

(** *** Split points *)

Lemma split_point_bounds n : (2 <= n)%nat -> (1 <= split_point n < n)%nat /\ (n <= 2 * split_point n)%nat.
Proof.
  intros Hn. unfold split_point. pose proof (Nat.log2_spec (n - 1) ltac:(lia)) as [H1 H2].
  rewrite Nat.pow_succ_r' in H2. pose proof (Nat.pow_nonzero 2 (Nat.log2 (n - 1))). lia.
Qed.
Lemma split_point_even n : (3 <= n)%nat -> Nat.Even (split_point n).
Proof.
  intros Hn. unfold split_point. assert (1 <= Nat.log2 (n - 1))%nat as Hl.
  { change 1%nat with (Nat.log2 2) at 1. apply Nat.log2_le_mono. lia. }
  destruct (Nat.log2 (n - 1)) as [|m]; [lia|]. exists (2 ^ m)%nat. apply Nat.pow_succ_r'.
Qed.
Lemma split_point_unique n k :
  (1 <= n)%nat -> (2 ^ k < n <= 2 * 2 ^ k)%nat -> split_point n = (2 ^ k)%nat.
Proof.
  intros Hn Hk. unfold split_point. f_equal. apply Nat.log2_unique; rewrite ?Nat.pow_succ_r'; lia.
Qed.
Lemma split_point_half n :
  (3 <= n)%nat -> split_point n = (2 * split_point (S n / 2))%nat.
Proof.
  intros Hn. pose proof (split_point_bounds n ltac:(lia)) as Hb.
  unfold split_point in Hb. assert (1 <= Nat.log2 (n - 1))%nat as Hl.
  { change 1%nat with (Nat.log2 2) at 1. apply Nat.log2_le_mono. lia. }
  destruct (Nat.log2 (n - 1)) as [|m] eqn:E; [lia|].
  pose proof (Nat.div_mod_eq (S n) 2). pose proof (Nat.mod_upper_bound (S n) 2).
  unfold split_point at 1. rewrite E. rewrite Nat.pow_succ_r' in *.
  rewrite (split_point_unique _ m); lia.
Qed.

(** *** Fuel *)

Lemma mth_fuel_enough f l : (length l <= f)%nat -> mth_fuel f l = mth l.
Proof.
  unfold mth. remember (length l) as n eqn:En. revert f l En.
  induction (lt_wf n) as [n _ IH]; intros f l En Hf.
  destruct l as [|x [|y t]]; cbn in En.
  - subst; destruct f; done.
  - subst; destruct f; done.
  - destruct f as [|f]; [lia|]. destruct n as [|n]; [lia|]. cbn [mth_fuel].
    set (l := x :: y :: t) in *. assert (length l = S n) as Hl by (subst l; cbn; lia).
    pose proof (split_point_bounds (length l) ltac:(lia)) as [? ?].
    assert (length (take (split_point (length l)) l) = split_point (length l)) as Ht
      by (rewrite length_take; lia).
    pose proof (length_drop l (split_point (length l))) as Hd.
    f_equal; match goal with |- mth_fuel f ?k = _ =>
      rewrite (IH (length k) ltac:(lia) f k eq_refl), (IH (length k) ltac:(lia) n k eq_refl) by lia
    end; reflexivity.
Qed.

Lemma mth_split l :
  (2 <= length l)%nat ->
  mth l = node (mth (take (split_point (length l)) l)) (mth (drop (split_point (length l)) l)).
Proof.
  intros Hl. pose proof (split_point_bounds _ Hl) as [? ?].
  unfold mth at 1. destruct (length l) as [|n] eqn:En; [lia|].
  destruct l as [|x [|y t]]; cbn in En; try lia. cbn [mth_fuel].
  set (l := x :: y :: t) in *. assert (length l = S n) as Hln by (subst l; cbn; lia).
  rewrite Hln. rewrite !mth_fuel_enough; [done | rewrite length_drop; lia | rewrite length_take; lia].
Qed.

Lemma mth_singleton x : mth [x] = x.
Proof. reflexivity. Qed.

(** One level up, a tree of at least three leaves splits where it split before. *)
Lemma level_up_split l :
  (3 <= length l)%nat ->
  let k := split_point (length l) in
  let k' := split_point (length (level_up l)) in
  k = (2 * k')%nat /\
  take k' (level_up l) = level_up (take k l) /\
  drop k' (level_up l) = level_up (drop k l).
Proof.
  intros Hl k k'. assert (k = (2 * k')%nat) as Hk.
  { unfold k, k'. rewrite length_level_up. apply split_point_half; lia. }
  split; [done|]. pose proof (split_point_bounds (length l) ltac:(lia)) as [? ?].
  fold k in H0, H1. split.
  - rewrite Hk. apply level_up_take. lia.
  - assert (length (take k l) = k) as Ht by (rewrite length_take; lia).
    rewrite <- (take_drop k l) at 1.
    rewrite level_up_app by (rewrite Ht, Hk; exists k'; lia).
    apply drop_app_length'. rewrite length_level_up, Ht, Hk.
    replace (S (2 * k')) with (1 + k' * 2)%nat by lia. rewrite Nat.div_add by lia. reflexivity.
Qed.

(** Induction over a tree by its splits, knowing how each split looks one level up. *)
Lemma split_ind (P : list bytes -> Prop) :
  (forall x, P [x]) -> (forall x y, P [x; y]) ->
  (forall l, (3 <= length l)%nat ->
     P (take (split_point (length l)) l) -> P (drop (split_point (length l)) l) -> P l) ->
  forall l, (1 <= length l)%nat -> P l.
Proof.
  intros H1 H2 H3 l. remember (length l) as n eqn:En. revert l En.
  induction (lt_wf n) as [n _ IH]; intros l En Hn.
  destruct (decide (3 <= n)%nat) as [Hbig|Hsmall].
  - subst n. pose proof (split_point_bounds (length l) ltac:(lia)) as [? ?].
    apply H3; [lia| |].
    + eapply IH; [|reflexivity|]; rewrite length_take; lia.
    + eapply IH; [|reflexivity|]; rewrite length_drop; lia.
  - destruct l as [|x [|y [|]]]; cbn in En; try lia; auto.
Qed.

Lemma split_lengths (l : list bytes) :
  (2 <= length l)%nat ->
  let k := split_point (length l) in
  length (take k l) = k /\ length (drop k l) = (length l - k)%nat /\ (1 <= k < length l)%nat.
Proof.
  intros Hl k. pose proof (split_point_bounds _ Hl). unfold k.
  rewrite length_take, length_drop. lia.
Qed.

Lemma length_level_up_ge2 l : (3 <= length l)%nat -> (2 <= length (level_up l))%nat.
Proof. intros. rewrite length_level_up. change 2%nat with (4 / 2)%nat at 1. apply Nat.Div0.div_le_mono; lia. Qed.

(** The level-by-level root is the RFC tree hash. *)
Lemma mth_level_up l : (1 <= length l)%nat -> mth (level_up l) = mth l.
Proof.
  revert l. apply split_ind; [done|done|].
  intros l Hl IHa IHb. destruct (level_up_split l Hl) as (Hk & Ha & Hb).
  rewrite (mth_split l) by lia. rewrite <- IHa, <- IHb, <- Ha, <- Hb. apply mth_split.
  auto using length_level_up_ge2.
Qed.

Lemma path_fuel_enough f m l : (length l <= f)%nat -> path_fuel f m l = path m l.
Proof.
  unfold path. remember (length l) as n eqn:En. revert f m l En.
  induction (lt_wf n) as [n _ IH]; intros f m l En Hf.
  destruct l as [|x [|y t]]; cbn in En; [subst; destruct f; done..|].
  destruct f as [|f]; [lia|]. destruct n as [|n]; [lia|]. cbn [path_fuel].
  set (l := x :: y :: t) in *. destruct (split_lengths l) as (Ha & Hb & ?); [subst l; cbn; lia|].
  assert (length l = S n) by (subst l; cbn; lia).
  destruct (decide _); f_equal; match goal with |- path_fuel f ?i ?k = _ =>
    rewrite (IH (length k) ltac:(lia) f i k eq_refl), (IH (length k) ltac:(lia) n i k eq_refl) by lia
  end; reflexivity.
Qed.
Lemma path_split m l :
  (2 <= length l)%nat ->
  path m l = let k := split_point (length l) in
    if decide (m < k)%nat then path m (take k l) ++ [mth (drop k l)]
    else path (m - k) (drop k l) ++ [mth (take k l)].
Proof.
  intros Hl. destruct (split_lengths l Hl) as (Ha & Hb & ?).
  unfold path at 1. destruct (length l) as [|n] eqn:En; [lia|].
  destruct l as [|x [|y t]]; cbn in En; try lia. cbn [path_fuel].
  set (l := x :: y :: t) in *. replace (length l) with (S n) in * by (subst l; cbn; lia).
  destruct (decide _); rewrite path_fuel_enough by lia; reflexivity.
Qed.

(** The sibling of position [m] on its level, when it has one. *)
Definition sibling (m : nat) (l : list bytes) : list bytes :=
  match if Nat.even m then l !! S m else l !! (m - 1)%nat with Some x => [x] | None => [] end.

(** The audit path, level by level. *)
Lemma path_level_up l :
  (1 <= length l)%nat -> forall m, (2 <= length l)%nat -> (m < length l)%nat ->
  path m l = sibling m l ++ path (m / 2) (level_up l).
Proof.
  revert l. apply (split_ind (fun l => forall m, (2 <= length l)%nat -> (m < length l)%nat ->
    path m l = sibling m l ++ path (m / 2) (level_up l))).
  - cbn; lia.
  - intros x y m _ Hm. destruct m as [|[|]]; [reflexivity..|cbn in Hm; lia].
  - intros l Hl IHa IHb m _ Hm. destruct (level_up_split l Hl) as (Hk & Ha & Hb).
    destruct (split_lengths l) as (La & Lb & Hb2); [lia|].
    rewrite (path_split m l), (path_split (m / 2)) by (auto using length_level_up_ge2 with lia).
    cbv zeta. rewrite Ha, Hb, !mth_level_up by lia.
    set (k := split_point (length l)) in *. set (k' := split_point (length (level_up l))) in *.
    pose proof (Nat.div_mod_eq m 2) as Hdm. pose proof (Nat.mod_upper_bound m 2).
    destruct (decide (m < k)%nat) as [Hlt|Hge]; destruct (decide (m / 2 < k')%nat); try lia.
    + rewrite IHa by lia. rewrite <- app_assoc. f_equal. unfold sibling.
      destruct (Nat.even m) eqn:Ev.
      * apply Nat.even_spec in Ev as [j ->]. rewrite lookup_take_lt by lia. done.
      * rewrite lookup_take_lt by lia. done.
    + replace (m / 2 - k')%nat with ((m - k) / 2)%nat
        by (pose proof (Nat.div_mod_eq (m - k) 2); pose proof (Nat.mod_upper_bound (m - k) 2); lia).
      assert (sibling (m - k) (drop k l) = sibling m l) as Hs.
      { unfold sibling. rewrite Nat.even_sub, Hk, Nat.even_even by lia.
        rewrite !lookup_drop. destruct (Nat.even m) eqn:Ev; cbn [Bool.eqb].
        - match goal with |- context [l !! ?i] => replace i with (S m) by lia end. done.
        - rewrite <- Nat.negb_odd in Ev. apply negb_false_iff, Nat.odd_spec in Ev as [j ->].
          match goal with |- context [l !! ?i] => replace i with (2 * j + 1 - 1)%nat by lia end.
          done. }
      destruct (decide (2 <= length (drop k l))%nat) as [Hd|Hd].
      * rewrite IHb by lia. rewrite <- app_assoc, Hs. done.
      * assert (m - k = 0)%nat as Hz by lia. rewrite Hz in *. cbn [Nat.div Nat.divmod fst Nat.sub].
        rewrite <- Hs. destruct (drop k l) as [|x [|]] eqn:Ed; cbn in Lb, Hd; try lia. reflexivity.
Qed.
End Levels.

(** ** One turn of the loops *)
Section Steps.
Context {H : Hash}.

Lemma inclusion_loop_odd f s r p rest :
  s <> 0 -> Z.odd f = true ->
  inclusion_loop f s r (p :: rest) = inclusion_loop (f / 2) (s / 2) (node p r) rest.
Proof.
  intros Hs Hf. cbn [inclusion_loop]. rewrite lsb_odd, Hf. cbn [orb negb].
  destruct (Z.eqb_spec s 0); [done|]. rewrite !shr1. done.
Qed.
Lemma inclusion_loop_even f s r p rest :
  s <> 0 -> Z.odd f = false -> f <> s ->
  inclusion_loop f s r (p :: rest) = inclusion_loop (f / 2) (s / 2) (node r p) rest.
Proof.
  intros Hs Hf Hfs. cbn [inclusion_loop]. rewrite lsb_odd, Hf. cbn [orb negb].
  destruct (Z.eqb_spec s 0), (Z.eqb_spec f s); try done. rewrite !shr1. done.
Qed.
Lemma inclusion_loop_lone s r p rest :
  0 < s <= U64_MAX -> Z.odd s = false ->
  inclusion_loop s s r (p :: rest) = inclusion_loop (s / 2) (s / 2) r (p :: rest).
Proof.
  intros Hs He. pose proof (even_half s He). cbn [inclusion_loop].
  destruct (Z.eqb_spec s 0); [lia|]. destruct (Z.eqb_spec (s / 2) 0); [lia|].
  rewrite !lsb_odd, He, !Z.eqb_refl, orb_true_r, orb_true_r. cbn [negb].
  rewrite skip_even_step by done. destruct (Z.odd (s / 2)) eqn:Eo; cbn [negb]; [|done].
  rewrite skip_even_odd by done. done.
Qed.

Lemma inclusion_inputs_odd f s r p rest :
  s <> 0 -> Z.odd f = true ->
  inclusion_inputs f s r (p :: rest) =
    ([1] ++ p ++ r) :: inclusion_inputs (f / 2) (s / 2) (node p r) rest.
Proof.
  intros Hs Hf. cbn [inclusion_inputs]. rewrite lsb_odd, Hf. cbn [orb negb].
  destruct (Z.eqb_spec s 0); [done|]. rewrite !shr1. done.
Qed.
Lemma inclusion_inputs_even f s r p rest :
  s <> 0 -> Z.odd f = false -> f <> s ->
  inclusion_inputs f s r (p :: rest) =
    ([1] ++ r ++ p) :: inclusion_inputs (f / 2) (s / 2) (node r p) rest.
Proof.
  intros Hs Hf Hfs. cbn [inclusion_inputs]. rewrite lsb_odd, Hf. cbn [orb negb].
  destruct (Z.eqb_spec s 0), (Z.eqb_spec f s); try done. rewrite !shr1. done.
Qed.
Lemma inclusion_inputs_lone s r p rest :
  0 < s <= U64_MAX -> Z.odd s = false ->
  inclusion_inputs s s r (p :: rest) = inclusion_inputs (s / 2) (s / 2) r (p :: rest).
Proof.
  intros Hs He. pose proof (even_half s He). cbn [inclusion_inputs].
  destruct (Z.eqb_spec s 0); [lia|]. destruct (Z.eqb_spec (s / 2) 0); [lia|].
  rewrite !lsb_odd, He, !Z.eqb_refl, orb_true_r, orb_true_r. cbn [negb].
  rewrite skip_even_step by done. destruct (Z.odd (s / 2)) eqn:Eo; cbn [negb]; [|done].
  rewrite skip_even_odd by done. done.
Qed.

Lemma consistency_step_odd f s fr sr c :
  s <> 0 -> Z.odd f = true ->
  consistency_step c (f, s, fr, sr) = Some (f / 2, s / 2, node c fr, node c sr).
Proof.
  intros Hs Hf. unfold consistency_step. rewrite lsb_odd, Hf. cbn [orb negb].
  destruct (Z.eqb_spec s 0); [done|]. rewrite !shr1. done.
Qed.
Lemma consistency_step_even f s fr sr c :
  s <> 0 -> Z.odd f = false -> f <> s ->
  consistency_step c (f, s, fr, sr) = Some (f / 2, s / 2, fr, node sr c).
Proof.
  intros Hs Hf Hfs. unfold consistency_step. rewrite lsb_odd, Hf. cbn [orb negb].
  destruct (Z.eqb_spec s 0), (Z.eqb_spec f s); try done. rewrite !shr1. done.
Qed.
Lemma consistency_step_lone s fr sr c :
  0 < s <= U64_MAX -> Z.odd s = false ->
  consistency_step c (s, s, fr, sr) = consistency_step c (s / 2, s / 2, fr, sr).
Proof.
  intros Hs He. pose proof (even_half s He). unfold consistency_step.
  destruct (Z.eqb_spec s 0); [lia|]. destruct (Z.eqb_spec (s / 2) 0); [lia|].
  rewrite !lsb_odd, He, !Z.eqb_refl, orb_true_r, orb_true_r. cbn [negb].
  rewrite skip_even_step by done. destruct (Z.odd (s / 2)) eqn:Eo; cbn [negb]; [|done].
  rewrite skip_even_odd by done. done.
Qed.

(** *** Levels by [Z] position *)

Lemma level_entry_odd l (f : nat) a b :
  Nat.odd f = true -> l !! (f - 1)%nat = Some a -> l !! f = Some b ->
  level_up l !! (f / 2)%nat = Some (node a b).
Proof.
  intros Ho Ha Hb. apply Nat.odd_spec in Ho as [j ->].
  replace ((2 * j + 1) / 2)%nat with j by (pose proof (Nat.div_mod_eq (2 * j + 1) 2);
    pose proof (Nat.mod_upper_bound (2 * j + 1) 2); lia).
  apply level_up_pair; [|done]. rewrite <- Ha. f_equal. lia.
Qed.
Lemma level_entry_even l (f : nat) a b :
  Nat.even f = true -> l !! f = Some a -> l !! (S f) = Some b ->
  level_up l !! (f / 2)%nat = Some (node a b).
Proof.
  intros Ho Ha Hb. apply Nat.even_spec in Ho as [j ->].
  rewrite Nat.mul_comm, Nat.div_mul by lia. apply level_up_pair; [done|].
  rewrite <- Hb. f_equal. lia.
Qed.
Lemma level_entry_lone l (f : nat) a :
  Nat.even f = true -> l !! f = Some a -> length l = S f ->
  level_up l !! (f / 2)%nat = Some a.
Proof.
  intros Ho Ha Hl. apply Nat.even_spec in Ho as [j ->].
  rewrite Nat.mul_comm, Nat.div_mul by lia. apply level_up_last; [done|lia].
Qed.

Lemma even_Z (f : nat) : Z.odd (Z.of_nat f) = negb (Nat.even f).
Proof.
  destruct (Nat.even f) eqn:E.
  - apply Nat.even_spec in E as [j ->]. rewrite Nat2Z.inj_mul, Z.odd_mul. done.
  - rewrite <- Nat.negb_odd, negb_false_iff in E. apply Nat.odd_spec in E as [j ->].
    rewrite Nat2Z.inj_add, Nat2Z.inj_mul, Z.odd_add, Z.odd_mul. done.
Qed.
Lemma half_Z (f : nat) : Z.of_nat f / 2 = Z.of_nat (f / 2).
Proof. rewrite Nat2Z.inj_div. done. Qed.
Lemma last_level_up (l : list bytes) :
  (1 <= length l)%nat -> Z.of_nat (length l - 1) / 2 = Z.of_nat (length (level_up l) - 1).
Proof.
  intros Hl. rewrite half_Z, length_level_up. f_equal.
  pose proof (Nat.div_mod_eq (length l - 1) 2). pose proof (Nat.mod_upper_bound (length l - 1) 2).
  pose proof (Nat.div_mod_eq (S (length l)) 2). pose proof (Nat.mod_upper_bound (S (length l)) 2). lia.
Qed.
Lemma half_bound f (l : list bytes) :
  (f < length l)%nat -> (f / 2 < length (level_up l))%nat.
Proof.
  intros Hl. rewrite length_level_up. 
  pose proof (Nat.div_mod_eq f 2). pose proof (Nat.mod_upper_bound f 2).
  pose proof (Nat.div_mod_eq (S (length l)) 2). pose proof (Nat.mod_upper_bound (S (length l)) 2). lia.
Qed.
End Steps.

(** ** The inputs hashed in a tree *)
Section Inputs.
Context {H : Hash}.

Lemma mth_inputs_fuel_enough f l : (length l <= f)%nat -> mth_inputs_fuel f l = mth_inputs l.
Proof.
  unfold mth_inputs. remember (length l) as n eqn:En. revert f l En.
  induction (lt_wf n) as [n _ IH]; intros f l En Hf.
  destruct l as [|x [|y t]]; cbn in En; [subst; destruct f; done..|].
  destruct f as [|f]; [lia|]. destruct n as [|n]; [lia|]. cbn [mth_inputs_fuel].
  set (l := x :: y :: t) in *. destruct (split_lengths l) as (Ha & Hb & ?); [subst l; cbn; lia|].
  assert (length l = S n) by (subst l; cbn; lia).
  f_equal; [|f_equal]; match goal with |- mth_inputs_fuel f ?k = _ =>
    rewrite (IH (length k) ltac:(lia) f k eq_refl), (IH (length k) ltac:(lia) n k eq_refl) by lia
  end; reflexivity.
Qed.
Lemma mth_inputs_split l :
  (2 <= length l)%nat ->
  mth_inputs l = let k := split_point (length l) in
    mth_inputs (take k l) ++ mth_inputs (drop k l) ++ [[1] ++ mth (take k l) ++ mth (drop k l)].
Proof.
  intros Hl. destruct (split_lengths l Hl) as (Ha & Hb & ?).
  unfold mth_inputs at 1. destruct (length l) as [|n] eqn:En; [lia|].
  destruct l as [|x [|y t]]; cbn in En; try lia. cbn [mth_inputs_fuel].
  set (l := x :: y :: t) in *. replace (length l) with (S n) in * by (subst l; cbn; lia).
  rewrite !mth_inputs_fuel_enough by lia. reflexivity.
Qed.

(** A pair of neighbours is hashed. *)
Lemma mth_inputs_pair l :
  (1 <= length l)%nat -> forall i a b,
  l !! (2 * i)%nat = Some a -> l !! (2 * i + 1)%nat = Some b -> [1] ++ a ++ b ∈ mth_inputs l.
Proof.
  revert l. apply (split_ind (fun l => forall i a b,
    l !! (2 * i)%nat = Some a -> l !! (2 * i + 1)%nat = Some b -> [1] ++ a ++ b ∈ mth_inputs l)).
  - intros x i a b _ Hb. rewrite Nat.add_1_r in Hb. done.
  - intros x y i a b Ha Hb. destruct i as [|i].
    + cbn in Ha, Hb. simplify_eq. apply list_elem_of_here.
    + replace (2 * S i)%nat with (S (S (2 * i))) in Ha by lia. done.
  - intros l Hl IHa IHb i a b Ha Hb. destruct (level_up_split l Hl) as (Hk & _ & _).
    rewrite mth_inputs_split by lia. cbv zeta. set (k := split_point (length l)) in *.
    destruct (decide (2 * i < k)%nat).
    + apply elem_of_app; left. apply (IHa i); rewrite lookup_take_lt by lia; assumption.
    + apply elem_of_app; right; apply elem_of_app; left.
      apply (IHb (i - split_point (length (level_up l)))%nat); rewrite lookup_drop;
        [rewrite <- Ha | rewrite <- Hb]; f_equal; lia.
Qed.

(** The inputs of the next level are inputs of the tree. *)
Lemma mth_inputs_level_up l :
  (1 <= length l)%nat -> mth_inputs (level_up l) ⊆ mth_inputs l.
Proof.
  revert l. apply (split_ind (fun l => mth_inputs (level_up l) ⊆ mth_inputs l)).
  - done.
  - intros x y z Hz. apply not_elem_of_nil in Hz; done.
  - intros l Hl IHa IHb. destruct (level_up_split l Hl) as (Hk & Ha & Hb).
    destruct (split_lengths l) as (La & Lb & ?); [lia|].
    rewrite (mth_inputs_split l), mth_inputs_split by (auto using length_level_up_ge2 with lia).
    cbv zeta. rewrite Ha, Hb, !mth_level_up by lia. set_solver.
Qed.

Definition is_hash (b : bytes) : Prop := length b = 32%nat.

Lemma node_is_hash {L : HashLaws} a b : is_hash (node a b).
Proof. apply sha256_length. Qed.
Lemma level_up_hashes {L : HashLaws} l : Forall is_hash l -> Forall is_hash (level_up l).
Proof.
  induction l as [|x|a b t IH] using pair_ind; intros Hl; [done|done|].
  cbn. inversion Hl as [|? ? _ Hl']; inversion Hl'. constructor; auto using node_is_hash.
Qed.
Lemma mth_is_hash {L : HashLaws} l : (1 <= length l)%nat -> Forall is_hash l -> is_hash (mth l).
Proof.
  intros Hl Hf. destruct (decide (2 <= length l)%nat) as [H2|H2].
  - rewrite mth_split by done. apply node_is_hash.
  - destruct l as [|x [|]]; cbn in Hl, H2; try lia. inversion Hf; done.
Qed.
Lemma node_input_inj (a b c d : bytes) :
  is_hash a -> is_hash c -> [1] ++ a ++ b = [1] ++ c ++ d -> a = c /\ b = d.
Proof.
  unfold is_hash. intros Ha Hc E. injection E as E.
  apply app_inj_1 in E; [done|congruence].
Qed.

(** Equal nodes have equal children, or exhibit a collision. *)
Lemma node_eq_or_collision a b c d l k :
  is_hash a -> is_hash c -> node a b = node c d ->
  [1] ++ a ++ b ∈ l -> [1] ++ c ++ d ∈ k -> (a = c /\ b = d) \/ Collision l k.
Proof.
  intros Ha Hc E Hl Hk. destruct (collision_or_equal _ _ _ _ Hl Hk E) as [Ei|]; [left|right; done].
  by apply node_input_inj in Ei.
Qed.
End Inputs.

(** ** Inclusion proofs *)
Section Inclusion.
Context {H : Hash}.

Lemma inclusion_loop_complete l : 
  (1 <= length l)%nat -> zlen l <= U64_MAX -> forall m r, l !! m = Some r ->
  inclusion_loop (Z.of_nat m) (Z.of_nat (length l - 1)) r (path m l) = Some (0, mth l).
Proof.
  remember (length l) as n eqn:En. revert l En.
  induction (lt_wf n) as [n _ IH]; intros l En Hn Hmax m r Hr.
  pose proof (lookup_lt_Some _ _ _ Hr) as Hm. unfold zlen in Hmax.
  destruct (decide (2 <= n)%nat) as [H2|H2]; cycle 1.
  { destruct l as [|x [|]]; cbn in En, Hm; try lia. subst n.
    destruct m; [|lia]. cbn in Hr. injection Hr as ->. done. }
  pose proof (level_up_short l ltac:(lia)) as Hshort. pose proof (half_bound m l ltac:(lia)) as Hhalf.
  assert (forall r', level_up l !! (m / 2)%nat = Some r' ->
    inclusion_loop (Z.of_nat m / 2) (Z.of_nat (n - 1) / 2) r' (path (m / 2) (level_up l))
      = Some (0, mth l)) as Hup.
  { intros r' Hr'. subst n. rewrite last_level_up, half_Z, <- (mth_level_up l) by lia.
    eapply IH; [|reflexivity| | |done]; unfold zlen; lia. }
  rewrite path_level_up by lia. unfold sibling.
  destruct (Nat.even m) eqn:Ev.
  - destruct (l !! S m) as [b|] eqn:Eb; cbn [app].
    + pose proof (lookup_lt_Some _ _ _ Eb).
      rewrite inclusion_loop_even by (rewrite ?even_Z, ?Ev; try done; lia).
      apply Hup. by apply level_entry_even.
    + apply lookup_ge_None in Eb. assert (m = n - 1)%nat as Hlast by lia.
      specialize (Hup r (level_entry_lone _ _ _ Ev Hr ltac:(lia))).
      rewrite Hlast in *. destruct (path _ (level_up l)) as [|p t] eqn:Ep.
      * cbn in Hup. injection Hup as Hz _.
        pose proof (even_half (Z.of_nat (n - 1)) ltac:(rewrite even_Z, Ev; done)). lia.
      * rewrite inclusion_loop_lone; [done|lia|]. rewrite even_Z, Ev. done.
  - assert (m <> 0)%nat by (intros ->; done).
    destruct (l !! (m - 1)%nat) as [a|] eqn:Ea; [|apply lookup_ge_None in Ea; lia].
    cbn [app]. rewrite inclusion_loop_odd by (rewrite ?even_Z, ?Ev; try done; lia).
    apply Hup. apply level_entry_odd; [|done|done]. rewrite <- Nat.negb_even, Ev. done.
Qed.

(** What an accepted proof binds: the entry it starts from and the very audit
    path, or else an explicit collision. *)
Definition bound (l : list bytes) (m : nat) (r : bytes) (proof k : list bytes) : Prop :=
  (l !! m = Some r /\ proof = path m l) \/ Collision (mth_inputs l) k.

Lemma bound_collision l k k' m r proof :
  (1 <= length l)%nat -> Collision (mth_inputs (level_up l)) k -> k ⊆ k' -> bound l m r proof k'.
Proof.
  intros Hl Hc Hk. right. eapply collision_weaken; [apply mth_inputs_level_up|..]; eauto.
Qed.

Lemma bound_lone l m r proof k :
  Nat.even m = true -> length l = S m -> (2 <= length l)%nat ->
  bound (level_up l) (m / 2) r proof k -> bound l m r proof k.
Proof.
  intros Ev Hl H2 [[Hr ->]|Hc]; [left|by eapply bound_collision; eauto with lia].
  destruct (lookup_lt_is_Some_2 l m ltac:(lia)) as [x Hx].
  rewrite (level_entry_lone _ _ _ Ev Hx Hl) in Hr. split; [congruence|].
  rewrite (path_level_up l) by lia. unfold sibling. rewrite Ev, (lookup_ge_None_2 l (S m)); [done|lia].
Qed.

Lemma bound_even {L : HashLaws} l m r p rest k :
  Forall is_hash l -> is_hash r -> is_hash p -> Nat.even m = true -> (S m < length l)%nat ->
  bound (level_up l) (m / 2) (node r p) rest k ->
  bound l m r (p :: rest) (([1] ++ r ++ p) :: k).
Proof.
  intros Hh Hr Hp Ev Hl [[He ->]|Hc]; [|eapply bound_collision; [lia|done|set_solver]].
  destruct (lookup_lt_is_Some_2 l m ltac:(lia)) as [a Ha].
  destruct (lookup_lt_is_Some_2 l (S m) Hl) as [b Hb].
  rewrite (level_entry_even _ _ _ _ Ev Ha Hb) in He. injection He as He.
  rewrite Forall_lookup in Hh.
  destruct (node_eq_or_collision _ _ _ _ (mth_inputs l) (([1] ++ r ++ p) :: k)
    (Hh _ _ Ha) Hr He) as [[-> ->]|]; [|apply list_elem_of_here| |by right].
  - apply Nat.even_spec in Ev as [j ->]. eapply mth_inputs_pair; [lia|done|].
    rewrite Nat.add_1_r. done.
  - left. split; [done|]. rewrite (path_level_up l) by lia. unfold sibling. rewrite Ev, Hb. done.
Qed.

Lemma bound_odd {L : HashLaws} l m r p rest k :
  Forall is_hash l -> is_hash r -> is_hash p -> Nat.even m = false -> (m < length l)%nat ->
  bound (level_up l) (m / 2) (node p r) rest k ->
  bound l m r (p :: rest) (([1] ++ p ++ r) :: k).
Proof.
  intros Hh Hr Hp Ev Hl [[He ->]|Hc]; [|eapply bound_collision; [lia|done|set_solver]].
  assert (Nat.odd m = true) as Ho by (rewrite <- Nat.negb_even, Ev; done).
  destruct (lookup_lt_is_Some_2 l (m - 1)%nat ltac:(lia)) as [a Ha].
  destruct (lookup_lt_is_Some_2 l m Hl) as [b Hb].
  rewrite (level_entry_odd _ _ _ _ Ho Ha Hb) in He. injection He as He.
  rewrite Forall_lookup in Hh.
  destruct (node_eq_or_collision _ _ _ _ (mth_inputs l) (([1] ++ p ++ r) :: k)
    (Hh _ _ Ha) Hp He) as [[-> ->]|]; [|apply list_elem_of_here| |by right].
  - apply Nat.odd_spec in Ho as [j ->]. eapply mth_inputs_pair; [lia| |done].
    rewrite <- Ha. f_equal. lia.
  - left. split; [done|]. rewrite (path_level_up l) by (destruct m; [done|lia]).
    unfold sibling. rewrite Ev, Ha. done.
Qed.

Lemma inclusion_loop_sound {L : HashLaws} l :
  (1 <= length l)%nat -> zlen l <= U64_MAX -> Forall is_hash l ->
  forall proof m r, (m < length l)%nat -> is_hash r -> Forall is_hash proof ->
  inclusion_loop (Z.of_nat m) (Z.of_nat (length l - 1)) r proof = Some (0, mth l) ->
  bound l m r proof (inclusion_inputs (Z.of_nat m) (Z.of_nat (length l - 1)) r proof).
Proof.
  remember (length l) as n eqn:En. revert l En.
  induction (lt_wf n) as [n _ IH]; intros l En Hn Hmax Hh proof m r Hm Hr Hp Hloop.
  unfold zlen in Hmax. destruct (decide (2 <= n)%nat) as [H2|H2]; cycle 1.
  { destruct l as [|x [|]]; cbn in En, Hm; try lia. subst n.
    destruct m; [|lia]. left. destruct proof as [|p t]; [|done]. rewrite mth_singleton in Hloop.
    injection Hloop as ->. done. }
  destruct proof as [|p rest]; [cbn in Hloop; injection Hloop; lia|].
  assert (forall proof' r', is_hash r' -> Forall is_hash proof' ->
    inclusion_loop (Z.of_nat m / 2) (Z.of_nat (n - 1) / 2) r' proof' = Some (0, mth l) ->
    bound (level_up l) (m / 2) r' proof'
      (inclusion_inputs (Z.of_nat m / 2) (Z.of_nat (n - 1) / 2) r' proof')) as Hup.
  { pose proof (level_up_short l ltac:(lia)). pose proof (half_bound m l ltac:(lia)).
    intros proof' r' ? ? Hl'. subst n. rewrite last_level_up, half_Z in Hl' |- * by lia.
    rewrite <- (mth_level_up l) in Hl' by lia.
    eapply IH; [..|exact Hl']; eauto using level_up_hashes; unfold zlen; lia. }
  apply Forall_cons_1 in Hp as [Hp0 Hp].
  destruct (Nat.even m) eqn:Ev; [destruct (decide (m = n - 1)%nat) as [->|Hlast]|].
  - assert (Z.odd (Z.of_nat (n - 1)) = false) as Ho by (rewrite even_Z, Ev; done).
    rewrite inclusion_loop_lone in Hloop by (auto; lia). rewrite inclusion_inputs_lone by (auto; lia).
    apply bound_lone; auto; lia.
  - assert (Z.odd (Z.of_nat m) = false) as Ho by (rewrite even_Z, Ev; done).
    rewrite inclusion_loop_even in Hloop by (auto; lia). rewrite inclusion_inputs_even by (auto; lia).
    apply bound_even; auto using node_is_hash; lia.
  - assert (Z.odd (Z.of_nat m) = true) as Ho by (rewrite even_Z, Ev; done).
    rewrite inclusion_loop_odd in Hloop by (auto; lia). rewrite inclusion_inputs_odd by (auto; lia).
    apply bound_odd; auto using node_is_hash; lia.
Qed.
End Inclusion.

(** ** Consistency proofs *)
Section Consistency.
Context {H : Hash}.

(** SUBPROOF with the fuel its list needs. *)
Definition subproof (m : nat) (l : list bytes) (b : bool) : list bytes :=
  subproof_fuel (length l) m l b.

Lemma subproof_fuel_enough f m l b :
  (1 <= m <= length l)%nat -> (length l <= f)%nat -> subproof_fuel f m l b = subproof m l b.
Proof.
  unfold subproof. remember (length l) as n eqn:En. revert f m l b En.
  induction (lt_wf n) as [n _ IH]; intros f m l b En Hm Hf.
  destruct f as [|f]; [lia|]. destruct n as [|n]; [lia|]. cbn [subproof_fuel].
  destruct (decide (m = length l)) as [|Hne]; [done|].
  destruct (split_lengths l) as (Ha & Hb & ?); [lia|].
  destruct (decide _); f_equal; match goal with |- subproof_fuel f ?i ?k ?b = _ =>
    rewrite (IH (length k) ltac:(lia) f i k b eq_refl),
      (IH (length k) ltac:(lia) n i k b eq_refl) by lia
  end; reflexivity.
Qed.
Lemma subproof_same l b : (1 <= length l)%nat ->
  subproof (length l) l b = if b then [] else [mth l].
Proof.
  intros Hl. unfold subproof. destruct (length l) as [|n] eqn:E; [lia|].
  cbn [subproof_fuel]. rewrite E, decide_True by done. done.
Qed.
Lemma subproof_split m l b :
  (1 <= m < length l)%nat ->
  subproof m l b = let k := split_point (length l) in
    if decide (m <= k)%nat then subproof m (take k l) b ++ [mth (drop k l)]
    else subproof (m - k) (drop k l) false ++ [mth (take k l)].
Proof.
  intros Hm. destruct (split_lengths l) as (Ha & Hb & ?); [lia|]. unfold subproof at 1.
  destruct (length l) as [|n] eqn:En; [lia|]. cbn [subproof_fuel]. rewrite En.
  destruct (decide (m = S n)); [lia|].
  destruct (decide _); rewrite subproof_fuel_enough by lia; reflexivity.
Qed.

(** An even prefix size is handled one level up. *)
Lemma subproof_even l :
  (1 <= length l)%nat -> forall m b, Nat.Even m -> (1 <= m <= length l)%nat ->
  subproof m l b = subproof (m / 2) (level_up l) b.
Proof.
  revert l. apply (split_ind (fun l => forall m b, Nat.Even m -> (1 <= m <= length l)%nat ->
    subproof m l b = subproof (m / 2) (level_up l) b)).
  - intros x m b [j ->] Hm. cbn in Hm. lia.
  - intros x y m b [j ->] Hm. cbn in Hm. assert (j = 1)%nat as -> by lia.
    change (2 * 1)%nat with (length [x; y]). rewrite subproof_same by (cbn; lia).
    change (length [x; y] / 2)%nat with (length (level_up [x; y])).
    rewrite subproof_same by (cbn; lia). destruct b; done.
  - intros l Hl IHa IHb m b Hm Hml. destruct (level_up_split l Hl) as (Hk & Ha & Hb).
    destruct (split_lengths l) as (La & Lb & Hb2); [lia|].
    pose proof (length_level_up l) as Hup.
    pose proof (Nat.div_mod_eq (S (length l)) 2). pose proof (Nat.mod_upper_bound (S (length l)) 2).
    destruct Hm as [j ->]. rewrite (Nat.mul_comm 2 j), Nat.div_mul, (Nat.mul_comm j 2) by lia.
    destruct (decide (2 * j = length l)%nat) as [E|E].
    + rewrite E, subproof_same by lia. assert (j = length (level_up l)) as -> by lia.
      rewrite subproof_same, mth_level_up by lia. done.
    + rewrite (subproof_split (2 * j)), (subproof_split j) by lia. cbv zeta.
      rewrite Ha, Hb, !mth_level_up by lia.
      set (k := split_point (length l)) in *. set (k' := split_point (length (level_up l))) in *.
      destruct (decide (2 * j <= k)%nat); destruct (decide (j <= k')%nat); try lia.
      * rewrite IHa by (try lia; exists j; done).
        rewrite (Nat.mul_comm 2 j), Nat.div_mul by lia. done.
      * rewrite IHb by (try lia; exists (j - k')%nat; lia).
        replace ((2 * j - k) / 2)%nat with (j - k')%nat; [done|].
        replace (2 * j - k)%nat with ((j - k') * 2)%nat by lia. rewrite Nat.div_mul; lia.
Qed.

(** An odd prefix size: the seed, unless it is the whole first subtree, then the
    audit path of the last leaf of the prefix. *)
Lemma subproof_odd l :
  (1 <= length l)%nat -> forall m b x, Nat.Odd m -> (m < length l)%nat -> l !! (m - 1)%nat = Some x ->
  subproof m l b = (if b && (m =? 1)%nat then [] else [x]) ++ path (m - 1) l.
Proof.
  revert l. apply (split_ind (fun l => forall m b x, Nat.Odd m -> (m < length l)%nat ->
    l !! (m - 1)%nat = Some x ->
    subproof m l b = (if b && (m =? 1)%nat then [] else [x]) ++ path (m - 1) l)).
  - intros x m b y [j ->] Hm. cbn in Hm. lia.
  - intros x y m b z [j ->] Hm Hz. cbn in Hm. assert (j = 0)%nat as -> by lia.
    cbn in Hz. injection Hz as ->. destruct b; reflexivity.
  - intros l Hl IHa IHb m b x Hm Hml Hx. destruct (level_up_split l Hl) as (Hk & _ & _).
    destruct (split_lengths l) as (La & Lb & Hb2); [lia|]. destruct Hm as [j Hj].
    rewrite subproof_split, path_split by lia. cbv zeta. set (k := split_point (length l)) in *.
    destruct (decide (m <= k)%nat); destruct (decide (m - 1 < k)%nat); try lia.
    + rewrite (IHa m b x) by (rewrite ?lookup_take_lt by lia; try done; try lia; by exists j).
      rewrite app_assoc. done.
    + rewrite (IHb (m - k)%nat false x); [| exists (j - split_point (length (level_up l)))%nat; lia | lia |].
      * rewrite (proj2 (Nat.eqb_neq m 1)) by lia. rewrite andb_false_r. cbn [andb].
        rewrite app_assoc. do 3 f_equal. lia.
      * rewrite lookup_drop, <- Hx. f_equal. lia.
Qed.

(** The walk [while lsb(fn)] climbs to the level where the prefix ends at an even
    position [f]; the tree, the prefix, the proof and the inputs are those of that level. *)
Lemma descend l m k :
  (1 <= m < length l)%nat -> Z.of_nat m <= 2 ^ Z.of_nat k -> Forall is_hash l -> HashLaws ->
  exists M f, skip_odd k (Z.of_nat (m - 1)) (Z.of_nat (length l - 1)) =
      (Z.of_nat f, Z.of_nat (length M - 1)) /\
    (S f < length M)%nat /\ (length M <= length l)%nat /\ Forall is_hash M /\ mth M = mth l /\
    mth_inputs M ⊆ mth_inputs l /\ mth (take (S f) M) = mth (take m l) /\
    forall x b, M !! f = Some x ->
      subproof m l b = (if b && (f =? 0)%nat then [] else [x]) ++ path f M.
Proof.
  intros Hm Hk Hh L. revert l m Hm Hk Hh. induction k as [|k IH]; intros l m Hm Hk Hh.
  - change (2 ^ Z.of_nat 0) with 1 in Hk. assert (m = 1)%nat as -> by lia.
    exists l, 0%nat. split_and!; try done; try lia. intros x b Hx.
    rewrite (subproof_odd l ltac:(lia) 1 b x); [done|exists 0%nat; lia|lia|done].
  - cbn [skip_odd]. rewrite lsb_odd, even_Z, !shr1.
    destruct (Nat.even (m - 1)) eqn:Ev; cbn [negb].
    + exists l, (m - 1)%nat. split_and!; try done; try lia; [do 2 f_equal; lia|].
      intros x b Hx. rewrite (subproof_odd l ltac:(lia) m b x); [|..|lia|done].
      * destruct m as [|[|]]; [lia|done|done].
      * apply Nat.even_spec in Ev as [j Hj]. exists j. lia.
    + rewrite <- Nat.negb_odd, negb_false_iff in Ev. apply Nat.odd_spec in Ev as [j Hj].
      assert (m / 2 = S j)%nat as Hd.
      { replace m with (S j * 2)%nat by lia. apply Nat.div_mul. lia. }
      assert (Z.of_nat (m - 1) / 2 = Z.of_nat (S j - 1)) as ->.
      { rewrite Hj, half_Z. f_equal. rewrite Nat.add_comm, Nat.mul_comm, Nat.div_add by lia.
        cbn. lia. }
      rewrite last_level_up by lia. pose proof (length_level_up l) as Hup.
      pose proof (Nat.div_mod_eq (S (length l)) 2). pose proof (Nat.mod_upper_bound (S (length l)) 2).
      destruct (IH (level_up l) (S j)) as (M & f & ? & ? & ? & ? & HM & Hin & Ht & Hp);
        [lia| |auto using level_up_hashes|].
      { rewrite Nat2Z.inj_succ, Z.pow_succ_r in Hk by lia. lia. }
      exists M, f. split_and!; try done; try lia.
      * rewrite HM. apply mth_level_up. lia.
      * etransitivity; [exact Hin|]. apply mth_inputs_level_up. lia.
      * rewrite Ht, level_up_take by lia. rewrite mth_level_up by (rewrite length_take; lia).
        do 2 f_equal. lia.
      * intros x b Hx. rewrite <- Hp by done. rewrite <- Hd. apply subproof_even; [lia| |lia].
        exists (S j). lia.
Qed.

(** The consistency loop runs the inclusion loop on its second root. *)
Lemma consistency_loop_inclusion f s fr sr it f' s' fr' sr' :
  consistency_loop (f, s, fr, sr) it = Some (f', s', fr', sr') ->
  inclusion_loop f s sr it = Some (s', sr').
Proof.
  revert f s fr sr. induction it as [|c it IH]; intros f s fr sr; cbn [consistency_loop].
  - intros [= -> -> -> ->]. done.
  - intros Hl. apply bind_Some in Hl as ([[[? ?] ?] ?] & Hst & Hl). apply IH in Hl.
    unfold consistency_step in Hst. cbn [inclusion_loop].
    destruct (s =? 0); [done|]. destruct (lsb f || (f =? s)).
    + destruct (if negb (lsb f) then _ else _) as [? ?]. congruence.
    + congruence.
Qed.

Lemma consistency_loop_lone s fr sr c it :
  0 < s <= U64_MAX -> Z.odd s = false ->
  consistency_loop (s, s, fr, sr) (c :: it) = consistency_loop (s / 2, s / 2, fr, sr) (c :: it).
Proof. intros. cbn [consistency_loop]. rewrite consistency_step_lone by done. done. Qed.
End Consistency.

Section ConsistencyFold.
Context {H : Hash}.

(** Folding the audit path of position [f]: the second root folds to the tree,
    the first to any tree [Q] that ends at [f] and agrees with [M] before it. *)
Lemma consistency_fold M :
  (1 <= length M)%nat -> zlen M <= U64_MAX -> forall f Q fr sr,
  (f < length M)%nat -> length Q = S f -> take f Q = take f M -> Q !! f = Some fr ->
  M !! f = Some sr ->
  exists f', consistency_loop (Z.of_nat f, Z.of_nat (length M - 1), fr, sr) (path f M)
    = Some (f', 0, mth Q, mth M).
Proof.
  remember (length M) as n eqn:En. revert M En.
  induction (lt_wf n) as [n _ IH]; intros M En Hn Hmax f Q fr sr Hf HQ Ht Hfr Hsr.
  unfold zlen in Hmax. destruct (decide (2 <= n)%nat) as [H2|H2]; cycle 1.
  { destruct M as [|x [|]]; cbn in En, Hf; try lia. assert (f = 0)%nat as -> by lia. subst n.
    destruct Q as [|y [|]]; cbn in HQ; try lia. cbn in Hfr, Hsr. simplify_eq. by eexists. }
  assert (forall fr' sr', level_up Q !! (f / 2)%nat = Some fr' -> level_up M !! (f / 2)%nat = Some sr' ->
    exists f', consistency_loop (Z.of_nat f / 2, Z.of_nat (n - 1) / 2, fr', sr')
      (path (f / 2) (level_up M)) = Some (f', 0, mth Q, mth M)) as Hup.
  { pose proof (level_up_short M ltac:(lia)). pose proof (half_bound f M ltac:(lia)).
    pose proof (Nat.div_mod_eq f 2). pose proof (Nat.mod_upper_bound f 2).
    intros fr' sr' Hfr' Hsr'. subst n.
    rewrite last_level_up, half_Z, <- (mth_level_up M), <- (mth_level_up Q) by lia.
    eapply IH; [..|exact Hfr'|exact Hsr']; unfold zlen; try done; try lia.
    - rewrite length_level_up, HQ. replace (S (S f)) with (f + 1 * 2)%nat by lia.
      rewrite Nat.div_add by lia. lia.
    - rewrite !level_up_take by lia. f_equal. apply (f_equal (take (2 * (f / 2)))) in Ht.
      rewrite !take_take, Nat.min_l in Ht by lia. done. }
  rewrite path_level_up by lia. unfold sibling. destruct (Nat.even f) eqn:Ev.
  - assert (Z.odd (Z.of_nat f) = false) as Ho by (rewrite even_Z, Ev; done).
    pose proof (level_entry_lone Q f fr Ev Hfr HQ) as HupQ.
    destruct (M !! S f) as [b|] eqn:Eb; cbn [app consistency_loop].
    + pose proof (lookup_lt_Some _ _ _ Eb). rewrite consistency_step_even by (auto; lia).
      apply Hup; [done|]. by apply level_entry_even.
    + apply lookup_ge_None in Eb. assert (f = n - 1)%nat as -> by lia.
      pose proof (level_entry_lone _ _ _ Ev Hsr ltac:(lia)) as HupM.
      destruct (Hup _ _ HupQ HupM) as [f' Hf']. exists f'. rewrite <- Hf'.
      pose proof (even_half _ Ho).
      destruct (path _ (level_up M)) eqn:Ep; [injection Hf'; lia|].
      rewrite consistency_loop_lone; [done|lia|done].
  - assert (Z.odd (Z.of_nat f) = true) as Ho by (rewrite even_Z, Ev; done).
    assert (Nat.odd f = true) as Ho' by (rewrite <- Nat.negb_even, Ev; done).
    assert (f <> 0)%nat by (intros ->; done).
    destruct (M !! (f - 1)%nat) as [a|] eqn:Ea; [|apply lookup_ge_None in Ea; lia].
    cbn [app consistency_loop]. rewrite consistency_step_odd by (auto; lia).
    apply Hup; apply level_entry_odd; try done.
    rewrite <- Ea, <- (lookup_take_lt Q f), Ht by lia. apply lookup_take_lt; lia.
Qed.
End ConsistencyFold.

(** ** Theorems *)
Section Theorems.
Context {H : Hash} {L : HashLaws}.

(** The honest audit path (PATH of RFC 9162) of any leaf verifies against the tree hash. *)
Theorem inclusion_complete (l : list bytes) (m : nat) (leaf : bytes) :
  zlen l <= U64_MAX -> Forall is_hash l -> l !! m = Some leaf ->
  verify_inclusion leaf (Z.of_nat m) (zlen l) (path m l) (mth l) = true.
Proof.
  intros Hmax Hh Hm. pose proof (lookup_lt_Some _ _ _ Hm). unfold verify_inclusion.
  rewrite Forall_lookup in Hh. pose proof (Hh _ _ Hm) as Hleaf. unfold is_hash in Hleaf.
  unfold zlen at 2. rewrite Hleaf. destruct (Z.leb_spec (zlen l) (Z.of_nat m)); [unfold zlen in *; lia|].
  replace (zlen l - 1) with (Z.of_nat (length l - 1)) by (unfold zlen; lia).
  cbn [orb negb Z.eqb Z.of_nat Pos.of_succ_nat Pos.succ Pos.eqb].
  rewrite inclusion_loop_complete by (done || lia). by apply bytes_eqb_true.
Qed.

Lemma inclusion_binds (l : list bytes) (m : Z) (leaf : bytes) (proof : list bytes) :
  zlen l <= U64_MAX -> Forall is_hash l -> Forall is_hash proof -> 0 <= m ->
  verify_inclusion leaf m (zlen l) proof (mth l) = true ->
  (l !! Z.to_nat m = Some leaf /\ proof = path (Z.to_nat m) l) \/
  Collision (mth_inputs l) (inclusion_inputs m (zlen l - 1) leaf proof).
Proof.
  intros Hmax Hh Hp Hm. unfold verify_inclusion.
  destruct (Z.leb_spec (zlen l) m) as [|Hlt]; [done|]. cbn [orb].
  destruct (Z.eqb_spec (zlen leaf) 32) as [Hleaf|]; [|done]. cbn [negb].
  destruct (inclusion_loop _ _ _ _) as [[sn r]|] eqn:E; [|done]. intros Hr. bool_prop. subst.
  unfold zlen in *. destruct (Z_of_nat_complete m Hm) as [m' ->]. rewrite Nat2Z.id.
  replace (Z.of_nat (length l) - 1) with (Z.of_nat (length l - 1)) in * by lia.
  eapply inclusion_loop_sound in E; [exact E|..]; try done; try lia. unfold is_hash. lia.
Qed.
(** C15: an accepted inclusion proof binds the leaf at that index and the proof
    itself to the tree under the root, up to an explicit SHA-256 collision between
    an input of the tree and an input the verifier hashed. *)
Theorem inclusion_sound (l : list bytes) (m : Z) (leaf : bytes) (proof : list bytes) :
  zlen l <= U64_MAX -> Forall is_hash l -> Forall is_hash proof -> 0 <= m ->
  verify_inclusion leaf m (zlen l) proof (mth l) = true ->
  (l !! Z.to_nat m = Some leaf /\ proof = path (Z.to_nat m) l) \/
  Collision (mth_inputs l) (inclusion_inputs m (zlen l - 1) leaf proof).
Proof. apply inclusion_binds. Qed.

Lemma seed_eq f r it :
  consistency_seed (Z.of_nat f) r it =
    if (f =? 0)%nat then if zlen r =? 32 then Some (r, it) else None
    else match it with [] => None | c :: it => Some (c, it) end.
Proof.
  unfold consistency_seed. destruct f; [cbn; destruct (zlen r =? 32); done|].
  rewrite (proj2 (Z.eqb_neq (Z.of_nat (S f)) 0)) by lia. done.
Qed.

(** The honest consistency proof (PROOF of RFC 9162) between the tree and
    any non-empty prefix of it verifies. *)
Theorem consistency_complete (l : list bytes) (m : nat) :
  zlen l <= U64_MAX -> Forall is_hash l -> (1 <= m <= length l)%nat ->
  verify_consistency (Z.of_nat m) (zlen l) (mth (take m l)) (mth l) (consistency_proof m l) = true.
Proof.
  intros Hmax Hh Hm. unfold verify_consistency, zlen in *. change (consistency_proof m l) with (subproof m l true).
  destruct (Z.ltb_spec (Z.of_nat (length l)) (Z.of_nat m)); [lia|].
  destruct (Z.eqb_spec (Z.of_nat m) 0); [lia|]. cbn [orb].
  destruct (Z.eqb_spec (Z.of_nat m) (Z.of_nat (length l))).
  { assert (m = length l) as -> by lia. rewrite subproof_same, take_ge by lia. by apply bytes_eqb_true. }
  destruct (descend l m 64) as (M & f & Hskip & Hf & HMl & HhM & HM & _ & Ht & Hp); try done; try lia.
  { unfold U64_MAX in *. cbn. lia. }
  replace (Z.of_nat m - 1) with (Z.of_nat (m - 1)) by lia.
  replace (Z.of_nat (length l) - 1) with (Z.of_nat (length l - 1)) by lia.
  rewrite Hskip, seed_eq. destruct (lookup_lt_is_Some_2 M f ltac:(lia)) as [x Hx].
  rewrite (Hp x true Hx). cbn [andb]. rewrite Forall_lookup in HhM. pose proof (HhM _ _ Hx) as Hx32.
  destruct (consistency_fold M ltac:(lia) ltac:(unfold zlen; lia) f (take (S f) M) x x)
    as [f' Hfold]; try done; try lia.
  { rewrite length_take; lia. } { rewrite take_take; f_equal; lia. } { rewrite lookup_take_lt; [done|lia]. }
  assert (consistency_seed (Z.of_nat f) (mth (take m l))
    ((if (f =? 0)%nat then [] else [x]) ++ path f M) = Some (x, path f M)) as Hseed.
  { rewrite seed_eq. destruct (Nat.eqb_spec f 0) as [->|]; [|done].
    assert (take 1 M = [x]) as E1 by (destruct M; cbn in Hx; simplify_eq; done).
    rewrite E1 in Ht. rewrite <- Ht, mth_singleton. unfold zlen. rewrite Hx32. done. }
  rewrite seed_eq in Hseed. rewrite Hseed, Hfold, Ht, HM, Z.eqb_refl. cbn [andb].
  apply andb_true_iff; split; by apply bytes_eqb_true.
Qed.

Lemma consistency_binds (l : list bytes) (m : nat) (first_root : bytes) (proof : list bytes) :
  zlen l <= U64_MAX -> Forall is_hash l -> Forall is_hash proof -> (1 <= length l)%nat ->
  verify_consistency (Z.of_nat m) (zlen l) first_root (mth l) proof = true ->
  ((1 <= m <= length l)%nat /\ first_root = mth (take m l) /\ proof = consistency_proof m l) \/
  Collision (mth_inputs l) (consistency_inputs (Z.of_nat m) (zlen l) first_root proof).
Proof.
  intros Hmax Hh Hpr Hl1. unfold verify_consistency, consistency_inputs, zlen in *.
  change (consistency_proof m l) with (subproof m l true).
  destruct (Z.ltb_spec (Z.of_nat (length l)) (Z.of_nat m)); [done|].
  destruct (Z.eqb_spec (Z.of_nat m) 0); [done|]. cbn [orb].
  destruct (Z.eqb_spec (Z.of_nat m) (Z.of_nat (length l))).
  { intros Hv. assert (m = length l) as -> by lia. left. rewrite take_ge, subproof_same by lia.
    destruct proof; [|done]. apply bytes_eqb_true in Hv. auto with lia. }
  replace (Z.of_nat m - 1) with (Z.of_nat (m - 1)) by lia.
  replace (Z.of_nat (length l) - 1) with (Z.of_nat (length l - 1)) by lia.
  destruct (descend l m 64) as (M & f & Hskip & Hf & HMl & HhM & HM & Hin & Ht & Hp); try done; try lia.
  { unfold U64_MAX in *. cbn. lia. }
  rewrite Hskip. destruct (consistency_seed _ _ _) as [[seed it]|] eqn:Es; [|done].
  destruct (consistency_loop _ _) as [[[[f' sn] fr] sr]|] eqn:El; [|done]. intros Hv. bool_prop. subst.
  assert (is_hash seed /\ Forall is_hash it /\ proof = (if (f =? 0)%nat then [] else [seed]) ++ it /\
    (f = 0%nat -> seed = first_root)) as (Hs & Hit & Hpf & _).
  { rewrite seed_eq in Es. destruct (f =? 0)%nat eqn:E0.
    - destruct (Z.eqb_spec (zlen first_root) 32) as [E32|]; [|done]. injection Es as -> ->. unfold zlen in E32.
      split_and!; try done. unfold is_hash; lia.
    - apply Nat.eqb_neq in E0. destruct proof as [|c t]; [done|]. injection Es as -> ->.
      apply Forall_cons_1 in Hpr as [? ?]. done. }
  pose proof (consistency_loop_inclusion _ _ _ _ _ _ _ _ _ El) as Hincl. rewrite <- HM in Hincl.
  destruct (inclusion_loop_sound M ltac:(lia) ltac:(unfold zlen; lia) HhM it f seed ltac:(lia) Hs Hit Hincl)
    as [[Hx ->]|Hc]; [left|right; eapply collision_weaken; [exact Hin|reflexivity|exact Hc]].
  destruct (consistency_fold M ltac:(lia) ltac:(unfold zlen; lia) f (take (S f) M) seed seed)
    as [f'' Hfold]; try done; try lia.
  { rewrite length_take; lia. } { rewrite take_take; f_equal; lia. } { rewrite lookup_take_lt; [done|lia]. }
  rewrite El in Hfold. injection Hfold as _ Hfr _. split_and!; [lia|lia|congruence|].
  rewrite (Hp seed true Hx), Hpf. done.
Qed.
(** C16: an accepted consistency proof against the hash of a tree binds the first
    root to the hash of that tree's prefix and the proof to the honest one, up to an
    explicit collision. *)
Theorem consistency_sound (l : list bytes) (m : nat) (first_root : bytes) (proof : list bytes) :
  zlen l <= U64_MAX -> Forall is_hash l -> Forall is_hash proof -> (1 <= length l)%nat ->
  verify_consistency (Z.of_nat m) (zlen l) first_root (mth l) proof = true ->
  ((1 <= m <= length l)%nat /\ first_root = mth (take m l) /\ proof = consistency_proof m l) \/
  Collision (mth_inputs l) (consistency_inputs (Z.of_nat m) (zlen l) first_root proof).
Proof. apply consistency_binds. Qed.

(** Both shift loops of the verifier end within the 64 turns a [u64] has. *)
Theorem shift_loops_terminate (fnn sn : Z) :
  is_u64 fnn ->
  (let f' := (skip_even 64 fnn sn).1 in lsb f' = true \/ f' = 0) /\
  lsb (skip_odd 64 fnn sn).1 = false.
Proof.
  unfold is_u64, U64_MAX. intros Hf. split.
  - apply skip_even_exits. cbn. lia.
  - apply skip_odd_exits. cbn. lia.
Qed.
End Theorems.
