(* ===== verification/Text.v ===== *)
(** * Text: byte classes, hex, UTF-8 and the identifier grammars

    The string-level helpers of lib.rs and scitt.rs, and the parts of Rust's
    [core::str] they use (the standard library is modelled, not assumed). *)
From S2P Require Import Prelude.

(** ** [u8] classes *)

Definition is_ascii_digit (b : u8) : bool := (#"0" <=? b) && (b <=? #"9").
Definition is_ascii_lowercase (b : u8) : bool := (#"a" <=? b) && (b <=? #"z").
Definition is_ascii_uppercase (b : u8) : bool := (#"A" <=? b) && (b <=? #"Z").
Definition is_ascii_alphanumeric (b : u8) : bool :=
  is_ascii_digit b || is_ascii_lowercase b || is_ascii_uppercase b.
(** [u8::is_ascii_graphic]: U+0021 to U+007E. *)
Definition is_ascii_graphic (b : u8) : bool := (33 <=? b) && (b <=? 126).
Definition in_range (lo hi b : Z) : bool := (lo <=? b) && (b <=? hi).

(** ** UTF-8

    [chars] decodes the bytes of a [&str] (which Rust keeps well-formed) to its
    Unicode scalar values; [utf8_valid] is what [str::from_utf8] accepts. *)

Fixpoint utf8_chars (b : bytes) : list Z :=
  match b with
  | [] => []
  | x :: t =>
      if x <? 128 then x :: utf8_chars t
      else if x <? 224 then
        match t with
        | y :: t => ((x - 192) * 64 + (y - 128)) :: utf8_chars t
        | _ => []
        end
      else if x <? 240 then
        match t with
        | y :: z :: t => ((x - 224) * 4096 + (y - 128) * 64 + (z - 128)) :: utf8_chars t
        | _ => []
        end
      else
        match t with
        | y :: z :: w :: t =>
            ((x - 240) * 262144 + (y - 128) * 4096 + (z - 128) * 64 + (w - 128)) :: utf8_chars t
        | _ => []
        end
  end.
Definition chars (s : string) : list Z := utf8_chars (str_bytes s).

Definition cont (b : u8) : bool := in_range 128 191 b.
Fixpoint utf8_valid (b : bytes) : bool :=
  match b with
  | [] => true
  | x :: t =>
      if x <? 128 then utf8_valid t
      else if in_range 194 223 x then
        match t with y :: t => cont y && utf8_valid t | _ => false end
      else if in_range 224 239 x then
        match t with
        | y :: z :: t =>
            (if x =? 224 then in_range 160 191 y else if x =? 237 then in_range 128 159 y else cont y)
            && cont z && utf8_valid t
        | _ => false
        end
      else if in_range 240 244 x then
        match t with
        | y :: z :: w :: t =>
            (if x =? 240 then in_range 144 191 y else if x =? 244 then in_range 128 143 y else cont y)
            && cont z && cont w && utf8_valid t
        | _ => false
        end
      else false
  end.

(** [std::str::from_utf8(b).ok()]. *)
Definition from_utf8 (b : bytes) : option string := then_some (utf8_valid b) (bytes_str b).

(** [str::encode_utf16]. *)
Definition encode_utf16_char (c : Z) : list Z :=
  if c <? 65536 then [c] else [55296 + Z.shiftr (c - 65536) 10; 56320 + Z.land (c - 65536) 1023].
Definition encode_utf16 (s : string) : list Z := flat_map encode_utf16_char (chars s).

(** [str::starts_with], [str::ends_with], [str::strip_prefix] on the bytes. *)
Fixpoint starts_with (p s : string) : bool :=
  match p, s with
  | EmptyString, _ => true
  | String a p, String b s => Ascii.eqb a b && starts_with p s
  | _, _ => false
  end.
Definition ends_with (p s : string) : bool :=
  bytes_eqb (str_bytes p) (drop (length (str_bytes s) - length (str_bytes p)) (str_bytes s))
  && (slen p <=? slen s).
Definition is_empty (s : string) : bool := match s with EmptyString => true | _ => false end.

(** [slice.split(|b| sep(b))]: the maximal runs between separators. *)
Fixpoint split_on (sep : u8 -> bool) (cur : bytes) (b : bytes) : list bytes :=
  match b with
  | [] => [cur]
  | x :: t => if sep x then cur :: split_on sep [] t else split_on sep (cur ++ [x]) t
  end.

(** [usize::to_string] and [i64::to_string]. *)
Definition int_to_string (n : Z) : string := pretty n.

(** ** Hex *)

(** scitt.rs [fn hex_nibble]. *)
Definition hex_nibble (b : u8) : option Z :=
  if in_range #"0" #"9" b then Some (b - #"0")
  else if in_range #"a" #"f" b then Some (b - #"a" + 10)
  else if in_range #"A" #"F" b then Some (b - #"A" + 10)
  else None.

(** The [while i < raw.len()] loop of [hex_to_bytes]. *)
Fixpoint hex_pairs (raw : bytes) : option bytes :=
  match raw with
  | x :: y :: t => h ← hex_nibble x; l ← hex_nibble y; t ← hex_pairs t; Some (Z.lor (Z.shiftl h 4) l :: t)
  | _ => Some []
  end.

(** scitt.rs [fn hex_to_bytes]. *)
Definition hex_to_bytes (s : string) : option bytes :=
  let raw := str_bytes s in
  reject_if negb (Z.rem (zlen raw) 2 =? 0) with None;
  hex_pairs raw.

(** lib.rs [fn hex]: [format!("{:02x}", x)] of each byte. *)
Definition hex_digit (n : Z) : u8 := if n <? 10 then #"0" + n else #"a" + (n - 10).
Definition hex_bytes (b : bytes) : bytes :=
  flat_map (fun x => [hex_digit (Z.shiftr x 4); hex_digit (Z.land x 15)]) b.
Definition hex (b : bytes) : string := bytes_str (hex_bytes b).

(** scitt.rs [fn hex32]. *)
Definition hex32 (s : string) : bool :=
  (slen s =? 64) && forallb (fun b => is_ascii_digit b || in_range #"a" #"f" b) (str_bytes s).

(** lib.rs [fn lower_sha256]. *)
Definition lower_sha256 (value : string) : bool :=
  (slen value =? 64) && forallb (fun b => is_ascii_digit b || in_range #"a" #"f" b) (str_bytes value).

(** ** Identifier grammars of lib.rs *)

(** [fn namespaced_action]. *)
Definition action_separator (b : u8) : bool := (b =? #".") || (b =? #"_") || (b =? #"-").
Definition namespaced_action (value : string) : bool :=
  let parts := split_on action_separator [] (str_bytes value) in
  (1 <? zlen parts) &&
  forallb (fun part => negb (zlen part =? 0) &&
    forallb (fun b => is_ascii_lowercase b || is_ascii_digit b) part) parts.

(** [fn safe_identity_text]. *)
Definition safe_identity_text (value : string) : bool :=
  negb (is_empty value) && forallb is_ascii_graphic (str_bytes value).

(** [fn disclosure_text]: no C0 or C1 control and no DEL. *)
Definition disclosure_text (value : string) : bool :=
  negb (is_empty value) &&
  forallb (fun c => negb (in_range 0 31 c || in_range 127 159 c)) (chars value).

(** [fn tenant_from_origin]: what follows the last slash. *)
Definition rsplit_first (sep : u8) (s : string) : string :=
  bytes_str (List.last (split_on (Z.eqb sep) [] (str_bytes s)) []).
Definition tenant_from_origin (origin : string) : option string :=
  opt_filter (then_some (safe_identity_text origin) (rsplit_first #"/" origin))
    (fun tenant => negb (is_empty tenant)).

(** [fn is_internal_agent]. *)
Definition is_internal_agent (a : string) : bool :=
  existsb (String.eqb a)
    ["_system"; "_grants"; "_reports"; "_detect"; "_idem"; "_authority"; "_node"; "_register"]%string.

(** ** Lemmas *)

Lemma ascii_byte_range c : is_byte (ascii_byte c).
Proof. unfold is_byte, ascii_byte. pose proof (N_ascii_bounded c). lia. Qed.
Lemma byte_ascii_byte c : byte_ascii (ascii_byte c) = c.
Proof.
  unfold byte_ascii. pose proof (ascii_byte_range c) as Hr. unfold is_byte in Hr.
  rewrite Z.mod_small by lia. unfold ascii_byte. rewrite N2Z.id. apply ascii_N_embedding.
Qed.
Lemma ascii_byte_ascii b : is_byte b -> ascii_byte (byte_ascii b) = b.
Proof.
  unfold is_byte, ascii_byte, byte_ascii. intros Hb. rewrite Z.mod_small by lia.
  rewrite N_ascii_embedding by lia. lia.
Qed.

Lemma str_bytes_range s : Forall is_byte (str_bytes s).
Proof. unfold str_bytes. apply Forall_map, Forall_true. intros c. apply ascii_byte_range. Qed.
Lemma bytes_str_bytes s : bytes_str (str_bytes s) = s.
Proof.
  unfold bytes_str, str_bytes. rewrite map_map.
  rewrite (map_ext _ id) by apply byte_ascii_byte. rewrite map_id.
  apply string_of_list_ascii_of_string.
Qed.
Lemma str_bytes_str b : Forall is_byte b -> str_bytes (bytes_str b) = b.
Proof.
  intros Hb. unfold bytes_str, str_bytes. rewrite list_ascii_of_string_of_list_ascii, map_map.
  induction Hb as [|x b Hx _ IH]; [done|]. cbn. rewrite ascii_byte_ascii by done. by f_equal.
Qed.
Lemma str_bytes_inj a b : str_bytes a = str_bytes b -> a = b.
Proof. intros E. rewrite <- (bytes_str_bytes a), E. apply bytes_str_bytes. Qed.
Lemma length_str_bytes s : zlen (str_bytes s) = slen s.
Proof.
  unfold zlen, slen, str_bytes. rewrite length_map. induction s as [|c s IH]; [done|].
  cbn [list_ascii_of_string length String.length]. lia.
Qed.

(** *** Hex *)

Lemma nibble_digit n : 0 <= n < 16 -> hex_nibble (hex_digit n) = Some n.
Proof.
  intros Hn. unfold hex_digit. assert (n < 10 \/ 10 <= n) as [Hl|Hl] by lia.
  - rewrite (proj2 (Z.ltb_lt n 10)) by lia. unfold hex_nibble, in_range.
    change #"0" with 48. change #"9" with 57.
    rewrite (proj2 (Z.leb_le 48 _)), (proj2 (Z.leb_le _ 57)) by lia. cbn. f_equal. lia.
  - rewrite (proj2 (Z.ltb_ge n 10)) by lia. unfold hex_nibble, in_range.
    change #"0" with 48. change #"9" with 57. change #"a" with 97. change #"f" with 102.
    rewrite (proj2 (Z.leb_gt _ 57)), andb_false_r by lia.
    rewrite (proj2 (Z.leb_le 97 _)), (proj2 (Z.leb_le _ 102)) by lia. cbn. f_equal. lia.
Qed.

Lemma nibble_range b n : hex_nibble b = Some n -> 0 <= n < 16.
Proof.
  unfold hex_nibble, in_range. change #"0" with 48. change #"9" with 57.
  change #"a" with 97. change #"f" with 102. change #"A" with 65. change #"F" with 70.
  intros E. case_all E; injection E as <-; bool_prop; lia.
Qed.

Lemma byte_nibbles b :
  is_byte b -> 0 <= Z.shiftr b 4 < 16 /\ 0 <= Z.land b 15 < 16 /\
    Z.lor (Z.shiftl (Z.shiftr b 4) 4) (Z.land b 15) = b.
Proof.
  unfold is_byte. intros Hb. rewrite Z.shiftr_div_pow2 by lia.
  change 15 with (2 ^ 4 - 1). rewrite land_ones_mod by lia. change (2 ^ 4) with 16.
  pose proof (Z.div_mod b 16). pose proof (Z.mod_pos_bound b 16).
  rewrite lor_shiftl by (change (2 ^ 4) with 16; lia). change (2 ^ 4) with 16. lia.
Qed.
Lemma nibbles_byte h l :
  0 <= h < 16 -> 0 <= l < 16 ->
  let b := Z.lor (Z.shiftl h 4) l in is_byte b /\ Z.shiftr b 4 = h /\ Z.land b 15 = l.
Proof.
  intros Hh Hl b. unfold b. rewrite lor_shiftl by (change (2 ^ 4) with 16; lia).
  change (2 ^ 4) with 16. unfold is_byte. rewrite Z.shiftr_div_pow2 by lia.
  change 15 with (2 ^ 4 - 1). rewrite land_ones_mod by lia. change (2 ^ 4) with 16.
  rewrite Z.div_add_l, Z.div_small by lia. rewrite Z.add_comm, Z.mod_add, Z.mod_small by lia. lia.
Qed.

Lemma hex_pairs_hex b : Forall is_byte b -> hex_pairs (hex_bytes b) = Some b.
Proof.
  induction 1 as [|x b Hx _ IH]; [done|]. destruct (byte_nibbles x Hx) as (Hh & Hl & E).
  cbn [hex_bytes flat_map app hex_pairs]. rewrite !nibble_digit by done. cbn.
  unfold hex_bytes in IH. rewrite IH. cbn. by rewrite E.
Qed.
Lemma hex_digit_range n : 0 <= n < 16 -> is_byte (hex_digit n).
Proof.
  intros Hn. unfold hex_digit, is_byte. change #"0" with 48. change #"a" with 97.
  destruct (n <? 10) eqn:E; bool_prop; lia.
Qed.
Lemma hex_bytes_range b : Forall is_byte b -> Forall is_byte (hex_bytes b).
Proof.
  induction 1 as [|x b Hx _ IH]; [constructor|]. destruct (byte_nibbles x Hx) as (Hh & Hl & _).
  cbn. auto using hex_digit_range.
Qed.
Lemma length_hex_bytes b : length (hex_bytes b) = (2 * length b)%nat.
Proof. induction b as [|x b IH]; [done|]. cbn [hex_bytes flat_map app length]. unfold hex_bytes in IH. lia. Qed.

Lemma pair_byte_ind (P : bytes -> Prop) :
  P [] -> (forall x, P [x]) -> (forall a b t, P t -> P (a :: b :: t)) -> forall l, P l.
Proof.
  intros H0 H1 H2. fix F 1. intros [|a [|b t]]; [exact H0 | exact (H1 a) | exact (H2 a b t (F t))].
Qed.

(** The lower-case form of a hex digit. *)
Definition to_lower (b : u8) : u8 := if is_ascii_uppercase b then b + 32 else b.

Lemma nibble_to_digit b n : hex_nibble b = Some n -> hex_digit n = to_lower b.
Proof.
  unfold hex_nibble, hex_digit, to_lower, is_ascii_uppercase, in_range.
  change #"0" with 48. change #"9" with 57. change #"Z" with 90.
  change #"a" with 97. change #"f" with 102. change #"A" with 65. change #"F" with 70.
  intros E. case_all E; injection E as <-; bool_prop;
    repeat match goal with |- context [if ?c then _ else _] => destruct c eqn:? end; bool_prop; lia.
Qed.
Lemma hex_pairs_lower raw b :
  Nat.Even (length raw) -> hex_pairs raw = Some b ->
  Forall is_byte b /\ hex_bytes b = map to_lower raw.
Proof.
  revert b. induction raw as [|x|x y t IH] using pair_byte_ind; intros b He E.
  - injection E as <-. done.
  - destruct He as [j He]; cbn in He; lia.
  - cbn [hex_pairs] in E. apply bind_Some in E as (h & Eh & E). apply bind_Some in E as (l & El & E).
    apply bind_Some in E as (t' & Et & [= <-]).
    destruct (IH t') as [Hr Hx]; [destruct He as [j He]; exists (j - 1)%nat; cbn in He; lia|done|].
    destruct (nibbles_byte h l) as (Hb & E1 & E2); eauto using nibble_range.
    split; [auto|]. cbn [hex_bytes flat_map app map]. unfold hex_bytes in Hx.
    rewrite E1, E2, Hx, (nibble_to_digit _ _ Eh), (nibble_to_digit _ _ El). done.
Qed.

Lemma even_length_test (raw : bytes) :
  (Z.rem (zlen raw) 2 =? 0) = true <-> Nat.Even (length raw).
Proof.
  unfold zlen. rewrite Z.rem_mod_nonneg, Z.eqb_eq by lia. split.
  - intros E. pose proof (Z.div_mod (Z.of_nat (length raw)) 2).
    exists (Z.to_nat (Z.of_nat (length raw) / 2)). lia.
  - intros [j ->]. rewrite Nat2Z.inj_mul, Z.mul_comm. apply Z_mod_mult.
Qed.

Lemma hex_to_bytes_Some s b :
  hex_to_bytes s = Some b <-> Nat.Even (length (str_bytes s)) /\ hex_pairs (str_bytes s) = Some b.
Proof.
  unfold hex_to_bytes. rewrite <- even_length_test.
  destruct (Z.rem _ 2 =? 0); cbn [negb]; [tauto|]. split; [done|intros [? _]; done].
Qed.

Lemma hex_to_bytes_hex (b : bytes) : Forall is_byte b -> hex_to_bytes (hex b) = Some b.
Proof.
  intros Hb. apply hex_to_bytes_Some. unfold hex.
  rewrite str_bytes_str by auto using hex_bytes_range. split; [|by apply hex_pairs_hex].
  rewrite length_hex_bytes. by eexists.
Qed.
(** [hex_to_bytes] inverts [hex]. *)
Theorem hex_roundtrip (b : bytes) : Forall is_byte b -> hex_to_bytes (hex b) = Some b.
Proof. apply hex_to_bytes_hex. Qed.

Lemma lower_hex_digit b :
  is_ascii_digit b || in_range #"a" #"f" b = true -> to_lower b = b /\ exists n, hex_nibble b = Some n.
Proof.
  unfold is_ascii_digit, to_lower, is_ascii_uppercase, hex_nibble, in_range.
  change #"0" with 48. change #"9" with 57. change #"Z" with 90.
  change #"a" with 97. change #"f" with 102. change #"A" with 65. change #"F" with 70.
  intros E. apply orb_true_iff in E as [E|E]; rewrite E; bool_prop;
    rewrite (proj2 (andb_false_iff (65 <=? b) (b <=? 90))) by (rewrite !Z.leb_gt; lia);
    split; try done; [eauto|].
  destruct ((48 <=? b) && (b <=? 57)); eauto.
Qed.
Lemma hex_pairs_total raw :
  Nat.Even (length raw) -> forallb (fun b => is_ascii_digit b || in_range #"a" #"f" b) raw = true ->
  exists b, hex_pairs raw = Some b /\ map to_lower raw = raw.
Proof.
  induction raw as [|x|x y t IH] using pair_byte_ind; intros He E; [eauto|destruct He as [j He]; cbn in He; lia|].
  cbn [forallb] in E. apply andb_true_iff in E as [Ex E]. apply andb_true_iff in E as [Ey E].
  destruct IH as (b & Hb & Hl); [destruct He as [j He]; exists (j - 1)%nat; cbn in He; lia|done|].
  apply lower_hex_digit in Ex as [Lx [n Hn]]. apply lower_hex_digit in Ey as [Ly [k Hk]].
  exists (Z.lor (Z.shiftl n 4) k :: b). cbn. rewrite Hn, Hk, Hb, Lx, Ly, Hl. done.
Qed.
Lemma hex_bytes_lower b :
  Forall is_byte b -> forallb (fun b => is_ascii_digit b || in_range #"a" #"f" b) (hex_bytes b) = true.
Proof.
  assert (forall n, 0 <= n < 16 -> is_ascii_digit (hex_digit n) || in_range #"a" #"f" (hex_digit n) = true) as Hd.
  { intros n Hn. unfold hex_digit, is_ascii_digit, in_range.
    change #"0" with 48. change #"9" with 57. change #"a" with 97. change #"f" with 102.
    destruct (n <? 10) eqn:E; bool_prop; lia. }
  induction 1 as [|x b Hx _ IH]; [done|]. destruct (byte_nibbles x Hx) as (Hh & Hl & _).
  cbn [hex_bytes flat_map app forallb]. rewrite !Hd by done. exact IH.
Qed.

(** The digests the wire formats admit ([lower_sha256]) are exactly the [hex] of 32 bytes. *)
Theorem lower_sha256_exact (s : string) :
  lower_sha256 s = true <-> exists b, Forall is_byte b /\ length b = 32%nat /\ s = hex b.
Proof.
  unfold lower_sha256. rewrite andb_true_iff, Z.eqb_eq, <- length_str_bytes. unfold zlen. split.
  - intros [Hl Hd]. assert (Nat.Even (length (str_bytes s))) as He by (exists 32%nat; lia).
    destruct (hex_pairs_total _ He Hd) as (b & Hb & Hlow).
    destruct (hex_pairs_lower _ _ He Hb) as [Hr Hx]. exists b. split_and!; [done| |].
    + pose proof (length_hex_bytes b). rewrite Hx, Hlow in H. lia.
    + unfold hex. rewrite Hx, Hlow. symmetry. apply bytes_str_bytes.
  - intros (b & Hb & Hl & ->). unfold hex. rewrite str_bytes_str by auto using hex_bytes_range.
    rewrite length_hex_bytes, hex_bytes_lower by done. split; [lia|done].
Qed.
