(* ===== verification/Unicode.v ===== *)
(** * Unicode: the characters of a string name it

    The UTF-8 encoder, the inverse of [utf8_chars] on what [str::from_utf8] accepts, and the
    UTF-16 units of a character. *)
From S2P Require Import Prelude Text.

(** A Unicode scalar value: no surrogate. *)
Definition scalar (c : Z) : Prop := 0 <= c < 55296 \/ 57344 <= c < 1114112.

Definition utf8_encode (c : Z) : bytes :=
  if c <? 128 then [c]
  else if c <? 2048 then [192 + c / 64; 128 + c mod 64]
  else if c <? 65536 then [224 + c / 4096; 128 + c / 64 mod 64; 128 + c mod 64]
  else [240 + c / 262144; 128 + c / 4096 mod 64; 128 + c / 64 mod 64; 128 + c mod 64].

Lemma cont_range b : cont b = true <-> 128 <= b < 192.
Proof. unfold cont, in_range. rewrite andb_true_iff, !Z.leb_le. lia. Qed.
Lemma in_range_true lo hi b : in_range lo hi b = true <-> lo <= b <= hi.
Proof. unfold in_range. rewrite andb_true_iff, !Z.leb_le. lia. Qed.

(** One character of a valid text: its bytes are its encoding. *)
Lemma utf8_first b : utf8_valid b = true -> Forall is_byte b -> b <> [] ->
  exists c t, b = utf8_encode c ++ t /\ utf8_chars b = c :: utf8_chars t /\ scalar c /\ utf8_valid t = true.
Proof.
  destruct b as [|x t]; [done|]. intros Hv [Hx Ht]%Forall_cons _. cbn [utf8_valid utf8_chars] in *. unfold is_byte in Hx.
  destruct (Z.ltb_spec x 128) as [H1|H1].
  { exists x, t. unfold utf8_encode. rewrite (proj2 (Z.ltb_lt x 128)) by lia. split_and!; try done. left. lia. }
  destruct (in_range 194 223 x) eqn:E2.
  { apply in_range_true in E2. destruct t as [|y t]; [done|]. apply andb_true_iff in Hv as [Hy%cont_range Hv].
    rewrite (proj2 (Z.ltb_lt x 224)) by lia. exists ((x - 192) * 64 + (y - 128)), t. split_and!; try done; [|left; lia].
    unfold utf8_encode. rewrite (proj2 (Z.ltb_ge _ 128)), (proj2 (Z.ltb_lt _ 2048)) by lia.
    cbn [app]. f_equal; [|f_equal]; Z.to_euclidean_division_equations; lia. }
  destruct (in_range 224 239 x) eqn:E3.
  { apply in_range_true in E3. destruct t as [|y [|z t]]; try done. apply andb_true_iff in Hv as [[Hy Hz%cont_range]%andb_true_iff Hv].
    rewrite (proj2 (Z.ltb_ge x 224)), (proj2 (Z.ltb_lt x 240)) by lia.
    assert (128 <= y < 192 /\ (x = 224 -> 160 <= y) /\ (x = 237 -> y < 160)) as (Hy' & H224 & H237).
    { destruct (Z.eqb_spec x 224); [|destruct (Z.eqb_spec x 237)]; rewrite ?in_range_true, ?cont_range in Hy; lia. }
    exists ((x - 224) * 4096 + (y - 128) * 64 + (z - 128)), t. split_and!; try done; [|unfold scalar; lia].
    unfold utf8_encode. rewrite (proj2 (Z.ltb_ge _ 128)), (proj2 (Z.ltb_ge _ 2048)), (proj2 (Z.ltb_lt _ 65536)) by lia.
    cbn [app]. f_equal; [|f_equal; [|f_equal]]; Z.to_euclidean_division_equations; lia. }
  destruct (in_range 240 244 x) eqn:E4; [|done]. apply in_range_true in E4. destruct t as [|y [|z [|w t]]]; try done.
  apply andb_true_iff in Hv as [[[Hy Hz%cont_range]%andb_true_iff Hw%cont_range]%andb_true_iff Hv].
  rewrite (proj2 (Z.ltb_ge x 224)), (proj2 (Z.ltb_ge x 240)) by lia.
  assert (128 <= y < 192 /\ (x = 240 -> 144 <= y) /\ (x = 244 -> y < 144)) as (Hy' & H240 & H244).
  { destruct (Z.eqb_spec x 240); [|destruct (Z.eqb_spec x 244)]; rewrite ?in_range_true, ?cont_range in Hy; lia. }
  exists ((x - 240) * 262144 + (y - 128) * 4096 + (z - 128) * 64 + (w - 128)), t. split_and!; try done; [|unfold scalar; lia].
  unfold utf8_encode. rewrite (proj2 (Z.ltb_ge _ 128)), (proj2 (Z.ltb_ge _ 2048)), (proj2 (Z.ltb_ge _ 65536)) by lia.
  cbn [app]. f_equal; [|f_equal; [|f_equal; [|f_equal]]]; Z.to_euclidean_division_equations; lia.
Qed.

Lemma utf8_encode_length c : (0 < length (utf8_encode c))%nat.
Proof. unfold utf8_encode. repeat case_match; cbn; lia. Qed.

(** A valid text is the encoding of its characters, and they are scalar values. *)
Lemma utf8_chars_encode b : utf8_valid b = true -> Forall is_byte b ->
  b = flat_map utf8_encode (utf8_chars b) /\ Forall scalar (utf8_chars b).
Proof.
  induction b as [b IH] using (induction_ltof1 _ (@length Z)). intros Hv Hb.
  destruct (decide (b = [])) as [->|Hne]; [by repeat constructor|].
  destruct (utf8_first b Hv Hb Hne) as (c & t & Eb & Ec & Hs & Ht). rewrite Eb in Hb. apply Forall_app in Hb as [_ Hb].
  destruct (IH t) as [Et Hf]; [|done..|].
  - unfold ltof. rewrite Eb, length_app. pose proof (utf8_encode_length c). lia.
  - rewrite Ec. cbn [flat_map]. rewrite <- Et. split; [done|by constructor].
Qed.
Lemma chars_inj s t : utf8_valid (str_bytes s) = true -> utf8_valid (str_bytes t) = true -> chars s = chars t -> s = t.
Proof.
  intros Hs Ht E. destruct (utf8_chars_encode _ Hs (str_bytes_range s)) as [Es _], (utf8_chars_encode _ Ht (str_bytes_range t)) as [Et _].
  apply str_bytes_inj. unfold chars in E. congruence.
Qed.

(** Reading an encoded character back. *)
Lemma utf8_chars_app c r : scalar c -> utf8_chars (utf8_encode c ++ r) = c :: utf8_chars r.
Proof.
  unfold scalar, utf8_encode. intros Hc. destruct (Z.ltb_spec c 128) as [H1|H1].
  { cbn [app utf8_chars]. by rewrite (proj2 (Z.ltb_lt c 128)) by lia. }
  destruct (Z.ltb_spec c 2048) as [H2|H2].
  { cbn [app utf8_chars]. rewrite (proj2 (Z.ltb_ge _ 128)), (proj2 (Z.ltb_lt _ 224)) by (Z.to_euclidean_division_equations; lia).
    f_equal. Z.to_euclidean_division_equations; lia. }
  destruct (Z.ltb_spec c 65536) as [H3|H3].
  { cbn [app utf8_chars].
    rewrite (proj2 (Z.ltb_ge _ 128)), (proj2 (Z.ltb_ge _ 224)), (proj2 (Z.ltb_lt _ 240)) by (Z.to_euclidean_division_equations; lia).
    f_equal. Z.to_euclidean_division_equations; lia. }
  cbn [app utf8_chars].
  rewrite (proj2 (Z.ltb_ge _ 128)), (proj2 (Z.ltb_ge _ 224)), (proj2 (Z.ltb_ge _ 240)) by (Z.to_euclidean_division_equations; lia).
  f_equal. Z.to_euclidean_division_equations; lia.
Qed.
Lemma utf8_chars_ascii a r : Forall (fun b => b < 128) a -> utf8_chars (a ++ r) = a ++ utf8_chars r.
Proof.
  induction 1 as [|b a Hb _ IH]; [done|]. cbn [app utf8_chars]. rewrite (proj2 (Z.ltb_lt b 128)) by lia. by rewrite IH.
Qed.
