(* ===== verification/Json.v ===== *)
(** * Json: the [serde_json::Value] the verifier reads

    The data type, its accessors as serde_json documents them, and the bounded
    walks of lib.rs and jcs.rs over it.  An object is a [BTreeMap] (the crate is
    built without [preserve_order]): an association list in strictly increasing
    byte order of its keys ([json_wf]).  What serde_json does to bytes (its
    parsers and its string writer) is the class [Serde]. *)
From S2P Require Import Prelude Text.

(** ** Data *)

(** [serde_json::Number]: a [u64], a negative [i64], or a finite binary64. *)
Inductive number :=
| PosInt (n : Z)
| NegInt (n : Z)
| Float (f : spec_float).

Inductive json :=
| JNull
| JBool (b : bool)
| JNumber (n : number)
| JString (s : string)
| JArray (l : list json)
| JObject (m : list (string * json)).

Section JsonInd.
Context (P : json -> Prop).
Context (Hnull : P JNull) (Hbool : forall b, P (JBool b)) (Hnum : forall n, P (JNumber n))
  (Hstr : forall s, P (JString s)) (Harr : forall l, Forall P l -> P (JArray l))
  (Hobj : forall m, Forall (fun kv => P kv.2) m -> P (JObject m)).
Fixpoint json_ind' (v : json) : P v :=
  match v with
  | JNull => Hnull
  | JBool b => Hbool b
  | JNumber n => Hnum n
  | JString s => Hstr s
  | JArray l => Harr l ((fix go l : Forall P l :=
      match l with [] => @List.Forall_nil _ P | x :: t => @List.Forall_cons _ P x t (json_ind' x) (go t) end) l)
  | JObject m => Hobj m ((fix go m : Forall (fun kv => P kv.2) m :=
      match m with [] => @List.Forall_nil _ _ | kv :: t => @List.Forall_cons _ (fun kv => P kv.2) kv t (json_ind' kv.2) (go t) end) m)
  end.
End JsonInd.

(** ** Numbers *)

(** [n as f64], rounding to nearest even. *)
Definition f64_of_int (n : Z) : spec_float := binary_normalize 53 1024 n 0 false.
Definition f64_is_finite (f : spec_float) : bool :=
  match f with S754_infinity _ | S754_nan => false | _ => true end.

Definition is_i64 (n : number) : bool :=
  match n with PosInt v => v <=? I64_MAX | NegInt _ => true | Float _ => false end.
Definition num_is_u64 (n : number) : bool := match n with PosInt _ => true | _ => false end.
Definition is_f64 (n : number) : bool := match n with Float _ => true | _ => false end.
Definition num_as_i64 (n : number) : option Z :=
  match n with
  | PosInt v => then_some (v <=? I64_MAX) v
  | NegInt v => Some v
  | Float _ => None
  end.
Definition num_as_u64 (n : number) : option Z := match n with PosInt v => Some v | _ => None end.
Definition num_as_f64 (n : number) : option spec_float :=
  match n with PosInt v | NegInt v => Some (f64_of_int v) | Float f => Some f end.
(** [Number::from_f64]. *)
Definition num_from_f64 (f : spec_float) : option number := then_some (f64_is_finite f) (Float f).
(** [Number::from(u64)] and [Number::from(i64)]. *)
Definition num_of_int (n : Z) : number := if n <? 0 then NegInt n else PosInt n.

Definition number_eqb (a b : number) : bool :=
  match a, b with
  | PosInt x, PosInt y | NegInt x, NegInt y => x =? y
  | Float x, Float y => SFeqb x y
  | _, _ => false
  end.

(** ** Objects as [BTreeMap<String, Value>] *)

Fixpoint obj_get {A} (m : list (string * A)) (k : string) : option A :=
  match m with
  | [] => None
  | (k', v) :: t => if String.eqb k k' then Some v else obj_get t k
  end.
Definition contains_key {A} (m : list (string * A)) (k : string) : bool := is_some (obj_get m k).
Fixpoint obj_insert {A} (m : list (string * A)) (k : string) (v : A) : list (string * A) :=
  match m with
  | [] => [(k, v)]
  | (k', v') :: t =>
      if String.eqb k k' then (k, v) :: t
      else if str_ltb k k' then (k, v) :: m
      else (k', v') :: obj_insert t k v
  end.
Definition obj_remove {A} (m : list (string * A)) (k : string) : list (string * A) :=
  List.filter (fun kv => negb (String.eqb k kv.1)) m.

(** The order invariant of a [BTreeMap], checked. *)
Fixpoint keys_sorted {A} (m : list (string * A)) : bool :=
  match m with
  | (k, _) :: ((k', _) :: _) as t => str_ltb k k' && keys_sorted t
  | _ => true
  end.
Fixpoint json_wf (v : json) : bool :=
  match v with
  | JArray l => forallb json_wf l
  | JObject m => keys_sorted m && forallb (fun kv => json_wf kv.2) m
  | JNumber (PosInt n) => (0 <=? n) && (n <=? U64_MAX)
  | JNumber (NegInt n) => (I64_MIN <=? n) && (n <? 0)
  | JNumber (Float f) => f64_is_finite f
  | _ => true
  end.

(** ** Accessors *)

Definition as_str (v : json) : option string := match v with JString s => Some s | _ => None end.
Definition as_bool (v : json) : option bool := match v with JBool b => Some b | _ => None end.
Definition as_array (v : json) : option (list json) := match v with JArray l => Some l | _ => None end.
Definition as_object (v : json) : option (list (string * json)) :=
  match v with JObject m => Some m | _ => None end.
Definition as_u64 (v : json) : option Z := match v with JNumber n => num_as_u64 n | _ => None end.
Definition as_i64 (v : json) : option Z := match v with JNumber n => num_as_i64 n | _ => None end.
Definition is_object (v : json) : bool := is_some (as_object v).
Definition is_string (v : json) : bool := is_some (as_str v).
Definition is_boolean (v : json) : bool := is_some (as_bool v).
Definition is_null (v : json) : bool := match v with JNull => true | _ => false end.
Definition is_u64_value (v : json) : bool := is_some (as_u64 v).

(** [v.get(k)], and [v[k]], which is [Null] where [get] is [None]. *)
Definition get (v : json) (k : string) : option json := m ← as_object v; obj_get m k.
Definition idx (v : json) (k : string) : json := unwrap_or (get v k) JNull.

(** The chains the sources write over and over: [v.get(k).and_then(Value::as_str)] and so on. *)
Definition get_str (v : json) (k : string) : option string := x ← get v k; as_str x.
Definition get_u64 (v : json) (k : string) : option Z := x ← get v k; as_u64 x.
Definition get_i64 (v : json) (k : string) : option Z := x ← get v k; as_i64 x.
Definition get_array (v : json) (k : string) : option (list json) := x ← get v k; as_array x.
Definition get_object (v : json) (k : string) : option (list (string * json)) := x ← get v k; as_object x.

(** [==] on values. *)
Fixpoint json_eqb (a b : json) {struct a} : bool :=
  match a, b with
  | JNull, JNull => true
  | JBool x, JBool y => Bool.eqb x y
  | JNumber x, JNumber y => number_eqb x y
  | JString x, JString y => String.eqb x y
  | JArray l, JArray k =>
      (fix go l k := match l, k with
        | [], [] => true
        | x :: l, y :: k => json_eqb x y && go l k
        | _, _ => false
        end) l k
  | JObject m, JObject n =>
      (fix go m n := match m, n with
        | [], [] => true
        | (i, x) :: m, (j, y) :: n => String.eqb i j && json_eqb x y && go m n
        | _, _ => false
        end) m n
  | _, _ => false
  end.
(** [==] on [Option<&Value>] and [Option<&str>]. *)
Definition opt_json_eqb (a b : option json) : bool :=
  match a, b with Some x, Some y => json_eqb x y | None, None => true | _, _ => false end.
Definition opt_str_eqb (a b : option string) : bool := bool_decide (a = b).
Definition is_str (v : json) (s : string) : bool :=
  match v with JString t => String.eqb t s | _ => false end.

(** [json!] values. *)
Definition json_of_list (l : list (string * json)) : json := JObject (foldl (fun m kv => obj_insert m kv.1 kv.2) [] l).
Definition json_of_opt (o : option string) : json := match o with Some s => JString s | None => JNull end.

(** lib.rs [fn depth_exceeds]. *)
Fixpoint depth_exceeds (v : json) (limit : Z) : bool :=
  if limit <? 0 then true else
  match v with
  | JArray a => existsb (fun x => depth_exceeds x (limit - 1)) a
  | JObject m => existsb (fun kv => depth_exceeds kv.2 (limit - 1)) m
  | _ => false
  end.

(** ** serde_json at the byte boundary *)

(** What a deserializer drives a visitor with: one token tree, members in
    document order and with their duplicates. *)
Inductive event :=
| EvUnit
| EvBool (b : bool)
| EvI64 (n : Z)
| EvU64 (n : Z)
| EvF64 (f : spec_float)
| EvStr (s : string)
| EvSeq (l : list event)
| EvMap (m : list (string * event)).

Class Serde := {
  (** [serde_json::from_slice::<Value>(raw).ok()]. *)
  from_slice : bytes -> option json;
  (** The event tree of [Deserializer::from_slice(raw)] up to a successful [end()]. *)
  deserialize_events : bytes -> option event;
  (** [serde_json::to_writer] of a string. *)
  write_string : string -> bytes;
  (** [ryu_js::Buffer::format_finite]. *)
  format_finite : spec_float -> string;
}.

(** ** Lookups in built objects *)

Lemma obj_get_insert {A} (m : list (string * A)) k v k' :
  obj_get (obj_insert m k v) k' = if String.eqb k' k then Some v else obj_get m k'.
Proof.
  induction m as [|[i x] m IH]; cbn; [done|].
  destruct (String.eqb_spec k i) as [->|Hki]; cbn.
  - destruct (String.eqb k' i); done.
  - destruct (str_ltb k i); cbn; [done|]. rewrite IH.
    destruct (String.eqb_spec k' i) as [->|]; [|done].
    destruct (String.eqb_spec i k) as [->|]; [done|]. done.
Qed.

Lemma obj_get_app {A} (m n : list (string * A)) k :
  obj_get (m ++ n) k = match obj_get m k with Some x => Some x | None => obj_get n k end.
Proof. induction m as [|[i x] m IH]; cbn; [done|]. by destruct (String.eqb k i). Qed.

Lemma get_json_of_list l k : get (json_of_list l) k = obj_get (rev l) k.
Proof.
  unfold json_of_list, get. cbn [as_object mbind option_bind].
  assert (forall m, obj_get (foldl (fun m kv => obj_insert m kv.1 kv.2) m l) k
    = match obj_get (rev l) k with Some x => Some x | None => obj_get m k end) as ->;
    [|by destruct (obj_get (rev l) k)].
  induction l as [|[i x] l IH]; intros m; cbn; [done|].
  rewrite IH, obj_get_insert, obj_get_app. cbn.
  destruct (obj_get (rev l) k); [done|]. destruct (String.eqb k i); done.
Qed.
