(* ===== verification/Jcs.v ===== *)
(** * Jcs: RFC 8785 canonical JSON (jcs.rs)

    Every signature of the bundle format is over these bytes.  Numbers outside
    the interoperable domain and nesting past [MAX_DEPTH] have no canonical form. *)
From S2P Require Import Prelude Text Json.

Definition MAX_DEPTH : Z := 64.
Definition MAX_SAFE_INTEGER : Z := 9007199254740991.

(** [(-MAX_SAFE_INTEGER..=MAX_SAFE_INTEGER).contains(&value)]. *)
Definition safe_range (value : Z) : bool := in_range (- MAX_SAFE_INTEGER) MAX_SAFE_INTEGER value.

(** [fn utf16_cmp], as the [<=] that [sort_by] sorts with. *)
Definition utf16_leb (a b : string) : bool := bytes_leb (encode_utf16 a) (encode_utf16 b).

(** The separator loop [if i > 0 { out.push(b',') }]. *)
Fixpoint join_comma (parts : list bytes) : bytes :=
  match parts with
  | [] => []
  | [p] => p
  | p :: t => p ++ [ #"," ] ++ join_comma t
  end.

Section Jcs.
Context {S : Serde}.

(** [fn number_text]. *)
Definition number_text (number : number) : option string :=
  if is_i64 number then
    value ← opt_filter (num_as_i64 number) safe_range; Some (int_to_string value)
  else if num_is_u64 number then
    value ← opt_filter (num_as_u64 number) (fun value => value <=? MAX_SAFE_INTEGER);
    Some (int_to_string value)
  else
    value ← opt_filter (num_as_f64 number) f64_is_finite; Some (format_finite value).

(** [fn numbers_match]. *)
Fixpoint numbers_match (v : json) (integers_only : bool) (limit : Z) : bool :=
  if limit <? 0 then false else
  match v with
  | JNumber number => (negb integers_only || negb (is_f64 number)) && is_some (number_text number)
  | JArray items => forallb (fun item => numbers_match item integers_only (limit - 1)) items
  | JObject items => forallb (fun kv => numbers_match kv.2 integers_only (limit - 1)) items
  | _ => true
  end.

(** [fn numbers_within_profile]. *)
Definition numbers_within_profile (v : json) : bool := numbers_match v false MAX_DEPTH.

(** [fn promote_jcs_integer_lexemes]: the promoted value, [None] for [false]. *)
Definition promote_number (number : number) : option json :=
  if is_some_and (num_as_i64 number) (fun value => negb (safe_range value))
     || is_some_and (num_as_u64 number) (fun value => MAX_SAFE_INTEGER <? value)
  then f ← num_as_f64 number; promoted ← num_from_f64 f; Some (JNumber promoted)
  else Some (JNumber number).
Fixpoint promote_jcs_integer_lexemes (v : json) : option json :=
  match v with
  | JNumber number => promote_number number
  | JArray items => JArray <$> mapM promote_jcs_integer_lexemes items
  | JObject items =>
      JObject <$> mapM (fun kv => x ← promote_jcs_integer_lexemes kv.2; Some (kv.1, x)) items
  | v => Some v
  end.

(** [fn write_value]: the bytes appended to [out], [None] for [false]. *)
Fixpoint write_value (v : json) (limit : Z) : option bytes :=
  if limit <? 0 then None else
  match v with
  | JNull => Some (str_bytes "null")
  | JBool b => Some (str_bytes (if b then "true" else "false"))
  | JString s => Some (write_string s)
  | JNumber number => text ← number_text number; Some (str_bytes text)
  | JArray a =>
      parts ← mapM (fun e => write_value e (limit - 1)) a;
      Some ([ #"[" ] ++ join_comma parts ++ [ #"]" ])
  | JObject m =>
      parts ← mapM (fun kv => t ← write_value kv.2 (limit - 1); Some (kv.1, t)) m;
      let sorted := sort_by (fun a b => utf16_leb a.1 b.1) parts in
      Some ([ #"{" ] ++ join_comma (map (fun kt => write_string kt.1 ++ [ #":" ] ++ kt.2) sorted) ++ [ #"}" ])
  end.

(** [fn canonical_checked]. *)
Definition canonical_checked (v : json) : option bytes := write_value v MAX_DEPTH.

(** [fn canonical_integer_checked]. *)
Definition canonical_integer_checked (v : json) : option bytes :=
  if numbers_match v true MAX_DEPTH then canonical_checked v else None.
End Jcs.

(** ** Laws of the serializers this module relies on *)

Definition number_byte (b : u8) : bool :=
  is_ascii_digit b || (b =? #"-") || (b =? #"+") || (b =? #".") || (b =? #"e").

Class SerdeLaws {S : Serde} : Prop := {
  (** A JSON string literal is quoted (byte 34) and self-delimiting, and says which string it is. *)
  write_string_quote : forall s, exists t, write_string s = 34 :: t;
  write_string_prefix : forall s t r r',
    write_string s ++ r = write_string t ++ r' -> s = t /\ r = r';
  (** ECMAScript [Number::toString] of a finite number is a numeric literal. *)
  format_finite_text : forall f, f64_is_finite f = true ->
    exists c t, str_bytes (format_finite f) = c :: t /\ number_byte c = true /\
      forallb number_byte t = true;
}.

(** ** Where a canonical form exists *)
Section Totality.
Context {S : Serde}.

Lemma numbers_match_unfold v b limit :
  numbers_match v b limit = if limit <? 0 then false else
  match v with
  | JNumber n => (negb b || negb (is_f64 n)) && is_some (number_text n)
  | JArray l => forallb (fun x => numbers_match x b (limit - 1)) l
  | JObject m => forallb (fun kv => numbers_match kv.2 b (limit - 1)) m
  | _ => true
  end.
Proof. destruct v; reflexivity. Qed.
Lemma write_value_unfold v limit :
  write_value v limit = if limit <? 0 then None else
  match v with
  | JNull => Some (str_bytes "null")
  | JBool b => Some (str_bytes (if b then "true" else "false"))
  | JString s => Some (write_string s)
  | JNumber number => text ← number_text number; Some (str_bytes text)
  | JArray a =>
      parts ← mapM (fun e => write_value e (limit - 1)) a;
      Some ([ #"[" ] ++ join_comma parts ++ [ #"]" ])
  | JObject m =>
      parts ← mapM (fun kv => t ← write_value kv.2 (limit - 1); Some (kv.1, t)) m;
      let sorted := sort_by (fun a b => utf16_leb a.1 b.1) parts in
      Some ([ #"{" ] ++ join_comma (map (fun kt => write_string kt.1 ++ [ #":" ] ++ kt.2) sorted) ++ [ #"}" ])
  end.
Proof. destruct v; reflexivity. Qed.

Lemma is_some_mapM {A B} (f : A -> option B) (g : A -> bool) l :
  Forall (fun x => is_some (f x) = g x) l -> is_some (mapM f l) = forallb g l.
Proof.
  induction 1 as [|x t Hx _ IH]; [done|]. cbn [mapM forallb]. rewrite <- Hx, <- IH.
  destruct (f x); cbn; [|done]. destruct (mapM f t); done.
Qed.

Lemma is_some_bind {A B} (o : option A) (f : A -> B) : is_some (x ← o; Some (f x)) = is_some o.
Proof. destruct o; done. Qed.

(** A value has a canonical form exactly when [numbers_within_profile] admits it,
    so the resource gate and every later canonicalization agree. *)
Theorem canonical_exists_iff_within_profile (v : json) :
  is_some (canonical_checked v) = numbers_within_profile v.
Proof.
  unfold canonical_checked, numbers_within_profile. generalize MAX_DEPTH as limit.
  induction v as [| | | |l IH|m IH] using json_ind'; intros limit;
    rewrite write_value_unfold, numbers_match_unfold; destruct (limit <? 0); try done.
  - cbn. apply is_some_bind.
  - rewrite is_some_bind. apply is_some_mapM. eapply Forall_impl; [exact IH|]. intros x Hx; apply Hx.
  - rewrite is_some_bind. apply is_some_mapM. eapply Forall_impl; [exact IH|].
    intros [k x] Hx; cbn in *. rewrite is_some_bind. apply Hx.
Qed.

Lemma depth_exceeds_unfold v limit :
  depth_exceeds v limit = if limit <? 0 then true else
  match v with
  | JArray a => existsb (fun x => depth_exceeds x (limit - 1)) a
  | JObject m => existsb (fun kv => depth_exceeds kv.2 (limit - 1)) m
  | _ => false
  end.
Proof. destruct v; reflexivity. Qed.

Lemma forallb_existsb_false {A} (f g : A -> bool) l :
  Forall (fun x => f x = true -> g x = false) l -> forallb f l = true -> existsb g l = false.
Proof.
  induction 1 as [|x t Hx _ IH]; [done|]. cbn. intros E. apply andb_true_iff in E as [? ?].
  rewrite Hx, IH; done.
Qed.

Lemma numbers_match_depth v b limit : numbers_match v b limit = true -> depth_exceeds v limit = false.
Proof.
  revert limit. induction v as [| | | |l IH|m IH] using json_ind'; intros limit;
    rewrite numbers_match_unfold, depth_exceeds_unfold; destruct (limit <? 0); try done;
    apply forallb_existsb_false; (eapply Forall_impl; [exact IH|]); intros x Hx; apply Hx.
Qed.
End Totality.

(** ** Promotion of integer lexemes *)
Section Promotion.
Context {S : Serde}.

(** No integer outside the interoperable domain is left. *)
Fixpoint integers_safe (v : json) : bool :=
  match v with
  | JNumber n => is_none_or (num_as_i64 n) safe_range && is_none_or (num_as_u64 n) (fun x => x <=? MAX_SAFE_INTEGER)
  | JArray l => forallb integers_safe l
  | JObject m => forallb (fun kv => integers_safe kv.2) m
  | _ => true
  end.

Lemma promote_number_safe n v : promote_number n = Some v -> integers_safe v = true.
Proof.
  unfold promote_number.
  destruct (is_some_and (num_as_i64 n) _) eqn:E1; [|destruct (is_some_and (num_as_u64 n) _) eqn:E2]; cbn.
  - intros Hb. apply bind_Some in Hb as (f & _ & Hb). apply bind_Some in Hb as (p & Hp & [= <-]).
    unfold num_from_f64 in Hp. apply then_some_Some in Hp as [_ <-]. done.
  - intros Hb. apply bind_Some in Hb as (f & _ & Hb). apply bind_Some in Hb as (p & Hp & [= <-]).
    unfold num_from_f64 in Hp. apply then_some_Some in Hp as [_ <-]. done.
  - intros [= <-]. cbn. destruct (num_as_i64 n); cbn in *; [apply negb_false_iff in E1; rewrite E1|];
      destruct (num_as_u64 n); cbn in *; auto; rewrite Z.ltb_antisym, negb_false_iff in E2; auto.
Qed.

Lemma mapM_forallb {A B} (f : A -> option B) (g : B -> bool) l k :
  Forall (fun x => forall y, f x = Some y -> g y = true) l -> mapM f l = Some k -> forallb g k = true.
Proof.
  intros Hf Hm. apply mapM_Some in Hm. induction Hm as [|x y l k Hxy _ IH]; [done|].
  inversion Hf; subst. cbn. apply andb_true_iff; auto.
Qed.

(** Promotion leaves no integer outside the exact domain, and changes nothing
    in a value that already has none. *)
Theorem promote_establishes_safe (v v' : json) :
  (promote_jcs_integer_lexemes v = Some v' -> integers_safe v' = true) /\
  (integers_safe v = true -> promote_jcs_integer_lexemes v = Some v).
Proof.
  revert v'. induction v as [|b|n|s|l IH|m IH] using json_ind'; intros v'; cbn; split; try congruence;
    try (intros [= <-]; done).
  - apply promote_number_safe.
  - unfold promote_number. intros E. apply andb_true_iff in E as [E1 E2].
    destruct (num_as_i64 n); cbn in *; rewrite ?E1; destruct (num_as_u64 n); cbn in *; try done;
      rewrite Z.ltb_antisym, E2; done.
  - intros Hm. apply fmap_Some in Hm as (k & Hk & ->). cbn. eapply mapM_forallb; [|exact Hk].
    eapply Forall_impl; [exact IH|]. intros x Hx y. apply Hx.
  - intros Hs. assert (mapM promote_jcs_integer_lexemes l = Some l) as ->; [|done].
    apply mapM_Some. apply Forall_Forall2_diag.
    rewrite Forall_forall in IH |- *. intros x Hx. apply (IH x Hx x).
    rewrite forallb_forall in Hs. apply Hs. by apply list_elem_of_In.
  - intros Hm. apply fmap_Some in Hm as (k & Hk & ->). cbn. eapply mapM_forallb; [|exact Hk].
    eapply Forall_impl; [exact IH|]. intros [i x] Hx [j y] Hy. cbn in *.
    apply bind_Some in Hy as (z & Hz & [= <- <-]). by apply (Hx z).
  - intros Hs. assert (mapM (fun kv => x ← promote_jcs_integer_lexemes kv.2; Some (kv.1, x)) m = Some m) as ->; [|done].
    apply mapM_Some. apply Forall_Forall2_diag.
    rewrite Forall_forall in IH |- *. intros [i x] Hx. cbn.
    rewrite forallb_forall in Hs. apply list_elem_of_In in Hx as Hin. apply Hs in Hin.
    apply (IH _ Hx x) in Hin. cbn in Hin. rewrite Hin. done.
Qed.
End Promotion.

(** ** The canonical bytes determine the value *)

(** Equal up to the spelling of a number. *)
Inductive jcs_equiv {S : Serde} : json -> json -> Prop :=
| equiv_null : jcs_equiv JNull JNull
| equiv_bool b : jcs_equiv (JBool b) (JBool b)
| equiv_number n m t :
    number_text n = Some t -> number_text m = Some t -> jcs_equiv (JNumber n) (JNumber m)
| equiv_string s : jcs_equiv (JString s) (JString s)
| equiv_array l k : Forall2 jcs_equiv l k -> jcs_equiv (JArray l) (JArray k)
| equiv_object m n :
    Forall2 (fun a b => a.1 = b.1 /\ jcs_equiv a.2 b.2) m n -> jcs_equiv (JObject m) (JObject n).

Definition delimiter (b : u8) : bool := (b =? 44) || (b =? 93) || (b =? 125).
Definition delimited (r : bytes) : Prop := match r with [] => True | c :: _ => delimiter c = true end.

Lemma delimiter_not_number c : delimiter c = true -> number_byte c = false.
Proof.
  unfold delimiter. intros E. rewrite !orb_true_iff, !Z.eqb_eq in E.
  destruct E as [[-> | ->] | ->]; reflexivity.
Qed.

Lemma split_run (p : u8 -> bool) a b r r' :
  forallb p a = true -> forallb p b = true ->
  match r with [] => True | c :: _ => p c = false end ->
  match r' with [] => True | c :: _ => p c = false end ->
  a ++ r = b ++ r' -> a = b /\ r = r'.
Proof.
  revert b. induction a as [|x a IH]; intros [|y b]; cbn; intros Ha Hb Hr Hr' E; subst; auto.
  - apply andb_true_iff in Hb as [? ?]. congruence.
  - apply andb_true_iff in Ha as [? ?]. congruence.
  - injection E as -> E. apply andb_true_iff in Ha as [_ ?], Hb as [_ ?].
    destruct (IH b) as [-> ->]; auto.
Qed.

Section IntText.
Lemma string_bytes_app a b : str_bytes (a +:+ b) = str_bytes a ++ str_bytes b.
Proof.
  induction a as [|c a IH]; [done|]. change (String c a +:+ b) with (String c (a +:+ b)).
  unfold str_bytes in *. cbn [list_ascii_of_string map app]. by rewrite IH.
Qed.
Lemma digit_char x : number_byte (ascii_byte (pretty_N_char x)) = true.
Proof. unfold pretty_N_char. repeat case_match; reflexivity. Qed.
Lemma pretty_N_go_bytes (x : N) (s : string) :
  forallb number_byte (str_bytes s) = true ->
  forallb number_byte (str_bytes (pretty_N_go x s)) = true /\
  (length (str_bytes s) <= length (str_bytes (pretty_N_go x s)))%nat.
Proof.
  revert s. induction (N.lt_wf_0 x) as [x _ IH]; intros s Hs.
  destruct (decide (x = 0)%N) as [->|Hx]; [rewrite pretty_N_go_0; auto|].
  rewrite pretty_N_go_step by lia.
  destruct (IH (x `div` 10)%N ltac:(apply N.div_lt; lia)
    (String (pretty_N_char (x `mod` 10)) s)) as [? Hl].
  { cbn -[N.modulo]. rewrite digit_char. exact Hs. }
  split; [done|]. etransitivity; [|exact Hl]. apply Nat.le_succ_diag_r.
Qed.
Lemma pretty_N_bytes (x : N) :
  forallb number_byte (str_bytes (pretty x)) = true /\ str_bytes (pretty x) <> [].
Proof.
  unfold pretty, pretty_N. destruct (decide (x = 0)%N) as [|Hx]; [split; done|].
  split; [by apply pretty_N_go_bytes|]. rewrite pretty_N_go_step by lia.
  destruct (pretty_N_go_bytes (x `div` 10)%N (String (pretty_N_char (x `mod` 10)) EmptyString)) as [_ Hl].
  { cbn -[N.modulo]. by rewrite digit_char. }
  intros E. rewrite E in Hl. apply Nat.nle_succ_0 in Hl. done.
Qed.
Lemma int_text n :
  exists c t, str_bytes (int_to_string n) = c :: t /\ number_byte c = true /\
    forallb number_byte t = true.
Proof.
  assert (forall b, forallb number_byte b = true -> b <> [] ->
    exists c t, b = c :: t /\ number_byte c = true /\ forallb number_byte t = true) as Hne.
  { intros [|c t]; cbn; [done|]. intros E _. apply andb_true_iff in E as [? ?]. eauto. }
  unfold int_to_string. destruct n as [|p|p]; apply Hne; try done.
  - apply (pretty_N_bytes (N.pos p)).
  - apply (pretty_N_bytes (N.pos p)).
  - change (pretty (Z.neg p)) with ("-" +:+ pretty (N.pos p)). rewrite string_bytes_app.
    apply (pretty_N_bytes (N.pos p)).
Qed.
Lemma int_to_string_inj n m : int_to_string n = int_to_string m -> n = m.
Proof. apply pretty_Z_inj. Qed.
End IntText.

Section Injectivity.
Context {S : Serde} {L : SerdeLaws}.

Lemma number_text_bytes n t :
  number_text n = Some t ->
  exists c u, str_bytes t = c :: u /\ number_byte c = true /\ forallb number_byte u = true.
Proof.
  unfold number_text. intros E. case_all E; apply bind_Some in E as (x & Hx & [= <-]);
    [apply int_text | apply int_text |]. apply opt_filter_Some in Hx as [_ Hf].
  by apply format_finite_text.
Qed.

(** The first byte of the canonical form tells the constructor. *)
Definition head_of (v : json) (c : u8) : Prop :=
  match v with
  | JNull => c = #"n"
  | JBool true => c = #"t"
  | JBool false => c = #"f"
  | JString _ => c = 34
  | JNumber _ => number_byte c = true
  | JArray _ => c = #"["
  | JObject _ => c = #"{"
  end.
Lemma write_value_head v limit b :
  write_value v limit = Some b -> exists c t, b = c :: t /\ head_of v c.
Proof.
  rewrite write_value_unfold. destruct (limit <? 0); [done|]. destruct v; intros E.
  - injection E as <-. by do 2 eexists.
  - injection E as <-. destruct b0; by do 2 eexists.
  - apply bind_Some in E as (t & Ht & [= <-]).
    destruct (number_text_bytes _ _ Ht) as (c & u & -> & ? & _). by do 2 eexists.
  - injection E as <-. destruct (write_string_quote s) as [t ->]. by do 2 eexists.
  - apply bind_Some in E as (p & _ & [= <-]). by do 2 eexists.
  - apply bind_Some in E as (p & _ & [= <-]). by do 2 eexists.
Qed.
Lemma head_not_close v c : head_of v c -> c <> 93 /\ c <> 125.
Proof.
  destruct v as [|[]| | | |]; cbn; try (intros ->; done). intros E. split; intros ->; done.
Qed.

(** Equal heads, equal constructors (and equal booleans). *)
Definition same_shape (v w : json) : Prop :=
  match v, w with
  | JNull, JNull | JString _, JString _ | JNumber _, JNumber _ | JArray _, JArray _
  | JObject _, JObject _ => True
  | JBool a, JBool b => a = b
  | _, _ => False
  end.
Lemma head_shape v w c : head_of v c -> head_of w c -> same_shape v w.
Proof.
  destruct v as [|[]| | | |], w as [|[]| | | |]; cbn; try done; intros; subst; try done.
Qed.

(** The statement proved by induction: the canonical form is self-delimiting. *)
Definition decodable (v : json) : Prop :=
  forall w i j b c r r', json_wf v = true -> json_wf w = true ->
  write_value v i = Some b -> write_value w j = Some c -> delimited r -> delimited r' ->
  b ++ r = c ++ r' -> jcs_equiv v w /\ r = r'.

Lemma tail_eq {A} (x y : A) a b : x :: a = y :: b -> a = b.
Proof. by intros [= _ ->]. Qed.

Lemma tail_app {A} (x y : A) a b r r' : (x :: a) ++ r = (y :: b) ++ r' -> a ++ r = b ++ r'.
Proof. by intros [= _ ->]. Qed.

Lemma join_comma_cons p ps close r :
  join_comma (p :: ps) ++ close :: r =
    p ++ match ps with [] => close :: r | _ => #"," :: join_comma ps ++ close :: r end.
Proof. destruct ps; cbn; rewrite <- ?app_assoc; done. Qed.

Lemma array_decodable l :
  Forall decodable l -> forallb json_wf l = true ->
  forall k i j ps qs r r', forallb json_wf k = true ->
  Forall2 (fun x p => write_value x i = Some p) l ps ->
  Forall2 (fun x p => write_value x j = Some p) k qs ->
  join_comma ps ++ 93 :: r = join_comma qs ++ 93 :: r' -> Forall2 jcs_equiv l k /\ r = r'.
Proof.
  induction 1 as [|x l Hx Hl IH]; intros Hwl k i j ps qs r r' Hwk Hps Hqs E.
  - inversion Hps; subst. inversion Hqs as [|y c k' qs' Hy Hk]; subst; [injection E as ->; auto|].
    exfalso. rewrite join_comma_cons in E. destruct (write_value_head _ _ _ Hy) as (h & t & -> & Hh).
    injection E as <- _. by apply head_not_close in Hh as [? _].
  - inversion Hps as [|? p ? ps' Hp Hps']; subst. cbn in Hwl. apply andb_true_iff in Hwl as [Hwx Hwl].
    inversion Hqs as [|y c k' qs' Hy Hk]; subst.
    { exfalso. rewrite join_comma_cons in E. destruct (write_value_head _ _ _ Hp) as (h & t & -> & Hh).
      injection E as -> _. by apply head_not_close in Hh as [? _]. }
    cbn in Hwk. apply andb_true_iff in Hwk as [Hwy Hwk]. rewrite !join_comma_cons in E.
    eapply Hx in E as [Hxy E]; [|eassumption..| |]; [|destruct ps'; reflexivity|destruct qs'; reflexivity].
    destruct ps' as [|p' ps'], qs' as [|q' qs']; try done.
    + injection E as ->. inversion Hps'; inversion Hk; subst. auto.
    + apply tail_eq in E. eapply IH in E as [? ?]; eauto.
Qed.

(** An object's members in emission order. *)
Definition member_text (ps : list (string * bytes)) : list bytes :=
  map (fun kt => write_string kt.1 ++ [ #":" ] ++ kt.2) ps.
Definition rendered (i : Z) (kv : string * json) (p : string * bytes) : Prop :=
  kv.1 = p.1 /\ write_value kv.2 i = Some p.2.

Lemma members_decodable m :
  Forall (fun kv => decodable kv.2) m -> forallb (fun kv => json_wf kv.2) m = true ->
  forall n i j ps qs r r', forallb (fun kv => json_wf kv.2) n = true ->
  Forall2 (rendered i) m ps -> Forall2 (rendered j) n qs ->
  join_comma (member_text ps) ++ 125 :: r = join_comma (member_text qs) ++ 125 :: r' ->
  Forall2 (fun a b => a.1 = b.1 /\ jcs_equiv a.2 b.2) m n /\ r = r'.
Proof.
  induction 1 as [|[k x] m Hx Hl IH]; intros Hwl n i j ps qs r r' Hwk Hps Hqs E.
  - inversion Hps; subst. inversion Hqs as [|[k' y] [k'' c] n' qs' Hy Hk]; subst; [injection E as ->; auto|].
    exfalso. cbn [member_text map] in E. rewrite join_comma_cons in E. cbn [fst] in E.
    destruct (write_string_quote k'') as [t Ht]. rewrite Ht in E. done.
  - inversion Hps as [|? [k1 p] ? ps' [Hk1 Hp] Hps']; subst. cbn in Hwl, Hk1, Hp, Hx. subst k1.
    apply andb_true_iff in Hwl as [Hwx Hwl].
    inversion Hqs as [|[k2 y] [k3 c] n' qs' [Hk3 Hy] Hk]; subst.
    { exfalso. cbn [member_text map] in E. rewrite join_comma_cons in E. cbn [fst] in E.
      destruct (write_string_quote k) as [t Ht]. rewrite Ht in E. done. }
    cbn in Hk3, Hy, Hwk. subst k3. apply andb_true_iff in Hwk as [Hwy Hwk].
    cbn [member_text map fst snd] in E. rewrite !join_comma_cons, <- !app_assoc in E.
    apply write_string_prefix in E as [<- E]. apply tail_eq in E.
    eapply Hx in E as [Hxy E]; [|eassumption..| |];
      [|destruct ps'; reflexivity|destruct qs'; reflexivity].
    destruct ps' as [|p' ps'], qs' as [|q' qs']; try done.
    + injection E as ->. inversion Hps'; inversion Hk; subst. auto.
    + apply tail_eq in E. eapply (IH Hwl) in E as [? ?]; eauto.
Qed.

(** Two [BTreeMap]s that agree as sets of members agree in order. *)
Lemma keys_sorted_Sorted {A} (m : list (string * A)) :
  keys_sorted m = true -> Sorted (fun a b => str_ltb a b = true) m.*1.
Proof.
  induction m as [|[k x] m IH]; [constructor|]. destruct m as [|[k' x'] m]; [repeat constructor|].
  intros E. apply andb_true_iff in E as [? ?]. constructor; [auto|]. by constructor.
Qed.
#[export] Instance str_ltb_trans : Transitive (fun a b => str_ltb a b = true).
Proof. intros a b c. unfold str_ltb. rewrite !bytes_ltb_lt. apply bytes_compare_trans. Qed.
#[export] Instance str_ltb_antisym : AntiSymm (=) (fun a b => str_ltb a b = true).
Proof.
  intros a b. unfold str_ltb. rewrite !bytes_ltb_lt. intros H1 H2. exfalso.
  pose proof (bytes_compare_trans _ _ _ H1 H2) as Hx. by rewrite bytes_compare_refl in Hx.
Qed.
Lemma keys_sorted_NoDup {A} (m : list (string * A)) : keys_sorted m = true -> NoDup m.*1.
Proof.
  intros Hs. apply keys_sorted_Sorted, (Sorted_StronglySorted _) in Hs.
  induction Hs as [|k l Hs IH Hf]; constructor; [|done]. intros Hin.
  rewrite Forall_forall in Hf. pose proof (Hf _ Hin) as E. unfold str_ltb in E.
  rewrite bytes_ltb_lt, bytes_compare_refl in E. done.
Qed.
Lemma members_aligned {A} (R : A -> A -> Prop) (m n m' n' : list (string * A)) :
  keys_sorted m = true -> keys_sorted n = true -> m' ≡ₚ m -> n' ≡ₚ n ->
  Forall2 (fun a b => a.1 = b.1 /\ R a.2 b.2) m' n' ->
  Forall2 (fun a b => a.1 = b.1 /\ R a.2 b.2) m n.
Proof.
  intros Hm Hn Hm' Hn' Hf.
  assert (m.*1 = n.*1) as Hkeys.
  { apply (Sorted_unique (fun a b => str_ltb a b = true)); auto using keys_sorted_Sorted.
    rewrite <- Hm', <- Hn'. clear -Hf. induction Hf as [|? ? ? ? [? _] _ IH]; [done|]. cbn. by f_equiv. }
  apply Forall2_same_length_lookup. split.
  { rewrite <- (length_fmap fst m), Hkeys. apply length_fmap. }
  intros i [k x] [k' y] Hx Hy. assert (k = k') as ->.
  { apply (f_equal (fun l => l !! i)) in Hkeys. rewrite !list_lookup_fmap, Hx, Hy in Hkeys. by injection Hkeys. }
  split; [done|]. assert ((k', x) ∈ m') as Hin by (rewrite Hm'; by eapply list_elem_of_lookup_2).
  apply list_elem_of_lookup_1 in Hin as [p Hp]. destruct (Forall2_lookup_l _ _ _ _ _ Hf Hp) as ([k2 z] & Hz & [Hk Hr]).
  cbn in Hk, Hr. subst k2. assert ((k', z) ∈ n) as Hin by (rewrite <- Hn'; by eapply list_elem_of_lookup_2).
  apply list_elem_of_lookup_1 in Hin as [q Hq]. pose proof (keys_sorted_NoDup _ Hn) as Hnd.
  assert (q = i) as ->.
  { eapply (NoDup_lookup _ q i k' Hnd); rewrite list_lookup_fmap; [by rewrite Hq|by rewrite Hy]. }
  rewrite Hy in Hq. injection Hq as ->. done.
Qed.

Lemma all_decodable v : decodable v.
Proof.
  induction v as [|a|n|s|l IH|m IH] using json_ind'; intros w i j b c r r' Hv Hw Hb Hc Hr Hr' E;
    destruct (write_value_head _ _ _ Hb) as (h & t & -> & Hh);
    destruct (write_value_head _ _ _ Hc) as (h' & t' & -> & Hh');
    (assert (h = h') as <- by (injection E; auto)); pose proof (head_shape _ _ _ Hh Hh') as Hs;
    destruct w as [|a'|n'|s'|k|m']; try done; rewrite write_value_unfold in Hb, Hc;
    destruct (i <? 0), (j <? 0); try done.
  - rewrite Hb in Hc. injection Hc as ->. apply app_inv_head in E. split; [constructor|done].
  - cbn in Hs. subst a'. rewrite Hb in Hc. injection Hc as ->. apply app_inv_head in E. split; [constructor|done].
  - apply bind_Some in Hb as (x & Hx & Eb), Hc as (y & Hy & Ec). injection Eb as Eb. injection Ec as Ec.
    destruct (number_text_bytes _ _ Hx) as (? & ? & Ex & ? & ?).
    destruct (number_text_bytes _ _ Hy) as (? & ? & Ey & ? & ?).
    rewrite <- Eb, <- Ec in E. apply (split_run number_byte) in E as [Exy ->].
    + apply str_bytes_inj in Exy. subst y. split; [by econstructor|done].
    + rewrite Ex. cbn. by apply andb_true_iff.
    + rewrite Ey. cbn. by apply andb_true_iff.
    + destruct r; [done|]. by apply delimiter_not_number.
    + destruct r'; [done|]. by apply delimiter_not_number.
  - injection Hb as Hb. injection Hc as Hc. rewrite <- Hb, <- Hc in E.
    apply write_string_prefix in E as [-> ->]. split; [constructor|done].
  - apply bind_Some in Hb as (x & Hx & Eb), Hc as (y & Hy & Ec). apply mapM_Some in Hx, Hy.
    injection Eb as _ Eb. injection Ec as _ Ec. rewrite <- Eb, <- Ec in E. apply tail_app in E.
    rewrite <- !app_assoc in E. eapply (array_decodable l) in E as [? ->]; eauto. split; [by constructor|done].
  - apply bind_Some in Hb as (x & Hx & Eb), Hc as (y & Hy & Ec). apply mapM_Some in Hx, Hy.
    injection Eb as _ Eb. injection Ec as _ Ec. rewrite <- Eb, <- Ec in E. apply tail_app in E.
    rewrite <- !app_assoc in E. cbn in Hv, Hw. apply andb_true_iff in Hv as [Hsm Hv], Hw as [Hsn Hw].
    assert (forall k (m : list (string * json)) x,
      Forall2 (fun kv p => (t ← write_value kv.2 (k - 1); Some (kv.1, t)) = Some p) m x ->
      exists m', m' ≡ₚ m /\ Forall2 (rendered (k - 1)) m' (sort_by (fun a b => utf16_leb a.1 b.1) x)) as Hsort.
    { intros k m0 x0 Hf. destruct (@Permutation_Forall2 _ _ (flip (rendered (k - 1))) x0
        (sort_by (fun a b => utf16_leb a.1 b.1) x0) m0) as (m1 & ? & Hm1).
      - by rewrite sort_by_perm.
      - apply Forall2_flip. eapply Forall2_impl; [exact Hf|]. intros [k1 v1] [k2 t2] E2. cbn in E2.
        by apply bind_Some in E2 as (? & ? & [= -> ->]).
      - exists m1. split; [done|]. apply Forall2_flip in Hm1. exact Hm1. }
    destruct (Hsort _ _ _ Hx) as (m1 & Hm1 & Hf1). destruct (Hsort _ _ _ Hy) as (n1 & Hn1 & Hf2).
    assert (forall (a b : list (string * json)), a ≡ₚ b -> forallb (fun kv => json_wf kv.2) b = true ->
      forallb (fun kv => json_wf kv.2) a = true) as Hperm.
    { intros a1 a2 Ha. rewrite !forallb_forall. intros Hf z Hz.
      apply Hf. apply list_elem_of_In. rewrite <- Ha. by apply list_elem_of_In. }
    eapply (members_decodable m1) in E as [Hmn ->]; [|by rewrite Hm1|by eapply Hperm|by eapply (Hperm n1)|exact Hf1|exact Hf2].
    split; [|done]. constructor. by eapply members_aligned.
Qed.

Lemma canonical_binds (v w : json) (b : bytes) :
  json_wf v = true -> json_wf w = true ->
  canonical_checked v = Some b -> canonical_checked w = Some b -> jcs_equiv v w.
Proof.
  intros Hv Hw Hb Hc. by eapply (all_decodable v w _ _ b b [] []).
Qed.
(** C37: two values with the same canonical bytes are equal, up to the spelling of a
    number as an integer or a float: a signature over the bytes is a signature over
    the value. *)
Theorem canonical_checked_injective (v w : json) (b : bytes) :
  json_wf v = true -> json_wf w = true ->
  canonical_checked v = Some b -> canonical_checked w = Some b -> jcs_equiv v w.
Proof. apply canonical_binds. Qed.

(** Without floats the spelling is unique too. *)
Lemma integer_number_text n m t :
  is_f64 n = false -> is_f64 m = false -> json_wf (JNumber n) = true -> json_wf (JNumber m) = true ->
  number_text n = Some t -> number_text m = Some t -> n = m.
Proof.
  intros Fn Fm Wn Wm Hn Hm.
  assert (forall k, is_f64 k = false -> number_text k = Some t ->
    exists z, t = int_to_string z /\ (k = PosInt z \/ k = NegInt z)) as Ht.
  { intros k Fk Hk. destruct k as [z|z|f]; [| |done]; cbn in Hk; unfold number_text in Hk; cbn in Hk;
      [destruct (z <=? I64_MAX)|]; cbn in Hk; apply bind_Some in Hk as (x & Hx & [= <-]);
      apply then_some_Some in Hx as [_ <-]; eauto. }
  destruct (Ht n Fn Hn) as (z & -> & Hz), (Ht m Fm Hm) as (z' & E & Hz').
  apply int_to_string_inj in E as <-. destruct Hz as [-> | ->], Hz' as [-> | ->]; try done; cbn in *; lia.
Qed.
Lemma integer_equiv v : forall w limit, json_wf v = true -> json_wf w = true ->
  numbers_match v true limit = true -> numbers_match w true limit = true -> jcs_equiv v w -> v = w.
Proof.
  induction v as [| | | |l IH|m IH] using json_ind'; intros w limit Hv Hw Mv Mw E; inversion E; subst; try done;
    rewrite numbers_match_unfold in Mv; rewrite numbers_match_unfold in Mw; destruct (limit <? 0); try done.
  - f_equal. apply andb_true_iff in Mv as [Mv _], Mw as [Mw _]. cbn in Mv, Mw.
    apply negb_true_iff in Mv, Mw. by eapply integer_number_text.
  - f_equal. cbn in Hv, Hw. clear E. revert k H0 Hw Mw.
    induction IH as [|x l Hx _ IHl]; intros k Hk Hw Mw; inversion Hk; subst; [done|].
    cbn in *. rewrite !andb_true_iff in *. f_equal; [eapply Hx|apply IHl]; intuition eauto.
  - f_equal. cbn in Hv, Hw. rewrite andb_true_iff in Hv, Hw. destruct Hv as [_ Hv], Hw as [_ Hw].
    clear E. revert n H0 Hw Mw.
    induction IH as [|[i x] m Hx _ IHm]; intros n Hn Hw Mw; inversion Hn as [|? [j y] ? ? [Hij Hxy]]; subst; [done|].
    cbn in *. subst j. rewrite !andb_true_iff in *. f_equal; [f_equal; eapply Hx|apply IHm]; intuition eauto.
Qed.

Lemma canonical_integer_binds (v w : json) (b : bytes) :
  json_wf v = true -> json_wf w = true ->
  canonical_integer_checked v = Some b -> canonical_integer_checked w = Some b -> v = w.
Proof.
  unfold canonical_integer_checked. intros Hv Hw Hb Hc. case_all Hb. case_all Hc.
  eapply integer_equiv; eauto. by eapply (all_decodable v w _ _ b b [] []).
Qed.
(** In the integer-only profile the canonical bytes determine the value. *)
Theorem canonical_integer_injective (v w : json) (b : bytes) :
  json_wf v = true -> json_wf w = true ->
  canonical_integer_checked v = Some b -> canonical_integer_checked w = Some b -> v = w.
Proof. apply canonical_integer_binds. Qed.
End Injectivity.
