(* ===== verification/Utc.v ===== *)
(** * Utc: canonical timestamps and the epoch arithmetic (lib.rs)

    [canonical_utc] is the one timestamp grammar of the wire formats;
    [utc_epoch_micros] turns a timestamp of that grammar into microseconds since
    the Unix epoch, with the days-from-civil arithmetic of the source.  The
    reference is a calendar that counts the days of the years and months before a
    date; the source's closed formula is proved equal to it. *)
From S2P Require Import Prelude Text.

(** ** The source's functions *)

(** [&b[a..z]]. *)
Definition slice (b : bytes) (a z : nat) : bytes := take (z - a) (drop a b).
(** [b[i]]; the callers have checked the length. *)
Definition byte_at (b : bytes) (i : nat) : u8 := nth i b 0.

(** [Iterator::try_fold]. *)
Fixpoint try_fold {A B} (f : B -> A -> option B) (acc : B) (l : list A) : option B :=
  match l with [] => Some acc | x :: t => acc ← f acc x; try_fold f acc t end.

(** [fn decimal]. *)
Definition decimal (b : bytes) : option Z :=
  try_fold (fun n c => then_some (is_ascii_digit c) (n * 10 + (c - #"0"))) 0 b.

Definition leap_year (y : Z) : bool :=
  (Z.rem y 4 =? 0) && (negb (Z.rem y 100 =? 0) || (Z.rem y 400 =? 0)).
(** The table [days], indexed by the month. *)
Definition month_days (leap : bool) (m : Z) : Z :=
  nth (Z.to_nat m) [0; 31; 28 + Z.b2z leap; 31; 30; 31; 30; 31; 31; 30; 31; 30; 31] 0.

(** [fn canonical_utc]. *)
Definition canonical_utc (s : string) : bool :=
  let b := str_bytes s in
  let len := length b in
  reject_if negb (Nat.eqb len 20 || in_range 22 27 (zlen b))
    || negb (byte_at b 4 =? #"-") || negb (byte_at b 7 =? #"-") || negb (byte_at b 10 =? #"T")
    || negb (byte_at b 13 =? #":") || negb (byte_at b 16 =? #":") || negb (List.last b 0 =? #"Z")
    || ((20 <? zlen b) && (negb (byte_at b 19 =? #".") || is_none (decimal (slice b 20 (len - 1)))))
  with false;
  let_some y := decimal (take 4 b) else false;
  let_some m := decimal (slice b 5 7) else false;
  let_some d := decimal (slice b 8 10) else false;
  let_some h := decimal (slice b 11 13) else false;
  let_some n := decimal (slice b 14 16) else false;
  let_some sec := decimal (slice b 17 19) else false;
  let leap := leap_year y in
  (0 <? y) && in_range 1 12 m && (0 <? d) && (d <=? month_days leap m)
  && (h <? 24) && (n <? 60) && (sec <? 60).

(** [str::parse::<i64>().ok()]: an optional sign, digits, and the width. *)
Definition parse_digits (b : bytes) : option Z := match b with [] => None | _ => decimal b end.
Definition parse_i64 (b : bytes) : option Z :=
  opt_filter
    (match b with
     | 43 :: t => parse_digits t
     | 45 :: t => Z.opp <$> parse_digits t
     | _ => parse_digits b
     end) (in_range I64_MIN I64_MAX).

(** [format!("{:0<6}", b)]. *)
Definition pad_right (b : bytes) : bytes := b ++ replicate (6 - length b) #"0".

(** The days-from-civil lines of [fn utc_epoch_micros]. *)
Definition days_from_civil (y m d : Z) : Z :=
  let years := if m <=? 2 then y - 1 else y in
  let era := Z.quot years 400 in
  let yoe := years - era * 400 in
  let doy := Z.quot (153 * (if 2 <? m then m - 3 else m + 9) + 2) 5 + d - 1 in
  let doe := yoe * 365 + Z.quot yoe 4 - Z.quot yoe 100 + doy in
  era * 146097 + doe - 719468.

(** [fn utc_epoch_micros]. *)
Definition utc_epoch_micros (ts : string) : option Z :=
  reject_if negb (canonical_utc ts) with None;
  let b := str_bytes ts in
  let num a z := parse_i64 (slice b a z) in
  y ← num 0%nat 4%nat; m ← num 5%nat 7%nat; d ← num 8%nat 10%nat;
  h ← num 11%nat 13%nat; mi ← num 14%nat 16%nat; s ← num 17%nat 19%nat;
  micros ← (if 20 <? slen ts then parse_i64 (pad_right (slice b 20 (length b - 1))) else Some 0);
  Some ((days_from_civil y m d * 86400 + h * 3600 + mi * 60 + s) * 1000000 + micros).

(** ** Reference calendar *)

Definition year_length (y : Z) : Z := if leap_year y then 366 else 365.
(** Days of the first [n] years of the common era, and of the first [n] months of year [y]. *)
Fixpoint days_of_years (n : nat) : Z :=
  match n with O => 0 | S n => days_of_years n + year_length (Z.of_nat (S n)) end.
Fixpoint days_of_months (y : Z) (n : nat) : Z :=
  match n with O => 0 | S n => days_of_months y n + month_days (leap_year y) (Z.of_nat (S n)) end.

(** Days before a date, counted from 1 January of the year 1. *)
Definition day_number (y m d : Z) : Z :=
  days_of_years (Z.to_nat (y - 1)) + days_of_months y (Z.to_nat (m - 1)) + (d - 1).

(** The fields of a timestamp, and the instant they name on the reference calendar. *)
Record civil := { year : Z; month : Z; day : Z; hour : Z; minute : Z; second : Z; micro : Z }.
Definition civil_ok (c : civil) : Prop :=
  1 <= year c <= 9999 /\ 1 <= month c <= 12 /\
  1 <= day c <= month_days (leap_year (year c)) (month c) /\
  0 <= hour c < 24 /\ 0 <= minute c < 60 /\ 0 <= second c < 60 /\ 0 <= micro c < 1000000.
Definition field (b : bytes) (a z : nat) : Z := unwrap_or (decimal (slice b a z)) 0.
Definition fraction (b : bytes) : Z :=
  if 20 <? zlen b then field b 20 (length b - 1) * 10 ^ (6 - (zlen b - 21)) else 0.
Definition fields (s : string) : civil :=
  let b := str_bytes s in
  {| year := field b 0 4; month := field b 5 7; day := field b 8 10; hour := field b 11 13;
     minute := field b 14 16; second := field b 17 19; micro := fraction b |}.
Definition instant (c : civil) : Z :=
  ((day_number (year c) (month c) (day c) - day_number 1970 1 1) * 86400
   + hour c * 3600 + minute c * 60 + second c) * 1000000 + micro c.

(** Chronological order of civil times: lexicographic in the fields. *)
Definition civil_list (c : civil) : list Z :=
  [year c; month c; day c; hour c; minute c; second c; micro c].
Definition civil_before (a b : civil) : Prop := bytes_compare (civil_list a) (civil_list b) = Lt.

(** ** Decimal fields *)

Lemma try_fold_app {A B} (f : B -> A -> option B) acc l k :
  try_fold f acc (l ++ k) = acc ← try_fold f acc l; try_fold f acc k.
Proof.
  revert acc. induction l as [|x l IH]; intros acc; [done|]. cbn. destruct (f acc x); cbn; auto.
Qed.

Lemma decimal_snoc b c : decimal (b ++ [c]) = n ← decimal b; then_some (is_ascii_digit c) (n * 10 + (c - #"0")).
Proof.
  unfold decimal. rewrite try_fold_app. destruct (try_fold _ 0 b); [|done]. cbn -[ascii_byte].
  by destruct (is_ascii_digit c).
Qed.

Lemma digit_value c : is_ascii_digit c = true -> 0 <= c - #"0" < 10.
Proof. unfold is_ascii_digit. change #"0" with 48. change #"9" with 57. intros; bool_prop; lia. Qed.

Lemma decimal_bound b n : decimal b = Some n -> 0 <= n < 10 ^ zlen b.
Proof.
  revert n. induction b as [|c b IH] using rev_ind; intros n.
  { intros E. injection E as <-. by split. }
  rewrite decimal_snoc, zlen_app, zlen_cons. intros E.
  apply bind_Some in E as (k & Hk & E). apply then_some_Some in E as [Hd <-].
  apply IH in Hk. apply digit_value in Hd.
  change (1 + zlen (@nil Z)) with 1. rewrite Z.pow_add_r by (pose proof (zlen_nonneg b); lia). change (10 ^ 1) with 10. lia.
Qed.

Lemma decimal_zeros b n k : decimal b = Some n -> decimal (b ++ replicate k #"0") = Some (n * 10 ^ Z.of_nat k).
Proof.
  intros Hb. induction k as [|k IH]; [rewrite app_nil_r, Hb; f_equal; lia|].
  rewrite replicate_S_end, app_assoc, decimal_snoc, IH. cbn -[Z.pow Z.of_nat].
  f_equal. rewrite Nat2Z.inj_succ, Z.pow_succ_r by lia. lia.
Qed.

Lemma decimal_digits b n : decimal b = Some n -> forallb is_ascii_digit b = true.
Proof.
  revert n. induction b as [|c b IH] using rev_ind; intros n; [done|].
  rewrite decimal_snoc, forallb_app. intros E. apply bind_Some in E as (k & Hk & E).
  apply then_some_Some in E as [Hd _]. cbn. rewrite Hd, (IH k); done.
Qed.

Lemma parse_decimal b n :
  decimal b = Some n -> b <> [] -> (length b <= 18)%nat -> parse_i64 b = Some n.
Proof.
  intros Hb Hne Hl. pose proof (decimal_bound _ _ Hb) as Hr. pose proof (decimal_digits _ _ Hb) as Hd.
  assert (n < 10 ^ 18) as Hn.
  { eapply Z.lt_le_trans; [apply Hr|]. apply Z.pow_le_mono_r; unfold zlen; lia. }
  unfold parse_i64. apply opt_filter_Some. split.
  - destruct b as [|c t]; [done|]. cbn in Hd. apply andb_true_iff in Hd as [Hc _]. apply digit_value in Hc.
    change #"0" with 48 in Hc. cbn [parse_digits]. repeat (case_match; try lia; try done).
  - unfold in_range, I64_MIN, I64_MAX. change (10 ^ 18) with 1000000000000000000 in Hn. lia.
Qed.

(** ** The calendar *)

Lemma days_of_years_closed n :
  let y := Z.of_nat n in days_of_years n = 365 * y + y / 4 - y / 100 + y / 400.
Proof.
  cbv zeta. induction n as [|n IH]; [done|]. cbn [days_of_years]. rewrite IH.
  unfold year_length, leap_year. rewrite !Z.rem_mod_nonneg by lia. rewrite Nat2Z.inj_succ.
  generalize (Z.of_nat n) as y. intros y. clear.
  destruct (Z.eqb_spec (Z.succ y mod 4) 0), (Z.eqb_spec (Z.succ y mod 100) 0),
    (Z.eqb_spec (Z.succ y mod 400) 0); cbn [andb orb negb]; Z.to_euclidean_division_equations; lia.
Qed.

Lemma month_cases m : 1 <= m <= 12 ->
  m = 1 \/ m = 2 \/ m = 3 \/ m = 4 \/ m = 5 \/ m = 6 \/ m = 7 \/ m = 8 \/ m = 9 \/ m = 10 \/ m = 11 \/ m = 12.
Proof. lia. Qed.

Lemma epoch_day : day_number 1970 1 1 = 719162.
Proof. unfold day_number. rewrite days_of_years_closed. reflexivity. Qed.

(** The months before month [m], March-based as the source counts them. *)
Definition march_days (m : Z) : Z := Z.quot (153 * (if 2 <? m then m - 3 else m + 9) + 2) 5.
Lemma days_of_months_closed y m :
  1 <= m <= 12 ->
  days_of_months y (Z.to_nat (m - 1)) =
    if m <=? 2 then march_days m - 306 else march_days m + 59 + Z.b2z (leap_year y).
Proof.
  intros Hm. apply month_cases in Hm.
  destruct Hm as [->|[->|[->|[->|[->|[->|[->|[->|[->|[->|[->| ->]]]]]]]]]]];
    (match goal with |- context [Z.to_nat ?k] => let n := eval vm_compute in (Z.to_nat k) in change (Z.to_nat k) with n end);
    cbn [days_of_months]; destruct (leap_year y); reflexivity.
Qed.
Lemma leap_count y :
  1 <= y -> Z.b2z (leap_year y) =
    (y / 4 - (y - 1) / 4) - (y / 100 - (y - 1) / 100) + (y / 400 - (y - 1) / 400).
Proof.
  intros Hy. unfold leap_year. rewrite !Z.rem_mod_nonneg by lia.
  destruct (Z.eqb_spec (y mod 4) 0), (Z.eqb_spec (y mod 100) 0), (Z.eqb_spec (y mod 400) 0);
    cbn [andb orb negb Z.b2z]; Z.to_euclidean_division_equations; lia.
Qed.
Lemma era_days k :
  0 <= k -> Z.quot k 400 * 146097 + ((k - Z.quot k 400 * 400) * 365 + Z.quot (k - Z.quot k 400 * 400) 4
    - Z.quot (k - Z.quot k 400 * 400) 100) = 365 * k + k / 4 - k / 100 + k / 400.
Proof. intros Hk. Z.to_euclidean_division_equations; lia. Qed.

(** The source's formula counts the days of the reference calendar. *)
Lemma days_from_civil_day_number y m d :
  1 <= y -> 1 <= m <= 12 -> days_from_civil y m d = day_number y m d - day_number 1970 1 1.
Proof.
  intros Hy Hm. rewrite epoch_day. unfold day_number.
  rewrite days_of_years_closed, Z2Nat.id, days_of_months_closed by lia.
  unfold days_from_civil. fold (march_days m). pose proof (leap_count y Hy) as Hl.
  destruct (m <=? 2).
  - pose proof (era_days (y - 1) ltac:(lia)). lia.
  - pose proof (era_days y ltac:(lia)). lia.
Qed.

(** ** What a canonical timestamp says *)

Lemma length_slice b a z : (length (slice b a z) = Nat.min (z - a) (length b - a))%nat.
Proof. unfold slice. rewrite length_take, length_drop. done. Qed.

Lemma is_some_ex {A} (o : option A) : is_none o = false -> exists x, o = Some x.
Proof. destruct o; cbn; [eauto|done]. Qed.

(** Every field of a canonical timestamp parses, to the value the reference reads. *)
Lemma canonical_utc_shape s :
  canonical_utc s = true ->
  let b := str_bytes s in
  (length b = 20%nat \/ 22 <= length b <= 27)%nat /\ civil_ok (fields s) /\
  Forall (fun p => decimal (slice b p.1 p.2) = Some (field b p.1 p.2))
    [(0, 4); (5, 7); (8, 10); (11, 13); (14, 16); (17, 19)]%nat /\
  (20 < zlen b -> decimal (slice b 20 (length b - 1)) = Some (field b 20 (length b - 1))).
Proof.
  unfold canonical_utc. set (b := str_bytes s). cbv zeta. change (take 4 b) with (slice b 0 4). intros E.
  case_step E. case_all E. bool_prop.
  assert (length b = 20%nat \/ 22 <= length b <= 27)%nat as Hlen.
  { destruct H as [->%Nat.eqb_eq|H]; [by left|right]. unfold in_range, zlen in *. bool_prop. lia. }
  assert (20 < zlen b -> exists k, decimal (slice b 20 (length b - 1)) = Some k) as Hfrac.
  { intros Hl. apply is_some_ex. destruct H7 as [|[_ ?]]; [lia|done]. }
  split; [done|]. split; [|split].
  - unfold civil_ok, fields, field. cbn [year month day hour minute second micro]. fold b.
    rewrite E1, E2, E3, E4, E5, E6. cbn [unwrap_or]. unfold in_range in *. bool_prop.
    pose proof (decimal_bound _ _ E1) as B1. pose proof (decimal_bound _ _ E4). pose proof (decimal_bound _ _ E5).
    pose proof (decimal_bound _ _ E6).
    assert (zlen (slice b 0 4) = 4) as Hz by (unfold zlen; rewrite length_slice; lia). rewrite Hz in B1.
    change (10 ^ 4) with 10000 in B1. split_and!; try lia; unfold fraction; fold b.
    + destruct (20 <? zlen b) eqn:El; [|done]. bool_prop. destruct (Hfrac El) as [k Hk]. unfold field. rewrite Hk. cbn.
      apply decimal_bound in Hk as [? _]. apply Z.mul_nonneg_nonneg; [done|]. unfold zlen in *. apply Z.pow_nonneg. lia.
    + destruct (20 <? zlen b) eqn:El; [|done]. bool_prop. destruct (Hfrac El) as [k Hk]. unfold field. rewrite Hk. cbn -[Z.pow].
      apply decimal_bound in Hk as [_ Hk]. unfold zlen in *. rewrite length_slice in Hk.
      replace 1000000 with (10 ^ (Z.of_nat (length b) - 21) * 10 ^ (6 - (Z.of_nat (length b) - 21)))
        by (rewrite <- Z.pow_add_r by lia; replace (_ + _) with 6 by lia; done).
      apply Z.mul_lt_mono_pos_r; [apply Z.pow_pos_nonneg; lia|].
      eapply Z.lt_le_trans; [exact Hk|]. apply Z.pow_le_mono_r; lia.
  - unfold field. repeat constructor; cbn [fst snd]; rewrite ?E1, ?E2, ?E3, ?E4, ?E5, ?E6; done.
  - intros Hl. destruct (Hfrac Hl) as [k Hk]. unfold field. by rewrite Hk.
Qed.

Lemma parse_slice b a z :
  decimal (slice b a z) = Some (field b a z) -> (a < z <= length b)%nat -> (z - a <= 18)%nat ->
  parse_i64 (slice b a z) = Some (field b a z).
Proof.
  intros Hd Hz Hl. apply parse_decimal; [done| |rewrite length_slice; lia].
  intros E. apply (f_equal length) in E. rewrite length_slice in E. cbn in E. lia.
Qed.

Lemma parse_fraction b :
  (22 <= length b <= 27)%nat ->
  decimal (slice b 20 (length b - 1)) = Some (field b 20 (length b - 1)) ->
  parse_i64 (pad_right (slice b 20 (length b - 1))) = Some (fraction b).
Proof.
  intros Hl Hd. unfold pad_right, fraction. set (k := (6 - length (slice b 20 (length b - 1)))%nat).
  assert (k = (27 - length b)%nat) as Hk by (unfold k; rewrite length_slice; lia).
  rewrite (proj2 (Z.ltb_lt 20 (zlen b))) by (unfold zlen; lia).
  replace (6 - (zlen b - 21)) with (Z.of_nat k) by (unfold zlen; lia).
  apply parse_decimal; [by apply decimal_zeros| |].
  - intros E. apply (f_equal length) in E. rewrite length_app, length_slice in E. cbn in E. lia.
  - rewrite length_app, length_slice, length_replicate. lia.
Qed.

Lemma utc_epoch_micros_canonical s :
  canonical_utc s = true -> utc_epoch_micros s = Some (instant (fields s)).
Proof.
  intros Hc. destruct (canonical_utc_shape s Hc) as (Hl & Hok & Hf & Hfr).
  unfold utc_epoch_micros. rewrite Hc. cbn [negb]. unfold instant, civil_ok, fields in *.
  cbn [year month day hour minute second micro] in *. rewrite <- length_str_bytes.
  set (b := str_bytes s) in *. clearbody b.
  rewrite !Forall_cons in Hf. cbn [fst snd] in Hf. destruct Hf as (H1 & H2 & H3 & H4 & H5 & H6 & _).
  rewrite !parse_slice by (try done; lia). cbn [mbind option_bind].
  rewrite days_from_civil_day_number by tauto.
  destruct (20 <? zlen b) eqn:El.
  - apply Z.ltb_lt in El. unfold zlen in El. rewrite (parse_fraction b) by (first [lia|apply Hfr; unfold zlen; lia]). done.
  - unfold fraction. rewrite El. cbn [mbind option_bind]. do 2 f_equal. 
Qed.

(** C38: on the timestamp grammar the epoch arithmetic is total and exact: it names the
    instant the reference calendar counts, to the microsecond, and it is [None] on every
    other string. *)
Theorem utc_epoch_exact (s : string) :
  utc_epoch_micros s = if canonical_utc s then Some (instant (fields s)) else None.
Proof.
  destruct (canonical_utc s) eqn:E; [by apply utc_epoch_micros_canonical|].
  unfold utc_epoch_micros. by rewrite E.
Qed.

(** ** Order and width *)

Lemma days_of_months_le y n k : (n <= k)%nat -> days_of_months y n <= days_of_months y k.
Proof.
  induction 1 as [|k _ IH]; [lia|]. cbn [days_of_months]. unfold month_days.
  assert (forall i, 0 <= nth i [0; 31; 28 + Z.b2z (leap_year y); 31; 30; 31; 30; 31; 31; 30; 31; 30; 31] 0).
  { intros i. do 13 (destruct i as [|i]; [destruct (leap_year y); cbn; lia|]). destruct i; cbn; lia. }
  pose proof (H (Z.to_nat (Z.of_nat (S k)))). lia.
Qed.
Lemma year_length_months y : days_of_months y 12 = year_length y.
Proof. unfold year_length. cbn [days_of_months]. unfold month_days. destruct (leap_year y); reflexivity. Qed.
Lemma days_of_years_le n k : (n <= k)%nat -> days_of_years n <= days_of_years k.
Proof.
  induction 1 as [|k _ IH]; [lia|]. cbn [days_of_years]. unfold year_length. destruct (leap_year _); lia.
Qed.

(** A date lies within its month, and a month within its year. *)
Lemma day_number_month y m d :
  1 <= m <= 12 -> 1 <= d <= month_days (leap_year y) m ->
  days_of_years (Z.to_nat (y - 1)) + days_of_months y (Z.to_nat (m - 1)) <= day_number y m d
    < days_of_years (Z.to_nat (y - 1)) + days_of_months y (Z.to_nat m).
Proof.
  intros Hm Hd. unfold day_number. replace (Z.to_nat m) with (S (Z.to_nat (m - 1))) by lia.
  cbn [days_of_months]. replace (Z.of_nat (S (Z.to_nat (m - 1)))) with m by lia. lia.
Qed.
Lemma day_number_year y m d :
  1 <= y -> 1 <= m <= 12 -> 1 <= d <= month_days (leap_year y) m ->
  days_of_years (Z.to_nat (y - 1)) <= day_number y m d < days_of_years (Z.to_nat y).
Proof.
  intros Hy Hm Hd. pose proof (day_number_month y m d Hm Hd).
  pose proof (days_of_months_le y 0 (Z.to_nat (m - 1)) ltac:(lia)).
  pose proof (days_of_months_le y (Z.to_nat m) 12 ltac:(lia)). rewrite year_length_months in *.
  replace (Z.to_nat y) with (S (Z.to_nat (y - 1))) by lia. cbn [days_of_years].
  replace (Z.of_nat (S (Z.to_nat (y - 1)))) with y by lia. cbn in *. lia.
Qed.

Lemma lex_cons x y l k :
  bytes_compare (x :: l) (y :: k) = Lt <-> x < y \/ x = y /\ bytes_compare l k = Lt.
Proof. cbn. destruct (Z.compare_spec x y); split; intuition (try congruence; try lia). Qed.

Lemma civil_before_instant a b :
  civil_ok a -> civil_ok b -> civil_before a b -> instant a < instant b.
Proof.
  destruct a as [y m d h n s u], b as [y' m' d' h' n' s' u'].
  unfold civil_ok, civil_before, civil_list, instant. cbn [year month day hour minute second micro].
  intros (Hy & Hm & Hd & Hh & Hn & Hs & Hu) (Hy' & Hm' & Hd' & Hh' & Hn' & Hs' & Hu').
  rewrite !lex_cons. cbn [bytes_compare].
  assert (y < y' \/ y = y' /\ (m < m' \/ m = m' /\ d < d') -> day_number y m d < day_number y' m' d') as Hday.
  { intros [Hlt|[-> [Hlt|[-> Hlt]]]].
    - pose proof (day_number_year y m d ltac:(lia) Hm Hd). pose proof (day_number_year y' m' d' ltac:(lia) Hm' Hd').
      pose proof (days_of_years_le (Z.to_nat y) (Z.to_nat (y' - 1)) ltac:(lia)). lia.
    - pose proof (day_number_month y' m d Hm Hd). pose proof (day_number_month y' m' d' Hm' Hd').
      pose proof (days_of_months_le y' (Z.to_nat m) (Z.to_nat (m' - 1)) ltac:(lia)). lia.
    - unfold day_number. lia. }
  intros Hlt. destruct (decide (y = y' /\ m = m' /\ d = d')) as [(-> & -> & ->)|Hne].
  - intuition (subst; try lia; try done).
  - assert (day_number y m d < day_number y' m' d') by (apply Hday; lia). lia.
Qed.

Lemma civil_total a b : civil_before a b \/ a = b \/ civil_before b a.
Proof.
  unfold civil_before. rewrite (bytes_compare_antisym (civil_list a) (civil_list b)).
  destruct (bytes_compare (civil_list a) (civil_list b)) eqn:E; cbn; auto.
  apply bytes_compare_eq in E. destruct a, b. cbn in E. injection E as -> -> -> -> -> -> ->. auto.
Qed.

(** Comparing the microseconds is comparing the timestamps: for two canonical
    timestamps the instants are ordered as the calendar fields are, and they are equal
    exactly when every field is. *)
Theorem utc_epoch_order (s t : string) :
  canonical_utc s = true -> canonical_utc t = true ->
  exists a b, utc_epoch_micros s = Some a /\ utc_epoch_micros t = Some b /\
    (a < b <-> civil_before (fields s) (fields t)) /\ (a = b <-> fields s = fields t).
Proof.
  intros Hs Ht. rewrite !utc_epoch_micros_canonical by done. do 2 eexists. split; [done|]. split; [done|].
  destruct (canonical_utc_shape s Hs) as (_ & Os & _). destruct (canonical_utc_shape t Ht) as (_ & Ot & _).
  pose proof (civil_before_instant _ _ Os Ot) as Hlt. pose proof (civil_before_instant _ _ Ot Os) as Hgt.
  destruct (civil_total (fields s) (fields t)) as [Hb|[->|Hb]].
  - apply Hlt in Hb as Hi. split; [tauto|]. split; intros E; [|rewrite E in *]; lia.
  - split; [|tauto]. split; [lia|]. unfold civil_before. by rewrite bytes_compare_refl.
  - apply Hgt in Hb as Hi. split; split; intros E; try lia; [apply Hlt in E|rewrite E in *]; lia.
Qed.

(** No epoch arithmetic overflows an [i64]: every result, with the checkpoint skew of
    300 seconds added, stays between the years 1 and 9999. *)
Theorem utc_epoch_bounds (s : string) (n : Z) :
  utc_epoch_micros s = Some n ->
  -62135596800000000 <= n < 253402300800000000 /\ I64_MIN <= n + 300 * 1000000 <= I64_MAX.
Proof.
  rewrite utc_epoch_exact. destruct (canonical_utc s) eqn:Hc; [|done]. intros [= <-].
  destruct (canonical_utc_shape s Hc) as (_ & (Hy & Hm & Hd & Hh & Hn & Hs & Hu) & _). unfold instant.
  pose proof (day_number_year _ _ _ (proj1 Hy) Hm Hd).
  pose proof (days_of_years_le 0 (Z.to_nat (year (fields s) - 1)) ltac:(lia)).
  pose proof (days_of_years_le (Z.to_nat (year (fields s))) (Z.to_nat 9999) ltac:(lia)) as Hle.
  rewrite (days_of_years_closed (Z.to_nat 9999)) in Hle. rewrite Z2Nat.id in Hle by lia.
  change (365 * 9999 + 9999 / 4 - 9999 / 100 + 9999 / 400) with 3652059 in Hle.
  change (days_of_years 0) with 0 in *. rewrite epoch_day.
  unfold I64_MIN, I64_MAX. lia.
Qed.
