(* ===== verification/Dsse.v ===== *)
(** * Dsse: envelopes, keys and receipt bodies (lib.rs)

    The DSSE layer every signed statement goes through: the pre-authentication
    encoding, JWK keys with their kid binding, signature admission, the canonical
    payload and the receipt-v1 body grammar.  Ed25519 ([ed25519_dalek]) and base64
    are third-party crates, so they are the classes [Ed25519] and [Base64]. *)
From S2P Require Import Prelude Hash Text Json Jcs Utc.

(** ** Third-party operations *)

Class Ed25519 := {
  verifying_key : Type;
  (** [VerifyingKey::from_bytes(pubkey).ok()]. *)
  vk_from_bytes : bytes -> option verifying_key;
  (** [vk.verify(msg, &Signature::from_bytes(sig)).is_ok()], on 64 signature bytes. *)
  vk_verify : verifying_key -> bytes -> bytes -> bool;
}.

Class Base64 := {
  (** [STANDARD.decode(s).ok()] and [STANDARD.encode(b)]. *)
  b64_decode : string -> option bytes;
  b64_encode : bytes -> string;
  (** The same of [URL_SAFE_NO_PAD]. *)
  url_decode : string -> option bytes;
  url_encode : bytes -> string;
}.

(** RFC 4648: decoding is a partial inverse of encoding. *)
Class Base64Laws {B : Base64} : Prop := {
  b64_roundtrip : forall b, Forall is_byte b -> b64_decode (b64_encode b) = Some b;
  url_roundtrip : forall b, Forall is_byte b -> url_decode (url_encode b) = Some b;
}.

(** ** Constants of lib.rs *)

Definition RECEIPT_TYPE : string := "application/vnd.evd.receipt.v1+json".
Definition RECEIPT_SCHEMA : string := "evd/receipt/v1".
Definition RECEIPT_MAX_PARENTS : Z := 32.
Definition CHECKPOINT_TYPE : string := "application/vnd.evd.checkpoint.v1+json".
Definition EXPORT_MANIFEST_TYPE : string := "application/vnd.evd.export-manifest.v1+json".

(** [s.chars().take(n).collect::<String>()]. *)
Definition utf8_width (x : u8) : nat :=
  if x <? 128 then 1 else if x <? 224 then 2 else if x <? 240 then 3 else 4.
Fixpoint utf8_take (n : nat) (b : bytes) : bytes :=
  match n, b with
  | S n, x :: _ => take (utf8_width x) b ++ utf8_take n (drop (utf8_width x) b)
  | _, _ => []
  end.
Definition take_chars (n : nat) (s : string) : string := bytes_str (utf8_take n (str_bytes s)).

(** [contains] on an array of names. *)
Definition str_in (k : string) (l : list string) : bool := existsb (String.eqb k) l.

(** [BTreeSet] of strings: the number of distinct elements. *)
Definition distinct (l : list string) : Z := Z.of_nat (size (list_to_set l : gset string)).

Section Dsse.
Context {H : Hash} {SD : Serde} {B : Base64} {ED : Ed25519}.

(** [fn pae]. *)
Definition pae (payload_type : string) (payload : bytes) : bytes :=
  str_bytes "DSSEv1 " ++ str_bytes (int_to_string (slen payload_type)) ++ [ #" " ]
  ++ str_bytes payload_type ++ [ #" " ] ++ str_bytes (int_to_string (zlen payload)) ++ [ #" " ]
  ++ payload.

(** [fn b64url_decode]. *)
Definition b64url_decode (s : string) : option bytes :=
  reject_if is_empty s || (Z.rem (slen s) 4 =? 1)
    || negb (forallb (fun byte => is_ascii_alphanumeric byte || (byte =? #"-") || (byte =? #"_")) (str_bytes s))
  with None;
  url_decode s.

(** [fn jwk_raw_key]. *)
Definition jwk_raw_key (jwk : json) : option bytes :=
  kty ← (x ← get jwk "kty"; as_str x);
  if negb (String.eqb kty "OKP") then None else
  crv ← (x ← get jwk "crv"; as_str x);
  if negb (String.eqb crv "Ed25519") then None else
  raw ← (x ← get jwk "x"; s ← as_str x; b64url_decode s);
  if negb (zlen raw =? 32) then None else Some raw.

(** The kid of a raw key. *)
Definition kid_of (k : bytes) : string := take_chars 16 (url_encode (sha256 k)).

(** [fn key_from_jwk]. *)
Definition key_from_jwk (jwk : json) : option (bytes * string) :=
  k ← jwk_raw_key jwk;
  let kid := kid_of k in
  match get jwk "kid" with
  | None | Some JNull => Some (k, kid)
  | Some (JString claimed) => if String.eqb claimed kid then Some (k, kid) else None
  | Some _ => None
  end.

(** [fn ed25519_verify]. *)
Definition ed25519_verify (pubkey msg sig : bytes) : bool :=
  let_some vk := vk_from_bytes pubkey else false;
  reject_if negb (zlen sig =? 64) with false;
  vk_verify vk msg sig.

(** [fn payload_of]. *)
Definition payload_of (env : json) : option bytes :=
  p ← get env "payload"; s ← as_str p; b64_decode s.

(** [fn envelope_message]. *)
Definition envelope_message (env : json) : option bytes :=
  t ← get env "payloadType"; ty ← as_str t; p ← payload_of env; Some (pae ty p).

(** [fn signature_valid]. *)
Definition signature_valid (sig : json) (message pubkey : bytes) : bool :=
  let_some o := as_object sig else false;
  contains_key o "keyid"
  && forallb (fun nv => str_in nv.1 ["keyid"; "sig"; "alg"] && is_string nv.2) o
  && is_none_or (obj_get o "alg") (fun v => opt_str_eqb (as_str v) (Some "EdDSA"))
  && is_some_and (raw ← get_str sig "sig"; b64_decode raw) (fun raw => ed25519_verify pubkey message raw).

(** [fn env_signed_by]. *)
Definition env_signed_by (env : json) (kid : string) (pubkey : bytes) : bool :=
  let_some message := envelope_message env else false;
  is_some_and (get_array env "signatures") (fun sigs =>
    existsb (fun sig => opt_str_eqb (get_str sig "keyid") (Some kid) && signature_valid sig message pubkey) sigs).

(** [fn receipt_hash_hex]. *)
Definition receipt_hash_hex (env : json) : option string := p ← payload_of env; Some (hex (sha256 p)).

(** [fn canonical_body]. *)
Definition canonical_body (raw : bytes) : option json :=
  body ← from_slice raw;
  body ← promote_jcs_integer_lexemes body;
  canon ← canonical_checked body;
  then_some (bytes_eqb canon raw) body.

(** The array [REQUIRED] and the slice [optional] of [fn receipt_body_valid]. *)
Definition REQUIRED : list string :=
  ["schema"; "tenant_id"; "agent_id"; "seq"; "action_type"; "commitments"; "context"; "parents";
   "ts_client"; "ts_server"; "idempotency_key"].
Definition OPTIONAL : list string := ["alg"; "session_id"; "session_inferred"].

(** Its closure [text] and its three local booleans. *)
Definition receipt_text (body : json) (field : string) : option string :=
  opt_filter (get_str body field) safe_identity_text.
Definition receipt_commitments (body : json) : bool :=
  is_some_and (get_object body "commitments") (fun items =>
    forallb (fun nv => negb (is_empty nv.1) && is_some_and (as_str nv.2) lower_sha256) items).
Definition receipt_parents (body : json) : bool :=
  is_some_and (get_array body "parents") (fun items =>
    is_some_and (mapM as_str items) (fun values =>
      (zlen values <=? RECEIPT_MAX_PARENTS) && forallb lower_sha256 values && (distinct values =? zlen values))).
Definition receipt_session (body : json) : bool :=
  match get body "session_id", get body "session_inferred" with
  | None, None => true
  | Some id, Some inferred => is_some_and (as_str id) safe_identity_text && is_boolean inferred
  | _, _ => false
  end.

(** [fn receipt_body_valid]. *)
Definition receipt_body_valid (body : json) (expected_tenant : option string) : bool :=
  let_some object := as_object body else false;
  reject_if existsb (fun field => negb (contains_key object field)) REQUIRED
    || existsb (fun kv => negb (str_in kv.1 REQUIRED) && negb (str_in kv.1 OPTIONAL)) object
  with false;
  let_some tenant := receipt_text body "tenant_id" else false;
  let_some _ := receipt_text body "agent_id" else false;
  let_some action := receipt_text body "action_type" else false;
  let_some _ := receipt_text body "idempotency_key" else false;
  reject_if negb (opt_str_eqb (receipt_text body "schema") (Some RECEIPT_SCHEMA))
    || is_some_and expected_tenant (fun expected => negb (String.eqb tenant expected))
    || negb (namespaced_action action)
    || is_none_or (get_u64 body "seq") (fun seq => (seq =? 0) || (MAX_SAFE_INTEGER <? seq))
  with false;
  receipt_commitments body
  && is_some_and (get body "context") is_object
  && receipt_parents body
  && is_some_and (get_str body "ts_client") canonical_utc
  && is_some_and (get_str body "ts_server") canonical_utc
  && receipt_session body
  && is_none_or (get body "alg") (fun alg => opt_str_eqb (as_str alg) (Some "EdDSA")).

(** [fn body_of]. *)
Definition body_of (env : json) : option json :=
  p ← payload_of env; body ← canonical_body p; then_some (receipt_body_valid body None) body.

(** [fn forbidden_managed_edge_cosign]. *)
Definition MANAGED_PREFIXES : list string :=
  ["evd.key."; "authority."; "source."; "action."; "lineage."; "node."; "evd.finding."; "evd.gap.";
   "evd.coverage."; "registration."].
Definition forbidden_managed_edge_cosign (body env : json) : bool :=
  let multi := is_some_and (get_array env "signatures") (fun s => 1 <? zlen s) in
  let agent := unwrap_or (get_str body "agent_id") EmptyString in
  let action := unwrap_or (get_str body "action_type") EmptyString in
  multi && (starts_with "_" agent || existsb (fun prefix => starts_with prefix action) MANAGED_PREFIXES).

(** [fn str_field]. *)
Definition str_field (v : json) (key : string) : option string := x ← get v key; as_str x.
End Dsse.

(** ** The pre-authentication encoding is unambiguous *)

(** A length field is read back: digits up to the space that ends it. *)
Lemma length_field n m a b :
  str_bytes (int_to_string n) ++ 32 :: a = str_bytes (int_to_string m) ++ 32 :: b -> n = m /\ a = b.
Proof.
  assert (forall k, forallb number_byte (str_bytes (int_to_string k)) = true) as Hd.
  { intros k. destruct (int_text k) as (c & t & -> & Hc & Ht). cbn. by rewrite Hc. }
  intros E. apply (split_run number_byte) in E as [E1 E2]; try done.
  injection E2 as E2. split; [|done]. by apply int_to_string_inj, str_bytes_inj.
Qed.

Section DsseTheorems.
Context {H : Hash} {SD : Serde} {B : Base64} {ED : Ed25519}.

(** Two DSSE messages are equal only if their types and their payloads are: a
    signature over a message is a signature over one typed payload. *)
Theorem pae_injective (t t' : string) (p p' : bytes) : pae t p = pae t' p' -> t = t' /\ p = p'.
Proof.
  unfold pae. intros E. apply app_inv_head in E. change #" " with 32 in E. cbn [app] in E.
  apply length_field in E as [Hl E].
  apply app_inj_1 in E as [Et E].
  - apply str_bytes_inj in Et as ->. injection E as E. by apply length_field in E as [_ ->].
  - rewrite <- !length_str_bytes in Hl. unfold zlen in Hl. lia.
Qed.

(** An admitted payload is the canonical form of its body, with every integer in
    the exact domain; so two payloads with one body are the same bytes. *)
Theorem canonical_body_exact (raw : bytes) (body : json) :
  canonical_body raw = Some body ->
  canonical_checked body = Some raw /\ numbers_within_profile body = true /\ integers_safe body = true /\
  forall raw', canonical_body raw' = Some body -> raw' = raw.
Proof.
  assert (forall r, canonical_body r = Some body -> canonical_checked body = Some r /\
    exists v, promote_jcs_integer_lexemes v = Some body) as Hc.
  { intros r E. unfold canonical_body in E. apply bind_Some in E as (v & _ & E).
    apply bind_Some in E as (v' & Hv & E). apply bind_Some in E as (c & Hc & E).
    apply then_some_Some in E as [Er ->]. apply bytes_eqb_true in Er as ->. eauto. }
  intros E. apply Hc in E as (Hraw & v & Hv). split_and!; [done| | |].
  - rewrite <- canonical_exists_iff_within_profile, Hraw. done.
  - by eapply promote_establishes_safe.
  - intros raw' E'. apply Hc in E' as [E' _]. congruence.
Qed.

(** A JWK yields a key only under its own kid: 32 bytes of OKP/Ed25519 material, named
    by the digest of that material, and a carried kid of any other shape or value is refused. *)
Theorem key_from_jwk_binding (jwk : json) (k : bytes) (kid : string) :
  key_from_jwk jwk = Some (k, kid) <->
  kid = kid_of k /\ length k = 32%nat /\ get_str jwk "kty" = Some "OKP"%string /\
  get_str jwk "crv" = Some "Ed25519"%string /\
  (exists x, get_str jwk "x" = Some x /\ b64url_decode x = Some k) /\
  (get jwk "kid" = None \/ get jwk "kid" = Some JNull \/ get jwk "kid" = Some (JString kid)).
Proof.
  unfold key_from_jwk. rewrite bind_Some. split.
  - intros (k' & Hk & E). unfold jwk_raw_key in Hk.
    assert (k' = k /\ kid = kid_of k /\
      (get jwk "kid" = None \/ get jwk "kid" = Some JNull \/ get jwk "kid" = Some (JString kid))) as (-> & -> & Hkid).
    { destruct (get jwk "kid") as [[]|]; try done; try (injection E as -> <-; auto).
      destruct (String.eqb_spec s (kid_of k')); [|done]. injection E as -> <-. subst. auto. }
    apply bind_Some in Hk as (kty & Hkty & Hk). case_step Hk.
    apply bind_Some in Hk as (crv & Hcrv & Hk). case_step Hk.
    apply bind_Some in Hk as (raw & Hraw & Hk). case_step Hk. injection Hk as <-.
    apply bind_Some in Hraw as (x & Hx & Hraw). apply bind_Some in Hraw as (s & Hs & Hraw).
    rewrite !negb_false_iff in *. rewrite String.eqb_eq in *. rewrite Z.eqb_eq in *. subst.
    unfold zlen in *. split_and!; try done; [lia|]. exists s. unfold get_str. rewrite Hx. done.
  - intros (-> & Hl & Hkty & Hcrv & (x & Hx & Hd) & Hkid). exists k. split.
    + unfold jwk_raw_key. unfold get_str in *. rewrite Hkty. cbn. rewrite Hcrv. cbn.
      apply bind_Some in Hx as (y & Hy & Hx). rewrite Hy. cbn. rewrite Hx. cbn. rewrite Hd. cbn.
      unfold zlen. rewrite Hl. done.
    + destruct Hkid as [->|[->| ->]]; [done|done|]. by rewrite String.eqb_refl.
Qed.
End DsseTheorems.

(** ** Receipt bodies: the abstract receipt-v1 grammar *)

Record receipt (m : list (string * json)) (body := JObject m) (tenant : string) : Prop := {
  (** the member set is closed *)
  r_required : forall f, f ∈ REQUIRED -> is_Some (obj_get m f);
  r_closed : forall k, k ∈ m.*1 -> k ∈ REQUIRED \/ k ∈ OPTIONAL;
  (** identity *)
  r_schema : get_str body "schema" = Some RECEIPT_SCHEMA;
  r_tenant : get_str body "tenant_id" = Some tenant /\ safe_identity_text tenant = true;
  r_agent : exists a, get_str body "agent_id" = Some a /\ safe_identity_text a = true;
  r_action : exists a, get_str body "action_type" = Some a /\ safe_identity_text a = true /\ namespaced_action a = true;
  r_idempotency : exists a, get_str body "idempotency_key" = Some a /\ safe_identity_text a = true;
  r_seq : exists n, get_u64 body "seq" = Some n /\ n <> 0 /\ n <= MAX_SAFE_INTEGER;
  (** commitments: named digests *)
  r_commitments : exists cs, get_object body "commitments" = Some cs /\
    forall k v, (k, v) ∈ cs -> is_empty k = false /\ exists d, v = JString d /\ lower_sha256 d = true;
  r_context : exists c, get body "context" = Some (JObject c);
  (** parents: at most 32 digests, no two equal *)
  r_parents : exists ps, get body "parents" = Some (JArray (JString <$> ps)) /\ zlen ps <= 32 /\
    Forall (fun d => lower_sha256 d = true) ps /\ NoDup ps;
  r_times : exists c s, get_str body "ts_client" = Some c /\ canonical_utc c = true /\
    get_str body "ts_server" = Some s /\ canonical_utc s = true;
  (** the two session members come together *)
  r_session : get body "session_id" = None /\ get body "session_inferred" = None \/
    exists id b, get body "session_id" = Some (JString id) /\ safe_identity_text id = true /\
      get body "session_inferred" = Some (JBool b);
  r_alg : get body "alg" = None \/ get body "alg" = Some (JString "EdDSA");
}.

Lemma str_in_elem k l : str_in k l = true <-> k ∈ l.
Proof.
  unfold str_in. rewrite existsb_exists. setoid_rewrite String.eqb_eq. setoid_rewrite <- list_elem_of_In.
  split; [intros (? & ? & ->); done|eauto].
Qed.
Lemma distinct_NoDup l : (distinct l =? zlen l) = true <-> NoDup l.
Proof.
  rewrite Z.eqb_eq. unfold distinct, zlen. rewrite Nat2Z.inj_iff. split; [|intros; by apply size_list_to_set].
  induction l as [|x l IH]; [constructor|]. cbn. intros E. pose proof (size_list_to_set_le l).
  destruct (decide (x ∈ l)).
  - rewrite subseteq_union_1_L in E by set_solver. lia.
  - rewrite size_union, size_singleton in E by set_solver. constructor; [done|]. apply IH. lia.
Qed.
Lemma mapM_as_str l ss : mapM as_str l = Some ss <-> l = JString <$> ss.
Proof.
  split.
  - intros Hm. apply mapM_Some in Hm. induction Hm as [|x s l ss Hx _ IH]; [done|].
    destruct x; try done. injection Hx as ->. by rewrite IH.
  - intros ->. induction ss as [|s ss IH]; [done|]. cbn. by rewrite IH.
Qed.
Lemma opt_str_eqb_true a b : opt_str_eqb a b = true <-> a = b.
Proof. apply bool_decide_eq_true. Qed.
Lemma get_str_Some v k s : get_str v k = Some s <-> get v k = Some (JString s).
Proof.
  unfold get_str. destruct (get v k) as [[]|]; cbn; split; congruence.
Qed.
Lemma forallb_elem {A} (f : A -> bool) l : forallb f l = true <-> forall x, x ∈ l -> f x = true.
Proof. rewrite forallb_forall. by setoid_rewrite list_elem_of_In. Qed.
#[export] Hint Rewrite str_in_elem opt_str_eqb_true @existsb_false @forallb_elem : rust.

Lemma receipt_text_Some body f a :
  receipt_text body f = Some a <-> get_str body f = Some a /\ safe_identity_text a = true.
Proof. apply opt_filter_Some. Qed.
Lemma contains_key_true {A} (m : list (string * A)) k : contains_key m k = true <-> is_Some (obj_get m k).
Proof. unfold contains_key. destruct (obj_get m k); split; done. Qed.

Lemma receipt_commitments_spec body :
  receipt_commitments body = true <-> exists cs, get_object body "commitments" = Some cs /\
    forall k v, (k, v) ∈ cs -> is_empty k = false /\ exists d, v = JString d /\ lower_sha256 d = true.
Proof.
  unfold receipt_commitments. rewrite is_some_and_true. apply exist_proper. intros cs.
  rewrite forallb_elem. apply and_iff_compat_l. split.
  - intros Hf k v Hin. apply Hf in Hin. cbn in Hin. rewrite andb_true_iff, negb_true_iff, is_some_and_true in Hin.
    destruct Hin as (? & d & Hd & ?). destruct v; try done. injection Hd as ->. eauto.
  - intros Hf [k v] Hin. destruct (Hf k v Hin) as (Hk & d & -> & Hd). cbn. by rewrite Hk.
Qed.
Lemma receipt_parents_spec body :
  receipt_parents body = true <-> exists ps, get body "parents" = Some (JArray (JString <$> ps)) /\
    zlen ps <= 32 /\ Forall (fun d => lower_sha256 d = true) ps /\ NoDup ps.
Proof.
  unfold receipt_parents. rewrite is_some_and_true. unfold get_array. split.
  - intros (l & Hl & E). apply is_some_and_true in E as (ps & Hps & E). apply mapM_as_str in Hps as ->.
    rewrite !andb_true_iff, distinct_NoDup, Z.leb_le, forallb_elem, <- Forall_forall in E.
    destruct E as [[? ?] ?]. exists ps. split; [|done]. destruct (get body "parents") as [[]|]; try done.
    by injection Hl as ->.
  - intros (ps & Hp & Hl & Hf & Hn). exists (JString <$> ps). rewrite Hp. split; [done|].
    apply is_some_and_true. exists ps. split; [by apply mapM_as_str|].
    rewrite !andb_true_iff, distinct_NoDup, Z.leb_le, forallb_elem, <- Forall_forall. done.
Qed.
Lemma receipt_session_spec body :
  receipt_session body = true <-> get body "session_id" = None /\ get body "session_inferred" = None \/
    exists id b, get body "session_id" = Some (JString id) /\ safe_identity_text id = true /\
      get body "session_inferred" = Some (JBool b).
Proof.
  unfold receipt_session. destruct (get body "session_id") as [id|], (get body "session_inferred") as [b|];
    split; try done; try naive_solver.
  - rewrite andb_true_iff, is_some_and_true. intros [(x & Hx & ?) Hb]. right.
    destruct id; try done. destruct b; try done. injection Hx as ->. eauto 6.
  - intros [[? ?]|(x & y & [= ->] & Hs & [= ->])]; [done|]. cbn. by rewrite Hs.
Qed.
Lemma str_and_true body k (f : string -> bool) :
  is_some_and (get_str body k) f = true <-> exists s, get_str body k = Some s /\ f s = true.
Proof. apply is_some_and_true. Qed.
Lemma alg_spec o : is_none_or o (fun alg => opt_str_eqb (as_str alg) (Some "EdDSA"%string)) = true <->
  o = None \/ o = Some (JString "EdDSA").
Proof.
  rewrite is_none_or_true. setoid_rewrite opt_str_eqb_true. destruct o as [[]|]; split; try naive_solver.
Qed.

(** [receipt_body_valid] decides the receipt-v1 grammar: a closed member set, graphic
    identities, a namespaced action, a positive exact sequence number, digest commitments,
    at most 32 distinct parents, canonical times and a session that is all or nothing. *)
Theorem receipt_body_valid_spec (body : json) (expected : option string) :
  receipt_body_valid body expected = true <->
  exists m tenant, body = JObject m /\ receipt m tenant /\ (expected = None \/ expected = Some tenant).
Proof.
  split.
  - unfold receipt_body_valid. intros E. case_step E. destruct body; try done. injection E0 as <-.
    case_step E. case_step E. case_step E. case_step E. case_step E. case_step E.
    apply receipt_text_Some in E1 as [? ?], E2 as [? ?], E3 as [? ?], E4 as [? ?].
    rewrite !orb_false_iff, !negb_false_iff, !opt_str_eqb_true, receipt_text_Some in E5.
    rewrite !andb_true_iff, receipt_commitments_spec, receipt_parents_spec, receipt_session_spec, alg_spec,
      !str_and_true, is_some_and_true in E.
    rewrite orb_false_iff, !existsb_false in E0. destruct E0 as [Hreq Hclosed].
    destruct E5 as [[[[? ?] Hten] ?] Hseq].
    destruct E as [[[[[[? (c & Hc & ?)] ?] (tc & ? & ?)] (ts & ? & ?)] ?] ?].
    exists m, s. split; [done|]. split.
    + constructor; eauto.
      * intros f Hf. apply Hreq in Hf. apply negb_false_iff in Hf. by apply contains_key_true.
      * intros k ([k' v] & -> & Hin)%list_elem_of_fmap. apply Hclosed in Hin. cbn [fst] in Hin.
        rewrite andb_false_iff, !negb_false_iff, !str_in_elem in Hin. done.
      * destruct (get_u64 (JObject m) "seq") as [n|]; [|done]. cbn in Hseq. apply orb_false_iff in Hseq as [? ?].
        exists n. split; [done|]. lia.
      * destruct c; try done. eauto.
      * eauto 10.
    + destruct expected as [t|]; [|by left]. right. cbn in Hten. apply negb_false_iff, String.eqb_eq in Hten. by subst.
  - intros (m & tenant & -> & R & Hex). destruct R as [Hreq Hclosed Hsch [Hten Htok] (a & Ha & Hao) (act & Hact & Hacto & Hns)
      (id & Hid & Hido) (n & Hn & Hn0 & Hnm) Hcom [c Hctx] Hpar (tc & ts & Hc & Hcc & Hts & Htc) Hses Halg].
    unfold receipt_body_valid. cbn [as_object].
    assert (forall f x, get_str (JObject m) f = Some x -> safe_identity_text x = true ->
      receipt_text (JObject m) f = Some x) as Ht by (intros; by apply receipt_text_Some).
    rewrite (proj2 (orb_false_iff _ _)), (Ht "tenant_id" tenant), (Ht "agent_id" a), (Ht "action_type" act),
      (Ht "idempotency_key" id), (Ht "schema" RECEIPT_SCHEMA), Hns, Hn, Hctx, Hc, Hts; try done.
    + rewrite (proj2 (opt_str_eqb_true _ _)) by done. cbn [is_none_or is_some_and negb].
      rewrite (proj2 (Z.eqb_neq n 0)), (proj2 (Z.ltb_ge _ n)) by done.
      rewrite (proj2 (receipt_commitments_spec _)), (proj2 (receipt_parents_spec _)),
        (proj2 (receipt_session_spec _)), (proj2 (alg_spec _)), Hcc, Htc by done.
      destruct Hex as [-> | ->]; cbn; [done|]. by rewrite String.eqb_refl.
    + rewrite !existsb_false. split.
      * intros f Hf. apply negb_false_iff, contains_key_true. auto.
      * intros [k v] Hin. rewrite andb_false_iff, !negb_false_iff, !str_in_elem. apply Hclosed.
        apply list_elem_of_fmap. by exists (k, v).
Qed.

(** ** What a verified envelope commits its signer to *)
Section Signatures.
Context {B : Base64} {ED : Ed25519}.

(** Key [pubkey] signed exactly [message]. *)
Definition ed25519_signed (pubkey message raw : bytes) : Prop :=
  exists vk, vk_from_bytes pubkey = Some vk /\ length raw = 64%nat /\ vk_verify vk message raw = true.
Lemma ed25519_verify_true pubkey message raw :
  ed25519_verify pubkey message raw = true <-> ed25519_signed pubkey message raw.
Proof.
  unfold ed25519_verify, ed25519_signed, zlen. destruct (vk_from_bytes pubkey) as [vk|]; [|naive_solver].
  destruct (Z.eqb_spec (Z.of_nat (length raw)) 64); cbn; split; try done.
  - intros. exists vk. split_and!; [done|lia|done].
  - by intros (? & [= <-] & _ & ?).
  - intros (? & _ & ? & _). lia.
Qed.

(** A signature record admitted by [signature_valid]: a closed set of string members, no
    algorithm but EdDSA, and bytes that verify. *)
Record signature (sig : json) (message pubkey : bytes) : Prop := {
  s_closed : exists o, sig = JObject o /\ forall k v, (k, v) ∈ o ->
    k ∈ ["keyid"; "sig"; "alg"]%string /\ exists s, v = JString s;
  s_keyid : exists v, get sig "keyid" = Some v;
  s_alg : get sig "alg" = None \/ get sig "alg" = Some (JString "EdDSA");
  s_bytes : exists text raw, get_str sig "sig" = Some text /\ b64_decode text = Some raw /\
    ed25519_signed pubkey message raw;
}.
Lemma signature_valid_spec sig message pubkey :
  signature_valid sig message pubkey = true <-> signature sig message pubkey.
Proof.
  assert (forall (v : json), is_string v = true <-> exists s, v = JString s) as Hstr.
  { intros v. destruct v; cbn; split; try done; naive_solver. }
  unfold signature_valid. split.
  - intros E. case_step E. destruct sig; try done. injection E0 as <-.
    rewrite !andb_true_iff, forallb_elem, alg_spec, is_some_and_true in E.
    destruct E as [[[Hk Hc] Ha] (raw & Hb & Hv)]. constructor.
    + eexists. split; [done|]. intros k v Hin. apply Hc in Hin. cbn [fst snd] in Hin.
      rewrite andb_true_iff, str_in_elem, Hstr in Hin. done.
    + by apply contains_key_true in Hk as [x Hx]; exists x.
    + done.
    + apply bind_Some in Hb as (t & ? & ?). apply ed25519_verify_true in Hv. eauto.
  - intros [(o & -> & Hc) [v Hk] Ha (t & raw & Ht & Hb & Hv)]. cbn [as_object].
    rewrite !andb_true_iff, forallb_elem, alg_spec, is_some_and_true, contains_key_true. split_and!.
    + by exists v.
    + intros [k x] Hin. cbn [fst snd]. rewrite andb_true_iff, str_in_elem, Hstr. eauto.
    + done.
    + exists raw. rewrite Ht. cbn. split; [done|]. by apply ed25519_verify_true.
Qed.

(** [env_signed_by] holds exactly when one of the envelope's own signature records, under
    that key id, is a well-formed EdDSA signature of the envelope's type and payload. *)
Theorem env_signed_by_spec (env : json) (kid : string) (pubkey : bytes) :
  env_signed_by env kid pubkey = true <->
  exists ty p sigs sig, get_str env "payloadType" = Some ty /\ payload_of env = Some p /\
    get_array env "signatures" = Some sigs /\ sig ∈ sigs /\ get_str sig "keyid" = Some kid /\
    signature sig (pae ty p) pubkey.
Proof.
  assert (envelope_message env = t ← get_str env "payloadType"; p ← payload_of env; Some (pae t p)) as Hm.
  { unfold envelope_message, get_str. destruct (get env "payloadType") as [[]|]; done. }
  unfold env_signed_by. rewrite Hm. split.
  - intros E. case_step E. apply bind_Some in E0 as (ty & Hty & E0). apply bind_Some in E0 as (p & Hp & [= <-]).
    apply is_some_and_true in E as (sigs & Hs & E). apply existsb_exists in E as (sig & Hin & E).
    apply list_elem_of_In in Hin. rewrite andb_true_iff, opt_str_eqb_true, signature_valid_spec in E.
    destruct E. exists ty, p, sigs, sig. done.
  - intros (ty & p & sigs & sig & Hty & Hp & Hs & Hin & Hk & Hv). rewrite Hty, Hp. cbn [mbind option_bind].
    apply is_some_and_true. exists sigs. split; [done|]. apply existsb_exists. exists sig.
    rewrite list_elem_of_In in Hin. split; [done|]. by rewrite andb_true_iff, opt_str_eqb_true, signature_valid_spec.
Qed.
End Signatures.
