(* ===== verification/KeyLog.v ===== *)
(** * KeyLog: the key-log replay (lib.rs)

    The trust root of a bundle: the entries of agent [_system] with an action
    [evd.key.*] are collected in leaf order and replayed.  The transition functions
    [apply_key_*] mutate the log through [&mut] and return a [bool]; none mutates
    before returning [false], so each is an [option] of the new log.  A failed
    replay returns the log as far as it got, with [ok] unset. *)
From S2P Require Import Prelude Hash Text Json Jcs Utc Dsse.

(** ** State *)

Record KeyState := {
  introduced : Z * Z;
  revoked_at : option (Z * string);
  non_issuer : bool;
  recorder : bool;
  scitt : bool;
}.

Record KeyLog := {
  keys : gmap string bytes;
  state : gmap string KeyState;
  ok : bool;
}.
(** [KeyLog::default()]. *)
Definition KeyLog_default : KeyLog := {| keys := ∅; state := ∅; ok := false |}.

(** [kl.keys[kid]]: the index panics on an absent key; [signing_keys_present] shows
    that no use of it does. *)
Definition key_material (kl : KeyLog) (kid : string) : bytes := default [] (keys kl !! kid).

Definition insert_key (kl : KeyLog) (kid : string) (material : bytes) (st : KeyState) : KeyLog :=
  {| keys := <[kid := material]> (keys kl); state := <[kid := st]> (state kl); ok := ok kl |}.
Definition set_revoked (st : KeyState) (at_ : Z * string) : KeyState :=
  {| introduced := introduced st; revoked_at := Some at_; non_issuer := non_issuer st;
     recorder := recorder st; scitt := scitt st |}.
Definition set_ok (kl : KeyLog) : KeyLog := {| keys := keys kl; state := state kl; ok := true |}.

(** One collected key entry: [(leaf, envelope, body)]. *)
Definition key_entry : Type := Z * json * json.
Definition ke_leaf (e : key_entry) : Z := e.1.1.
Definition ke_env (e : key_entry) : json := e.1.2.
Definition ke_body (e : key_entry) : json := e.2.

Section KeyLog.
Context {H : Hash} {SD : Serde} {B : Base64} {ED : Ed25519}.

(** [fn collect_key_entries]: [sort_by_key] is stable. *)
Definition collect_key_entry (e : json) : option key_entry :=
  body ← body_of (idx e "envelope");
  let is_sys := opt_str_eqb (get_str body "agent_id") (Some "_system") in
  let is_key := unwrap_or (starts_with "evd.key." <$> get_str body "action_type") false in
  if is_sys && is_key
  then Some (unwrap_or (get_u64 e "leaf_index") 0, idx e "envelope", body)
  else None.
Definition collect_key_entries (entries : list json) : list key_entry :=
  sort_by (fun a b => ke_leaf a <=? ke_leaf b) (omap collect_key_entry entries).

(** [fn key_entries_well_formed]. *)
Definition key_entries_well_formed (key_entries : list key_entry) : bool :=
  match key_entries with
  | [] => false
  | first :: _ =>
      reject_if negb (ke_leaf first =? 0)
        || negb (opt_str_eqb (get_str (ke_body first) "action_type") (Some "evd.key.created"))
      with false;
      let seqs := map (fun t => unwrap_or (get_i64 (ke_body t) "seq") (-1)) key_entries in
      forallb (fun ns => ns.2 =? ns.1 + 1) (enumerate seqs)
  end.

(** [fn key_active]. *)
Definition key_active (kl : KeyLog) (kid at_ : string) (observed_size : Z) : bool :=
  let_some st := state kl !! kid else false;
  let_some at_ := utc_epoch_micros at_ else false;
  ((introduced st).1 <? observed_size) && ((introduced st).2 <=? at_)
  && is_none_or (revoked_at st) (fun r =>
       (observed_size <=? r.1) && is_some_and (utc_epoch_micros r.2) (fun revoked => at_ <=? revoked)).

Definition is_non_issuer (kl : KeyLog) (kid : string) : bool := is_some_and (state kl !! kid) non_issuer.

(** [fn signed_by_active_key]. *)
Definition signed_by_active_key (env : json) (kl : KeyLog) (ts : string) (observed_size : Z)
    (issuer_only : bool) : bool :=
  is_some_and (get_array env "signatures") (fun ss =>
    existsb (fun s =>
      let kid := unwrap_or (get_str s "keyid") EmptyString in
      (negb issuer_only || negb (is_non_issuer kl kid)) && key_active kl kid ts observed_size
      && env_signed_by env kid (key_material kl kid)) ss).

(** [fn key_role_ok]. *)
Definition key_role_ok (pos : Z) (action : string) (ctx : json) : bool :=
  match get ctx "role" with
  | None | Some JNull => true
  | Some (JString role) =>
      (0 <? pos) && String.eqb action "evd.key.created" && str_in role ["recorder"; "scitt-issuer"]
  | _ => false
  end.

(** [fn apply_key_created]. *)
Definition apply_key_created (kl : KeyLog) (pos leaf : Z) (env ctx : json) (ts : string)
    (effective : Z) (kid : string) (material : bytes) : option KeyLog :=
  let role := get_str ctx "role" in
  reject_if is_some (keys kl !! kid) with None;
  issuer_sponsored ←
    (if pos =? 0 then
       if negb (env_signed_by env kid material) then None else Some true
     else
       if negb (signed_by_active_key env kl ts leaf false) then None
       else Some (signed_by_active_key env kl ts leaf true));
  reject_if is_some role && negb issuer_sponsored with None;
  Some (insert_key kl kid material
    {| introduced := (leaf, effective); revoked_at := None;
       non_issuer := is_some role || negb issuer_sponsored;
       recorder := opt_str_eqb role (Some "recorder"%string);
       scitt := opt_str_eqb role (Some "scitt-issuer"%string) |}).

(** [fn apply_key_rotated]. *)
Definition apply_key_rotated (kl : KeyLog) (leaf : Z) (env ctx jwk : json) (ts : string)
    (effective : Z) (kid : string) (material : bytes) : option KeyLog :=
  let prev_kid := unwrap_or (get_str ctx "prev_kid") EmptyString in
  let continuity := get_str ctx "continuity_sig" in
  reject_if is_empty prev_kid || is_none continuity || is_some (keys kl !! kid) with None;
  reject_if negb (key_active kl prev_kid ts leaf) with None;
  reject_if negb (env_signed_by env prev_kid (key_material kl prev_kid)) with None;
  let_some jwk_canon := canonical_checked jwk else None;
  let_some cont := (c ← continuity; b64_decode c) else None;
  reject_if negb (ed25519_verify (key_material kl prev_kid) jwk_canon cont) with None;
  Some (insert_key kl kid material
    {| introduced := (leaf, effective); revoked_at := None;
       non_issuer := is_non_issuer kl prev_kid; recorder := false; scitt := false |}).

(** [fn apply_key_revoked]. *)
Definition apply_key_revoked (kl : KeyLog) (leaf : Z) (env ctx : json) (ts kid : string) : option KeyLog :=
  reject_if is_none (keys kl !! kid) || is_none_or (state kl !! kid) (fun st => is_some (revoked_at st)) with None;
  reject_if negb (signed_by_active_key env kl ts leaf false) with None;
  let eff := unwrap_or (get_str ctx "effective_ts") EmptyString in
  reject_if negb (canonical_utc eff) with None;
  Some {| keys := keys kl; state := alter (fun st => set_revoked st (leaf, eff)) kid (state kl); ok := ok kl |}.

(** One turn of the loop of [fn replay_key_log]; [None] is an early [return kl]. *)
Definition replay_entry (pos : Z) (kl : KeyLog) (e : key_entry) : option KeyLog :=
  let leaf := ke_leaf e in let env := ke_env e in let body := ke_body e in
  let action := unwrap_or (get_str body "action_type") EmptyString in
  let ctx := unwrap_or (get body "context") JNull in
  reject_if negb (key_role_ok pos action ctx) with None;
  let jwk := unwrap_or (get ctx "jwk") JNull in
  let ts := unwrap_or (get_str body "ts_server") EmptyString in
  let_some effective := (s ← get_str ctx "effective_ts"; utc_epoch_micros s) else None;
  reject_if negb (canonical_utc ts) with None;
  let_some (material, kid) := key_from_jwk jwk else None;
  if String.eqb action "evd.key.created" then apply_key_created kl pos leaf env ctx ts effective kid material
  else if String.eqb action "evd.key.rotated" then apply_key_rotated kl leaf env ctx jwk ts effective kid material
  else if String.eqb action "evd.key.revoked" then apply_key_revoked kl leaf env ctx ts kid
  else None.

Fixpoint replay_loop (pos : Z) (kl : KeyLog) (l : list key_entry) : KeyLog :=
  match l with
  | [] => set_ok kl
  | e :: t => let_some kl' := replay_entry pos kl e else kl; replay_loop (pos + 1) kl' t
  end.

(** [fn replay_key_log]. *)
Definition replay_key_log (entries : list json) : KeyLog :=
  let key_entries := collect_key_entries entries in
  reject_if negb (key_entries_well_formed key_entries) with KeyLog_default;
  replay_loop 0 KeyLog_default key_entries.

(** [fn check_jwks_match_log]. *)
Fixpoint jwks_listed (kl : KeyLog) (jwks : list json) (listed : gset string) : option (gset string) :=
  match jwks with
  | [] => Some listed
  | jwk :: t =>
      match key_from_jwk jwk with
      | Some (mat, kid) =>
          match keys kl !! kid with
          | Some logmat => if bytes_eqb logmat mat then jwks_listed kl t ({[ kid ]} ∪ listed) else None
          | None => None
          end
      | None => None
      end
  end.
Definition check_jwks_match_log (bundle : json) (kl : KeyLog) : bool :=
  let_some jwks := opt_filter (v ← get bundle "jwks"; get_array v "keys") (fun k => negb (zlen k =? 0)) else false;
  let_some listed := jwks_listed kl jwks ∅ else false;
  forallb (fun ks => is_some (revoked_at ks.2) || bool_decide (ks.1 ∈ listed)) (map_to_list (state kl)).
End KeyLog.

(** ** Specification: the key-log rules of log-v1

    The rules as a step relation over the replayed log: genesis, sponsored creation,
    rotation and revocation, with "active" and "vouched for" as propositions. *)
Section Spec.
Context {H : Hash} {SD : Serde} {B : Base64} {ED : Ed25519}.

(** A key is active for an observer at log size [size] and time [at_]: introduced before, effective,
    and not revoked by then. *)
Definition active (kl : KeyLog) (kid : string) (at_ : Z) (size : Z) : Prop :=
  exists st, state kl !! kid = Some st /\ (introduced st).1 < size /\ (introduced st).2 <= at_ /\
    forall leaf ts, revoked_at st = Some (leaf, ts) ->
      size <= leaf /\ exists r, utc_epoch_micros ts = Some r /\ at_ <= r.

Definition vouched (kl : KeyLog) (env : json) (ts : string) (size : Z) (by_ : string) : Prop :=
  (exists at_, utc_epoch_micros ts = Some at_ /\ active kl by_ at_ size) /\
  env_signed_by env by_ (key_material kl by_) = true.
Definition issuer_key (kl : KeyLog) (kid : string) : Prop :=
  forall st, state kl !! kid = Some st -> non_issuer st = false.

(** The fields every key entry carries. *)
Record key_event (e : key_entry) (ctx : json) (ts : string) (effective : Z) (jwk : json)
    (material : bytes) (kid : string) : Prop := {
  ev_ctx : ctx = unwrap_or (get (ke_body e) "context") JNull;
  ev_ts : ts = unwrap_or (get_str (ke_body e) "ts_server") EmptyString;
  ev_canonical : canonical_utc ts = true;
  ev_effective : exists s, get_str ctx "effective_ts" = Some s /\ utc_epoch_micros s = Some effective;
  ev_jwk : jwk = unwrap_or (get ctx "jwk") JNull;
  ev_key : key_from_jwk jwk = Some (material, kid);
}.
Definition action_of (e : key_entry) : string := unwrap_or (get_str (ke_body e) "action_type") EmptyString.
Definition no_role (ctx : json) : Prop := get ctx "role" = None \/ get ctx "role" = Some JNull.

Inductive key_step (pos : Z) (kl : KeyLog) (e : key_entry) : KeyLog -> Prop :=
| step_genesis ctx ts eff jwk material kid :
    key_event e ctx ts eff jwk material kid -> action_of e = "evd.key.created"%string -> pos = 0 ->
    no_role ctx -> keys kl !! kid = None ->
    env_signed_by (ke_env e) kid material = true ->
    key_step pos kl e (insert_key kl kid material
      {| introduced := (ke_leaf e, eff); revoked_at := None; non_issuer := false; recorder := false; scitt := false |})
| step_sponsored ctx ts eff jwk material kid sponsor issuer_sponsored :
    key_event e ctx ts eff jwk material kid -> action_of e = "evd.key.created"%string -> 0 < pos ->
    no_role ctx -> keys kl !! kid = None ->
    vouched kl (ke_env e) ts (ke_leaf e) sponsor ->
    (issuer_sponsored = true <-> exists by_, vouched kl (ke_env e) ts (ke_leaf e) by_ /\ issuer_key kl by_) ->
    key_step pos kl e (insert_key kl kid material
      {| introduced := (ke_leaf e, eff); revoked_at := None; non_issuer := negb issuer_sponsored;
         recorder := false; scitt := false |})
| step_role ctx ts eff jwk material kid role sponsor :
    key_event e ctx ts eff jwk material kid -> action_of e = "evd.key.created"%string -> 0 < pos ->
    get ctx "role" = Some (JString role) -> role ∈ ["recorder"; "scitt-issuer"]%string ->
    keys kl !! kid = None ->
    vouched kl (ke_env e) ts (ke_leaf e) sponsor -> issuer_key kl sponsor ->
    key_step pos kl e (insert_key kl kid material
      {| introduced := (ke_leaf e, eff); revoked_at := None; non_issuer := true;
         recorder := String.eqb role "recorder"; scitt := String.eqb role "scitt-issuer" |})
| step_rotated ctx ts eff jwk material kid prev sig canon cont :
    key_event e ctx ts eff jwk material kid -> action_of e = "evd.key.rotated"%string ->
    no_role ctx -> keys kl !! kid = None ->
    get_str ctx "prev_kid" = Some prev -> prev <> EmptyString ->
    vouched kl (ke_env e) ts (ke_leaf e) prev ->
    get_str ctx "continuity_sig" = Some sig -> b64_decode sig = Some cont ->
    canonical_checked jwk = Some canon -> ed25519_verify (key_material kl prev) canon cont = true ->
    key_step pos kl e (insert_key kl kid material
      {| introduced := (ke_leaf e, eff); revoked_at := None; non_issuer := is_non_issuer kl prev;
         recorder := false; scitt := false |})
| step_revoked ctx ts eff jwk material kid st s sponsor :
    key_event e ctx ts eff jwk material kid -> action_of e = "evd.key.revoked"%string ->
    no_role ctx -> is_Some (keys kl !! kid) -> state kl !! kid = Some st -> revoked_at st = None ->
    vouched kl (ke_env e) ts (ke_leaf e) sponsor ->
    get_str ctx "effective_ts" = Some s -> canonical_utc s = true ->
    key_step pos kl e {| keys := keys kl;
      state := <[kid := set_revoked st (ke_leaf e, s)]> (state kl); ok := ok kl |}.

(** A run of the rules over consecutive entries. *)
Inductive key_run : Z -> KeyLog -> list key_entry -> KeyLog -> Prop :=
| run_nil pos kl : key_run pos kl [] kl
| run_cons pos kl e kl' t kl'' :
    key_step pos kl e kl' -> key_run (pos + 1) kl' t kl'' -> key_run pos kl (e :: t) kl''.

(** ** The replay implements the rules *)

Lemma key_active_iff kl kid ts size :
  key_active kl kid ts size = true <-> exists at_, utc_epoch_micros ts = Some at_ /\ active kl kid at_ size.
Proof.
  unfold key_active, active. destruct (state kl !! kid) as [st|]; [|naive_solver].
  destruct (utc_epoch_micros ts) as [a|]; [|naive_solver].
  rewrite !andb_true_iff, Z.ltb_lt, Z.leb_le, is_none_or_true.
  assert ((forall x, revoked_at st = Some x -> (size <=? x.1) && is_some_and (utc_epoch_micros x.2) (fun r => a <=? r) = true)
    <-> forall leaf t, revoked_at st = Some (leaf, t) -> size <= leaf /\ exists r, utc_epoch_micros t = Some r /\ a <= r) as Hr.
  { split.
    - intros Hf leaf t E. apply Hf in E. cbn [fst snd] in E.
      rewrite andb_true_iff, Z.leb_le, is_some_and_true in E. setoid_rewrite Z.leb_le in E. done.
    - intros Hf [leaf t] E. apply Hf in E. cbn [fst snd].
      rewrite andb_true_iff, Z.leb_le, is_some_and_true. setoid_rewrite Z.leb_le. done. }
  rewrite Hr. naive_solver.
Qed.

Lemma issuer_key_iff kl kid : is_non_issuer kl kid = false <-> issuer_key kl kid.
Proof.
  unfold is_non_issuer, issuer_key. destruct (state kl !! kid) as [st|]; cbn; naive_solver.
Qed.

Lemma env_signed_by_record env kid pubkey :
  env_signed_by env kid pubkey = true -> exists ss s, get_array env "signatures" = Some ss /\
    s ∈ ss /\ get_str s "keyid" = Some kid.
Proof.
  unfold env_signed_by. intros E. case_step E. apply is_some_and_true in E as (ss & Hs & E).
  apply existsb_exists in E as (s & Hin & E). apply list_elem_of_In in Hin.
  rewrite andb_true_iff, opt_str_eqb_true in E. naive_solver.
Qed.
Lemma signed_by_active_key_iff env kl ts size issuer_only :
  signed_by_active_key env kl ts size issuer_only = true <->
  exists by_, vouched kl env ts size by_ /\ (issuer_only = true -> issuer_key kl by_).
Proof.
  unfold signed_by_active_key, vouched. rewrite is_some_and_true. split.
  - intros (ss & Hs & E). apply existsb_exists in E as (s & _ & E).
    rewrite !andb_true_iff, orb_true_iff, !negb_true_iff, key_active_iff, issuer_key_iff in E.
    destruct E as [[? ?] ?]. eexists. split; [split; eassumption|]. intros ->. naive_solver.
  - intros (by_ & [Ha Hs] & Hi). destruct (env_signed_by_record _ _ _ Hs) as (ss & s & Hss & Hin & Hk).
    exists ss. split; [done|]. apply existsb_exists. exists s. rewrite list_elem_of_In in Hin. split; [done|].
    rewrite Hk. cbn [unwrap_or]. rewrite !andb_true_iff, orb_true_iff, !negb_true_iff, key_active_iff, issuer_key_iff.
    split; [split; [|done]|done]. destruct issuer_only; auto.
Qed.
End Spec.

Section Refinement.
Context {H : Hash} {SD : Serde} {B : Base64} {ED : Ed25519}.

(** The role check splits into the rules' two cases. *)
Lemma key_role_ok_cases pos action ctx :
  key_role_ok pos action ctx = true <-> no_role ctx \/
    exists role, get ctx "role" = Some (JString role) /\ 0 < pos /\ action = "evd.key.created"%string /\
      role ∈ ["recorder"; "scitt-issuer"]%string.
Proof.
  unfold key_role_ok, no_role. destruct (get ctx "role") as [[]|]; try (split; [done|naive_solver]); try naive_solver.
  rewrite !andb_true_iff, Z.ltb_lt, String.eqb_eq, str_in_elem. split; [naive_solver|].
  intros [[?|?]|(? & [= <-] & ? & ? & ?)]; done.
Qed.
Lemma no_role_str ctx : no_role ctx -> get_str ctx "role" = None.
Proof. unfold no_role, get_str. by intros [-> | ->]. Qed.

Lemma opt_str_eqb_Some a b : opt_str_eqb (Some a) (Some b) = String.eqb a b.
Proof. unfold opt_str_eqb. destruct (String.eqb_spec a b); case_bool_decide; congruence. Qed.
Lemma alter_insert_lookup (f : KeyState -> KeyState) (m : gmap string KeyState) k x :
  m !! k = Some x -> alter f k m = <[k := f x]> m.
Proof.
  intros Hx. apply map_eq. intros i. destruct (decide (i = k)) as [->|].
  - rewrite lookup_alter_eq, lookup_insert_eq, Hx. done.
  - rewrite lookup_alter_ne, lookup_insert_ne by done. done.
Qed.

(** The header of every entry, parsed. *)
Definition key_dispatch (pos : Z) (kl : KeyLog) (e : key_entry) (ctx jwk : json) (ts : string) (eff : Z)
    (kid : string) (material : bytes) : option KeyLog :=
  if String.eqb (action_of e) "evd.key.created" then apply_key_created kl pos (ke_leaf e) (ke_env e) ctx ts eff kid material
  else if String.eqb (action_of e) "evd.key.rotated" then apply_key_rotated kl (ke_leaf e) (ke_env e) ctx jwk ts eff kid material
  else if String.eqb (action_of e) "evd.key.revoked" then apply_key_revoked kl (ke_leaf e) (ke_env e) ctx ts kid
  else None.
Lemma replay_entry_header pos kl e kl' :
  replay_entry pos kl e = Some kl' <-> exists ctx ts eff jwk material kid,
    key_event e ctx ts eff jwk material kid /\ key_role_ok pos (action_of e) ctx = true /\
    key_dispatch pos kl e ctx jwk ts eff kid material = Some kl'.
Proof.
  unfold replay_entry. fold (action_of e). split.
  - intros E. case_step E. apply negb_false_iff in E0.
    case_step E. apply bind_Some in E1 as (s & Hs & Heff).
    case_step E. apply negb_false_iff in E1. destruct (key_from_jwk _) as [[material kid]|] eqn:Hk; [|done].
    do 6 eexists. split; [econstructor; eauto|]. split; done.
  - intros (ctx & ts & eff & jwk & material & kid & [-> -> Hc (s & Hs & Heff) -> Hk] & Hr & Hd).
    rewrite Hr, Hs. cbn [negb mbind option_bind]. rewrite Heff, Hc, Hk. exact Hd.
Qed.

Lemma created_step pos kl e ctx ts eff jwk material kid kl' :
  0 <= pos -> key_event e ctx ts eff jwk material kid -> action_of e = "evd.key.created"%string ->
  key_role_ok pos (action_of e) ctx = true ->
  apply_key_created kl pos (ke_leaf e) (ke_env e) ctx ts eff kid material = Some kl' -> key_step pos kl e kl'.
Proof.
  intros Hpos Hev Hact Hrole E. unfold apply_key_created in E.
  destruct (keys kl !! kid) eqn:Hkid; [done|]. cbn [is_some] in E.
  apply bind_Some in E as (sp & Hsp & E). case_step E. injection E as <-.
  apply key_role_ok_cases in Hrole as [Hnr|(role & Hr & Hp & _ & Hin)].
  - apply no_role_str in Hnr as Hns. rewrite Hns in *. cbn [is_some orb].
    destruct (Z.eqb_spec pos 0) as [->|Hp].
    + case_step Hsp. apply negb_false_iff in E. injection Hsp as <-. by eapply step_genesis.
    + case_step Hsp. apply negb_false_iff, signed_by_active_key_iff in E as (sponsor & Hv & _). injection Hsp as Hsp.
      eapply step_sponsored; eauto; [lia|]. rewrite <- Hsp, signed_by_active_key_iff. naive_solver.
  - unfold get_str in *. rewrite Hr in *. cbn in *. destruct sp; [|done].
    destruct (Z.eqb_spec pos 0); [lia|]. case_step Hsp. injection Hsp as Hsp.
    apply signed_by_active_key_iff in Hsp as (sponsor & Hv & Hi).
    rewrite !opt_str_eqb_Some. eapply step_role; eauto.
Qed.

Lemma rotated_step pos kl e ctx ts eff jwk material kid kl' :
  key_event e ctx ts eff jwk material kid -> action_of e = "evd.key.rotated"%string ->
  key_role_ok pos (action_of e) ctx = true ->
  apply_key_rotated kl (ke_leaf e) (ke_env e) ctx jwk ts eff kid material = Some kl' -> key_step pos kl e kl'.
Proof.
  intros Hev Hact Hrole E. unfold apply_key_rotated in E. case_step E.
  rewrite !orb_false_iff in E0. destruct E0 as [[Hne Hc] Hkid].
  case_step E. case_step E. apply negb_false_iff in E0, E1. case_step E. case_step E. case_step E.
  injection E as <-. apply negb_false_iff in E4. apply bind_Some in E3 as (sig & Hsig & Hcont).
  destruct (get_str ctx "prev_kid") as [prev|] eqn:Hprev; [|done]. cbn [unwrap_or] in *.
  eapply (step_rotated pos kl e ctx ts eff jwk material kid prev); eauto.
  - apply key_role_ok_cases in Hrole as [?|(? & _ & _ & ? & _)]; [done|congruence].
  - by destruct (keys kl !! kid).
  - by destruct prev.
  - split; [by apply key_active_iff|done].
Qed.

Lemma revoked_step pos kl e ctx ts eff jwk material kid kl' :
  key_event e ctx ts eff jwk material kid -> action_of e = "evd.key.revoked"%string ->
  key_role_ok pos (action_of e) ctx = true ->
  apply_key_revoked kl (ke_leaf e) (ke_env e) ctx ts kid = Some kl' -> key_step pos kl e kl'.
Proof.
  intros Hev Hact Hrole E. unfold apply_key_revoked in E. case_step E.
  rewrite orb_false_iff in E0. destruct E0 as [Hk Hst]. case_step E. case_step E. injection E as <-.
  apply negb_false_iff in E0, E1. apply signed_by_active_key_iff in E0 as (sponsor & Hv & _).
  destruct (state kl !! kid) as [st|] eqn:Hs; [|done]. cbn in Hst.
  destruct (get_str ctx "effective_ts") as [s|] eqn:Heff; [|done]. cbn [unwrap_or] in *.
  rewrite (alter_insert_lookup _ _ _ st Hs). eapply step_revoked; eauto.
  - apply key_role_ok_cases in Hrole as [?|(? & _ & _ & ? & _)]; [done|congruence].
  - by destruct (keys kl !! kid).
  - by destruct (revoked_at st).
Qed.

Lemma vouched_signed kl env ts size by_ :
  vouched kl env ts size by_ -> signed_by_active_key env kl ts size false = true.
Proof. intros Hv. apply signed_by_active_key_iff. by exists by_. Qed.

Lemma step_replay pos kl e kl' : 0 <= pos -> key_step pos kl e kl' -> replay_entry pos kl e = Some kl'.
Proof.
  intros Hpos Hs. apply replay_entry_header.
  destruct Hs as [ctx ts eff jwk material kid Hev Hact -> Hnr Hk Hsig
    |ctx ts eff jwk material kid sponsor isp Hev Hact Hp Hnr Hk Hv Hi
    |ctx ts eff jwk material kid role sponsor Hev Hact Hp Hr Hin Hk Hv Hi
    |ctx ts eff jwk material kid prev sig canon cont Hev Hact Hnr Hk Hprev Hne Hv Hsig Hdec Hcan Hver
    |ctx ts eff jwk material kid st s sponsor Hev Hact Hnr Hk Hst Hrev Hv Heff Hc];
    exists ctx, ts, eff, jwk, material, kid; (split; [done|]);
    rewrite key_role_ok_cases; unfold key_dispatch; rewrite Hact; cbn [String.eqb Ascii.eqb Bool.eqb].
  - split; [by left|]. unfold apply_key_created. rewrite Hk, (no_role_str _ Hnr), Hsig. done.
  - split; [by left|]. unfold apply_key_created. rewrite Hk, (no_role_str _ Hnr). cbn [is_some].
    rewrite (proj2 (Z.eqb_neq pos 0)), (vouched_signed _ _ _ _ _ Hv) by lia. cbn [negb mbind option_bind].
    replace (signed_by_active_key (ke_env e) kl ts (ke_leaf e) true) with isp; [done|].
    apply eq_true_iff_eq. rewrite Hi, signed_by_active_key_iff. naive_solver.
  - split; [right; eauto|]. unfold apply_key_created. rewrite Hk. unfold get_str. rewrite Hr.
    cbn [is_some mbind option_bind as_str].
    rewrite (proj2 (Z.eqb_neq pos 0)), (vouched_signed _ _ _ _ _ Hv) by lia. cbn [negb mbind option_bind].
    rewrite (proj2 (signed_by_active_key_iff _ _ _ _ true)) by eauto. cbn [negb andb mbind option_bind].
    by rewrite !opt_str_eqb_Some.
  - split; [by left|]. unfold apply_key_rotated. rewrite Hprev, Hsig, Hk. cbn [unwrap_or is_none is_some negb orb].
    destruct Hv as [Ha Hs]. rewrite (proj2 (key_active_iff _ _ _ _)), Hs, Hcan by done.
    destruct prev; [done|]. cbn [is_empty orb negb mbind option_bind]. by rewrite Hdec, Hver.
  - split; [by left|]. unfold apply_key_revoked. rewrite Hst. destruct Hk as [k Hk]. rewrite Hk.
    cbn [is_none is_some is_none_or negb orb]. rewrite Hrev, (vouched_signed _ _ _ _ _ Hv), Heff. cbn [is_some negb unwrap_or].
    rewrite Hc. cbn [negb]. by rewrite (alter_insert_lookup _ _ _ st Hst).
Qed.

(** One turn of the loop is one step of the rules. *)
Lemma replay_entry_step pos kl e kl' :
  0 <= pos -> replay_entry pos kl e = Some kl' <-> key_step pos kl e kl'.
Proof.
  intros Hpos. split; [|by apply step_replay]. intros E.
  apply replay_entry_header in E as (ctx & ts & eff & jwk & material & kid & Hev & Hr & E).
  unfold key_dispatch in E.
  destruct (String.eqb_spec (action_of e) "evd.key.created"); [by eapply created_step|].
  destruct (String.eqb_spec (action_of e) "evd.key.rotated"); [by eapply rotated_step|].
  destruct (String.eqb_spec (action_of e) "evd.key.revoked"); [by eapply revoked_step|done].
Qed.

Lemma step_ok pos kl e kl' : key_step pos kl e kl' -> ok kl' = ok kl.
Proof. by destruct 1. Qed.

Lemma replay_loop_run l : forall pos kl kl', 0 <= pos -> ok kl = false ->
  (replay_loop pos kl l = kl' /\ ok kl' = true <-> exists kl0, key_run pos kl l kl0 /\ kl' = set_ok kl0).
Proof.
  induction l as [|e l IH]; intros pos kl kl' Hpos Hok; cbn.
  - split; [intros [<- _]; eexists; split; [constructor|done]|].
    intros (kl0 & Hr & ->). inversion Hr; subst. done.
  - destruct (replay_entry pos kl e) as [kl1|] eqn:E.
    + apply replay_entry_step in E as Hs; [|done]. rewrite IH by (try lia; by erewrite step_ok). split.
      * intros (kl0 & ? & ->). eexists. split; [by econstructor|done].
      * intros (kl0 & Hr & ->). inversion Hr as [|? ? ? kl2 ? ? Hs' Hr']; subst.
        apply replay_entry_step in Hs'; [|done]. rewrite E in Hs'. injection Hs' as ->. eauto.
    + split; [intros [<- ?]; congruence|]. intros (kl0 & Hr & _). inversion Hr as [|? ? ? kl2 ? ? Hs' Hr']; subst.
      apply replay_entry_step in Hs'; [congruence|done].
Qed.

(** C12: the replay succeeds exactly on the key logs the rules of log-v1 generate from the
    empty log, and then returns the log they generate: functional refinement of the rules. *)
Theorem replay_refines_rules (entries : list json) (kl : KeyLog) :
  replay_key_log entries = kl /\ ok kl = true <->
  key_entries_well_formed (collect_key_entries entries) = true /\
  exists kl0, key_run 0 KeyLog_default (collect_key_entries entries) kl0 /\ kl = set_ok kl0.
Proof.
  unfold replay_key_log. destruct (key_entries_well_formed _); cbn [negb].
  - rewrite replay_loop_run by done. tauto.
  - split; [intros [<- ?]; done|intros [? _]; done].
Qed.
End Refinement.

(** ** Invariants of every replayed log *)
Section Invariants.
Context {H : Hash} {SD : Serde} {B : Base64} {ED : Ed25519}.

(** Whatever the entries, the log returned was reached by the rules, over a prefix of the
    collected entries. *)
Lemma replay_loop_reaches l : forall pos kl, 0 <= pos ->
  exists l1 l2 kl0, l = l1 ++ l2 /\ key_run pos kl l1 kl0 /\
    keys (replay_loop pos kl l) = keys kl0 /\ state (replay_loop pos kl l) = state kl0.
Proof.
  induction l as [|e l IH]; intros pos kl Hpos; cbn.
  - exists [], [], kl. by repeat split; constructor.
  - destruct (replay_entry pos kl e) as [kl1|] eqn:E.
    + destruct (IH (pos + 1) kl1 ltac:(lia)) as (l1 & l2 & kl0 & -> & Hr & ? & ?).
      exists (e :: l1), l2, kl0. split; [done|]. split; [|done]. econstructor; [by apply replay_entry_step|done].
    + exists [], (e :: l), kl. by repeat split; constructor.
Qed.
Lemma replay_reaches entries :
  exists l1 l2 kl0, collect_key_entries entries = l1 ++ l2 /\ key_run 0 KeyLog_default l1 kl0 /\
    keys (replay_key_log entries) = keys kl0 /\ state (replay_key_log entries) = state kl0.
Proof.
  unfold replay_key_log. destruct (key_entries_well_formed _); cbn [negb].
  - by apply replay_loop_reaches.
  - exists [], (collect_key_entries entries), KeyLog_default. by repeat split; constructor.
Qed.

(** Rule induction over a run, with the entries consumed so far. *)
Lemma run_invariant (P : list key_entry -> KeyLog -> Prop) pre pos kl l kl' :
  (forall pre pos kl e kl', pos = zlen pre -> P pre kl -> key_step pos kl e kl' -> P (pre ++ [e]) kl') ->
  pos = zlen pre -> P pre kl -> key_run pos kl l kl' -> P (pre ++ l) kl'.
Proof.
  intros Hstep Hpos HP Hr. revert pre Hpos HP. induction Hr as [|pos kl e kl1 t kl2 Hs Hr IH]; intros pre Hpos HP.
  - by rewrite app_nil_r.
  - rewrite cons_middle, app_assoc. apply IH; [|by eapply Hstep].
    unfold zlen in *. rewrite length_app, Hpos. cbn. lia.
Qed.

Record keylog_inv (kl : KeyLog) : Prop := {
  (** every key has a state and every state a key *)
  inv_dom : dom (keys kl) = dom (state kl);
  (** a kid names the digest of its 32 bytes of material *)
  inv_kid : forall kid k, keys kl !! kid = Some k -> kid = kid_of k /\ length k = 32%nat;
  (** the managed roles are exclusive and never issuers *)
  inv_role : forall kid st, state kl !! kid = Some st ->
    (recorder st = true \/ scitt st = true -> non_issuer st = true) /\ (recorder st && scitt st) = false;
  (** a recorded revocation carries a canonical time *)
  inv_revoked : forall kid st leaf ts, state kl !! kid = Some st -> revoked_at st = Some (leaf, ts) ->
    canonical_utc ts = true;
}.

Lemma key_event_material e ctx ts eff jwk material kid :
  key_event e ctx ts eff jwk material kid -> kid = kid_of material /\ length material = 32%nat.
Proof.
  intros [_ _ _ _ _ Hk]. unfold key_from_jwk in Hk. apply bind_Some in Hk as (k & Hraw & Hk).
  assert (k = material /\ kid_of k = kid) as [-> <-].
  { case_all Hk; by injection Hk. }
  split; [done|]. unfold jwk_raw_key in Hraw. apply bind_Some in Hraw as (? & _ & Hraw). case_step Hraw.
  apply bind_Some in Hraw as (? & _ & Hraw). case_step Hraw.
  apply bind_Some in Hraw as (? & _ & Hraw). case_step Hraw. injection Hraw as <-.
  rewrite negb_false_iff, Z.eqb_eq in *. unfold zlen in *. lia.
Qed.

Lemma insert_key_inv kl kid material st :
  keylog_inv kl -> kid = kid_of material -> length material = 32%nat -> revoked_at st = None ->
  (recorder st = true \/ scitt st = true -> non_issuer st = true) -> (recorder st && scitt st) = false ->
  keylog_inv (insert_key kl kid material st).
Proof.
  intros [Hd Hk Hr Hv] Hkid Hm Hrev Hrole Hex. constructor; cbn [keys state insert_key].
  - by rewrite !dom_insert_L, Hd.
  - intros i k. rewrite lookup_insert_Some. intros [[<- <-]|[_ ?]]; auto.
  - intros i x. rewrite lookup_insert_Some. intros [[<- <-]|[_ ?]]; eauto.
  - intros i x leaf ts. rewrite lookup_insert_Some. intros [[<- <-]|[_ ?]] ?; [congruence|eauto].
Qed.

Lemma key_step_inv pos kl e kl' : keylog_inv kl -> key_step pos kl e kl' -> keylog_inv kl'.
Proof.
  intros Hinv Hs. destruct Hs as [ctx ts eff jwk material kid Hev Hact -> Hnr Hk Hsig
    |ctx ts eff jwk material kid sponsor isp Hev Hact Hp Hnr Hk Hv Hi
    |ctx ts eff jwk material kid role sponsor Hev Hact Hp Hr Hin Hk Hv Hi
    |ctx ts eff jwk material kid prev sig canon cont Hev Hact Hnr Hk Hprev Hne Hv Hsig Hdec Hcan Hver
    |ctx ts eff jwk material kid st s sponsor Hev Hact Hnr Hk Hst Hrev Hv Heff Hc];
    destruct (key_event_material _ _ _ _ _ _ _ Hev) as [Hkid Hm];
    try (apply insert_key_inv; auto; cbn; naive_solver).
  - apply insert_key_inv; auto. cbn.
    destruct (String.eqb_spec role "recorder"), (String.eqb_spec role "scitt-issuer"); subst; done.
  - destruct Hinv as [Hd Hkk Hr Hvv]. constructor; cbn [keys state].
    + rewrite dom_insert_L, Hd. apply (elem_of_dom_2) in Hst. set_solver.
    + done.
    + intros i x. rewrite lookup_insert_Some. intros [[<- <-]|[_ ?]]; [cbn|]; eauto.
    + intros i x leaf t. rewrite lookup_insert_Some. intros [[<- <-]|[_ ?]] Hx; [|eauto].
      cbn in Hx. injection Hx as <- <-. done.
Qed.

Lemma keylog_default_inv : keylog_inv KeyLog_default.
Proof. constructor; cbn; intros; done. Qed.

Lemma run_inv l kl : key_run 0 KeyLog_default l kl -> keylog_inv kl.
Proof.
  intros Hr. apply (run_invariant (fun _ => keylog_inv) [] 0 KeyLog_default l kl); auto using keylog_default_inv.
  intros. by eapply key_step_inv.
Qed.

(** Whatever the entries, and even where the replay fails, the log it returns is well
    formed: every state has a key, a kid is the digest of its material, roles are exclusive
    and never issuing, revocation times are canonical. *)
Theorem replay_keylog_inv (entries : list json) : keylog_inv (replay_key_log entries).
Proof.
  destruct (replay_reaches entries) as (l1 & l2 & kl0 & _ & Hr & Hk & Hs).
  apply run_inv in Hr as [Hd Hkk Hro Hv]. constructor; rewrite ?Hk, ?Hs; auto.
Qed.

(** The index [kl.keys[kid]] never panics: at every step of every run, and in the
    returned log, a kid that is active has its material in the log. *)
Theorem signing_keys_present (l : list key_entry) (kl : KeyLog) (kid ts : string) (size : Z) :
  key_run 0 KeyLog_default l kl -> key_active kl kid ts size = true ->
  keys kl !! kid = Some (key_material kl kid).
Proof.
  intros Hr Ha. apply run_inv in Hr as [Hd _ _ _]. apply key_active_iff in Ha as (at_ & _ & st & Hst & _).
  apply elem_of_dom_2 in Hst. rewrite <- Hd in Hst. apply elem_of_dom in Hst as [k Hk].
  unfold key_material. by rewrite Hk.
Qed.
End Invariants.

(** ** Safety of the transitions *)
Section Safety.
Context {H : Hash} {SD : Serde} {B : Base64} {ED : Ed25519}.

(** What a step can do to a key already in the log: nothing, or its first revocation. *)
Definition key_kept (kl kl' : KeyLog) (kid : string) (st : KeyState) : Prop :=
  exists st', state kl' !! kid = Some st' /\ keys kl' !! kid = keys kl !! kid /\
    introduced st' = introduced st /\ non_issuer st' = non_issuer st /\
    recorder st' = recorder st /\ scitt st' = scitt st /\
    (revoked_at st = None \/ revoked_at st' = revoked_at st).

Lemma insert_key_kept kl kid0 m st0 kid st :
  keylog_inv kl -> keys kl !! kid0 = None -> state kl !! kid = Some st -> key_kept kl (insert_key kl kid0 m st0) kid st.
Proof.
  intros [Hd _ _ _] Hk Hst. assert (kid <> kid0).
  { intros ->. apply elem_of_dom_2 in Hst. rewrite <- Hd in Hst. by apply elem_of_dom in Hst as [? ?]; congruence. }
  exists st. cbn. rewrite !lookup_insert_ne by done. auto 10.
Qed.
Lemma key_step_kept pos kl e kl' kid st :
  keylog_inv kl -> key_step pos kl e kl' -> state kl !! kid = Some st -> key_kept kl kl' kid st.
Proof.
  intros Hinv Hs Hst. destruct Hs; try (by apply insert_key_kept).
  destruct (decide (kid = kid0)) as [->|Hne].
  - replace st0 with st in * by congruence. eexists. cbn. rewrite lookup_insert_eq. split_and!; auto.
  - exists st. cbn. rewrite lookup_insert_ne by done. auto 10.
Qed.

(** Nothing the log says of a key is ever unsaid: over any run its material, its
    introduction and its roles stay, and a recorded revocation is never moved or undone. *)
Theorem key_facts_permanent (l k : list key_entry) (kl kl' : KeyLog) (kid : string) (st : KeyState) :
  key_run 0 KeyLog_default l kl -> key_run (zlen l) kl k kl' -> state kl !! kid = Some st ->
  key_kept kl kl' kid st.
Proof.
  intros Hl Hk. apply run_inv in Hl as Hinv. revert st.
  remember (zlen l) as pos. clear Hl Heqpos.
  induction Hk as [pos kl|pos kl e kl1 t kl2 Hs _ IH]; intros st Hst; [exists st; auto 10|].
  destruct (key_step_kept _ _ _ _ _ _ Hinv Hs Hst) as (st1 & Hst1 & Hk1 & ? & ? & ? & ? & Hr1).
  destruct (IH (key_step_inv _ _ _ _ Hinv Hs) st1 Hst1) as (st2 & Hst2 & Hk2 & ? & ? & ? & ? & Hr2).
  exists st2. split_and!; try congruence. destruct Hr1, Hr2; [tauto|tauto| |right; congruence].
  destruct (revoked_at st) eqn:E; [congruence|by left].
Qed.

Lemma key_step_past pos kl e kl' kid at_ size :
  size <= ke_leaf e -> key_step pos kl e kl' -> active kl' kid at_ size -> active kl kid at_ size.
Proof.
  intros Hsize Hs (st' & Hst & Hi & He & Hr).
  destruct Hs; cbn [state insert_key] in Hst; apply lookup_insert_Some in Hst as [[<- <-]|[Hne Hst]];
    try (cbn in Hi; lia); try (by exists st').
  exists st. cbn in *. split_and!; try done. intros leaf t E. congruence.
Qed.

(** Later entries create no authority in the past: a key active for an observer at a
    size no later entry precedes was already active before those entries were appended. *)
Theorem no_retroactive_authority (pos : Z) (kl kl' : KeyLog) (l : list key_entry) (kid : string) (at_ size : Z) :
  key_run pos kl l kl' -> Forall (fun e => size <= ke_leaf e) l -> active kl' kid at_ size -> active kl kid at_ size.
Proof.
  induction 1 as [pos kl|pos kl e kl1 t kl2 Hs _ IH]; intros Hf Ha; [done|].
  inversion Hf; subst. eapply key_step_past; eauto.
Qed.

End Safety.

(** ** Every issuer descends from genesis *)
Section Authority.
Context {H : Hash} {SD : Serde} {B : Base64} {ED : Ed25519}.

(** [introduces e kid action]: entry [e] is the [action] event of key [kid]. *)
Definition introduces (e : key_entry) (kid action : string) : Prop :=
  exists ctx ts eff jwk material, key_event e ctx ts eff jwk material kid /\ action_of e = action.
Definition signed_by_kid (e : key_entry) (kid : string) : Prop :=
  exists material, kid = kid_of material /\ env_signed_by (ke_env e) kid material = true.

(** The chain of signatures that makes a key an issuer, in the entries alone. *)
Inductive issuer_chain (first : key_entry) (es : list key_entry) : string -> Prop :=
| chain_genesis kid : introduces first kid "evd.key.created" -> signed_by_kid first kid -> issuer_chain first es kid
| chain_created e kid by_ : e ∈ es -> introduces e kid "evd.key.created" -> issuer_chain first es by_ ->
    signed_by_kid e by_ -> issuer_chain first es kid
| chain_rotated e kid by_ : e ∈ es -> introduces e kid "evd.key.rotated" -> issuer_chain first es by_ ->
    signed_by_kid e by_ -> issuer_chain first es kid.

Lemma issuer_chain_weaken first es es' kid : es ⊆ es' -> issuer_chain first es kid -> issuer_chain first es' kid.
Proof. intros Hsub. induction 1; [by apply chain_genesis|eapply chain_created|eapply chain_rotated]; eauto. Qed.

Definition issuers_rooted (pre : list key_entry) (kl : KeyLog) : Prop :=
  keylog_inv kl /\ forall first kid st, head pre = Some first -> state kl !! kid = Some st ->
    non_issuer st = false -> issuer_chain first pre kid.

Lemma vouched_kid kl env ts size by_ :
  keylog_inv kl -> vouched kl env ts size by_ ->
  is_Some (state kl !! by_) /\ by_ = kid_of (key_material kl by_).
Proof.
  intros [Hd Hk _ _] [(at_ & _ & st & Hst & _) _]. split; [by eexists|].
  apply elem_of_dom_2 in Hst. rewrite <- Hd in Hst. apply elem_of_dom in Hst as [m Hm].
  unfold key_material. rewrite Hm. by apply Hk in Hm as [? _].
Qed.

Lemma rooted_step pre pos kl e kl' :
  pos = zlen pre -> issuers_rooted pre kl -> (pre = [] -> state kl = ∅) -> key_step pos kl e kl' ->
  issuers_rooted (pre ++ [e]) kl'.
Proof.
  intros Hpos [Hinv Hroot] Hempty Hs. split; [by eapply key_step_inv|]. intros first kid' st' Hfirst Hst' Hni.
  assert (forall kid st, state kl !! kid = Some st -> non_issuer st = false -> issuer_chain first (pre ++ [e]) kid) as Hold.
  { intros kid st Hst Hn. destruct pre as [|e0 pre]; [rewrite Hempty in Hst by done; done|].
    eapply issuer_chain_weaken; [|by eapply Hroot]. set_solver. }
  assert (e ∈ pre ++ [e]) as He by set_solver.
  destruct Hs as [ctx ts eff jwk material kid Hev Hact -> Hnr Hk Hsig
    |ctx ts eff jwk material kid sponsor isp Hev Hact Hp Hnr Hk Hv Hi
    |ctx ts eff jwk material kid role sponsor Hev Hact Hp Hr Hin Hk Hv Hi
    |ctx ts eff jwk material kid prev sig canon cont Hev Hact Hnr Hk Hprev Hne Hv Hsig Hdec Hcan Hver
    |ctx ts eff jwk material kid st s sponsor Hev Hact Hnr Hk Hst Hrev Hv Heff Hc];
    cbn [state insert_key] in Hst'; apply lookup_insert_Some in Hst' as [[<- <-]|[Hne' Hst']];
    try (by eapply Hold); cbn in Hni; try done.
  - destruct pre; [|unfold zlen in Hpos; cbn in Hpos; lia]. cbn in Hfirst. injection Hfirst as <-.
    apply chain_genesis; [by exists ctx, ts, eff, jwk, material|].
    destruct (key_event_material _ _ _ _ _ _ _ Hev). by exists material.
  - apply negb_false_iff, Hi in Hni as (by_ & Hv' & Hiss). destruct (vouched_kid _ _ _ _ _ Hinv Hv') as [[stb Hb] Hkb].
    eapply chain_created; [exact He|by exists ctx, ts, eff, jwk, material|eapply Hold; eauto|]. exists (key_material kl by_).
    split; [done|]. by destruct Hv'.
  - destruct (vouched_kid _ _ _ _ _ Hinv Hv) as [[stb Hb] Hkb].
    unfold is_non_issuer in Hni. rewrite Hb in Hni. cbn in Hni.
    eapply chain_rotated; [exact He|by exists ctx, ts, eff, jwk, material|eapply Hold; eauto|]. exists (key_material kl prev).
    split; [done|]. by destruct Hv.
Qed.

(** C13: in every replayed log each key with issuing authority has a chain of signatures back
    to the self-signed genesis key, through entries of this key log alone: no role key and no
    key sponsored only by one ever becomes an issuer. *)
Theorem issuers_descend_from_genesis (entries : list json) (kid : string) (st : KeyState) (first : key_entry) :
  head (collect_key_entries entries) = Some first ->
  state (replay_key_log entries) !! kid = Some st -> non_issuer st = false ->
  issuer_chain first (collect_key_entries entries) kid.
Proof.
  destruct (replay_reaches entries) as (l1 & l2 & kl0 & Hc & Hr & _ & ->). rewrite Hc. intros Hfirst Hst Hni.
  assert (issuers_rooted l1 kl0 /\ (l1 = [] -> state kl0 = ∅)) as [[_ Hroot] Hemp].
  { apply (run_invariant (fun pre kl => issuers_rooted pre kl /\ (pre = [] -> state kl = ∅)) [] 0 KeyLog_default);
      [|done| |done].
    - intros pre pos kl e kl' Hp [Ha Hb] Hs. split; [by eapply rooted_step|]. by destruct pre.
    - split; [|done]. split; [apply keylog_default_inv|done]. }
  destruct l1 as [|e l1]; [by rewrite Hemp in Hst|]. cbn in Hfirst. injection Hfirst as <-.
  eapply issuer_chain_weaken; [|by eapply Hroot]. set_solver.
Qed.
End Authority.

(** ** Collection and the JWKS *)
Section Collection.
Context {H : Hash} {SD : Serde} {B : Base64} {ED : Ed25519}.

(** The replay does not depend on the order the bundle lists its entries in, as long as
    no two key entries claim one leaf. *)
Theorem replay_order_independent (entries entries' : list json) :
  entries ≡ₚ entries' -> NoDup (ke_leaf <$> collect_key_entries entries) ->
  replay_key_log entries = replay_key_log entries'.
Proof.
  intros Hp Hnd. unfold replay_key_log. assert (collect_key_entries entries = collect_key_entries entries') as ->; [|done].
  assert (forall l, Sorted (fun a b => (ke_leaf a <=? ke_leaf b) = true) (sort_by (fun a b => ke_leaf a <=? ke_leaf b) l)) as Hs.
  { intros l. apply sort_by_sorted. intros x y. lia. }
  assert (Transitive (fun a b : key_entry => (ke_leaf a <=? ke_leaf b) = true)) as Ht by (intros ? ? ?; lia).
  assert (omap collect_key_entry entries ≡ₚ omap collect_key_entry entries') as Ho by (by rewrite Hp).
  assert (collect_key_entries entries ≡ₚ collect_key_entries entries') as Hc.
  { unfold collect_key_entries. by rewrite !sort_by_perm. }
  apply (Sorted_unique_strong (fun a b => (ke_leaf a <=? ke_leaf b) = true)); [|by apply Hs..|done].
  intros x y Hx Hy Hxy Hyx. rewrite <- Hc in Hy. rewrite !Z.leb_le in Hxy, Hyx.
  apply list_elem_of_lookup in Hx as [i Hi], Hy as [j Hj].
  assert (i = j) as ->; [|congruence].
  eapply (NoDup_lookup _ i j (ke_leaf x) Hnd); rewrite list_lookup_fmap; [by rewrite Hi|].
  rewrite Hj. cbn. f_equal. lia.
Qed.

Lemma jwks_listed_spec kl jwks : forall listed s,
  jwks_listed kl jwks listed = Some s <->
  Forall (fun jwk => exists mat kid, key_from_jwk jwk = Some (mat, kid) /\ keys kl !! kid = Some mat) jwks /\
  s = listed ∪ list_to_set (omap (fun jwk => snd <$> key_from_jwk jwk) jwks).
Proof.
  induction jwks as [|jwk t IH]; intros listed s; cbn.
  - split; [intros [= <-]; split; [constructor|set_solver]|]. intros [_ ->]. f_equal. set_solver.
  - destruct (key_from_jwk jwk) as [[mat kid]|] eqn:Ek; cbn.
    + destruct (keys kl !! kid) as [m|] eqn:Em.
      * unfold bytes_eqb. case_bool_decide; subst.
        -- rewrite IH, Forall_cons. split.
           ++ intros [Hf ->]. split; [eauto|set_solver].
           ++ intros [[_ Hf] ->]. split; [done|set_solver].
        -- split; [done|]. rewrite Forall_cons. intros [[(m' & k' & Hk & Hm) _] _].
           rewrite Ek in Hk. injection Hk as <- <-. congruence.
      * split; [done|]. rewrite Forall_cons. intros [[(m' & k' & Hk & Hm) _] _].
        rewrite Ek in Hk. injection Hk as <- <-. congruence.
    + split; [done|]. rewrite Forall_cons. intros [[(m' & k' & Hk & Hm) _] _]. congruence.
Qed.

(** The JWKS agrees with the log in both directions: every key it lists is a key of the
    log with the same material, and every key the log has not revoked is listed; so a log whose
    revocation entry was cut off is refused beside the JWKS that omits the revoked key. *)
Theorem check_jwks_match_log_spec (bundle : json) (kl : KeyLog) :
  check_jwks_match_log bundle kl = true <->
  exists set jwks, get bundle "jwks" = Some set /\ get_array set "keys" = Some jwks /\ jwks <> [] /\
    (forall jwk, jwk ∈ jwks -> exists mat kid, key_from_jwk jwk = Some (mat, kid) /\ keys kl !! kid = Some mat) /\
    (forall kid st, state kl !! kid = Some st -> revoked_at st = None ->
      exists jwk mat, jwk ∈ jwks /\ key_from_jwk jwk = Some (mat, kid)).
Proof.
  assert (forall jwks kid, kid ∈ (∅ ∪ list_to_set (omap (fun jwk => snd <$> key_from_jwk jwk) jwks) : gset string) <->
    exists jwk mat, jwk ∈ jwks /\ key_from_jwk jwk = Some (mat, kid)) as Hin.
  { intros jwks kid. rewrite union_empty_l_L, elem_of_list_to_set, list_elem_of_omap. split.
    - intros (jwk & Hj & E). apply fmap_Some in E as ([mat k] & E & ->). eauto.
    - intros (jwk & mat & Hj & E). exists jwk. by rewrite E. }
  unfold check_jwks_match_log. split.
  - intros E. case_step E. apply opt_filter_Some in E0 as [E0 Hne]. apply bind_Some in E0 as (set & Hset & Hkeys).
    case_step E. apply jwks_listed_spec in E0 as [Hf ->]. exists set, l. split_and!; try done.
    + by destruct l.
    + by rewrite <- Forall_forall.
    + intros kid st Hst Hrev. rewrite forallb_elem in E. apply elem_of_map_to_list in Hst as Hm. apply E in Hm.
      cbn [fst snd] in Hm. rewrite Hrev in Hm. cbn in Hm. apply bool_decide_eq_true in Hm. by apply Hin.
  - intros (set & jwks & Hset & Hkeys & Hne & Hall & Hact). rewrite Hset. cbn [mbind option_bind]. rewrite Hkeys.
    rewrite (proj2 (opt_filter_Some (Some jwks) _ jwks)) by (split; [done|destruct jwks; done]).
    rewrite <- Forall_forall in Hall. rewrite (proj2 (jwks_listed_spec kl jwks ∅ _)) by (split; [exact Hall|reflexivity]).
    apply forallb_elem. intros [kid st] Hks. apply elem_of_map_to_list in Hks. cbn [fst snd].
    destruct (revoked_at st) eqn:Hr; [done|]. cbn. apply bool_decide_eq_true, Hin. by eapply Hact.
Qed.
End Collection.
