(* ===== verification/Checkpoint.v ===== *)
(** * Checkpoint: signed checkpoints, their chain, and continuity (lib.rs)

    A checkpoint is a signed statement of a log's size and root.  A presented chain
    starts at genesis and links by body hash (or, under the sparse profile, by
    consistency proof alone); continuity assertions are the operator's signed
    statements over the intervals a sparse chain elides. *)
From S2P Require Import Prelude Hash Text Json Jcs Utc Dsse KeyLog Merkle.

(** The chains [cp.get("body").and_then(|b| b.get(f))] with [as_str] or [as_u64]. *)
Definition body_str (cp : json) (f : string) : option string := b ← get cp "body"; get_str b f.
Definition body_u64 (cp : json) (f : string) : option Z := b ← get cp "body"; get_u64 b f.

Section Checkpoint.
Context {H : Hash} {SD : Serde} {B : Base64} {ED : Ed25519}.

(** [fn checkpoint_body_hash]. *)
Definition checkpoint_body_hash (cp : json) : option string :=
  body ← get cp "body"; canon ← canonical_checked body; Some (hex (sha256 canon)).

(** [fn continuity_authority_hash]. *)
Definition continuity_authority_hash (value : option json) : bool :=
  is_some_and (v ← value; as_str v) (fun s =>
    (slen s =? 64) && forallb (fun c => is_ascii_digit c || in_range #"a" #"f" c) (str_bytes s)).

(** [fn continuity_self_consistent]. *)
Definition continuity_self_consistent (assertion : json) : bool :=
  let_some b := get assertion "body" else false;
  let_some from := get_i64 b "from_tree_size" else false;
  let_some to := get_i64 b "to_tree_size" else false;
  let_some appended := get_i64 b "appended" else false;
  let_some fh := get_str b "from_hash" else false;
  let_some th := get_str b "to_hash" else false;
  (is_str (idx b "schema") "evd/continuity/v1"
   || (is_str (idx b "schema") "evd/continuity/v2" && continuity_authority_hash (get b "authority_checkpoint_hash")))
  && (0 <=? from) && (from <=? to) && (appended =? to - from) && negb (String.eqb fh th).

(** [fn continuity_gaps]. *)
Definition continuity_covered (assertions : list json) : list (string * string) :=
  omap (fun a => b ← get a "body"; f ← get_str b "from_hash"; t ← get_str b "to_hash"; Some (f, t))
    (List.filter continuity_self_consistent assertions).
Definition continuity_hole (covered : list (string * string)) (pair : json * json) : bool :=
  let_some first := checkpoint_body_hash pair.1 else true;
  let_some second := checkpoint_body_hash pair.2 else true;
  if opt_str_eqb (body_str pair.2 "prev_hash") (Some first) then false
  else negb (existsb (fun ft => String.eqb ft.1 first && String.eqb ft.2 second) covered).
Definition continuity_gaps (chain assertions : list json) : Z :=
  zlen (List.filter (continuity_hole (continuity_covered assertions)) (windows2 chain)).

(** [fn continuity_admissible]; the constant [MEMBERS]. *)
Definition CONTINUITY_MEMBERS : list string :=
  ["schema"; "origin"; "from_hash"; "to_hash"; "from_tree_size"; "to_tree_size"; "appended"].
Definition continuity_admissible (item : json) (kl : KeyLog) (origin : option json) : bool :=
  let_some outer := as_object item else false;
  let_some body := get_object item "body" else false;
  let field m := unwrap_or (obj_get body m) JNull in
  let issuer_bound := opt_str_eqb (v ← obj_get body "schema"; as_str v) (Some "evd/continuity/v2"%string) in
  let authority_shape :=
    negb issuer_bound || continuity_authority_hash (obj_get body "authority_checkpoint_hash") in
  let shaped := authority_shape && (zlen outer =? 3) && (zlen body =? (if issuer_bound then 8 else 7))
    && forallb (contains_key body) CONTINUITY_MEMBERS
    && forallb (fun m => is_u64_value (field m)) ["from_tree_size"; "to_tree_size"; "appended"]%string
    && forallb (fun m => is_some_and (as_str (field m)) (fun t => negb (is_empty t)))
         ["origin"; "from_hash"; "to_hash"]%string in
  let_some key := (kid ← get_str item "kid"; keys kl !! kid) else false;
  let_some sig := (s ← get_str item "sig"; b64_decode s) else false;
  shaped && opt_json_eqb (obj_get body "origin") origin && continuity_self_consistent item
  && is_some_and (canonical_checked (idx item "body")) (fun canon => ed25519_verify key canon sig).

(** [fn continuity_authority]. *)
Definition find_checkpoint (chain : list json) (hash : string) : option nat :=
  Z.to_nat <$> position (fun cp => opt_str_eqb (checkpoint_body_hash cp) (Some hash)) chain.
Definition continuity_authority (item bundle : json) (chain : list json) (kl : KeyLog) : bool :=
  let b := idx item "body" in
  if is_str (idx b "schema") "evd/continuity/v1" then true else
  let_some hash := as_str (idx b "authority_checkpoint_hash") else false;
  let_some kid := as_str (idx item "kid") else false;
  let_some first := as_str (idx b "from_hash") else false;
  let_some last := as_str (idx b "to_hash") else false;
  let_some authority := find_checkpoint chain hash else false;
  let_some start := find_checkpoint chain first else false;
  let_some end_ := find_checkpoint chain last else false;
  let cp := nth authority chain JNull in
  let_some ts := as_str (idx (idx cp "body") "ts") else false;
  let_some size := as_u64 (idx (idx cp "body") "tree_size") else false;
  json_eqb cp (idx bundle "target_checkpoint") && opt_str_eqb (as_str (idx cp "kid")) (Some kid)
  && negb (is_non_issuer kl kid) && key_active kl kid ts size && (start <? end_)%nat
  && json_eqb (idx (idx (nth start chain JNull) "body") "tree_size") (idx b "from_tree_size")
  && json_eqb (idx (idx (nth end_ chain JNull) "body") "tree_size") (idx b "to_tree_size").

(** [fn assess_continuity]: [(present, ok, gaps)]. *)
Definition assess_continuity (bundle : json) (chain : list json) (kl : KeyLog) : bool * bool * Z :=
  let_some raw := opt_filter (get bundle "continuity") (fun v => negb (is_null v))
    else (false, true, continuity_gaps chain []);
  let_some items := as_array raw else (false, false, 0);
  let present := negb (zlen items =? 0) in
  if negb (forallb (fun item => continuity_admissible item kl (get bundle "origin")
                                && continuity_authority item bundle chain kl) items)
  then (present, false, 0)
  else
    let gaps := continuity_gaps chain items in
    (present, negb present || (gaps =? 0), gaps).

(** [fn proof_hashes]. *)
Definition proof_hash (x : json) : option bytes :=
  opt_filter (s ← as_str x; hex_to_bytes s) (fun b => zlen b =? 32).
Definition proof_hashes (v : option json) : option (list bytes) :=
  match v with
  | None | Some JNull => Some []
  | Some (JArray items) => mapM proof_hash items
  | Some _ => None
  end.

(** [fn verify_checkpoint_sig]; the constant [CHECKPOINT_MEMBERS]. *)
Definition CHECKPOINT_MEMBERS : list string :=
  ["schema"; "origin"; "tree_size"; "root_hash"; "ts"; "prev_hash"; "alg"].
Definition verify_checkpoint_sig (cp : json) (ks : gmap string bytes) : bool :=
  let_some kid := get_str cp "kid" else false;
  let_some pubkey := ks !! kid else false;
  let_some body := get cp "body" else false;
  let_some object := as_object body else false;
  reject_if existsb (fun kv => negb (str_in kv.1 CHECKPOINT_MEMBERS)) object
    || is_some_and (get body "alg") (fun alg => negb (opt_str_eqb (as_str alg) (Some "EdDSA"%string)))
  with false;
  let_some sig_b64 := get_str cp "sig" else false;
  let_some sig := b64_decode sig_b64 else false;
  let_some canon := canonical_checked body else false;
  ed25519_verify pubkey (pae CHECKPOINT_TYPE canon) sig.

(** [fn check_target_checkpoint]. *)
Definition check_target_checkpoint (target : json) (kl : KeyLog) : bool :=
  reject_if negb (verify_checkpoint_sig target (keys kl)) with false;
  let target_ts := unwrap_or (body_str target "ts") EmptyString in
  let target_size := unwrap_or (body_u64 target "tree_size") 0 in
  let target_kid := unwrap_or (get_str target "kid") EmptyString in
  negb (is_non_issuer kl target_kid) && key_active kl target_kid target_ts target_size.

(** [fn check_chain_consistency]. *)
Definition check_chain_consistency (prev cp entry : json) (prev_size cur_size : Z) : bool :=
  let_some proof := proof_hashes (get entry "consistency_from_prev") else false;
  let prev_root := unwrap_or (body_str prev "root_hash") EmptyString in
  let cur_root := unwrap_or (body_str cp "root_hash") EmptyString in
  let_some pr := hex_to_bytes prev_root else false;
  let_some cr := hex_to_bytes cur_root else false;
  verify_consistency prev_size cur_size pr cr proof.

(** [fn check_chain_link]. *)
Definition check_chain_link (prev cp entry : json) (sparse : bool) : bool :=
  let_some prev_bh := checkpoint_body_hash prev else false;
  let cur_prev := unwrap_or (body_str cp "prev_hash") EmptyString in
  reject_if (sparse && is_empty cur_prev) || (negb sparse && negb (String.eqb cur_prev prev_bh)) with false;
  let prev_size := unwrap_or (body_u64 prev "tree_size") 0 in
  let cur_size := unwrap_or (body_u64 cp "tree_size") 0 in
  reject_if cur_size <? prev_size with false;
  reject_if negb (opt_str_eqb (body_str prev "origin") (body_str cp "origin")) with false;
  reject_if (0 <? prev_size) && negb (check_chain_consistency prev cp entry prev_size cur_size) with false;
  true.

(** [fn check_checkpoint_chain]: the loop looks one checkpoint back and reads its own
    chain entry. *)
Definition check_chain_member (cp : json) (kl : KeyLog) : bool :=
  reject_if negb (verify_checkpoint_sig cp (keys kl)) with false;
  let ts := unwrap_or (body_str cp "ts") EmptyString in
  let size := unwrap_or (body_u64 cp "tree_size") 0 in
  let kid := unwrap_or (get_str cp "kid") EmptyString in
  negb (is_non_issuer kl kid || negb (key_active kl kid ts size)).
Fixpoint check_chain_from (i : nat) (chain chain_entries : list json) (kl : KeyLog) (sparse : bool) (l : list json)
    : bool :=
  match l with
  | [] => true
  | cp :: t =>
      reject_if negb (check_chain_member cp kl) with false;
      reject_if (0 <? i)%nat
        && negb (check_chain_link (nth (i - 1) chain JNull) cp (nth i chain_entries JNull) sparse) with false;
      check_chain_from (i + 1) chain chain_entries kl sparse t
  end.
Definition check_checkpoint_chain (chain chain_entries : list json) (kl : KeyLog) (sparse : bool) : bool :=
  reject_if negb (opt_str_eqb (cp ← head chain; body_str cp "prev_hash") (Some EmptyString)) with false;
  check_chain_from 0 chain chain_entries kl sparse chain.

(** [fn check_bundle_origin]. *)
Definition check_bundle_origin (bundle target : json) (chain : list json) : bool :=
  let_some origin := get_str bundle "origin" else false;
  opt_str_eqb (body_str target "origin") (Some origin)
  && forallb (fun cp => opt_str_eqb (body_str cp "origin") (Some origin)) chain.

(** [fn chain_head_matches]: the caller has checked that the chain is not empty. *)
Definition chain_head_matches (chain : list json) (target : json) : bool :=
  let_some head := (cp ← last chain; checkpoint_body_hash cp) else false;
  let_some want := checkpoint_body_hash target else false;
  String.eqb head want.
End Checkpoint.

(** ** What an accepted chain is *)
Section ChainSpec.
Context {H : Hash} {SD : Serde} {B : Base64} {ED : Ed25519}.

Definition size_of (cp : json) : Z := unwrap_or (body_u64 cp "tree_size") 0.
Definition root_of (cp : json) : option bytes := hex_to_bytes (unwrap_or (body_str cp "root_hash") EmptyString).

(** A chain from genesis: every member is signed by an active issuer of the log, and every
    adjacent pair is linked by the entry of the later one. *)
Record chain_valid (chain chain_entries : list json) (kl : KeyLog) (sparse : bool) : Prop := {
  cv_genesis : exists g, head chain = Some g /\ body_str g "prev_hash" = Some EmptyString;
  cv_members : forall cp, cp ∈ chain -> verify_checkpoint_sig cp (keys kl) = true /\
    exists at_, utc_epoch_micros (unwrap_or (body_str cp "ts") EmptyString) = Some at_ /\
      active kl (unwrap_or (get_str cp "kid") EmptyString) at_ (size_of cp) /\
      issuer_key kl (unwrap_or (get_str cp "kid") EmptyString);
  cv_links : forall i prev cp, chain !! i = Some prev -> chain !! Datatypes.S i = Some cp ->
    check_chain_link prev cp (nth (Datatypes.S i) chain_entries JNull) sparse = true;
}.

Lemma check_chain_member_spec cp kl :
  check_chain_member cp kl = true <-> verify_checkpoint_sig cp (keys kl) = true /\
    exists at_, utc_epoch_micros (unwrap_or (body_str cp "ts") EmptyString) = Some at_ /\
      active kl (unwrap_or (get_str cp "kid") EmptyString) at_ (size_of cp) /\
      issuer_key kl (unwrap_or (get_str cp "kid") EmptyString).
Proof.
  unfold check_chain_member. destruct (verify_checkpoint_sig cp (keys kl)); cbn [negb]; [|naive_solver].
  rewrite negb_true_iff, orb_false_iff, negb_false_iff, issuer_key_iff, key_active_iff. unfold size_of. naive_solver.
Qed.

Lemma check_chain_from_spec chain chain_entries kl sparse : forall l pre,
  chain = pre ++ l ->
  check_chain_from (length pre) chain chain_entries kl sparse l = true <->
  (forall cp, cp ∈ l -> check_chain_member cp kl = true) /\
  (forall i cp prev, length pre <= i -> chain !! i = Some cp -> chain !! (i - 1) = Some prev -> 0 < i ->
     check_chain_link prev cp (nth i chain_entries JNull) sparse = true)%nat.
Proof.
  induction l as [|cp t IH]; intros pre Hc; cbn [check_chain_from].
  - split; [intros _; split|done]; [by intros cp Hcp%elem_of_nil|]. intros i cp prev Hi Hcp.
    apply lookup_lt_Some in Hcp. rewrite Hc, app_nil_r in Hcp. lia.
  - assert (chain = (pre ++ [cp]) ++ t) as Hc' by (by rewrite <- app_assoc).
    specialize (IH _ Hc'). rewrite length_app in IH. cbn [length] in IH.
    assert (chain !! length pre = Some cp) as Hcp by (rewrite Hc; by apply list_lookup_middle).
    destruct (check_chain_member cp kl) eqn:Em; cbn [negb].
    2:{ split; [done|]. intros [Hf _]. rewrite <- Em. apply Hf. set_solver. }
    destruct ((0 <? length pre)%nat && negb (check_chain_link (nth (length pre - 1) chain JNull) cp
      (nth (length pre) chain_entries JNull) sparse)) eqn:El.
    + split; [done|]. intros [_ Hl]. apply andb_true_iff in El as [E0 El]. apply Nat.ltb_lt in E0.
      destruct (lookup_lt_is_Some_2 chain (length pre - 1)) as [prev Hprev].
      { rewrite Hc, length_app. cbn. lia. }
      rewrite (nth_lookup_Some _ _ _ _ Hprev) in El. rewrite (Hl _ _ _ ltac:(done) Hcp Hprev E0) in El. done.
    + rewrite IH. split; intros [Hf Hl]; split.
      * intros x [->|Hx]%elem_of_cons; auto.
      * intros i x prev Hi Hx Hprev H0. destruct (decide (i = length pre)) as [->|]; [|apply (Hl i); auto; lia].
        rewrite Hcp in Hx. injection Hx as ->. apply andb_false_iff in El as [E0|El].
        { apply Nat.ltb_ge in E0. lia. }
        rewrite (nth_lookup_Some _ _ _ _ Hprev) in El. by apply negb_false_iff in El.
      * intros x Hx. apply Hf. set_solver.
      * intros i x prev Hi. apply Hl. lia.
Qed.

(** The chain walk accepts exactly the valid chains: from genesis, each checkpoint signed
    by a key that was an active issuer at its own time and size, each linked to its
    predecessor. *)
Theorem check_checkpoint_chain_spec (chain chain_entries : list json) (kl : KeyLog) (sparse : bool) :
  check_checkpoint_chain chain chain_entries kl sparse = true <-> chain_valid chain chain_entries kl sparse.
Proof.
  unfold check_checkpoint_chain.
  assert (opt_str_eqb (cp ← head chain; body_str cp "prev_hash") (Some EmptyString) = true <->
    exists g, head chain = Some g /\ body_str g "prev_hash" = Some EmptyString) as Hg.
  { rewrite opt_str_eqb_true. apply bind_Some. }
  destruct (opt_str_eqb _ _); cbn [negb].
  2:{ split; [done|]. intros [Hgen _ _]. by apply Hg in Hgen. }
  pose proof (check_chain_from_spec chain chain_entries kl sparse chain [] eq_refl) as Hs. cbn [length] in Hs.
  rewrite Hs. split.
  - intros [Hm Hl]. constructor; [by apply Hg| |].
    + intros cp Hcp. by apply check_chain_member_spec, Hm.
    + intros i prev cp Hp Hcp. apply (Hl (Datatypes.S i)); auto with lia. by replace (Datatypes.S i - 1)%nat with i by lia.
  - intros [_ Hm Hl]. split; [intros cp Hcp; by apply check_chain_member_spec, Hm|].
    intros i cp prev _ Hcp Hp Hi. destruct i as [|i]; [lia|].
    replace (Datatypes.S i - 1)%nat with i in Hp by lia. by eapply Hl.
Qed.

Lemma chain_valid_intro chain chain_entries kl sparse :
  check_checkpoint_chain chain chain_entries kl sparse = true ->
  (exists g, head chain = Some g /\ body_str g "prev_hash" = Some EmptyString) /\
  forall i prev cp, chain !! i = Some prev -> chain !! Datatypes.S i = Some cp ->
    check_chain_link prev cp (nth (Datatypes.S i) chain_entries JNull) sparse = true.
Proof.
  unfold check_checkpoint_chain. intros E. case_step E. apply negb_false_iff, opt_str_eqb_true, bind_Some in E0.
  split; [done|]. intros i prev cp Hp Hcp.
  apply (check_chain_from_spec chain chain_entries kl sparse chain [] eq_refl) in E as [_ Hl].
  apply (Hl (Datatypes.S i)); [apply Nat.le_0_l|done| |lia]. by replace (Datatypes.S i - 1)%nat with i by lia.
Qed.

(** What a link says. *)
Lemma check_chain_link_spec prev cp entry sparse :
  check_chain_link prev cp entry sparse = true ->
  (exists bh, checkpoint_body_hash prev = Some bh /\
    (sparse = false -> unwrap_or (body_str cp "prev_hash") EmptyString = bh)) /\
  size_of prev <= size_of cp /\ body_str prev "origin" = body_str cp "origin" /\
  (0 < size_of prev -> exists proof pr cr, proof_hashes (get entry "consistency_from_prev") = Some proof /\
    root_of prev = Some pr /\ root_of cp = Some cr /\
    verify_consistency (size_of prev) (size_of cp) pr cr proof = true).
Proof.
  unfold check_chain_link. intros E. case_step E. case_step E. fold (size_of prev) (size_of cp) in E.
  case_step E. case_step E. case_step E. clear E.
  apply orb_false_iff in E1 as [_ E1]. apply Z.ltb_ge in E2. apply negb_false_iff, opt_str_eqb_true in E3.
  split_and!; [|done|done|].
  - eexists. split; [done|]. intros ->. cbn in E1. by apply negb_false_iff, String.eqb_eq in E1.
  - intros Hp. apply andb_false_iff in E4 as [E4|E4]; [lia|]. apply negb_false_iff in E4.
    unfold check_chain_consistency in E4. case_step E4. case_step E4. case_step E4. eauto 10.
Qed.

Lemma proof_hashes_are_hashes v proof : proof_hashes v = Some proof -> Forall is_hash proof.
Proof.
  unfold proof_hashes. intros E. destruct v as [[]|]; try done; try (injection E as <-; constructor).
  apply mapM_Some in E. induction E as [|x y l k Hxy _ IH]; constructor; [|done].
  unfold proof_hash in Hxy. apply opt_filter_Some in Hxy as [_ Hl]. unfold is_hash, zlen in *. lia.
Qed.
End ChainSpec.

Lemma get_wf v k x : json_wf v = true -> get v k = Some x -> json_wf x = true.
Proof.
  intros Hv E. destruct v; try done. cbn in Hv, E. apply andb_true_iff in Hv as [_ Hv].
  induction m as [|[k' x'] m IH]; [done|]. cbn in *. apply andb_true_iff in Hv as [? ?].
  destruct (String.eqb k k'); [congruence|auto].
Qed.
Lemma body_u64_range cp f n : json_wf cp = true -> body_u64 cp f = Some n -> 0 <= n <= U64_MAX.
Proof.
  unfold body_u64, get_u64. intros Hw E. apply bind_Some in E as (b & Hb & E). apply bind_Some in E as (x & Hx & E).
  apply (get_wf _ _ _ Hw) in Hb. apply (get_wf _ _ _ Hb) in Hx. destruct x as [| |[]| | |]; try done.
  injection E as ->. cbn in Hx. apply andb_true_iff in Hx as [? ?]. lia.
Qed.

(** ** The chain is one append-only history *)
Section History.
Context {H : Hash} {SD : Serde} {B : Base64} {ED : Ed25519}.

Lemma chain_pairs chain chain_entries kl sparse i j a b :
  check_checkpoint_chain chain chain_entries kl sparse = true ->
  (i <= j)%nat -> chain !! i = Some a -> chain !! j = Some b ->
  size_of a <= size_of b /\ body_str a "origin" = body_str b "origin".
Proof.
  intros Hc Hij. apply chain_valid_intro in Hc as [_ Hl]. revert b.
  induction Hij as [|j Hij IH]; intros b Ha Hb; [simplify_eq; done|].
  destruct (lookup_lt_is_Some_2 chain j) as [c Hcj]; [apply lookup_lt_Some in Hb; lia|].
  destruct (IH c Ha Hcj) as [? ?]. destruct (check_chain_link_spec _ _ _ _ (Hl _ _ _ Hcj Hb)) as (_ & ? & ? & _).
  split; [lia|congruence].
Qed.

(** Along an accepted chain the tree never shrinks and the origin never changes,
    between any two of its checkpoints. *)
Theorem chain_monotone (chain chain_entries : list json) (kl : KeyLog) (sparse : bool) (i j : nat) (a b : json) :
  check_checkpoint_chain chain chain_entries kl sparse = true ->
  (i <= j)%nat -> chain !! i = Some a -> chain !! j = Some b ->
  size_of a <= size_of b /\ body_str a "origin" = body_str b "origin".
Proof. apply chain_pairs. Qed.

(** What the verifier hashed for the links of a chain, and what the trees of a log hash. *)
Definition link_inputs (prev cp entry : json) : list bytes :=
  match proof_hashes (get entry "consistency_from_prev"), root_of prev with
  | Some proof, Some pr => consistency_inputs (size_of prev) (size_of cp) pr proof
  | _, _ => []
  end.
Definition chain_inputs (chain chain_entries : list json) : list bytes :=
  flat_map (fun i => link_inputs (nth i chain JNull) (nth (Datatypes.S i) chain JNull)
    (nth (Datatypes.S i) chain_entries JNull)) (seq 0 (length chain)).
Definition tree_inputs (l : list bytes) : list bytes :=
  flat_map (fun n => mth_inputs (take n l)) (seq 0 (Datatypes.S (length l))).

Lemma chain_inputs_link chain chain_entries i prev cp :
  chain !! i = Some prev -> chain !! Datatypes.S i = Some cp ->
  link_inputs prev cp (nth (Datatypes.S i) chain_entries JNull) ⊆ chain_inputs chain chain_entries.
Proof.
  intros Hp Hc x Hx. unfold chain_inputs. apply list_elem_of_In, in_flat_map. exists i. split.
  - apply in_seq. apply lookup_lt_Some in Hp. lia.
  - rewrite (nth_lookup_Some _ _ _ _ Hp), (nth_lookup_Some _ _ _ _ Hc). by apply list_elem_of_In.
Qed.
Lemma tree_inputs_prefix l n : (n <= length l)%nat -> mth_inputs (take n l) ⊆ tree_inputs l.
Proof.
  intros Hn x Hx. apply list_elem_of_In, in_flat_map. exists n. split; [apply in_seq; lia|by apply list_elem_of_In].
Qed.

Lemma chain_prefixes {L : HashLaws} (chain chain_entries : list json) (kl : KeyLog) (sparse : bool)
    (l : list bytes) (head : json) :
  check_checkpoint_chain chain chain_entries kl sparse = true ->
  last chain = Some head -> size_of head = zlen l -> root_of head = Some (mth l) ->
  zlen l <= U64_MAX -> Forall is_hash l ->
  (forall cp, cp ∈ chain -> 0 < size_of cp -> root_of cp = Some (mth (take (Z.to_nat (size_of cp)) l))) \/
  Collision (tree_inputs l) (chain_inputs chain chain_entries).
Proof.
  intros Hc Hlast Hsize Hroot Hmax Hh. rewrite last_lookup in Hlast.
  assert (forall k i cp, (i + k = pred (length chain))%nat -> chain !! i = Some cp ->
    (0 < size_of cp -> root_of cp = Some (mth (take (Z.to_nat (size_of cp)) l))) \/
    Collision (tree_inputs l) (chain_inputs chain chain_entries)) as Hback.
  { induction k as [|k IH]; intros i cp Hi Hcp.
    - rewrite Nat.add_0_r in Hi. subst i. rewrite Hlast in Hcp. injection Hcp as <-. left. intros _.
      rewrite Hroot, Hsize. unfold zlen. rewrite Nat2Z.id, take_ge by lia. done.
    - destruct (lookup_lt_is_Some_2 chain (Datatypes.S i)) as [cp' Hcp']; [lia|].
      destruct (IH (Datatypes.S i) cp' ltac:(lia) Hcp') as [Hnext|]; [|by right].
      destruct (chain_pairs _ _ _ _ (Datatypes.S i) (pred (length chain)) _ _ Hc ltac:(lia) Hcp' Hlast) as [Hle _].
      apply chain_valid_intro in Hc as [_ Hl]. specialize (Hl _ _ _ Hcp Hcp').
      destruct (check_chain_link_spec _ _ _ _ Hl) as (_ & Hmono & _ & Hproof).
      destruct (Z_le_gt_dec (size_of cp) 0); [left; lia|].
      destruct (Hproof ltac:(lia)) as (proof & pr & cr & Hpr & Hr & Hr' & Hv).
      rewrite Hnext in Hr' by lia. injection Hr' as <-. set (n := Z.to_nat (size_of cp')) in *.
      assert (size_of cp' = zlen (take n l)) as Hn by (unfold zlen in *; rewrite length_take; lia).
      assert (size_of cp = Z.of_nat (Z.to_nat (size_of cp))) as Hm by lia. rewrite Hm, Hn in Hv.
      apply consistency_binds in Hv as [(Hb & -> & _)|Hcol].
      + left. intros _. rewrite Hr, take_take, Nat.min_l; [done|]. rewrite length_take in Hb. lia.
      + right. eapply collision_weaken; [| |exact Hcol].
        * apply tree_inputs_prefix. unfold zlen in *. lia.
        * etransitivity; [|exact (chain_inputs_link _ chain_entries _ _ _ Hcp Hcp')]. unfold link_inputs. rewrite Hpr, Hr, <- Hm, <- Hn. done.
      + lia.
      + by apply Forall_take.
      + by eapply proof_hashes_are_hashes.
      + unfold zlen in Hn. lia. }
  assert (forall k, (forall i cp, (i < k)%nat -> chain !! i = Some cp -> 0 < size_of cp ->
    root_of cp = Some (mth (take (Z.to_nat (size_of cp)) l))) \/
    Collision (tree_inputs l) (chain_inputs chain chain_entries)) as Hall.
  { induction k as [|k [Hk|]]; [left; lia| |by right].
    destruct (chain !! k) as [cp|] eqn:Ek.
    - pose proof (lookup_lt_Some _ _ _ Ek). destruct (Hback (pred (length chain) - k)%nat k cp ltac:(lia) Ek) as [Hx|]; [|by right].
      left. intros i c Hi Hcp. destruct (decide (i = k)) as [->|]; [|apply Hk with i; auto; lia].
      rewrite Ek in Hcp. by injection Hcp as <-.
    - left. intros i c Hi Hcp. destruct (decide (i = k)) as [->|]; [congruence|]. apply Hk with i; auto; lia. }
  destruct (Hall (length chain)) as [Hx|]; [left|by right].
  intros cp Hin. apply list_elem_of_lookup in Hin as [i Hi]. eapply Hx; [|exact Hi]. by eapply lookup_lt_Some.
Qed.
(** An accepted chain is a history of one append-only log: if its head commits to the
    leaves [l], every earlier non-empty checkpoint commits to the prefix of [l] of its own
    size, or the proofs exhibit a SHA-256 collision. *)
Theorem chain_append_only {L : HashLaws} (chain chain_entries : list json) (kl : KeyLog) (sparse : bool)
    (l : list bytes) (head : json) :
  check_checkpoint_chain chain chain_entries kl sparse = true ->
  last chain = Some head -> size_of head = zlen l -> root_of head = Some (mth l) ->
  zlen l <= U64_MAX -> Forall is_hash l ->
  (forall cp, cp ∈ chain -> 0 < size_of cp -> root_of cp = Some (mth (take (Z.to_nat (size_of cp)) l))) \/
  Collision (tree_inputs l) (chain_inputs chain chain_entries).
Proof. apply chain_prefixes. Qed.
End History.

(** ** A dense chain is bound by the hash of its head *)
Section Dense.
Context {H : Hash} {SD : Serde} {B : Base64} {ED : Ed25519}.

(** The canonical body of a checkpoint, which its hash is over. *)
Definition canonical_of (cp : json) : option bytes := body ← get cp "body"; canonical_checked body.
Lemma checkpoint_body_hash_of cp h :
  checkpoint_body_hash cp = Some h <-> exists c, canonical_of cp = Some c /\ h = hex (sha256 c).
Proof.
  unfold checkpoint_body_hash, canonical_of. destruct (get cp "body") as [b|]; cbn; [|naive_solver].
  destruct (canonical_checked b); cbn; naive_solver.
Qed.
Lemma hex_inj {L : HashLaws} a b : hex (sha256 a) = hex (sha256 b) -> sha256 a = sha256 b.
Proof.
  intros E. apply (f_equal hex_to_bytes) in E. rewrite !hex_to_bytes_hex in E by apply digest_bytes. congruence.
Qed.
Lemma hex_digest_nonempty {L : HashLaws} a : hex (sha256 a) <> EmptyString.
Proof.
  intros E. apply (f_equal hex_to_bytes) in E. rewrite hex_to_bytes_hex in E by apply digest_bytes.
  cbn in E. injection E as E. apply (f_equal length) in E. by rewrite sha256_length in E.
Qed.

Lemma jcs_equiv_get_str v w k : jcs_equiv v w -> get_str v k = get_str w k.
Proof.
  intros E. inversion E as [| | | | |m n Hf]; subst; try done.
  unfold get_str, get. cbn [as_object mbind option_bind]. clear E.
  induction Hf as [|[i x] [j y] m n [Hij Hxy] _ IH]; [done|]. cbn in *. subst j.
  destruct (String.eqb k i); [|done]. by inversion Hxy.
Qed.

Lemma fmap_rev {A C} (f : A -> C) l : f <$> rev l = rev (f <$> l).
Proof. induction l as [|x l IH]; [done|]. cbn. by rewrite fmap_app, IH. Qed.

(** Newest first: a chain down to genesis in which each body names the hash of the next. *)
Inductive dense : list json -> Prop :=
| dense_genesis g : body_str g "prev_hash" = Some EmptyString -> dense [g]
| dense_link cp prev t c : canonical_of prev = Some c ->
    unwrap_or (body_str cp "prev_hash") EmptyString = hex (sha256 c) -> dense (prev :: t) -> dense (cp :: prev :: t).

Lemma chain_dense chain chain_entries kl :
  check_checkpoint_chain chain chain_entries kl false = true -> dense (rev chain).
Proof.
  intros E. apply chain_valid_intro in E as [(g & Hg & Hgen) Hl].
  assert (forall l cp, (exists k, chain = l ++ cp :: k) -> dense (cp :: rev l)) as Hd.
  { induction l as [|prev l IH] using rev_ind; intros cp [k Hk].
    - subst. cbn in *. injection Hg as <-. by constructor.
    - rewrite rev_app_distr. cbn [rev app]. rewrite <- app_assoc in Hk. cbn [app] in Hk.
      assert (chain !! length l = Some prev) as Hp by (rewrite Hk; by apply list_lookup_middle).
      assert (chain !! Datatypes.S (length l) = Some cp) as Hcp.
      { rewrite Hk, lookup_app_r by lia. replace (Datatypes.S (length l) - length l)%nat with 1%nat by lia. done. }
      destruct (check_chain_link_spec _ _ _ _ (Hl _ _ _ Hp Hcp)) as ((bh & Hbh & Heq) & _).
      apply checkpoint_body_hash_of in Hbh as (c & Hc & ->). econstructor; eauto. }
  destruct chain as [|x chain'] using rev_ind; [done|]. rewrite rev_app_distr. cbn. apply Hd. by exists [].
Qed.

Lemma canonical_of_prev {L : SerdeLaws} a b c :
  json_wf (idx a "body") = true -> json_wf (idx b "body") = true ->
  canonical_of a = Some c -> canonical_of b = Some c -> body_str a "prev_hash" = body_str b "prev_hash".
Proof.
  unfold canonical_of, body_str, idx. destruct (get a "body") as [x|], (get b "body") as [y|]; try done. cbn.
  intros Hx Hy Ha Hb. apply jcs_equiv_get_str. by eapply canonical_binds.
Qed.

Lemma dense_binding {HL : HashLaws} {SL : SerdeLaws} l : dense l -> forall k c, dense k ->
  Forall (fun cp => json_wf (idx cp "body") = true) l -> Forall (fun cp => json_wf (idx cp "body") = true) k ->
  (cp ← head l; canonical_of cp) = Some c -> (cp ← head k; canonical_of cp) = Some c ->
  (canonical_of <$> l) = (canonical_of <$> k) \/ Collision (omap canonical_of l) (omap canonical_of k).
Proof.
  induction 1 as [g Hgen|cp prev t d Hd Hprev Hdense IH]; intros k c Hk Wl Wk Hc Hc'; cbn in Hc;
    destruct Hk as [g' Hgen'|cp' prev' t' d' Hd' Hprev' Hk']; cbn in Hc'; inversion Wl as [|? ? Wcp Wl']; subst;
    inversion Wk as [|? ? Wcp' Wk']; subst; pose proof (canonical_of_prev _ _ _ Wcp Wcp' Hc Hc') as Hp.
  - left. cbn. by rewrite Hc, Hc'.
  - rewrite <- Hp, Hgen in Hprev'. cbn in Hprev'. symmetry in Hprev'. by apply hex_digest_nonempty in Hprev'.
  - rewrite Hp, Hgen' in Hprev. cbn in Hprev. symmetry in Hprev. by apply hex_digest_nonempty in Hprev.
  - rewrite Hp, Hprev' in Hprev. apply hex_inj in Hprev.
    assert (d' ∈ omap canonical_of (cp' :: prev' :: t')) as Hin'.
    { apply list_elem_of_omap. exists prev'. split; [set_solver|done]. }
    assert (d ∈ omap canonical_of (cp :: prev :: t)) as Hin.
    { apply list_elem_of_omap. exists prev. split; [set_solver|done]. }
    destruct (collision_or_equal d d' _ _ Hin Hin' (eq_sym Hprev)) as [<-|Hcol]; [|by right].
    destruct (IH (prev' :: t') d Hk' Wl' Wk' Hd Hd') as [E|Hcol].
    + left. rewrite !fmap_cons, Hc, Hc' in *. by rewrite E.
    + right. eapply collision_weaken; [| |exact Hcol]; intros x Hx; apply list_elem_of_omap in Hx as (y & Hy & Ey);
        apply list_elem_of_omap; exists y; (split; [set_solver|done]).
Qed.

(** The head hash of a dense chain binds the whole history: two accepted dense chains
    with one head hash have the same canonical bodies throughout (so the same length, roots
    and times), or two different bodies of theirs collide under SHA-256. *)
Theorem dense_chain_binding {HL : HashLaws} {SL : SerdeLaws} (chain chain' entries entries' : list json)
    (kl kl' : KeyLog) (head head' : json) (h : string) :
  check_checkpoint_chain chain entries kl false = true ->
  check_checkpoint_chain chain' entries' kl' false = true ->
  Forall (fun cp => json_wf (idx cp "body") = true) chain -> Forall (fun cp => json_wf (idx cp "body") = true) chain' ->
  last chain = Some head -> last chain' = Some head' ->
  checkpoint_body_hash head = Some h -> checkpoint_body_hash head' = Some h ->
  (canonical_of <$> chain) = (canonical_of <$> chain') \/
  Collision (omap canonical_of chain) (omap canonical_of chain').
Proof.
  intros Hc Hc' W W' Hl Hl' Hh Hh'. apply chain_dense in Hc, Hc'.
  apply checkpoint_body_hash_of in Hh as (c & Hcan & ->), Hh' as (c' & Hcan' & Eh). apply hex_inj in Eh.
  destruct (chain) as [|x l _] using rev_ind; [done|]. destruct (chain') as [|y l' _] using rev_ind; [done|].
  rewrite last_snoc in Hl, Hl'. injection Hl as ->. injection Hl' as ->.
  assert (c ∈ omap canonical_of (l ++ [head])) as Hin by (apply list_elem_of_omap; exists head; split; [set_solver|done]).
  assert (c' ∈ omap canonical_of (l' ++ [head'])) as Hin' by (apply list_elem_of_omap; exists head'; split; [set_solver|done]).
  destruct (collision_or_equal c c' _ _ Hin Hin' Eh) as [<-|Hcol]; [|by right].
  assert (forall k : list json, rev k ≡ₚ k) as Hperm by (intros; symmetry; apply Permutation_rev).
  destruct (dense_binding _ Hc _ c Hc') as [E|Hcol].
  - by rewrite Hperm.
  - by rewrite Hperm.
  - rewrite rev_app_distr. done.
  - rewrite rev_app_distr. done.
  - left. rewrite !fmap_rev in E. apply (f_equal (@rev _)) in E. by rewrite !rev_involutive in E.
  - right. eapply collision_weaken; [| |exact Hcol]; intros z (y & Hy & Ey)%list_elem_of_omap;
      rewrite Hperm in Hy; apply list_elem_of_omap; eauto.
Qed.
End Dense.

(** ** Continuity: what a hole-free cover says *)
Section Continuity.
Context {H : Hash} {SD : Serde} {B : Base64} {ED : Ed25519}.

(** An interval the assertions cover, with the counts agreeing. *)
Definition asserted (a : json) (from to : string) : Prop :=
  exists b m n, get a "body" = Some b /\ get_str b "from_hash" = Some from /\ get_str b "to_hash" = Some to /\
    get_i64 b "from_tree_size" = Some m /\ get_i64 b "to_tree_size" = Some n /\
    get_i64 b "appended" = Some (n - m) /\ 0 <= m <= n /\ from <> to.
(** Adjacent checkpoints with nothing unaccounted for between them. *)
Definition continuous (assertions : list json) (x y : json) : Prop :=
  exists f t, checkpoint_body_hash x = Some f /\ checkpoint_body_hash y = Some t /\
    (body_str y "prev_hash" = Some f \/
     exists a, a ∈ assertions /\ continuity_self_consistent a = true /\ asserted a f t).

Lemma self_consistent_asserted a : continuity_self_consistent a = true -> exists f t, asserted a f t.
Proof.
  unfold continuity_self_consistent. intros E. case_all E. apply andb_true_iff in E as [E Hne].
  rewrite !andb_true_iff, Z.leb_le, Z.leb_le, Z.eqb_eq in E. destruct E as [[[_ ?] ?] ->].
  apply negb_true_iff, String.eqb_neq in Hne. exists s, s0. eexists _, _, _. split_and!; eauto.
Qed.
Lemma asserted_hashes a b f t f' t' :
  asserted a f t -> get a "body" = Some b -> get_str b "from_hash" = Some f' -> get_str b "to_hash" = Some t' ->
  f = f' /\ t = t'.
Proof. intros (b' & m & n & Hb & Hf & Ht & _). naive_solver. Qed.

Lemma covered_spec assertions f t :
  (f, t) ∈ continuity_covered assertions <->
  exists a, a ∈ assertions /\ continuity_self_consistent a = true /\ asserted a f t.
Proof.
  unfold continuity_covered. rewrite list_elem_of_omap. split.
  - intros (a & Ha & E). apply list_elem_of_In, filter_In in Ha as [Ha Hc]. apply list_elem_of_In in Ha.
    apply bind_Some in E as (b & Hb & E). apply bind_Some in E as (f' & Hf & E). apply bind_Some in E as (t' & Ht & [= -> ->]).
    exists a. split_and!; [done|done|]. destruct (self_consistent_asserted a Hc) as (f' & t' & Has).
    destruct (asserted_hashes _ _ _ _ _ _ Has Hb Hf Ht) as [-> ->]. done.
  - intros (a & Ha & Hc & b & m & n & Hb & Hf & Ht & _). exists a. split.
    + apply list_elem_of_In, filter_In. by rewrite <- list_elem_of_In.
    + rewrite Hb. cbn [mbind option_bind]. by rewrite Hf, Ht.
Qed.

Lemma hole_spec assertions x y :
  continuity_hole (continuity_covered assertions) (x, y) = false <-> continuous assertions x y.
Proof.
  unfold continuity_hole, continuous. cbn [fst snd].
  destruct (checkpoint_body_hash x) as [f|]; [|naive_solver]. destruct (checkpoint_body_hash y) as [t|]; [|naive_solver].
  destruct (opt_str_eqb (body_str y "prev_hash") (Some f)) eqn:E.
  - apply opt_str_eqb_true in E. split; [|done]. intros _. exists f, t. auto.
  - assert (body_str y "prev_hash" <> Some f) as Hne by (rewrite <- opt_str_eqb_true, E; done).
    rewrite negb_false_iff, existsb_exists. split.
    + intros ([f' t'] & Hin & Heq). cbn [fst snd] in Heq. rewrite andb_true_iff, !String.eqb_eq in Heq.
      destruct Heq as [-> ->]. apply list_elem_of_In, covered_spec in Hin. eauto 10.
    + intros (f' & t' & [= <-] & [= <-] & [|Ha]); [done|]. apply covered_spec, list_elem_of_In in Ha.
      exists (f, t). split; [done|]. cbn. by rewrite !String.eqb_refl.
Qed.

Lemma windows2_lookup {A} (l : list A) x y :
  (x, y) ∈ windows2 l <-> exists i, l !! i = Some x /\ l !! Datatypes.S i = Some y.
Proof.
  induction l as [|a [|b l] IH]; cbn [windows2].
  - split; [by intros ?%elem_of_nil|intros (i & ? & ?); done].
  - split; [by intros ?%elem_of_nil|intros (i & ? & Hi); done].
  - rewrite elem_of_cons. split.
    + intros [[= -> ->]|Hin]; [by exists O|]. apply IH in Hin as (i & ? & ?). by exists (Datatypes.S i).
    + intros ([|i] & Hx & Hy); [left; cbn in *; congruence|right; apply IH; by exists i].
Qed.

(** No gap is reported exactly when every adjacent pair of checkpoints is hashable and
    either linked by hash or covered by an assertion whose own counts agree. *)
Theorem continuity_gaps_spec (chain assertions : list json) :
  continuity_gaps chain assertions = 0 <->
  forall i x y, chain !! i = Some x -> chain !! Datatypes.S i = Some y -> continuous assertions x y.
Proof.
  unfold continuity_gaps. 
  assert (forall l : list (json * json), zlen l = 0 <-> l = []) as Hz.
  { intros [|? ?]; unfold zlen; cbn [length]; split; try done; lia. }
  rewrite Hz. split.
  - intros E i x y Hx Hy. apply hole_spec.
    destruct (continuity_hole (continuity_covered assertions) (x, y)) eqn:Eh; [|done].
    assert ((x, y) ∈ windows2 chain) as Hin by (apply windows2_lookup; eauto).
    apply list_elem_of_In in Hin. assert (In (x, y) (List.filter (continuity_hole (continuity_covered assertions)) (windows2 chain))) as Hf
      by (by apply filter_In). by rewrite E in Hf.
  - intros Hc. destruct (List.filter _ _) as [|[x y] l] eqn:E; [done|exfalso].
    assert (In (x, y) ((x, y) :: l)) as Hin by (by left). rewrite <- E in Hin. apply filter_In in Hin as [Hin Hh].
    apply list_elem_of_In, windows2_lookup in Hin as (i & Hx & Hy). pose proof (Hc i x y Hx Hy) as Hcon.
    apply hole_spec in Hcon. congruence.
Qed.
End Continuity.
