(* ===== verification/Trust.v ===== *)
(** * Trust: independently supplied anchors (trust.rs)

    The relying party's key tables, the domain-separated bytes a proof signs, the
    HMAC and its comparison, and the strict JSON boundary: a lexical bound on number
    tokens followed by a duplicate-free visitor over the parser's events. *)
From S2P Require Import Prelude Hash Text Json Jcs Utc Dsse.

Definition SOURCE_WEBHOOK_SIGNATURE_CONTEXT : string := "evd/source-webhook-body-jcs/v1".
Definition MAX_SOURCE_PROOF_MATERIAL_BYTES : Z := 1024 * 1024.
Definition MAX_JSON_NUMBER_TOKEN_BYTES : Z := 128.
Definition KEY_CATEGORIES : list string :=
  ["source_keys"; "mac_keys"; "evaluator_keys"; "node_keys"; "node_roots"; "temporal_keys";
   "population_keys"; "accountability_keys"; "scitt_ts_keys"; "log_keys"; "recorder_keys"; "tsa_roots"].

(** [str::trim] and [join]. *)
Definition is_whitespace (c : Z) : bool :=
  in_range 9 13 c || (c =? 32) || (c =? 133) || (c =? 160) || (c =? 5760) || in_range 8192 8202 c
  || (c =? 8232) || (c =? 8233) || (c =? 8239) || (c =? 8287) || (c =? 12288).
Definition trim_is_empty (s : string) : bool := forallb is_whitespace (chars s).
Definition join_str (sep : string) (l : list string) : string := String.concat sep l.

(** [str::parse::<u64>().ok()]. *)
Definition parse_u64 (b : bytes) : option Z :=
  opt_filter (parse_digits (match b with 43 :: t => t | _ => b end)) (fun n => n <=? U64_MAX).
(** [slice::strip_prefix]. *)
Definition strip_minus (b : bytes) : bytes := match b with 45 :: t => t | _ => b end.

Section Trust.
Context {H : Hash} {SD : Serde} {B : Base64} {ED : Ed25519}.

(** [fn decode_b64]: only the canonical encoding. *)
Definition decode_b64 (s : string) : option bytes :=
  raw ← b64_decode s; then_some (String.eqb (b64_encode raw) s) raw.

(** [fn decode_material]: hex first, then base64. *)
Definition decode_material (v : option json) : option bytes :=
  v ← v; s ← as_str v;
  reject_if is_empty s with None;
  match hex_to_bytes s with Some b => Some b | None => decode_b64 s end.

(** [fn key_for]. *)
Definition key_for (trust : option json) (category : string) (name : option string) : option bytes :=
  reject_if negb (str_in category KEY_CATEGORIES) with None;
  t ← trust; table ← get_object t category; name ← name; decode_material (obj_get table name).

(** [fn tsa_roots_pem]. *)
Definition tsa_roots_pem (trust : option json) : option string :=
  t ← trust; table ← get_object t "tsa_roots";
  let pems := List.filter (fun s => negb (trim_is_empty s)) (omap (fun kv => as_str kv.2) table) in
  then_some (negb (zlen pems =? 0)) (join_str (String "010"%char EmptyString) pems).

(** [fn signed_bytes]. *)
Definition strip_signatures (m : list (string * json)) : list (string * json) :=
  List.filter (fun kv => negb (String.eqb kv.1 "signature") && negb (ends_with "_sig" kv.1)) m.
Definition signed_bytes (domain : string) (payload : json) : option bytes :=
  m ← as_object payload;
  canon ← canonical_integer_checked (JObject (strip_signatures m));
  Some (str_bytes "evd/v1/" ++ str_bytes domain ++ [0] ++ canon).

(** [fn signed_proof]. *)
Definition signed_proof (payload : json) (domain : string) : option (bytes * bytes) :=
  reject_if negb (is_object payload) with None;
  sig ← decode_material (get payload "signature"); msg ← signed_bytes domain payload; Some (sig, msg).

(** [try_into::<[u8; 32]>()]. *)
Definition array32 (b : bytes) : option bytes := then_some (zlen b =? 32) b.

(** [fn verified]. *)
Definition verified (trust : option json) (category : string) (name : option string) (domain : string)
    (payload : json) : bool :=
  let_some pub_bytes := key_for trust category name else false;
  let_some pubkey := array32 pub_bytes else false;
  let_some (sig, msg) := signed_proof payload domain else false;
  ed25519_verify pubkey msg sig.

(** [fn hmac_sha256]: the key block and the two pads, by index as in the source. *)
Definition hmac_block (key : bytes) : bytes :=
  let k := if 64 <? zlen key then sha256 key else key in k ++ replicate (64 - length k) 0.
Definition hmac_sha256 (key msg : bytes) : bytes :=
  let k := hmac_block key in
  let ipad := zip_with Z.lxor (replicate 64 54) k in
  let opad := zip_with Z.lxor (replicate 64 92) k in
  sha256 (opad ++ sha256 (ipad ++ msg)).

(** [fn ct_eq]: no early exit. *)
Definition ct_eq (a b : bytes) : bool :=
  reject_if negb (zlen a =? zlen b) with false;
  fold_left (fun acc xy => Z.lor acc (Z.lxor xy.1 xy.2)) (zip a b) 0 =? 0.

(** [fn mac_verified]. *)
Definition mac_verified (trust : option json) (name : option string) (domain : string) (payload : json) : bool :=
  let_some secret := key_for trust "mac_keys" name else false;
  let_some (mac, msg) := signed_proof payload domain else false;
  ct_eq (hmac_sha256 secret msg) mac.

(** [StrictVisitor], over the events the deserializer sends. *)
Fixpoint strict_visit (e : event) : option json :=
  match e with
  | EvUnit => Some JNull
  | EvBool value => Some (JBool value)
  | EvI64 value => then_some (safe_range value) (JNumber (num_of_int value))
  | EvU64 value => then_some (value <=? MAX_SAFE_INTEGER) (JNumber (num_of_int value))
  | EvF64 value => JNumber <$> num_from_f64 value
  | EvStr value => Some (JString value)
  | EvSeq sequence => JArray <$> mapM strict_visit sequence
  | EvMap mapping =>
      (fix visit_map (mapping : list (string * event)) (out : list (string * json)) : option json :=
         match mapping with
         | [] => Some (JObject out)
         | (key, e) :: t =>
             reject_if contains_key out key with None;
             v ← strict_visit e; visit_map t (obj_insert out key v)
         end) mapping []
  end.

(** [fn json_number_token_ok]. *)
Definition json_number_token_ok (token : bytes) : bool :=
  (zlen token <=? MAX_JSON_NUMBER_TOKEN_BYTES)
  && (existsb (fun byte => (byte =? #".") || (byte =? #"E") || (byte =? #"e")) token
      || is_some_and (s ← from_utf8 (strip_minus token); parse_u64 (str_bytes s))
           (fun value => value <=? MAX_SAFE_INTEGER)).

(** The loop of [fn json_numbers_lexically_bounded] from position [index], in the state
    [(in_string, escaped, number_start)]. *)
Definition number_char (b : u8) : bool :=
  (b =? #"+") || (b =? #"-") || (b =? #".") || (b =? #"E") || (b =? #"e") || is_ascii_digit b.
Fixpoint lexical_loop (raw : bytes) (index : nat) (in_string escaped : bool) (number_start : option nat) (rest : bytes)
    : bool :=
  match rest with
  | [] => negb in_string && is_none_or number_start (fun start => json_number_token_ok (drop start raw))
  | byte :: t =>
      if in_string then
        if escaped then lexical_loop raw (Datatypes.S index) true false number_start t
        else if byte =? 92 then lexical_loop raw (Datatypes.S index) true true number_start t
        else if byte =? 34 then lexical_loop raw (Datatypes.S index) false false number_start t
        else lexical_loop raw (Datatypes.S index) true false number_start t
      else
        let step number_start :=
          if byte =? 34 then lexical_loop raw (Datatypes.S index) true escaped number_start t
          else if (byte =? #"-") || is_ascii_digit byte
          then lexical_loop raw (Datatypes.S index) false escaped (Some index) t
          else lexical_loop raw (Datatypes.S index) false escaped number_start t in
        match number_start with
        | Some start =>
            if number_char byte then lexical_loop raw (Datatypes.S index) false escaped number_start t
            else
              reject_if negb (json_number_token_ok (slice raw start index)) with false;
              step None
        | None => step None
        end
  end.
Definition json_numbers_lexically_bounded (raw : bytes) : bool := lexical_loop raw 0 false false None raw.

(** [fn strict_json]. *)
Definition strict_json (raw : bytes) : option json :=
  reject_if negb (json_numbers_lexically_bounded raw) with None;
  events ← deserialize_events raw;
  value ← strict_visit events;
  then_some (negb (depth_exceeds value MAX_DEPTH)) value.

(** [fn source_webhook_material]. *)
Definition source_webhook_material (payload : json) : option bytes :=
  reject_if negb (opt_str_eqb (get_str payload "signature_context") (Some SOURCE_WEBHOOK_SIGNATURE_CONTEXT)) with None;
  material ← (s ← get_str payload "material"; decode_b64 s);
  reject_if (zlen material =? 0) || (MAX_SOURCE_PROOF_MATERIAL_BYTES <? zlen material) with None;
  reject_if negb (opt_str_eqb (get_str payload "material_digest") (Some (hex (sha256 material)))) with None;
  Some material.

(** [fn source_envelope_closed]. *)
Definition source_envelope_closed (envelope : list (string * json)) (name : option string) : bool :=
  (zlen envelope =? 3) && forallb (contains_key envelope) ["body"; "kid"; "signature"]%string
  && is_some_and (obj_get envelope "body") is_object
  && opt_str_eqb (v ← obj_get envelope "kid"; as_str v) name.

(** [fn source_webhook_statement]. *)
Definition source_webhook_statement (name : option string) (payload : json) : option (string * bytes) :=
  material ← source_webhook_material payload;
  delivery ← strict_json material;
  if depth_exceeds delivery 16 then None else
  envelope ← as_object delivery;
  if negb (source_envelope_closed envelope name) then None else
  signature ← (v ← obj_get envelope "signature"; as_str v);
  message ← canonical_integer_checked (unwrap_or (obj_get envelope "body") JNull);
  Some (signature, message).

(** [fn source_webhook_ed25519] and [fn source_webhook_mac]. *)
Definition source_webhook_ed25519 (trust : option json) (name : option string) (signature : string) (message : bytes) : bool :=
  let_some public := key_for trust "source_keys" name else false;
  let_some public := array32 public else false;
  let_some signature := decode_b64 signature else false;
  ed25519_verify public message signature.
Definition source_webhook_mac (trust : option json) (name : option string) (signature : string) (message : bytes) : bool :=
  let_some secret := key_for trust "mac_keys" name else false;
  let_some mac := hex_to_bytes signature else false;
  (zlen mac =? 32) && String.eqb (hex mac) signature && ct_eq (hmac_sha256 secret message) mac.

(** [fn source_webhook_verified]. *)
Definition source_webhook_verified (trust : option json) (name algorithm_family : option string) (payload : json) : bool :=
  let_some (signature, message) := source_webhook_statement name payload else false;
  if opt_str_eqb (get_str payload "proof_type") (Some "asymmetric_signature"%string)
     && opt_str_eqb algorithm_family (Some "ed25519"%string)
  then source_webhook_ed25519 trust name signature message
  else if opt_str_eqb (get_str payload "proof_type") (Some "mac"%string)
     && opt_str_eqb algorithm_family (Some "hmac-sha256"%string)
  then source_webhook_mac trust name signature message
  else false.
End Trust.

(** ** The comparison and the signed bytes *)

Lemma or_fold_zero l : forall acc : Z,
  fold_left (fun acc (xy : Z * Z) => Z.lor acc (Z.lxor xy.1 xy.2)) l acc = 0 <-> acc = 0 /\ Forall (fun xy => xy.1 = xy.2) l.
Proof.
  induction l as [|[x y] l IH]; intros acc; cbn [fold_left fst snd].
  - split; [intros ->; by repeat constructor|tauto].
  - rewrite IH, Z.lor_eq_0_iff, Z.lxor_eq_0_iff, Forall_cons. cbn. tauto.
Qed.

(** The comparison without an early exit decides equality of the two byte strings. *)
Theorem ct_eq_spec (a b : bytes) : ct_eq a b = true <-> a = b.
Proof.
  unfold ct_eq. destruct (Z.eqb_spec (zlen a) (zlen b)) as [El|El]; cbn [negb].
  2:{ split; [done|]. by intros ->. }
  rewrite Z.eqb_eq, or_fold_zero. unfold zlen in El. split; [|intros ->; split; [done|]].
  - intros [_ Hf]. apply Nat2Z.inj in El. clear -El Hf. revert b El Hf.
    induction a as [|x a IH]; intros [|y b] El Hf; try done. cbn in *.
    inversion Hf; subst. cbn in *. subst. f_equal. apply IH; [lia|done].
  - clear. induction b; constructor; auto.
Qed.

Section TrustTheorems.
Context {H : Hash} {SD : Serde} {B : Base64} {ED : Ed25519}.

Lemma strip_signatures_wf m : json_wf (JObject m) = true -> json_wf (JObject (strip_signatures m)) = true.
Proof.
  cbn. rewrite !andb_true_iff. intros [Hs Hw]. split.
  - apply keys_sorted_Sorted in Hs. apply (Sorted_StronglySorted _) in Hs.
    assert (StronglySorted (fun a b => str_ltb a b = true) (strip_signatures m).*1) as Hss.
    { clear Hw. unfold strip_signatures. induction m as [|[k x] m IH]; [constructor|].
      cbn in Hs. inversion Hs as [|? ? Hs' Hf]; subst. cbn. specialize (IH Hs').
      destruct (negb (String.eqb k "signature") && negb (ends_with "_sig" k)); [|done]. cbn. constructor; [done|].
      rewrite Forall_forall in Hf |- *. intros y Hy. apply Hf. apply list_elem_of_fmap in Hy as (kv & -> & Hin).
      apply list_elem_of_fmap. exists kv. split; [done|]. by apply list_elem_of_In, filter_In in Hin as [?%list_elem_of_In _]. }
    clear -Hss. revert Hss. generalize (strip_signatures m) as l. induction l as [|[k x] [|[k' x'] l] IH]; intros Hss; [done..|].
    cbn in *. inversion Hss as [|? ? Hs' Hf]; subst. inversion Hf; subst. rewrite IH by done. by rewrite andb_true_r.
  - rewrite forallb_elem in *. intros x Hx. apply Hw. by apply list_elem_of_In, filter_In in Hx as [?%list_elem_of_In _].
Qed.

(** The domains the crate uses hold no NUL. *)
Definition domain_ok (d : string) : bool := forallb (fun b => negb (b =? 0)) (str_bytes d).

(** A proof signs one statement for one purpose: equal signed bytes have equal domains and
    payloads that agree on every member but the signatures. *)
Theorem signed_bytes_binding {L : SerdeLaws} (d d' : string) (m m' : list (string * json)) (out : bytes) :
  domain_ok d = true -> domain_ok d' = true -> json_wf (JObject m) = true -> json_wf (JObject m') = true ->
  signed_bytes d (JObject m) = Some out -> signed_bytes d' (JObject m') = Some out ->
  d = d' /\ strip_signatures m = strip_signatures m'.
Proof.
  unfold signed_bytes. cbn [as_object mbind option_bind]. intros Hd Hd' Hw Hw' E E'.
  apply bind_Some in E as (c & Hc & [= <-]), E' as (c' & Hc' & [= E]).
  apply (split_run (fun b => negb (b =? 0))) in E as [Ed Ec]; try done.
  injection Ec as ->. apply str_bytes_inj in Ed. split; [done|].
  assert (JObject (strip_signatures m) = JObject (strip_signatures m')) as [= ->]; [|done].
  eapply canonical_integer_binds; eauto using strip_signatures_wf.
Qed.

(** The only route to a favourable value: [verified] holds exactly when the relying party
    itself named 32 bytes of key material in a known category and the payload's own signature
    verifies under them over the domain-separated bytes. *)
Theorem verified_spec (trust : option json) (category : string) (name : option string) (domain : string) (payload : json) :
  verified trust category name domain payload = true <->
  exists t table n key m sig msg, trust = Some t /\ category ∈ KEY_CATEGORIES /\ get_object t category = Some table /\
    name = Some n /\ decode_material (obj_get table n) = Some key /\ length key = 32%nat /\
    payload = JObject m /\ decode_material (obj_get m "signature") = Some sig /\
    signed_bytes domain payload = Some msg /\ ed25519_signed key msg sig.
Proof.
  unfold verified, key_for, array32. split.
  - intros E. case_step E. destruct (negb (str_in category KEY_CATEGORIES)) eqn:Ec; [done|].
    apply negb_false_iff, str_in_elem in Ec. apply bind_Some in E0 as (t & -> & E0).
    apply bind_Some in E0 as (table & Ht & E0). apply bind_Some in E0 as (n & -> & E0).
    case_step E. apply then_some_Some in E1 as [Hl <-]. case_step E. destruct p as [sig msg].
    unfold signed_proof in E1. case_step E1. apply negb_false_iff in E2. destruct payload; try done.
    apply bind_Some in E1 as (s & Hs & E1). apply bind_Some in E1 as (b & Hb & [= <- <-]).
    apply ed25519_verify_true in E. eexists t, table, n, l, m, s, b. split_and!; try done. unfold zlen in Hl. lia.
  - intros (t & table & n & key & m & sig & msg & -> & Hc & Ht & -> & Hk & Hl & -> & Hs & Hm & Hv).
    apply str_in_elem in Hc. rewrite Hc. cbn [negb mbind option_bind]. rewrite Ht. cbn [mbind option_bind]. rewrite Hk.
    unfold zlen. rewrite Hl. change (Z.of_nat 32 =? 32) with true. cbn [then_some]. unfold signed_proof. cbn [is_object is_some as_object negb].
    change (get (JObject m) "signature") with (obj_get m "signature").
    rewrite Hs. cbn [mbind option_bind]. rewrite Hm. cbn [mbind option_bind]. by apply ed25519_verify_true.
Qed.
End TrustTheorems.

(** ** The strict JSON boundary *)

Section EventInd.
Context (P : event -> Prop).
Context (Hunit : P EvUnit) (Hbool : forall b, P (EvBool b)) (Hi : forall n, P (EvI64 n)) (Hu : forall n, P (EvU64 n))
  (Hf : forall f, P (EvF64 f)) (Hs : forall s, P (EvStr s)) (Hseq : forall l, Forall P l -> P (EvSeq l))
  (Hmap : forall m, Forall (fun kv => P kv.2) m -> P (EvMap m)).
Fixpoint event_ind' (e : event) : P e :=
  match e with
  | EvUnit => Hunit | EvBool b => Hbool b | EvI64 n => Hi n | EvU64 n => Hu n | EvF64 f => Hf f | EvStr s => Hs s
  | EvSeq l => Hseq l ((fix go l : Forall P l :=
      match l with [] => @List.Forall_nil _ P | x :: t => @List.Forall_cons _ P x t (event_ind' x) (go t) end) l)
  | EvMap m => Hmap m ((fix go m : Forall (fun kv => P kv.2) m :=
      match m with [] => @List.Forall_nil _ _ | kv :: t => @List.Forall_cons _ (fun kv => P kv.2) kv t (event_ind' kv.2) (go t) end) m)
  end.
End EventInd.

(** [BTreeMap::insert] keeps the order and adds the member. *)
Lemma str_ltb_total a b : a <> b -> str_ltb a b = false -> str_ltb b a = true.
Proof.
  unfold str_ltb, bytes_ltb. intros Hne E. rewrite (bytes_compare_antisym (str_bytes a) (str_bytes b)).
  destruct (bytes_compare (str_bytes a) (str_bytes b)) eqn:Ec; try done.
  apply bytes_compare_eq, str_bytes_inj in Ec. done.
Qed.
Lemma keys_sorted_cons {A} k (x : A) m :
  keys_sorted ((k, x) :: m) = true <-> keys_sorted m = true /\ (forall k' x', head m = Some (k', x') -> str_ltb k k' = true).
Proof.
  destruct m as [|[k' x'] m]; cbn -[keys_sorted str_ltb].
  - split; [intros _; split; [done|]; intros ? ? [=]|done].
  - change (keys_sorted ((k, x) :: (k', x') :: m)) with (str_ltb k k' && keys_sorted ((k', x') :: m)).
    rewrite andb_true_iff. naive_solver.
Qed.
Lemma obj_insert_sorted {A} (m : list (string * A)) k v : keys_sorted m = true -> keys_sorted (obj_insert m k v) = true.
Proof.
  assert (forall (m : list (string * A)) k v k0 v0, head (obj_insert m k v) = Some (k0, v0) ->
    k0 = k \/ exists x, head m = Some (k0, x)) as Hhead.
  { intros [|[k1 x1] m'] k1' v' k0 v0; cbn; [intros [= <- _]; auto|].
    destruct (String.eqb k1' k1); [intros [= <- _]; auto|]. destruct (str_ltb k1' k1); intros [= <- _]; eauto. }
  induction m as [|[k' x] m IH]; [done|]. intros Hs. cbn [obj_insert].
  destruct (String.eqb_spec k k') as [->|Hne].
  { apply keys_sorted_cons in Hs. by apply keys_sorted_cons. }
  destruct (str_ltb k k') eqn:El.
  - apply keys_sorted_cons. split; [done|]. by intros ? ? [= <- _].
  - apply keys_sorted_cons in Hs as [Hs Hlt]. apply keys_sorted_cons. split; [auto|].
    intros k0 v0 Hh. apply Hhead in Hh as [->|[y Hy]]; [by apply str_ltb_total|by eapply Hlt].
Qed.
Lemma obj_insert_perm {A} (m : list (string * A)) k v : k ∉ m.*1 -> obj_insert m k v ≡ₚ (k, v) :: m.
Proof.
  induction m as [|[k' x] m IH]; [done|]. cbn. intros Hk. rewrite not_elem_of_cons in Hk. destruct Hk as [Hne Hk].
  apply String.eqb_neq in Hne as ->. destruct (str_ltb k k'); [done|]. rewrite IH by done. apply Permutation_swap.
Qed.
Lemma contains_key_elem {A} (m : list (string * A)) k : contains_key m k = true <-> k ∈ m.*1.
Proof.
  unfold contains_key. induction m as [|[k' x] m IH]; cbn; [split; [done|by intros ?%elem_of_nil]|].
  rewrite elem_of_cons. destruct (String.eqb_spec k k'); [naive_solver|]. rewrite IH. naive_solver.
Qed.

Section StrictJson.
Context {SD : Serde}.

(** What the boundary admits: no key twice in one object, integers in the exact domain, finite floats. *)
Fixpoint strict_ok (e : event) : bool :=
  match e with
  | EvI64 n => safe_range n
  | EvU64 n => n <=? MAX_SAFE_INTEGER
  | EvF64 f => f64_is_finite f
  | EvSeq l => forallb strict_ok l
  | EvMap m => bool_decide (NoDup m.*1) && forallb (fun kv => strict_ok kv.2) m
  | _ => true
  end.
(** The widths of the deserializer's integers. *)
Fixpoint event_width (e : event) : bool :=
  match e with
  | EvI64 n => in_range I64_MIN I64_MAX n
  | EvU64 n => in_range 0 U64_MAX n
  | EvSeq l => forallb event_width l
  | EvMap m => forallb (fun kv => event_width kv.2) m
  | _ => true
  end.
(** The value the events describe; the members of an object in any order. *)
Inductive represents : event -> json -> Prop :=
| rep_unit : represents EvUnit JNull
| rep_bool b : represents (EvBool b) (JBool b)
| rep_i64 n : represents (EvI64 n) (JNumber (num_of_int n))
| rep_u64 n : represents (EvU64 n) (JNumber (num_of_int n))
| rep_f64 f : represents (EvF64 f) (JNumber (Float f))
| rep_str s : represents (EvStr s) (JString s)
| rep_seq l k : Forall2 represents l k -> represents (EvSeq l) (JArray k)
| rep_map m n n' : n' ≡ₚ n -> Forall2 (fun a b => a.1 = b.1 /\ represents a.2 b.2) m n' ->
    represents (EvMap m) (JObject n).

Fixpoint visit_map (mapping : list (string * event)) (out : list (string * json)) : option json :=
  match mapping with
  | [] => Some (JObject out)
  | (key, e) :: t =>
      if contains_key out key then None else v ← strict_visit e; visit_map t (obj_insert out key v)
  end.
Lemma strict_visit_map m : strict_visit (EvMap m) = visit_map m [].
Proof.
  cbn [strict_visit]. generalize (@nil (string * json)) as out.
  induction m as [|[k e] m IH]; intros out; [done|]. cbn [visit_map].
  destruct (contains_key out k); [done|]. destruct (strict_visit e); [|done]. apply IH.
Qed.

Lemma num_of_int_ok n : safe_range n = true ->
  json_wf (JNumber (num_of_int n)) = true /\ integers_safe (JNumber (num_of_int n)) = true.
Proof.
  intros Hs. assert (- MAX_SAFE_INTEGER <= n <= MAX_SAFE_INTEGER) as Hn by (unfold safe_range, in_range in Hs; lia).
  unfold MAX_SAFE_INTEGER in Hn. unfold num_of_int. destruct (Z.ltb_spec n 0); cbn [json_wf integers_safe num_as_i64 num_as_u64 is_none_or].
  - rewrite Hs. unfold I64_MIN. split; [|done]. lia.
  - unfold then_some, I64_MAX, U64_MAX. rewrite (proj2 (Z.leb_le n 9223372036854775807)) by lia.
    cbn [is_none_or]. rewrite Hs. unfold MAX_SAFE_INTEGER. split; lia.
Qed.

Definition visit_post (e : event) : Prop :=
  is_some (strict_visit e) = strict_ok e /\ forall v, strict_visit e = Some v ->
    represents e v /\ (event_width e = true -> json_wf v = true /\ integers_safe v = true).

Lemma visit_map_post m : Forall (fun kv => visit_post kv.2) m -> forall out,
  is_some (visit_map m out) = bool_decide (NoDup m.*1 /\ Forall (fun k => k ∉ out.*1) m.*1) && forallb (fun kv => strict_ok kv.2) m /\
  forall v, visit_map m out = Some v -> exists n new, v = JObject n /\ n ≡ₚ out ++ new /\
    Forall2 (fun a b => a.1 = b.1 /\ represents a.2 b.2) m new /\
    (keys_sorted out = true -> keys_sorted n = true) /\
    (forallb (fun kv => event_width kv.2) m = true ->
      forallb (fun kv => json_wf kv.2 && integers_safe kv.2) new = true).
Proof.
  induction 1 as [|[k e] m [Hs Hv] Hm IH]; intros out; cbn [visit_map forallb fmap list_fmap fst snd].
  - split. { rewrite bool_decide_eq_true_2; [done|]. by repeat constructor. }
    intros v [= <-]. exists out, []. rewrite app_nil_r. auto.
  - cbn [snd] in Hs, Hv. destruct (contains_key out k) eqn:Ec.
    { apply contains_key_elem in Ec. split; [|done]. rewrite bool_decide_eq_false_2; [done|].
      intros [_ Hf]. by apply Forall_cons in Hf as [? _]. }
    assert (k ∉ out.*1) as Hk by (rewrite <- contains_key_elem, Ec; done).
    destruct (strict_visit e) as [x|] eqn:Ex; cbn [mbind option_bind].
    2:{ split; [|done]. cbn in Hs. by rewrite <- Hs, andb_false_r. }
    destruct (IH (obj_insert out k x)) as [IHs IHv]. cbn in Hs. split.
    + rewrite IHs, <- Hs. cbn [andb]. f_equal. apply bool_decide_ext.
      rewrite NoDup_cons, Forall_cons, !Forall_forall. setoid_rewrite (obj_insert_perm out k x Hk). cbn. set_solver.
    + intros v Ev. destruct (IHv v Ev) as (n & new & -> & Hn & Hf & Hsort & Hw). destruct (Hv x eq_refl) as [Hrep Hwf].
      exists n, ((k, x) :: new). split_and!; [done| | | |].
      * rewrite Hn, (obj_insert_perm out k x Hk). cbn. by rewrite Permutation_middle.
      * by constructor.
      * intros Ho. by apply Hsort, obj_insert_sorted.
      * rewrite andb_true_iff. intros [H1 H2]. destruct (Hwf H1) as [Ha Hb]. cbn [forallb snd]. rewrite Ha, Hb. auto.
Qed.

(** The visitor builds a value exactly for the documents it should: no duplicate key at any
    depth, integers in the exact domain, finite floats; the value then has just the document's
    members, in map order, and is well formed. *)
Theorem strict_visit_spec (e : event) :
  is_some (strict_visit e) = strict_ok e /\ forall v, strict_visit e = Some v ->
    represents e v /\ (event_width e = true -> json_wf v = true /\ integers_safe v = true).
Proof.
  change (visit_post e). induction e as [|b|n|n|f|s|l IH|m IH] using event_ind'; unfold visit_post.
  - split; [done|]. intros v [= <-]. by split; [constructor|].
  - split; [done|]. intros v [= <-]. by split; [constructor|].
  - cbn. destruct (safe_range n) eqn:E; cbn; (split; [done|]); [|done]. intros v [= <-].
    split; [constructor|]. intros _. by apply num_of_int_ok.
  - cbn. destruct (n <=? MAX_SAFE_INTEGER) eqn:E; cbn; (split; [done|]); [|done]. intros v [= <-].
    split; [constructor|]. intros Hw. apply num_of_int_ok. unfold safe_range, in_range, MAX_SAFE_INTEGER in *. lia.
  - cbn. unfold num_from_f64. destruct (f64_is_finite f) eqn:E; cbn; (split; [done|]); [|done]. intros v [= <-].
    split; [constructor|]. done.
  - split; [done|]. intros v [= <-]. by split; [constructor|].
  - cbn [strict_visit strict_ok event_width]. split.
    + assert (forall o : option (list json), is_some (JArray <$> o) = is_some o) as -> by (by intros []).
      apply is_some_mapM. eapply Forall_impl; [exact IH|]. intros x Hx. apply Hx.
    + intros v E. apply fmap_Some in E as (k & Hk & ->). apply mapM_Some in Hk.
      assert (Forall2 represents l k /\ (forallb event_width l = true -> forallb json_wf k = true /\ forallb integers_safe k = true)) as [? ?].
      { induction Hk as [|x y l k Hxy _ IHk]; [by split; [constructor|]|]. apply Forall_cons in IH as [Hx IH].
        destruct (IHk IH) as [Hf Hw]. destruct Hx as [_ Hx]. apply Hx in Hxy as [Hr Hxw]. split; [by constructor|].
        cbn. rewrite !andb_true_iff. tauto. }
      split; [by constructor|done].
  - rewrite strict_visit_map. destruct (visit_map_post m IH []) as [Hs Hv]. split.
    + rewrite Hs. cbn [strict_ok]. f_equal. apply bool_decide_ext. rewrite Forall_forall. cbn. set_solver.
    + intros v E. destruct (Hv v E) as (n & new & -> & Hn & Hf & Hsort & Hw). cbn in Hn. split.
      * eapply rep_map; [|exact Hf]. done.
      * cbn [event_width]. intros Ew. specialize (Hw Ew).
        assert (forallb (fun kv => json_wf kv.2 && integers_safe kv.2) n = true) as Hall.
        { rewrite forallb_elem in *. intros kv. rewrite Hn. apply Hw. }
        cbn. rewrite Hsort by done. rewrite forallb_elem in Hall.
        split; [apply andb_true_iff; split; [done|]|]; apply forallb_elem; intros kv Hkv; apply Hall in Hkv;
          by apply andb_true_iff in Hkv as [? ?].
Qed.
End StrictJson.
