(* ===== verification/Lexical.v ===== *)
(** * Lexical: the number scan in front of serde_json (trust.rs)

    [json_numbers_lexically_bounded] reads raw bytes once, before any parser, keeping three
    flags.  Here is the grammar it decides: a text is a sequence of closed string literals,
    maximal number tokens and other bytes, and it passes exactly when every number token is
    within its bounds. *)
From S2P Require Import Prelude Hash Text Json Jcs Utc Dsse Trust.

(** ** The grammar *)

(** The bytes that start a number token. *)
Definition number_start_char (b : u8) : bool := (b =? #"-") || is_ascii_digit b.

(** The inside of a string literal: every quote is escaped and no escape is left open. *)
Fixpoint string_body (escaped : bool) (body : bytes) : bool :=
  match body with
  | [] => negb escaped
  | b :: t =>
      if escaped then string_body false t
      else if b =? 92 then string_body true t else negb (b =? 34) && string_body false t
  end.

(** [Lexes raw ns]: [raw] is read as literals, tokens and other bytes, with number tokens [ns]. *)
Inductive Lexes : bytes -> list bytes -> Prop :=
| lex_end : Lexes [] []
| lex_string body rest ns : string_body false body = true -> Lexes rest ns -> Lexes (34 :: body ++ 34 :: rest) ns
| lex_number b run rest ns : number_start_char b = true -> forallb number_char run = true ->
    (forall c t, rest = c :: t -> number_char c = false) -> Lexes rest ns -> Lexes ((b :: run) ++ rest) ((b :: run) :: ns)
| lex_other b rest ns : b <> 34 -> number_start_char b = false -> Lexes rest ns -> Lexes (b :: rest) ns.

(** What is left to read is fine: outside of a literal, within a token, within a literal. *)
Definition good (rest : bytes) : Prop := exists ns, Lexes rest ns /\ Forall (fun t => json_number_token_ok t = true) ns.
Definition good_number (run rest : bytes) : Prop := exists more rest', rest = more ++ rest' /\ forallb number_char more = true /\
  (forall c t, rest' = c :: t -> number_char c = false) /\ json_number_token_ok (run ++ more) = true /\ good rest'.
Definition good_string (escaped : bool) (rest : bytes) : Prop :=
  exists body rest', rest = body ++ 34 :: rest' /\ string_body escaped body = true /\ good rest'.

(** ** A byte at a time *)
Lemma good_nil : good [].
Proof. exists []. repeat constructor. Qed.

Lemma quote_starts_no_number : number_start_char 34 = false.
Proof. done. Qed.

Lemma good_quote t : good (34 :: t) <-> good_string false t.
Proof.
  split.
  - intros (ns & Hl & Hf). inversion Hl as [|body rest ns' Hb Hr|b run rest ns' Hs|b rest ns' Hb]; subst; [|done..].
    exists body, rest. split; [done|]. split; [done|]. by exists ns.
  - intros (body & rest & -> & Hb & ns & Hl & Hf). exists ns. split; [by constructor|done].
Qed.
Lemma good_start b t : number_start_char b = true -> good (b :: t) <-> good_number [b] t.
Proof.
  intros Hs. split.
  - intros (ns & Hl & Hf). inversion Hl as [|body rest ns' Hb Hr|b' run rest ns' _ Hrun Hm Hr|b' rest ns' _ Hn]; subst; [done| |congruence].
    apply Forall_cons in Hf as [Hok Hf]. exists run, rest. split_and!; try done. by exists ns'.
  - intros (run & rest & -> & Hrun & Hm & Hok & ns & Hl & Hf). exists ((b :: run) :: ns).
    split; [by apply (lex_number b run)|by constructor].
Qed.
Lemma good_other b t : b <> 34 -> number_start_char b = false -> good (b :: t) <-> good t.
Proof.
  intros Hb Hs. split.
  - intros (ns & Hl & Hf). inversion Hl; subst; [done|congruence|]. by exists ns.
  - intros (ns & Hl & Hf). exists ns. split; [by constructor|done].
Qed.

Lemma good_number_nil run : good_number run [] <-> json_number_token_ok run = true.
Proof.
  split.
  - intros ([] & [] & [=] & _ & _ & Hok & _). by rewrite app_nil_r in Hok.
  - intros Hok. exists [], []. rewrite (app_nil_r run). split_and!; try done. apply good_nil.
Qed.
Lemma good_number_more run b t : number_char b = true -> good_number run (b :: t) <-> good_number (run ++ [b]) t.
Proof.
  intros Hb. split.
  - intros ([|c more] & rest & E & Hm & Hn & Hok & Hg); [by rewrite (Hn b t) in Hb|]. injection E as <- ->.
    cbn in Hm. rewrite Hb in Hm. exists more, rest. rewrite <- app_assoc. done.
  - intros (more & rest & -> & Hm & Hn & Hok & Hg). exists (b :: more), rest. rewrite <- app_assoc in Hok. cbn. by rewrite Hb.
Qed.
Lemma good_number_end run b t : number_char b = false ->
  good_number run (b :: t) <-> json_number_token_ok run = true /\ good (b :: t).
Proof.
  intros Hb. split.
  - intros ([|c more] & rest & E & Hm & Hn & Hok & Hg); [rewrite app_nil_r in Hok; cbn in E; by subst rest|].
    injection E as <- ->. cbn in Hm. by rewrite Hb in Hm.
  - intros [Hok Hg]. exists [], (b :: t). rewrite (app_nil_r run). split_and!; try done. by intros c t' [= <- <-].
Qed.

Lemma good_string_nil e : ~ good_string e [].
Proof. by intros ([] & rest & [=] & _). Qed.
Lemma good_string_cons e b t : good_string e (b :: t) <->
  if e then good_string false t else if b =? 92 then good_string true t else if b =? 34 then good t else good_string false t.
Proof.
  assert (forall e', (forall body, string_body e (b :: body) = string_body e' body) -> (e = false -> b <> 34) ->
    good_string e (b :: t) <-> good_string e' t) as Hstep.
  { intros e' Hb Hq. split.
    - intros ([|c body] & rest & E & Hs & Hg); injection E as E E'; subst; [destruct e; [done|by destruct Hq]|].
      rewrite Hb in Hs. by exists body, rest.
    - intros (body & rest & -> & Hs & Hg). exists (b :: body), rest. by rewrite Hb. }
  destruct e; [by apply Hstep|]. cbn [string_body] in Hstep.
  destruct (Z.eqb_spec b 92) as [->|]; [by apply Hstep|]. destruct (Z.eqb_spec b 34) as [->|]; [|by apply Hstep].
  split.
  - intros ([|c body] & rest & E & Hs & Hg); inversion E; subst; done.
  - intros Hg. by exists [], t.
Qed.

(** ** The scan *)
Lemma slice_run (pre rest : bytes) (start : nat) : (start <= length pre)%nat ->
  slice (pre ++ rest) start (length pre) = drop start pre.
Proof. intros Hs. unfold slice. rewrite drop_app_le, take_app_le, take_ge; rewrite ?length_drop; done || lia. Qed.

Lemma lexical_loop_spec raw rest : forall pre, raw = pre ++ rest ->
  (lexical_loop raw (length pre) false false None rest = true <-> good rest) /\
  (forall start, (start <= length pre)%nat ->
     lexical_loop raw (length pre) false false (Some start) rest = true <-> good_number (drop start pre) rest) /\
  forall e, lexical_loop raw (length pre) true e None rest = true <-> good_string e rest.
Proof.
  induction rest as [|b t IH]; intros pre Eraw.
  - split_and!.
    + split; [intros _; apply good_nil|done].
    + intros start Hs. cbn. rewrite Eraw, app_nil_r. by rewrite good_number_nil.
    + intros e. split; [done|by intros ?%good_string_nil].
  - destruct (IH (pre ++ [b])) as (IHn & IHr & IHs); [by rewrite <- app_assoc|].
    rewrite length_app, Nat.add_1_r in IHn, IHr, IHs.
    assert (lexical_loop raw (length pre) false false None (b :: t) = true <-> good (b :: t)) as Ha.
    { cbn [lexical_loop]. destruct (Z.eqb_spec b 34) as [->|Hq]; [by rewrite good_quote|].
      fold (number_start_char b). destruct (number_start_char b) eqn:Es; [|by rewrite good_other].
      rewrite (good_start b t Es), IHr by lia. rewrite drop_app_length. done. }
    split_and!; [done| |].
    + intros start Hs. destruct (number_char b) eqn:En.
      * cbn [lexical_loop]. rewrite En, IHr by lia. rewrite (good_number_more _ _ _ En), drop_app_le by lia. done.
      * rewrite (good_number_end _ _ _ En), <- Ha. cbn [lexical_loop]. rewrite En, Eraw, slice_run, <- Eraw by lia.
        destruct (json_number_token_ok (drop start pre)); cbn [negb]; [|naive_solver]. tauto.
    + intros e. rewrite good_string_cons. cbn [lexical_loop]. destruct e; [done|].
      destruct (b =? 92); [done|]. destruct (b =? 34); done.
Qed.

(** ** Tokens *)

(** A token in bounds: short, and either not an integer literal or one of the exact domain. *)
Definition bounded_token (token : bytes) : Prop :=
  zlen token <= MAX_JSON_NUMBER_TOKEN_BYTES /\
  ((exists b, b ∈ token /\ b ∈ [ #"."; #"E"; #"e" ]) \/
   exists n, parse_u64 (strip_minus token) = Some n /\ n <= MAX_SAFE_INTEGER).

Lemma number_char_ascii b : number_char b = true -> 0 <= b < 128.
Proof.
  unfold number_char, is_ascii_digit, in_range, ascii_byte. cbn. rewrite !orb_true_iff, !andb_true_iff, !Z.eqb_eq, !Z.leb_le. lia.
Qed.
Lemma ascii_text t : Forall (fun b => 0 <= b < 128) t -> exists s, from_utf8 t = Some s /\ str_bytes s = t.
Proof.
  intros Hf. exists (bytes_str t). split.
  - apply then_some_Some. split; [|done]. induction Hf as [|b t Hb Hf IH]; [done|]. cbn [utf8_valid].
    by rewrite (proj2 (Z.ltb_lt b 128)) by lia.
  - apply str_bytes_str. eapply Forall_impl; [exact Hf|]. unfold is_byte. cbn. lia.
Qed.
Lemma strip_minus_forall (P : u8 -> Prop) t : Forall P t -> Forall P (strip_minus t).
Proof. intros Hf. unfold strip_minus. repeat (case_match; try done). by apply Forall_cons in Hf as [_ ?]. Qed.

Lemma token_ok_spec token : forallb number_char token = true -> json_number_token_ok token = true <-> bounded_token token.
Proof.
  intros Hn. unfold json_number_token_ok, bounded_token. rewrite andb_true_iff, orb_true_iff, Z.leb_le. f_equiv.
  assert (Forall (fun b => 0 <= b < 128) token) as Hf.
  { apply Forall_forall. intros b Hb. rewrite forallb_elem in Hn. by apply number_char_ascii, Hn. }
  apply strip_minus_forall, ascii_text in Hf as (s & -> & Es). cbn [mbind option_bind]. rewrite Es. f_equiv.
  - rewrite existsb_exists. setoid_rewrite <- list_elem_of_In. setoid_rewrite orb_true_iff. setoid_rewrite orb_true_iff.
    setoid_rewrite Z.eqb_eq. set_solver.
  - rewrite is_some_and_true. by setoid_rewrite Z.leb_le.
Qed.
Lemma lexes_tokens raw ns : Lexes raw ns -> Forall (fun t => forallb number_char t = true) ns.
Proof.
  induction 1 as [| |b run rest ns Hb Hr|]; [done..| |done]. constructor; [|done]. cbn. rewrite Hr, andb_true_r.
  unfold number_start_char, number_char in *. bool_prop. destruct_or?; auto 10.
Qed.

(** C34: The scan in front of the JSON parser accepts a text exactly when it divides into
    closed string literals, maximal number tokens and other bytes such that every token has
    at most 128 bytes and is either not an integer or an integer of the exact domain: no
    integer a reader could round gets past it, and nothing inside a string is mistaken for
    one. *)
Theorem lexical_scan_spec (raw : bytes) :
  json_numbers_lexically_bounded raw = true <-> exists ns, Lexes raw ns /\ Forall bounded_token ns.
Proof.
  unfold json_numbers_lexically_bounded. rewrite (proj1 (lexical_loop_spec raw raw [] eq_refl)). unfold good.
  split; intros (ns & Hl & Hf); exists ns; (split; [done|]); pose proof (lexes_tokens _ _ Hl) as Hc;
    rewrite Forall_forall in *; intros t Ht; by apply token_ok_spec; auto.
Qed.
