(* ===== verification/Entries.v ===== *)
(** * Entries: the receipts a bundle carries (lib.rs)

    Each entry on its own (envelope, body, signatures, inclusion, the covering
    checkpoint's deadline), and the set: the signed export manifest, the uniqueness
    of sequence numbers, the lineage rules, and the records bound to checkpoints. *)
From S2P Require Import Prelude Hash Text Json Jcs Utc Dsse KeyLog Merkle Checkpoint Trust.

Definition MAX_ENTRIES : Z := 200000.
Definition MAX_ATTESTATION_RECORDS : Z := 256.
Definition RECEIPT_CHECKPOINT_SKEW_S : Z := 300.

(** [slice.partition_point(pred)]: on a list where [pred] holds on a prefix, its length;
    the binary search of the standard library, on the half-open range [[lo, lo + size)]. *)
Fixpoint partition_point_from {A} (fuel : nat) (pred : A -> bool) (l : list A) (lo size : nat) : nat :=
  match fuel with
  | O => lo
  | Datatypes.S fuel =>
      if (size =? 0)%nat then lo else
      let half := (size / 2)%nat in
      match l !! (lo + half)%nat with
      | Some x => if pred x then partition_point_from fuel pred l (lo + half + 1) (size - half - 1)
                  else partition_point_from fuel pred l lo half
      | None => lo
      end
  end.
Definition partition_point {A} (pred : A -> bool) (l : list A) : nat :=
  partition_point_from (length l) pred l 0 (length l).

(** [(action_type, receipt_hash, seq, context)]. *)
Definition LineageItem : Type := string * string * Z * json.
Definition li_action (i : LineageItem) : string := i.1.1.1.
Definition li_hash (i : LineageItem) : string := i.1.1.2.
Definition li_seq (i : LineageItem) : Z := i.1.2.
Definition li_context (i : LineageItem) : json := i.2.

(** Checkpoint body hash to (signed ts, tree size). *)
Definition CheckpointFacts : Type := gmap string (string * Z).

Section Entries.
Context {H : Hash} {SD : Serde} {B : Base64} {ED : Ed25519}.

(** [fn check_entry_sigs]. *)
Definition check_entry_sig (message : bytes) (body : json) (leaf : Z) (kl : KeyLog) (s : json) : bool :=
  let kid := unwrap_or (get_str s "keyid") EmptyString in
  let_some pubkey := keys kl !! kid else false;
  let genesis := (leaf =? 0)
    && opt_str_eqb (get_str body "action_type") (Some "evd.key.created"%string)
    && opt_str_eqb (ctx ← get body "context"; jwk ← get ctx "jwk"; get_str jwk "kid") (Some kid) in
  let ts_server := unwrap_or (get_str body "ts_server") EmptyString in
  negb (negb (signature_valid s message pubkey) || negb (genesis || key_active kl kid ts_server leaf)).
Definition check_entry_sigs (env : json) (sigs : list json) (body : json) (leaf : Z) (kl : KeyLog) : bool :=
  let_some message := envelope_message env else false;
  forallb (check_entry_sig message body leaf kl) sigs.

(** [fn check_entry_inclusion]. *)
Definition leaf_hash_of (payload : bytes) : bytes := sha256 ([0] ++ sha256 payload).
Definition check_entry_inclusion (e : json) (payload : bytes) (size : Z) (root : bytes) : bool :=
  let leaf_index := unwrap_or (get_u64 e "leaf_index") U64_MAX in
  let_some proof := proof_hashes (get e "inclusion_proof") else false;
  verify_inclusion (leaf_hash_of payload) leaf_index size proof root.

(** [fn envelope_members_closed]. *)
Definition envelope_members_closed (env : json) : bool :=
  is_some_and (as_object env) (fun members =>
    (zlen members =? 3) && forallb (contains_key members) ["payload"; "payloadType"; "signatures"]%string).

(** The deadline test of [fn check_entry], over the first covering checkpoint. *)
Definition first_cover (covers : list (Z * Z)) (leaf : Z) : option (Z * Z) :=
  covers !! partition_point (fun c => c.1 <=? leaf) covers.
Definition past_deadline (covers : list (Z * Z)) (leaf : Z) (ts_server : string) : bool :=
  is_some_and (first_cover covers leaf) (fun cover =>
    is_none_or (utc_epoch_micros ts_server) (fun admitted => cover.2 <? admitted)).

(** [fn check_entry]. *)
Definition check_entry (e : json) (kl : KeyLog) (size : Z) (root : bytes) (covers : list (Z * Z))
    (expected_tenant : string) : bool :=
  let env := idx e "envelope" in
  reject_if negb (envelope_members_closed env) with false;
  let_some payload := payload_of env else false;
  let_some body := canonical_body payload else false;
  reject_if negb (receipt_body_valid body (Some expected_tenant)) with false;
  let ts_server := unwrap_or (get_str body "ts_server") EmptyString in
  let leaf := unwrap_or (get_u64 e "leaf_index") U64_MAX in
  reject_if past_deadline covers leaf ts_server with false;
  let_some sigs := opt_filter (get_array env "signatures") (fun s => negb (zlen s =? 0)) else false;
  reject_if negb (opt_str_eqb (get_str env "payloadType") (Some RECEIPT_TYPE)) with false;
  reject_if negb (check_entry_sigs env sigs body leaf kl) with false;
  check_entry_inclusion e payload size root.

(** [fn manifest_target_time]. *)
Definition manifest_target_time (body bundle target : json) (kid : string) : option string :=
  reject_if negb (opt_str_eqb (get_str body "schema") (Some "evd/export-manifest/v1"%string)) with None;
  let origin := get_str body "origin" in
  reject_if is_none origin || negb (opt_str_eqb origin (get_str bundle "origin"))
    || negb (opt_str_eqb origin (body_str target "origin")) with None;
  claimed ← get_str body "target_checkpoint_hash";
  actual ← checkpoint_body_hash target;
  if negb (String.eqb claimed actual) then None else
  ts ← get_str body "ts";
  reject_if negb (opt_str_eqb (body_str target "ts") (Some ts)) || negb (opt_str_eqb (get_str target "kid") (Some kid))
  with None;
  Some ts.

(** [fn check_export_manifest]: [None] when no claim is carried. *)
Definition carried_hashes (entries : list json) : gset string :=
  list_to_set (omap (fun e => env ← get e "envelope"; receipt_hash_hex env) entries).
Definition check_export_manifest (bundle : json) (entries : list json) (target : json) (kl : KeyLog) : option bool :=
  raw ← opt_filter (get bundle "export_manifest") (fun v => negb (is_null v));
  Some (
    let_some body := opt_filter (get raw "body") is_object else false;
    let_some kid := get_str raw "kid" else false;
    let_some sig_b64 := get_str raw "sig" else false;
    let_some ts := manifest_target_time body bundle target kid else false;
    let_some pubkey := keys kl !! kid else false;
    let size := unwrap_or (body_u64 target "tree_size") 0 in
    reject_if is_non_issuer kl kid || negb (key_active kl kid ts size) with false;
    let_some canon := canonical_checked body else false;
    let_some sig := b64_decode sig_b64 else false;
    reject_if negb (ed25519_verify pubkey (pae EXPORT_MANIFEST_TYPE canon) sig) with false;
    let_some listed := get_array body "receipt_hashes" else false;
    reject_if MAX_ENTRIES <? zlen listed with false;
    let_some claimed := mapM as_str listed else false;
    bool_decide ((list_to_set claimed : gset string) = carried_hashes entries)).

(** [fn checkpoint_cover_deadlines]. *)
Definition checkpoint_cover_deadlines (chain : list json) : option (list (Z * Z)) :=
  mapM (fun cp =>
    body ← get cp "body"; size ← get_u64 body "tree_size"; ts ← get_str body "ts";
    micros ← utc_epoch_micros ts;
    Some (size, micros + RECEIPT_CHECKPOINT_SKEW_S * 1000000)) chain.

(** [fn check_seq_uniqueness]: the map [pairs] is threaded through the entries. *)
Definition seq_step (pairs : gmap (string * Z) string) (e : json) : option (gmap (string * Z) string) :=
  match (env ← get e "envelope"; body_of env) with
  | None => Some pairs
  | Some body =>
      let aid := unwrap_or (get_str body "agent_id") EmptyString in
      let seq := unwrap_or (get_i64 body "seq") (-1) in
      match (env ← get e "envelope"; receipt_hash_hex env) with
      | None => Some pairs
      | Some rh =>
          match pairs !! (aid, seq) with
          | Some prev => if negb (String.eqb prev rh) then None else Some pairs
          | None => Some (<[(aid, seq) := rh]> pairs)
          end
      end
  end.
Definition check_seq_uniqueness (entries : list json) : bool :=
  is_some (try_fold seq_step (∅ : gmap (string * Z) string) entries).

(** [fn collect_lineage]. *)
Definition lineage_step (by_agent : gmap string (list LineageItem)) (e : json)
    : option (gmap string (list LineageItem)) :=
  match (env ← get e "envelope"; body_of env) with
  | None => Some by_agent
  | Some body =>
      let agent := unwrap_or (get_str body "agent_id") EmptyString in
      if is_empty agent || is_internal_agent agent then Some by_agent else
      let at_ := unwrap_or (get_str body "action_type") EmptyString in
      let seq := unwrap_or (get_i64 body "seq") (-1) in
      rh ← (env ← get e "envelope"; receipt_hash_hex env);
      let ctx := unwrap_or (get body "context") JNull in
      Some (<[agent := unwrap_or (by_agent !! agent) [] ++ [(at_, rh, seq, ctx)]]> by_agent)
  end.
Definition collect_lineage (entries : list json) : option (gmap string (list LineageItem)) :=
  try_fold lineage_step (∅ : gmap string (list LineageItem)) entries.

(** [fn check_lineage_orphan], [fn check_lineage_established], [fn check_agent_lineage]. *)
Definition check_lineage_orphan (items : list LineageItem) (valid : gset string) : bool :=
  forallb (fun i => is_none_or (get_str (li_context i) "revision_id") (fun rv =>
    negb (negb (bool_decide (valid = ∅)) && negb (bool_decide (rv ∈ valid))))) items.
Definition check_lineage_established (items : list LineageItem) (valid : gset string)
    (birth_at birth_hash : string) (birth_seq : Z) : bool :=
  reject_if String.eqb birth_at "lineage.born" && negb (birth_seq =? 1) with false;
  forallb (fun i =>
    is_none_or (get_str (li_context i) "birthtag_id") (fun bt => String.eqb bt birth_hash)
    && is_none_or (get_str (li_context i) "revision_id") (fun rv => bool_decide (rv ∈ valid))) items.
Definition is_establishment (i : LineageItem) : bool :=
  String.eqb (li_action i) "lineage.born" || String.eqb (li_action i) "lineage.adopted".
Definition check_agent_lineage (items : list LineageItem) : bool :=
  let est := List.filter is_establishment items in
  reject_if 1 <? zlen est with false;
  let valid : gset string := list_to_set
    (li_hash <$> List.filter (fun i => String.eqb (li_action i) "lineage.revised" || is_establishment i) items) in
  match est with
  | [] => check_lineage_orphan items valid
  | birth :: _ => check_lineage_established items valid (li_action birth) (li_hash birth) (li_seq birth)
  end.

(** [fn check_lineage]. *)
Definition check_lineage (entries : list json) : bool :=
  let_some by_agent := collect_lineage entries else false;
  forallb (fun ai => check_agent_lineage ai.2) (map_to_list by_agent).

(** [fn record_not_before_checkpoint]. *)
Definition record_not_before_checkpoint (rec : json) (field signed_ts : string) : bool :=
  match (s ← get_str rec field; utc_epoch_micros s), utc_epoch_micros signed_ts with
  | Some claimed, Some signed => signed <=? claimed
  | _, _ => false
  end.

(** [fn bound_record_ok] and [fn check_bound_records]. *)
Definition bound_record_ok (rec : json) (required : list string) (time_field : string) (checkpoints : CheckpointFacts) : bool :=
  let_some obj := as_object rec else false;
  reject_if existsb (fun f => negb (contains_key obj f)) required with false;
  let bh := unwrap_or (get_str rec "checkpoint_body_hash") EmptyString in
  let_some (signed, _) := checkpoints !! bh else false;
  record_not_before_checkpoint rec time_field signed.
Definition check_bound_records (records : json) (required : list string) (time_field : string) (checkpoints : CheckpointFacts)
    : bool :=
  let_some arr := as_array records else false;
  let digests := omap (fun r => get_str r "checkpoint_body_hash") arr in
  reject_if (MAX_ATTESTATION_RECORDS <? zlen arr) || negb (distinct digests =? zlen arr) with false;
  forallb (fun rec => bound_record_ok rec required time_field checkpoints) arr.

(** [fn checkpoint_facts]: [collect] into a map, later entries replacing earlier ones. *)
Definition checkpoint_facts (chain : list json) : option CheckpointFacts :=
  try_fold (fun (m : CheckpointFacts) checkpoint =>
    body ← get checkpoint "body"; h ← checkpoint_body_hash checkpoint;
    ts ← get_str body "ts"; size ← get_u64 body "tree_size";
    Some (<[h := (ts, size)]> m)) (∅ : CheckpointFacts) chain.
End Entries.

(** ** The binary search *)
Section PartitionPoint.
Context {A : Type} (pred : A -> bool).

(** [pred] holds on a prefix: what [partition_point] asks of its caller. *)
Definition partitioned (l : list A) : Prop :=
  forall i j x y, (i <= j)%nat -> l !! i = Some x -> l !! j = Some y -> pred y = true -> pred x = true.

Lemma partition_point_from_spec l : partitioned l -> forall fuel lo size,
  (size <= fuel)%nat -> (lo + size <= length l)%nat ->
  (forall i x, (i < lo)%nat -> l !! i = Some x -> pred x = true) ->
  (forall i x, (lo + size <= i)%nat -> l !! i = Some x -> pred x = false) ->
  forall i x, l !! i = Some x -> pred x = (i <? partition_point_from fuel pred l lo size)%nat.
Proof.
  intros Hp. induction fuel as [|fuel IH]; intros lo size Hf Hl Hlo Hhi i x Hx; cbn [partition_point_from].
  { destruct (Nat.ltb_spec i lo); [eauto|]. apply (Hhi i); auto; lia. }
  destruct (Nat.eqb_spec size 0) as [->|Hs].
  { destruct (Nat.ltb_spec i lo); [eauto|]. apply (Hhi i); auto; lia. }
  assert (size / 2 < size)%nat as Hhalf by (apply Nat.div_lt; lia).
  destruct (lookup_lt_is_Some_2 l (lo + size / 2)) as [y Hy]; [lia|]. rewrite Hy.
  destruct (pred y) eqn:Ey.
  - apply IH; auto; try lia.
    + intros j z Hj Hz. eapply (Hp j (lo + size / 2)%nat); eauto; lia.
    + intros j z Hj Hz. apply (Hhi j); auto; lia.
  - apply IH; auto; try lia.
    intros j z Hj Hz. destruct (pred z) eqn:Ez; [|done]. rewrite (Hp (lo + size / 2)%nat j y z) in Ey; auto; lia.
Qed.

Lemma partition_point_spec l i x :
  partitioned l -> l !! i = Some x -> pred x = (i <? partition_point pred l)%nat.
Proof.
  intros Hp Hx. unfold partition_point. eapply partition_point_from_spec; eauto; try lia.
  intros j z Hj Hz. apply lookup_lt_Some in Hz. lia.
Qed.

Lemma find_lookup (f : A -> bool) l n :
  (forall i x, l !! i = Some x -> f x = negb (i <? n)%nat) -> l !! n = List.find f l.
Proof.
  revert n. induction l as [|x l IH]; intros n Hf; [done|]. cbn. pose proof (Hf O x eq_refl) as H0.
  destruct n as [|n]; [by rewrite H0|]. rewrite H0. cbn. apply IH. intros i y Hy.
  rewrite (Hf (Datatypes.S i) y Hy). done.
Qed.
End PartitionPoint.

(** Checkpoint sizes that never shrink. *)
Definition covers_sorted (covers : list (Z * Z)) : Prop :=
  forall i j a b, (i <= j)%nat -> covers !! i = Some a -> covers !! j = Some b -> a.1 <= b.1.

Lemma first_cover_find covers leaf :
  covers_sorted covers -> first_cover covers leaf = List.find (fun c => leaf <? c.1) covers.
Proof.
  intros Hs. unfold first_cover. apply find_lookup. intros i x Hx.
  rewrite <- (partition_point_spec (fun c => c.1 <=? leaf) covers i x); [by rewrite Z.leb_antisym, negb_involutive| |done].
  intros a b y z Hab Hy Hz. rewrite !Z.leb_le. pose proof (Hs _ _ _ _ Hab Hy Hz). lia.
Qed.

(** Over the checkpoints of a chain the binary search finds what a walk from genesis would:
    the first checkpoint whose tree covers the leaf. *)
Theorem first_cover_is_first (covers : list (Z * Z)) (leaf : Z) :
  covers_sorted covers -> first_cover covers leaf = List.find (fun c => leaf <? c.1) covers.
Proof. apply first_cover_find. Qed.

Section EntryTheorems.
Context {H : Hash} {SD : Serde} {B : Base64} {ED : Ed25519}.

(** The covers of an accepted chain are sorted, so the search above applies to them. *)
Lemma mapM_lookup {A C} (f : A -> option C) l k i y :
  mapM f l = Some k -> k !! i = Some y -> exists x, l !! i = Some x /\ f x = Some y.
Proof.
  intros Hm Hy. apply mapM_Some in Hm.
  destruct (Forall2_lookup_r _ _ _ _ _ Hm Hy) as (x & ? & ?). eauto.
Qed.
Lemma cover_deadline_entry cp c :
  (body ← get cp "body"; size ← get_u64 body "tree_size"; ts ← get_str body "ts";
   micros ← utc_epoch_micros ts; Some (size, micros + RECEIPT_CHECKPOINT_SKEW_S * 1000000)) = Some c ->
  exists ts micros, c.1 = size_of cp /\ body_str cp "ts" = Some ts /\ utc_epoch_micros ts = Some micros /\
    c.2 = micros + 300 * 1000000.
Proof.
  intros E. apply bind_Some in E as (b & Hb & E). apply bind_Some in E as (n & Hn & E).
  apply bind_Some in E as (ts & Hts & E). apply bind_Some in E as (m & Hm & [= <-]).
  exists ts, m. unfold size_of, body_u64, body_str. rewrite Hb. cbn. rewrite Hn. done.
Qed.
Lemma covers_of_chain_sorted chain chain_entries kl sparse covers :
  check_checkpoint_chain chain chain_entries kl sparse = true ->
  checkpoint_cover_deadlines chain = Some covers -> covers_sorted covers.
Proof.
  intros Hc Hcov i j a b Hij Ha Hb.
  destruct (mapM_lookup _ _ _ _ _ Hcov Ha) as (x & Hx & Ex), (mapM_lookup _ _ _ _ _ Hcov Hb) as (y & Hy & Ey).
  apply cover_deadline_entry in Ex as (? & ? & -> & _), Ey as (? & ? & -> & _).
  by eapply (chain_pairs chain chain_entries kl sparse i j).
Qed.

(** With an accepted chain, an admitted entry was stamped by the log no later than five
    minutes after the first checkpoint that covers its leaf. *)
Theorem entry_not_after_first_cover (chain chain_entries : list json) (kl : KeyLog) (sparse : bool)
    (covers : list (Z * Z)) (leaf : Z) (ts_server : string) (i : nat) (cp : json) :
  check_checkpoint_chain chain chain_entries kl sparse = true ->
  checkpoint_cover_deadlines chain = Some covers ->
  past_deadline covers leaf ts_server = false ->
  chain !! i = Some cp -> leaf < size_of cp ->
  (forall j c, (j < i)%nat -> chain !! j = Some c -> size_of c <= leaf) ->
  exists ts admitted signed, body_str cp "ts" = Some ts /\ utc_epoch_micros ts_server = Some admitted /\
    utc_epoch_micros ts = Some signed /\ admitted <= signed + 300 * 1000000.
Proof.
  intros Hc Hcov Hd Hcp Hleaf Hfirst. unfold past_deadline in Hd.
  rewrite first_cover_find in Hd by (by eapply covers_of_chain_sorted).
  apply mapM_Some in Hcov as Hf. destruct (Forall2_lookup_l _ _ _ _ _ Hf Hcp) as (c & Hci & Ec).
  apply cover_deadline_entry in Ec as (ts & m & Hsz & Hts & Hm & Hdl).
  assert (List.find (fun c => leaf <? c.1) covers = Some c) as Efind.
  { rewrite <- (find_lookup (fun c => leaf <? c.1) covers i); [done|]. intros j x Hx.
    destruct (mapM_lookup _ _ _ _ _ Hcov Hx) as (cpj & Hcpj & Ex). apply cover_deadline_entry in Ex as (_ & _ & -> & _).
    destruct (Nat.ltb_spec j i); cbn; [apply Z.ltb_ge; eauto|]. apply Z.ltb_lt.
    destruct (chain_pairs _ _ _ _ i j _ _ Hc ltac:(done) Hcp Hcpj). lia. }
  rewrite Efind in Hd. cbn in Hd. destruct (utc_epoch_micros ts_server) as [adm|]; [|done]. cbn in Hd.
  apply Z.ltb_ge in Hd. exists ts, adm, m. split_and!; try done. lia.
Qed.
End EntryTheorems.

(** ** One entry *)
Section EntrySpec.
Context {H : Hash} {SD : Serde} {B : Base64} {ED : Ed25519}.

(** The genesis exception: the log's first entry vouches for the key it declares. *)
Definition genesis_kid (body : json) (leaf : Z) (kid : string) : Prop :=
  leaf = 0 /\ get_str body "action_type" = Some "evd.key.created"%string /\
  exists ctx jwk, get body "context" = Some ctx /\ get ctx "jwk" = Some jwk /\ get_str jwk "kid" = Some kid.

(** An admitted entry. *)
Record entry_valid (e : json) (kl : KeyLog) (size : Z) (root : bytes) (covers : list (Z * Z)) (tenant : string)
    (payload : bytes) (body : json) (leaf : Z) : Prop := {
  v_payload : payload_of (idx e "envelope") = Some payload;
  v_body : canonical_body payload = Some body;
  v_receipt : receipt_body_valid body (Some tenant) = true;
  v_leaf : leaf = unwrap_or (get_u64 e "leaf_index") U64_MAX;
  v_type : get_str (idx e "envelope") "payloadType" = Some RECEIPT_TYPE;
  v_time : past_deadline covers leaf (unwrap_or (get_str body "ts_server") EmptyString) = false;
  v_signatures : exists sigs, get_array (idx e "envelope") "signatures" = Some sigs /\ sigs <> [] /\
    forall s, s ∈ sigs -> exists key, keys kl !! unwrap_or (get_str s "keyid") EmptyString = Some key /\
      signature s (pae RECEIPT_TYPE payload) key /\
      (genesis_kid body leaf (unwrap_or (get_str s "keyid") EmptyString) \/
       exists at_, utc_epoch_micros (unwrap_or (get_str body "ts_server") EmptyString) = Some at_ /\
         active kl (unwrap_or (get_str s "keyid") EmptyString) at_ leaf);
  v_inclusion : exists proof, proof_hashes (get e "inclusion_proof") = Some proof /\
    verify_inclusion (leaf_hash_of payload) leaf size proof root = true;
  v_closed : envelope_members_closed (idx e "envelope") = true;
}.

Lemma genesis_kid_test body leaf kid :
  (leaf =? 0) && opt_str_eqb (get_str body "action_type") (Some "evd.key.created"%string)
    && opt_str_eqb (ctx ← get body "context"; jwk ← get ctx "jwk"; get_str jwk "kid") (Some kid) = true
  <-> genesis_kid body leaf kid.
Proof.
  unfold genesis_kid. rewrite !andb_true_iff, Z.eqb_eq, !opt_str_eqb_true. split.
  - intros [[-> ?] E]. apply bind_Some in E as (ctx & ? & E). apply bind_Some in E as (jwk & ? & ?). eauto 10.
  - intros (-> & ? & ctx & jwk & Hc & Hj & ?). rewrite Hc. cbn [mbind option_bind]. by rewrite Hj.
Qed.

Lemma check_entry_sig_spec message body leaf kl s :
  check_entry_sig message body leaf kl s = true <->
  exists key, keys kl !! unwrap_or (get_str s "keyid") EmptyString = Some key /\ signature s message key /\
    (genesis_kid body leaf (unwrap_or (get_str s "keyid") EmptyString) \/
     exists at_, utc_epoch_micros (unwrap_or (get_str body "ts_server") EmptyString) = Some at_ /\
       active kl (unwrap_or (get_str s "keyid") EmptyString) at_ leaf).
Proof.
  unfold check_entry_sig. destruct (keys kl !! _) as [key|]; [|naive_solver].
  rewrite negb_true_iff, orb_false_iff, !negb_false_iff, orb_true_iff, genesis_kid_test, key_active_iff, signature_valid_spec.
  naive_solver.
Qed.

Lemma message_of_type env t p :
  get_str env "payloadType" = Some t -> payload_of env = Some p -> envelope_message env = Some (pae t p).
Proof.
  intros Ht Hp. unfold envelope_message. apply get_str_Some in Ht. rewrite Ht. cbn. by rewrite Hp.
Qed.

Lemma check_entry_valid (e : json) (kl : KeyLog) (size : Z) (root : bytes) (covers : list (Z * Z)) (tenant : string) :
  check_entry e kl size root covers tenant = true <->
  exists payload body leaf, entry_valid e kl size root covers tenant payload body leaf.
Proof.
  unfold check_entry. split.
  - intros E. case_step E. apply negb_false_iff in E0. case_step E. case_step E. case_step E. apply negb_false_iff in E3.
    case_step E. case_step E. apply opt_filter_Some in E5 as [Hsigs Hne]. case_step E. apply negb_false_iff, opt_str_eqb_true in E5.
    case_step E. apply negb_false_iff in E6. unfold check_entry_sigs in E6.
    rewrite (message_of_type _ _ _ E5 E1) in E6. rewrite forallb_elem in E6. setoid_rewrite check_entry_sig_spec in E6.
    unfold check_entry_inclusion in E. case_step E. do 3 eexists. constructor; try done; [|by eexists].
    eexists. split; [done|]. split; [|done]. by intros ->.
  - intros (payload & body & leaf & [Hp Hb Hr -> Ht Hd (sigs & Hs & Hne & Hv) (proof & Hpr & Hi) Hc]).
    rewrite Hc, Hp, Hb, Hr, Hd, Hs. cbn [negb].
    rewrite (proj2 (opt_filter_Some (Some sigs) _ sigs)) by (split; [done|destruct sigs; done]).
    rewrite (proj2 (opt_str_eqb_true _ _) Ht). cbn [negb]. unfold check_entry_sigs. rewrite (message_of_type _ _ _ Ht Hp).
    assert (forallb (check_entry_sig (pae RECEIPT_TYPE payload) body (unwrap_or (get_u64 e "leaf_index") U64_MAX) kl) sigs = true) as ->.
    { apply forallb_elem. intros s Hin. by apply check_entry_sig_spec, Hv. }
    cbn [negb]. unfold check_entry_inclusion. by rewrite Hpr.
Qed.
(** [check_entry] admits exactly the valid entries: a closed receipt envelope around a
    canonical receipt body of the log's tenant, every signature record valid and by a key active at the
    entry's own time and leaf (or the genesis key), not stamped past its deadline, and included. *)
Theorem check_entry_spec (e : json) (kl : KeyLog) (size : Z) (root : bytes) (covers : list (Z * Z)) (tenant : string) :
  check_entry e kl size root covers tenant = true <->
  exists payload body leaf, entry_valid e kl size root covers tenant payload body leaf.
Proof. apply check_entry_valid. Qed.

Lemma check_entry_inclusion_of e kl size root covers tenant :
  check_entry e kl size root covers tenant = true -> exists payload proof,
    payload_of (idx e "envelope") = Some payload /\ proof_hashes (get e "inclusion_proof") = Some proof /\
    verify_inclusion (leaf_hash_of payload) (unwrap_or (get_u64 e "leaf_index") U64_MAX) size proof root = true.
Proof.
  intros E. unfold check_entry in E. destruct (negb (envelope_members_closed _)); [done|].
  destruct (payload_of _) as [payload|]; [|done]. repeat (case_step E).
  unfold check_entry_inclusion in E. case_step E. eauto.
Qed.

Lemma check_entry_signatures e kl size root covers tenant :
  check_entry e kl size root covers tenant = true -> exists payload sigs,
    payload_of (idx e "envelope") = Some payload /\ get_array (idx e "envelope") "signatures" = Some sigs /\
    forall s, s ∈ sigs -> exists key, keys kl !! unwrap_or (get_str s "keyid") EmptyString = Some key /\
      signature s (pae RECEIPT_TYPE payload) key.
Proof.
  intros E. apply check_entry_valid in E as (payload & body & leaf & Hv). destruct Hv as [Hp _ _ _ _ _ (sigs & Hs & _ & Hk) _ _].
  exists payload, sigs. split_and!; try done. intros s Hin. destruct (Hk s Hin) as (key & ? & ? & _). eauto.
Qed.

Lemma entry_in_log {L : HashLaws} (e : json) (kl : KeyLog) (l : list bytes) (covers : list (Z * Z))
    (tenant : string) :
  json_wf e = true -> zlen l <= U64_MAX -> Forall is_hash l ->
  check_entry e kl (zlen l) (mth l) covers tenant = true ->
  exists payload leaf proof, payload_of (idx e "envelope") = Some payload /\ 0 <= leaf < zlen l /\
    (l !! Z.to_nat leaf = Some (leaf_hash_of payload) \/
     Collision (mth_inputs l) (inclusion_inputs leaf (zlen l - 1) (leaf_hash_of payload) proof)).
Proof.
  intros Hwf Hmax Hh E. apply check_entry_inclusion_of in E as (payload & proof & Hp & Hpr & E).
  set (leaf := unwrap_or (get_u64 e "leaf_index") U64_MAX) in *.
  assert (0 <= leaf) as Hleaf.
  { unfold leaf, get_u64, U64_MAX. destruct (get e "leaf_index") as [x|] eqn:Hx; [|cbn; lia].
    cbn [mbind option_bind]. destruct (as_u64 x) as [n|] eqn:Hn; [|cbn; lia].
    assert (json_wf x = true) as Hxw by (by eapply get_wf). destruct x as [| |[]| | |]; try done.
    injection Hn as ->. cbn in Hxw |- *. lia. }
  exists payload, leaf, proof. split; [done|]. split.
  - split; [done|]. unfold verify_inclusion in E. destruct (Z.leb_spec (zlen l) leaf); [done|lia].
  - apply inclusion_binds in E; try done; [tauto|]. by eapply proof_hashes_are_hashes.
Qed.
(** An admitted entry is in the log: if the root commits to the leaves [l], the entry's own
    receipt hash is the leaf at its index, or its proof exhibits a SHA-256 collision. *)
Theorem admitted_entry_in_log {L : HashLaws} (e : json) (kl : KeyLog) (l : list bytes) (covers : list (Z * Z))
    (tenant : string) :
  json_wf e = true -> zlen l <= U64_MAX -> Forall is_hash l ->
  check_entry e kl (zlen l) (mth l) covers tenant = true ->
  exists payload leaf proof, payload_of (idx e "envelope") = Some payload /\ 0 <= leaf < zlen l /\
    (l !! Z.to_nat leaf = Some (leaf_hash_of payload) \/
     Collision (mth_inputs l) (inclusion_inputs leaf (zlen l - 1) (leaf_hash_of payload) proof)).
Proof. apply entry_in_log. Qed.
End EntrySpec.

(** ** The set of entries *)
Section EntrySet.
Context {H : Hash} {SD : Serde} {B : Base64} {ED : Ed25519}.

(** Everything a manifest must satisfy besides naming the carried receipts. *)
Record manifest_signed (bundle target : json) (kl : KeyLog) (listed : list string) : Prop := {
  m_manifest : exists raw body kid sig_b64 sig key canon, get bundle "export_manifest" = Some raw /\
    get raw "body" = Some body /\ get_str raw "kid" = Some kid /\ get_str raw "sig" = Some sig_b64 /\
    get_str target "kid" = Some kid /\ issuer_key kl kid /\ keys kl !! kid = Some key /\
    (exists ts at_, get_str body "ts" = Some ts /\ body_str target "ts" = Some ts /\ utc_epoch_micros ts = Some at_ /\
      active kl kid at_ (size_of target)) /\
    get_str body "target_checkpoint_hash" = checkpoint_body_hash target /\ is_Some (checkpoint_body_hash target) /\
    canonical_checked body = Some canon /\ b64_decode sig_b64 = Some sig /\
    ed25519_signed key (pae EXPORT_MANIFEST_TYPE canon) sig /\
    get body "receipt_hashes" = Some (JArray (JString <$> listed)) /\ zlen listed <= MAX_ENTRIES;
}.

Lemma get_array_Some v k l : get_array v k = Some l <-> get v k = Some (JArray l).
Proof. unfold get_array. destruct (get v k) as [[]|]; cbn; split; congruence. Qed.

Lemma manifest_target_time_spec body bundle target kid ts :
  manifest_target_time body bundle target kid = Some ts ->
  get_str body "target_checkpoint_hash" = checkpoint_body_hash target /\ is_Some (checkpoint_body_hash target) /\
  get_str body "ts" = Some ts /\ body_str target "ts" = Some ts /\ get_str target "kid" = Some kid.
Proof.
  unfold manifest_target_time. intros E. case_step E. case_step E.
  apply bind_Some in E as (claimed & Hc & E). apply bind_Some in E as (actual & Ha & E).
  case_step E. apply negb_false_iff, String.eqb_eq in E2 as ->.
  apply bind_Some in E as (ts' & Hts & E). case_step E. injection E as ->.
  rewrite orb_false_iff, !negb_false_iff, !opt_str_eqb_true in E2. destruct E2.
  rewrite Hc, Ha. split_and!; eauto.
Qed.

(** C17: a manifest that holds is signed by the target checkpoint's own issuer, active at the
    signed time, over that very checkpoint, and lists exactly the receipts carried: no entry can
    be removed or injected without turning the answer to [Some false]. *)
Theorem export_manifest_exact (bundle target : json) (entries : list json) (kl : KeyLog) :
  check_export_manifest bundle entries target kl = Some true ->
  exists listed, manifest_signed bundle target kl listed /\ list_to_set listed = carried_hashes entries /\
    forall entries', carried_hashes entries' <> carried_hashes entries ->
      check_export_manifest bundle entries' target kl = Some false.
Proof.
  intros E. assert (forall es, check_export_manifest bundle es target kl <> Some true ->
    check_export_manifest bundle es target kl = Some false) as Hfalse.
  { intros es. unfold check_export_manifest in *. destruct (opt_filter (get bundle "export_manifest") _); [|done].
    cbn. match goal with |- Some ?b <> _ -> _ => destruct b; congruence end. }
  assert (forall es, check_export_manifest bundle es target kl = Some true -> exists listed,
    get (idx (idx bundle "export_manifest") "body") "receipt_hashes" = Some (JArray (JString <$> listed)) /\
    manifest_signed bundle target kl listed /\ list_to_set listed = carried_hashes es) as Hsound.
  { clear. intros es E. unfold check_export_manifest in E. apply bind_Some in E as (raw & Hraw & [= E]).
    apply opt_filter_Some in Hraw as [Hraw _].
    case_step E. apply opt_filter_Some in E0 as [Hbody Hobj]. case_step E. case_step E. case_step E. case_step E.
    apply manifest_target_time_spec in E2 as (Hh & Hh' & Hts & Hts' & Hk).
    case_step E. apply orb_false_iff in E2 as [Hni Ha]. apply issuer_key_iff in Hni.
    apply negb_false_iff, key_active_iff in Ha as (at_ & Hat & Hact).
    case_step E. case_step E. case_step E. apply negb_false_iff, ed25519_verify_true in E5.
    case_step E. case_step E. case_step E. apply mapM_as_str in E8 as ->. apply get_array_Some in E6.
    apply bool_decide_eq_true in E. apply Z.ltb_ge in E7.
    assert (forall (l : list string), zlen (JString <$> l) = zlen l) as Hlen by (intros; unfold zlen; by rewrite length_fmap).
    rewrite Hlen in E7. eexists. split; [|split; [|exact E]].
    - unfold idx. rewrite Hraw. cbn. rewrite Hbody. exact E6.
    - constructor. eexists raw, j, s, s0, _, _, _. split_and!; eauto 10. }
  destruct (Hsound _ E) as (listed & Hl & Hm & Hset). exists listed. split; [done|]. split; [done|].
  intros es Hne. apply Hfalse. intros E'. destruct (Hsound _ E') as (listed' & Hl' & _ & Hset').
  rewrite Hl in Hl'. injection Hl' as Hl'.
  apply (f_equal (mapM as_str)) in Hl'. rewrite !(proj2 (mapM_as_str _ _) eq_refl) in Hl'. congruence.
Qed.

(** The sequence numbers of a bundle: what each entry claims. *)
Definition claims (e : json) (agent : string) (seq : Z) (hash : string) : Prop :=
  exists env body, get e "envelope" = Some env /\ body_of env = Some body /\
    agent = unwrap_or (get_str body "agent_id") EmptyString /\ seq = unwrap_or (get_i64 body "seq") (-1) /\
    receipt_hash_hex env = Some hash.

Lemma seq_step_cases pairs e :
  (exists a n h, claims e a n h /\
     seq_step pairs e = match pairs !! (a, n) with
       | Some prev => if negb (String.eqb prev h) then None else Some pairs
       | None => Some (<[(a, n) := h]> pairs) end) \/
  ((forall a n h, ~ claims e a n h) /\ seq_step pairs e = Some pairs).
Proof.
  unfold seq_step, claims. destruct (get e "envelope") as [env|] eqn:He; cbn [mbind option_bind].
  2:{ right. split; [|done]. intros a n h (? & ? & ? & _). congruence. }
  destruct (body_of env) as [body|] eqn:Hb.
  2:{ right. split; [|done]. intros a n h (? & ? & ? & ? & _). congruence. }
  destruct (receipt_hash_hex env) as [h|] eqn:Hh.
  - left. eexists _, _, h. split; [eauto 10|done].
  - right. split; [|done]. intros a n h (? & ? & ? & ? & _ & _ & ?). congruence.
Qed.
Lemma claims_fun e a n h a' n' h' : claims e a n h -> claims e a' n' h' -> a = a' /\ n = n' /\ h = h'.
Proof. intros (? & ? & ? & ? & -> & -> & ?) (? & ? & ? & ? & -> & -> & ?). simplify_eq. done. Qed.

Lemma seq_fold_spec l : forall pairs,
  is_some (try_fold seq_step pairs l) = true <->
  (forall e a n h, e ∈ l -> claims e a n h -> forall h', pairs !! (a, n) = Some h' -> h' = h) /\
  (forall e e' a n h h', e ∈ l -> e' ∈ l -> claims e a n h -> claims e' a n h' -> h = h').
Proof.
  induction l as [|e l IH]; intros pairs; cbn [try_fold].
  { split; [|done]. intros _. split; [intros ? ? ? ? Hin|intros ? ? ? ? ? ? Hin]; by apply elem_of_nil in Hin. }
  setoid_rewrite elem_of_cons. destruct (seq_step_cases pairs e) as [(a & n & h & Hc & ->)|[Hno ->]].
  - destruct (pairs !! (a, n)) as [prev|] eqn:Hp.
    + destruct (String.eqb_spec prev h) as [->|Hne]; cbn [negb mbind option_bind].
      * rewrite IH. split; intros [H1 H2]; split; [| |eauto|eauto].
        -- intros x a' n' h0 [->|Hx] Hcx h' Hh'; [|eauto].
           destruct (claims_fun _ _ _ _ _ _ _ Hc Hcx) as (-> & -> & ->). congruence.
        -- intros x y a' n' h0 h' [->|Hx] [->|Hy] Hcx Hcy.
           ++ by destruct (claims_fun _ _ _ _ _ _ _ Hcx Hcy) as (_ & _ & ->).
           ++ destruct (claims_fun _ _ _ _ _ _ _ Hc Hcx) as (-> & -> & ->). eauto.
           ++ destruct (claims_fun _ _ _ _ _ _ _ Hc Hcy) as (-> & -> & ->). symmetry. eauto.
           ++ eauto.
      * split; [done|]. intros [H1 _]. exfalso. apply Hne. eapply H1; eauto.
    + cbn [mbind option_bind]. rewrite IH. split; intros [H1 H2]; split.
      * intros x a' n' h0 [->|Hx] Hcx h' Hh'.
        -- destruct (claims_fun _ _ _ _ _ _ _ Hc Hcx) as (-> & -> & ->). congruence.
        -- eapply H1; eauto. rewrite lookup_insert_ne; [done|]. intros [= <- <-]. congruence.
      * intros x y a' n' h0 h' [->|Hx] [->|Hy] Hcx Hcy.
        -- by destruct (claims_fun _ _ _ _ _ _ _ Hcx Hcy) as (_ & _ & ->).
        -- destruct (claims_fun _ _ _ _ _ _ _ Hc Hcx) as (-> & -> & ->). eapply H1; eauto. apply lookup_insert_eq.
        -- destruct (claims_fun _ _ _ _ _ _ _ Hc Hcy) as (-> & -> & ->). symmetry. eapply H1; eauto. apply lookup_insert_eq.
        -- eauto.
      * intros x a' n' h0 Hx Hcx h' Hh'. apply lookup_insert_Some in Hh' as [[[= <- <-] <-]|[_ Hh']]; eauto.
      * eauto.
  - cbn [mbind option_bind]. rewrite IH. split; intros [H1 H2]; split; [| |eauto|eauto].
    + intros x a' n' h0 [->|Hx] Hcx; [by apply Hno in Hcx|eauto].
    + intros x y a' n' h0 h' [->|Hx] [->|Hy] Hcx Hcy; try (by apply Hno in Hcx); try (by apply Hno in Hcy); eauto.
Qed.

(** The sequence check rejects a bundle exactly when two different receipts claim one
    (agent, sequence number); repeating a receipt is harmless. *)
Theorem seq_uniqueness_spec (entries : list json) :
  check_seq_uniqueness entries = true <->
  forall e e' agent seq h h', e ∈ entries -> e' ∈ entries ->
    claims e agent seq h -> claims e' agent seq h' -> h = h'.
Proof.
  unfold check_seq_uniqueness. rewrite seq_fold_spec. split; [by intros [_ ?]|]. intros Hu. split; [|done].
  intros e a n h _ _ h' Hh'. by rewrite lookup_empty in Hh'.
Qed.
End EntrySet.

(** ** Lineage *)
Section Lineage.
Context {H : Hash} {SD : Serde} {B : Base64} {ED : Ed25519}.

(** What an entry contributes, without the map: the acting agent and its item. *)
Definition lineage_item (e : json) : option (string * LineageItem) :=
  env ← get e "envelope"; body ← body_of env; hash ← receipt_hash_hex env;
  let agent := unwrap_or (get_str body "agent_id") EmptyString in
  if is_empty agent || is_internal_agent agent then None
  else Some (agent, (unwrap_or (get_str body "action_type") EmptyString, hash,
    unwrap_or (get_i64 body "seq") (-1), unwrap_or (get body "context") JNull)).
Definition items_of (agent : string) (entries : list json) : list LineageItem :=
  omap (fun e => ai ← lineage_item e; if String.eqb ai.1 agent then Some ai.2 else None) entries.

Lemma body_of_hash env body : body_of env = Some body -> exists h, receipt_hash_hex env = Some h.
Proof.
  unfold body_of, receipt_hash_hex. intros E. apply bind_Some in E as (p & Hp & _). rewrite Hp. by eexists.
Qed.
Lemma lineage_step_item m e :
  lineage_step m e = Some (match lineage_item e with
    | Some (agent, i) => <[agent := unwrap_or (m !! agent) [] ++ [i]]> m
    | None => m end).
Proof.
  unfold lineage_step, lineage_item. destruct (get e "envelope") as [env|]; [|done]. cbn [mbind option_bind].
  destruct (body_of env) as [body|] eqn:Hb; [|done]. destruct (body_of_hash _ _ Hb) as [h Hh].
  cbn [mbind option_bind]. rewrite Hh. cbn [mbind option_bind]. by destruct (_ || _).
Qed.
Lemma lineage_fold l : forall m, exists m', try_fold lineage_step m l = Some m' /\
  forall agent, unwrap_or (m' !! agent) [] = unwrap_or (m !! agent) [] ++ items_of agent l.
Proof.
  induction l as [|e l IH]; intros m; cbn [try_fold].
  - exists m. split; [done|]. intros agent. by rewrite app_nil_r.
  - rewrite lineage_step_item. cbn [mbind option_bind].
    destruct (IH (match lineage_item e with Some (agent, i) => <[agent := unwrap_or (m !! agent) [] ++ [i]]> m | None => m end))
      as (m' & Hm' & Hl). exists m'. split; [done|]. intros agent. rewrite Hl. unfold items_of. cbn [omap list_omap].
    destruct (lineage_item e) as [[a i]|]; cbn [mbind option_bind fst snd]; [|done].
    destruct (String.eqb_spec a agent) as [->|Hne].
    + rewrite lookup_insert_eq. cbn [unwrap_or]. by rewrite <- app_assoc.
    + by rewrite lookup_insert_ne.
Qed.

(** The rules for one agent's history. *)
Definition revision_targets (items : list LineageItem) : gset string :=
  list_to_set (li_hash <$> List.filter (fun i => String.eqb (li_action i) "lineage.revised" || is_establishment i) items).
Inductive lineage_ok (items : list LineageItem) : Prop :=
| lineage_orphan :
    (forall i, i ∈ items -> is_establishment i = false) ->
    (forall i rv, i ∈ items -> get_str (li_context i) "revision_id" = Some rv ->
      revision_targets items = ∅ \/ rv ∈ revision_targets items) -> lineage_ok items
| lineage_established birth :
    List.filter is_establishment items = [birth] ->
    (li_action birth = "lineage.born"%string -> li_seq birth = 1) ->
    (forall i bt, i ∈ items -> get_str (li_context i) "birthtag_id" = Some bt -> bt = li_hash birth) ->
    (forall i rv, i ∈ items -> get_str (li_context i) "revision_id" = Some rv -> rv ∈ revision_targets items) ->
    lineage_ok items.

Lemma filter_none {A} (f : A -> bool) l : List.filter f l = [] <-> forall x, x ∈ l -> f x = false.
Proof.
  split.
  - intros E x Hx. destruct (f x) eqn:Ef; [|done]. apply list_elem_of_In in Hx.
    assert (In x (List.filter f l)) as Hin by (by apply filter_In). by rewrite E in Hin.
  - intros Hf. destruct (List.filter f l) as [|x k] eqn:E; [done|].
    assert (In x (List.filter f l)) as Hin by (rewrite E; by left). apply filter_In in Hin as [Hin Hx].
    rewrite Hf in Hx; [done|]. by apply list_elem_of_In.
Qed.

Lemma check_agent_lineage_spec items : check_agent_lineage items = true <-> lineage_ok items.
Proof.
  unfold check_agent_lineage. fold (revision_targets items). split.
  - intros E. case_step E. apply Z.ltb_ge in E0.
    destruct (List.filter is_establishment items) as [|birth [|b2 est]] eqn:Eest; [| |unfold zlen in E0; cbn in E0; lia].
    + apply lineage_orphan; [by apply filter_none|]. unfold check_lineage_orphan in E. rewrite forallb_elem in E.
      intros i rv Hi Hr. specialize (E i Hi). rewrite is_none_or_true in E. specialize (E rv Hr).
      rewrite negb_true_iff, andb_false_iff, !negb_false_iff, !bool_decide_eq_true in E. done.
    + eapply lineage_established; [done|..]; unfold check_lineage_established in E.
      * intros Hb. rewrite Hb in E. cbn [String.eqb Ascii.eqb Bool.eqb andb] in E.
        destruct (Z.eqb_spec (li_seq birth) 1); [done|done].
      * case_step E. rewrite forallb_elem in E. intros i bt Hi Hb. specialize (E i Hi).
        apply andb_true_iff in E as [E _]. rewrite is_none_or_true in E. by apply String.eqb_eq, E.
      * case_step E. rewrite forallb_elem in E. intros i rv Hi Hb. specialize (E i Hi).
        apply andb_true_iff in E as [_ E]. rewrite is_none_or_true in E. specialize (E rv Hb). by apply bool_decide_eq_true in E.
  - intros [Hno Hrev|birth Hest Hborn Hbt Hrev].
    + rewrite (proj2 (filter_none _ _) Hno). cbn. unfold check_lineage_orphan. apply forallb_elem. intros i Hi.
      apply is_none_or_true. intros rv Hr.
      rewrite negb_true_iff, andb_false_iff, !negb_false_iff, !bool_decide_eq_true. eauto.
    + rewrite Hest. unfold zlen. cbn [length Z.of_nat Z.ltb Z.compare Pos.of_succ_nat Pos.compare Pos.compare_cont].
      unfold check_lineage_established. destruct (String.eqb_spec (li_action birth) "lineage.born") as [Hb|Hb].
      * rewrite (Hborn Hb). cbn [Z.eqb Pos.eqb negb andb]. apply forallb_elem. intros i Hi. apply andb_true_iff.
        rewrite !is_none_or_true. split; [intros bt Hx; apply String.eqb_eq; eauto|intros rv Hx; apply bool_decide_eq_true; eauto].
      * cbn [andb]. apply forallb_elem. intros i Hi. apply andb_true_iff.
        rewrite !is_none_or_true. split; [intros bt Hx; apply String.eqb_eq; eauto|intros rv Hx; apply bool_decide_eq_true; eauto].
Qed.

(** The lineage check holds exactly when, for every acting agent on its own, the history is
    not forged: one establishment at most, a birth at sequence 1, every birth tag naming it and every
    revision naming a receipt that is carried; the collection never fails. *)
Theorem check_lineage_spec (entries : list json) :
  check_lineage entries = true <-> forall agent, lineage_ok (items_of agent entries).
Proof.
  unfold check_lineage, collect_lineage. destruct (lineage_fold entries ∅) as (m & -> & Hm).
  assert (forall agent, unwrap_or (m !! agent) [] = items_of agent entries) as Hitems.
  { intros agent. rewrite Hm, lookup_empty. done. }
  rewrite forallb_elem. split.
  - intros Hf agent. apply check_agent_lineage_spec. rewrite <- Hitems.
    destruct (m !! agent) as [items|] eqn:E; [|done]. apply elem_of_map_to_list in E. by apply (Hf (agent, items)).
  - intros Hf [agent items] Hin. apply elem_of_map_to_list in Hin. cbn [snd]. apply check_agent_lineage_spec.
    rewrite <- (f_equal (fun o => unwrap_or o []) Hin : unwrap_or (m !! agent) [] = items), Hitems. apply Hf.
Qed.
End Lineage.

(** ** Records bound to checkpoints *)
Section Bound.
Context {H : Hash} {SD : Serde} {B : Base64} {ED : Ed25519}.

Lemma checkpoint_facts_lookup chain : forall m m',
  try_fold (fun (m : CheckpointFacts) checkpoint =>
    body ← get checkpoint "body"; h ← checkpoint_body_hash checkpoint;
    ts ← get_str body "ts"; size ← get_u64 body "tree_size"; Some (<[h := (ts, size)]> m)) m chain = Some m' ->
  forall h ts n, m' !! h = Some (ts, n) -> m !! h = Some (ts, n) \/
    exists cp, cp ∈ chain /\ checkpoint_body_hash cp = Some h /\ body_str cp "ts" = Some ts /\ body_u64 cp "tree_size" = Some n.
Proof.
  induction chain as [|cp chain IH]; intros m m' E h ts n Hh; cbn [try_fold] in E; [injection E as <-; by left|].
  apply bind_Some in E as (m1 & Em & E). destruct (IH _ _ E _ _ _ Hh) as [Hl|(c & ? & ?)]; [|right; exists c; set_solver].
  apply bind_Some in Em as (b & Hb & Em). apply bind_Some in Em as (h' & Hh' & Em).
  apply bind_Some in Em as (ts' & Hts & Em). apply bind_Some in Em as (n' & Hn & [= <-]).
  apply lookup_insert_Some in Hl as [[<- [= <- <-]]|[_ ?]]; [right|by left].
  exists cp. unfold body_str, body_u64. rewrite Hb. cbn. split; [set_solver|done].
Qed.

Lemma length_digests (arr : list json) :
  (length (omap (fun r => get_str r "checkpoint_body_hash") arr) <= length arr)%nat.
Proof. induction arr as [|x l IH]; cbn; [lia|]. destruct (get_str x _); cbn; lia. Qed.
Lemma digests_total (arr : list json) :
  length (omap (fun r => get_str r "checkpoint_body_hash") arr) = length arr ->
  (fun r => unwrap_or (get_str r "checkpoint_body_hash") EmptyString) <$> arr = omap (fun r => get_str r "checkpoint_body_hash") arr.
Proof.
  induction arr as [|x l IH]; [done|]. cbn. pose proof (length_digests l).
  destruct (get_str x _); cbn; intros; [f_equal; apply IH; lia|lia].
Qed.

(** An admitted list of timestamp or anchor records holds at most 256, one per checkpoint,
    and each is bound to a checkpoint of the presented chain and claims a canonical time that is
    not before that checkpoint's own signed time. *)
Theorem bound_records_spec (records : json) (required : list string) (time_field : string) (chain : list json)
    (checkpoints : CheckpointFacts) :
  checkpoint_facts chain = Some checkpoints ->
  check_bound_records records required time_field checkpoints = true ->
  exists arr, records = JArray arr /\ zlen arr <= 256 /\
    NoDup ((fun r => unwrap_or (get_str r "checkpoint_body_hash") EmptyString) <$> arr) /\
    forall r, r ∈ arr -> exists cp h ts claimed c t, cp ∈ chain /\
      unwrap_or (get_str r "checkpoint_body_hash") EmptyString = h /\ checkpoint_body_hash cp = Some h /\
      body_str cp "ts" = Some ts /\ get_str r time_field = Some claimed /\
      utc_epoch_micros claimed = Some c /\ utc_epoch_micros ts = Some t /\ t <= c /\
      forall f, f ∈ required -> exists v, get r f = Some v.
Proof.
  unfold check_bound_records. intros Hfacts E. case_step E. destruct records as [| | | |arr|]; try done. injection E0 as <-. case_step E.
  rewrite orb_false_iff, Z.ltb_ge, negb_false_iff in E0. destruct E0 as [Hmax Hd]. exists arr. split; [done|]. split; [done|].
  apply Z.eqb_eq in Hd. split.
  - pose proof (length_digests arr). pose proof (size_list_to_set_le (omap (fun r => get_str r "checkpoint_body_hash") arr)).
    unfold distinct, zlen in Hd. rewrite digests_total by lia. apply distinct_NoDup, Z.eqb_eq. unfold distinct, zlen. lia.
  - rewrite forallb_elem in E. intros r Hr. specialize (E r Hr). unfold bound_record_ok in E. case_step E. case_step E.
    case_step E. destruct p as [signed n]. rewrite existsb_false in E1. unfold record_not_before_checkpoint in E. case_step E. case_step E.
    apply bind_Some in E3 as (claimed & Hc & Hcl). apply Z.leb_le in E.
    destruct (checkpoint_facts_lookup chain ∅ checkpoints Hfacts _ _ _ E2) as [Hx|(cp & Hcp & Hh & Hts & _)]; [unfold CheckpointFacts in Hx; by rewrite lookup_empty in Hx|].
    eexists cp, _, signed, claimed, _, _. split_and!; eauto. intros f Hf. apply E1, negb_false_iff, contains_key_true in Hf as [v Hv].
    exists v. unfold get. rewrite E0. done.
Qed.
End Bound.
