(* ===== verification/Bundle.v ===== *)
(** * Bundle: the bundle verdict (lib.rs)

    [verify_bundle_facts] composes the checks: caps, cosignature policy, key-log
    replay, JWKS agreement, the entries, the checkpoints, lineage, bound records and
    continuity.  [&mut BundleFacts] is passed as state: every function returns its
    [bool] with the facts as it leaves them.  RFC 3161 token verification (tsa.rs)
    is an interface here. *)
From S2P Require Import Prelude Hash Text Json Jcs Utc Dsse KeyLog Merkle Checkpoint Trust Entries.

(** What the bundle checks ask of [tsa::verified_tst]: the token's own time, as displayed, and
    whether its signer chains to a named root; [None] is "not verified". *)
Class Tsa := verified_tst : bytes -> string -> string -> option string -> option (string * bool).

Definition MAX_BUNDLE_BYTES : Z := 64 * 1024 * 1024.
Definition MAX_INCLUSION_PROOF_LEN : Z := 64.
Definition MAX_CHECKPOINT_CHAIN_LEN : Z := 100000.
Definition MAX_SIGNATURES_PER_ENVELOPE : Z := 9.
Definition SPARSE_CHECKPOINT_CHAIN_PROFILE : string := "evd/checkpoint-chain/sparse-proof-v1".

(** ** State *)

Record BundleFacts := {
  f_ok : bool;
  complete : option bool;
  recorder_attested : list Z;
  trusted_tst_checkpoints : list string;
  chain_sizes : gmap string Z;
  f_continuity_gaps : Z;
  continuity_present : bool;
  continuity_ok : bool;
  f_origin_attested : option bool;
}.
(** [BundleFacts::default()]. *)
Definition BundleFacts_default : BundleFacts :=
  {| f_ok := false; complete := None; recorder_attested := []; trusted_tst_checkpoints := [];
     chain_sizes := ∅; f_continuity_gaps := 0; continuity_present := false; continuity_ok := false;
     f_origin_attested := None |}.

Definition set_complete (c : option bool) (f : BundleFacts) : BundleFacts :=
  {| f_ok := f_ok f; complete := c; recorder_attested := recorder_attested f;
     trusted_tst_checkpoints := trusted_tst_checkpoints f; chain_sizes := chain_sizes f;
     f_continuity_gaps := f_continuity_gaps f; continuity_present := continuity_present f;
     continuity_ok := continuity_ok f; f_origin_attested := f_origin_attested f |}.
Definition push_recorder (leaf : Z) (f : BundleFacts) : BundleFacts :=
  {| f_ok := f_ok f; complete := complete f; recorder_attested := recorder_attested f ++ [leaf];
     trusted_tst_checkpoints := trusted_tst_checkpoints f; chain_sizes := chain_sizes f;
     f_continuity_gaps := f_continuity_gaps f; continuity_present := continuity_present f;
     continuity_ok := continuity_ok f; f_origin_attested := f_origin_attested f |}.
Definition push_tst (hash : string) (f : BundleFacts) : BundleFacts :=
  {| f_ok := f_ok f; complete := complete f; recorder_attested := recorder_attested f;
     trusted_tst_checkpoints := trusted_tst_checkpoints f ++ [hash]; chain_sizes := chain_sizes f;
     f_continuity_gaps := f_continuity_gaps f; continuity_present := continuity_present f;
     continuity_ok := continuity_ok f; f_origin_attested := f_origin_attested f |}.
Definition set_chain (sizes : gmap string Z) (c : bool * bool * Z) (f : BundleFacts) : BundleFacts :=
  {| f_ok := f_ok f; complete := complete f; recorder_attested := recorder_attested f;
     trusted_tst_checkpoints := trusted_tst_checkpoints f; chain_sizes := sizes;
     f_continuity_gaps := c.2; continuity_present := c.1.1;
     continuity_ok := c.1.2; f_origin_attested := f_origin_attested f |}.
(** The last lines of [fn verify_bundle_facts]. *)
Definition settle_ok (origin : option bool) (f : BundleFacts) : BundleFacts :=
  {| f_ok := true; complete := complete f; recorder_attested := recorder_attested f;
     trusted_tst_checkpoints := trusted_tst_checkpoints f; chain_sizes := chain_sizes f;
     f_continuity_gaps := f_continuity_gaps f; continuity_present := continuity_present f;
     continuity_ok := continuity_ok f; f_origin_attested := origin |}.
Definition settle_failed (f : BundleFacts) : BundleFacts :=
  {| f_ok := false; complete := complete f; recorder_attested := [];
     trusted_tst_checkpoints := []; chain_sizes := ∅;
     f_continuity_gaps := f_continuity_gaps f; continuity_present := continuity_present f;
     continuity_ok := continuity_ok f; f_origin_attested := f_origin_attested f |}.

Section Bundle.
Context {H : Hash} {SD : Serde} {B : Base64} {ED : Ed25519} {T : Tsa}.

(** [fn entry_within_caps]. *)
Definition entry_within_caps (e : json) : bool :=
  reject_if is_some_and (get_array e "inclusion_proof") (fun proof => MAX_INCLUSION_PROOF_LEN <? zlen proof) with false;
  reject_if is_some_and (env ← get e "envelope"; get_array env "signatures")
    (fun sigs => MAX_SIGNATURES_PER_ENVELOPE <? zlen sigs) with false;
  true.

(** [fn within_caps]. *)
Definition within_caps (bundle : json) : bool :=
  reject_if is_some_and (get_array bundle "entries") (fun entries =>
    (MAX_ENTRIES <? zlen entries) || negb (forallb entry_within_caps entries)) with false;
  reject_if is_some_and (get_array bundle "checkpoint_chain") (fun chain => MAX_CHECKPOINT_CHAIN_LEN <? zlen chain)
  with false;
  numbers_within_profile bundle.

(** [fn entry_recorder_attested]. *)
Definition recorder_signature (kl : KeyLog) (trust : option json) (sig : json) : bool :=
  let kid := unwrap_or (get_str sig "keyid") EmptyString in
  reject_if negb (is_some_and (state kl !! kid) recorder) with false;
  let_some pub_bytes := key_for trust "recorder_keys" (Some kid) else false;
  let_some pubkey := array32 pub_bytes else false;
  bool_decide (keys kl !! kid = Some pubkey).
Definition entry_recorder_attested (env : json) (kl : KeyLog) (trust : option json) : bool :=
  let_some sigs := get_array env "signatures" else false;
  reject_if (zlen sigs <? 2)
    || forallb (fun s => is_non_issuer kl (unwrap_or (get_str s "keyid") EmptyString)) sigs with false;
  existsb (recorder_signature kl trust) sigs.

(** [fn check_entries]. *)
Fixpoint check_entries_loop (entries : list json) (kl : KeyLog) (size : Z) (root : bytes) (covers : list (Z * Z))
    (expected_tenant : string) (trust : option json) (facts : BundleFacts) : bool * BundleFacts :=
  match entries with
  | [] => (true, facts)
  | e :: t =>
      reject_if negb (check_entry e kl size root covers expected_tenant) with (false, facts);
      if entry_recorder_attested (idx e "envelope") kl trust then
        let_some leaf := get_u64 e "leaf_index" else (false, facts);
        check_entries_loop t kl size root covers expected_tenant trust (push_recorder leaf facts)
      else check_entries_loop t kl size root covers expected_tenant trust facts
  end.
Definition check_entries (entries : list json) (target : json) (chain : list json) (kl : KeyLog) (trust : option json)
    (facts : BundleFacts) : bool * BundleFacts :=
  let size := unwrap_or (body_u64 target "tree_size") 0 in
  let root_hex := unwrap_or (body_str target "root_hash") EmptyString in
  let_some root := hex_to_bytes root_hex else (false, facts);
  let_some covers := checkpoint_cover_deadlines chain else (false, facts);
  let_some expected_tenant := (o ← body_str target "origin"; tenant_from_origin o) else (false, facts);
  check_entries_loop entries kl size root covers expected_tenant trust facts.

(** [fn check_entry_set]: the manifest answer is recorded first, whatever fails after. *)
Definition check_entry_set (bundle : json) (entries : list json) (target : json) (chain : list json) (kl : KeyLog)
    (trust : option json) (facts : BundleFacts) : bool * BundleFacts :=
  let facts := set_complete (check_export_manifest bundle entries target kl) facts in
  let '(entries_ok, facts) := check_entries entries target chain kl trust facts in
  (entries_ok && negb (bool_decide (complete facts = Some false)) && check_seq_uniqueness entries, facts).

(** [fn check_tst_records]. *)
Definition TST_REQUIRED : list string :=
  ["checkpoint_body_hash"; "token_der_b64"; "tsa_url"; "gen_time"; "cert_chain_pem"; "qualified"].
Definition ANCHOR_REQUIRED : list string :=
  ["checkpoint_body_hash"; "chain_id"; "tx_hash"; "block_number"; "block_ts"; "contract"].
Fixpoint check_tst_loop (items : list json) (roots : option string) (facts : BundleFacts) : bool * BundleFacts :=
  match items with
  | [] => (true, facts)
  | record :: t =>
      let_some body_hash := get_str record "checkpoint_body_hash" else (false, facts);
      let_some token_b64 := get_str record "token_der_b64" else (false, facts);
      let_some displayed := get_str record "gen_time" else (false, facts);
      let_some chain := get_str record "cert_chain_pem" else (false, facts);
      let_some token := b64_decode token_b64 else (false, facts);
      let_some (actual, trusted) := verified_tst token body_hash chain roots else (false, facts);
      reject_if negb (String.eqb actual displayed) with (false, facts);
      check_tst_loop t roots (if trusted : bool then push_tst body_hash facts else facts)
  end.
Definition check_tst_records (records : json) (checkpoints : CheckpointFacts) (roots : option string) (facts : BundleFacts)
    : bool * BundleFacts :=
  reject_if negb (check_bound_records records TST_REQUIRED "gen_time" checkpoints) with (false, facts);
  let_some items := as_array records else (false, facts);
  check_tst_loop items roots facts.

(** [fn check_attestation_records]. *)
Definition carried (bundle : json) (k : string) : option json := opt_filter (get bundle k) (fun v => negb (is_null v)).
Definition check_attestation_records (bundle : json) (checkpoints : CheckpointFacts) (trust : option json)
    (facts : BundleFacts) : bool * BundleFacts :=
  let '(tst_ok, facts) :=
    match carried bundle "tst_records" with
    | Some tsts => check_tst_records tsts checkpoints (tsa_roots_pem trust) facts
    | None => (true, facts)
    end in
  reject_if negb tst_ok with (false, facts);
  reject_if is_some_and (carried bundle "anchor_records") (fun anchors =>
    negb (check_bound_records anchors ANCHOR_REQUIRED "block_ts" checkpoints)) with (false, facts);
  (true, facts).

(** The chain profile of [fn check_checkpoints_and_entries]. *)
Definition sparse_profile (bundle : json) : option bool :=
  match get bundle "checkpoint_chain_profile" with
  | None => Some false
  | Some (JString profile) => if String.eqb profile SPARSE_CHECKPOINT_CHAIN_PROFILE then Some true else None
  | Some _ => None
  end.

(** [fn check_checkpoints_and_entries]. *)
Definition check_checkpoints_and_entries (bundle : json) (entries : list json) (kl : KeyLog) (trust : option json)
    (facts : BundleFacts) : bool * BundleFacts :=
  let_some target := get bundle "target_checkpoint" else (false, facts);
  let_some chain_entries := get_array bundle "checkpoint_chain" else (false, facts);
  let_some chain := mapM (fun entry => get entry "checkpoint") chain_entries else (false, facts);
  reject_if zlen chain =? 0 with (false, facts);
  let '(set_ok_, facts) := check_entry_set bundle entries target chain kl trust facts in
  reject_if negb set_ok_ with (false, facts);
  reject_if negb (check_target_checkpoint target kl) with (false, facts);
  let_some sparse := sparse_profile bundle else (false, facts);
  reject_if negb (check_checkpoint_chain chain chain_entries kl sparse) with (false, facts);
  reject_if negb (check_bundle_origin bundle target chain) with (false, facts);
  reject_if negb (chain_head_matches chain target) with (false, facts);
  reject_if negb (check_lineage entries) with (false, facts);
  let_some checkpoints := checkpoint_facts chain else (false, facts);
  let '(att_ok, facts) := check_attestation_records bundle checkpoints trust facts in
  reject_if negb att_ok with (false, facts);
  (true, set_chain (snd <$> checkpoints) (assess_continuity bundle chain kl) facts).

(** [fn origin_attested]. *)
Definition origin_attested (bundle : json) (kl : KeyLog) (trust : option json) : option bool :=
  expected ← key_for trust "log_keys" (get_str bundle "origin");
  let kid := unwrap_or (get_str (idx bundle "target_checkpoint") "kid") EmptyString in
  Some (is_some_and (keys kl !! kid) (fun key => bytes_eqb key expected)).

(** [fn verify_bundle_facts]. *)
Definition verify_bundle_facts (bundle : json) (trust : option json) : BundleFacts :=
  let facts := BundleFacts_default in
  reject_if negb (opt_str_eqb (get_str bundle "schema") (Some "evd/bundle/v1"%string)) with facts;
  reject_if negb (within_caps bundle) with facts;
  let entries := unwrap_or (get_array bundle "entries") [] in
  reject_if zlen entries =? 0 with facts;
  reject_if existsb (fun e => let env := idx e "envelope" in
    is_some_and (body_of env) (fun body => forbidden_managed_edge_cosign body env)) entries with facts;
  let kl := replay_key_log entries in
  reject_if negb (ok kl) with facts;
  reject_if negb (check_jwks_match_log bundle kl) with facts;
  let '(verdict, facts) := check_checkpoints_and_entries bundle entries kl trust facts in
  if verdict : bool then settle_ok (origin_attested bundle kl trust) facts else settle_failed facts.

(** [fn verify_bundle_report]. *)
Definition verify_bundle_report (bundle : json) (trust : option json) : bool * option bool * option bool :=
  let facts := verify_bundle_facts bundle trust in (f_ok facts, complete facts, f_origin_attested facts).

(** [fn verify_bundle]. *)
Definition sizes_value (m : gmap string Z) : json :=
  JObject (foldl (fun o kv => obj_insert o kv.1 (JNumber (PosInt kv.2))) [] (map_to_list m)).
Definition verify_bundle (bundle : json) (trust : option json) : json :=
  let facts := verify_bundle_facts bundle trust in
  json_of_list [
    ("ok", JBool (f_ok facts));
    ("recorder_attested", JArray (map (fun n => JNumber (PosInt n)) (recorder_attested facts)));
    ("trusted_tst_checkpoints", JArray (map JString (trusted_tst_checkpoints facts)));
    ("chain_sizes", sizes_value (chain_sizes facts));
    ("continuity_gaps", JNumber (PosInt (f_continuity_gaps facts)));
    ("continuity_present", JBool (continuity_present facts));
    ("continuity_ok", JBool (continuity_ok facts))]%string.

(** [fn browser_bundle_result] and [fn browser_bundle_verification_result], as the value they print. *)
Definition BROWSER_BUNDLE_RESULT_SCHEMA : string := "evd/browser-bundle-verification-result/v3".
Definition browser_bundle_result (verdict : string) (bundle_digest error : option string) (facts : option BundleFacts)
    : json :=
  json_of_list [
    ("schema", JString BROWSER_BUNDLE_RESULT_SCHEMA);
    ("verdict", JString verdict);
    ("bundle_digest", json_of_opt bundle_digest);
    ("error", json_of_opt error);
    ("continuity", match facts with
      | Some f => json_of_list [("present", JBool (continuity_present f)); ("ok", JBool (continuity_ok f));
                                ("gaps", JNumber (PosInt (f_continuity_gaps f)))]
      | None => JNull end)]%string.
Definition browser_bundle_verification_result (raw : bytes) : json :=
  reject_if MAX_BUNDLE_BYTES <? zlen raw with browser_bundle_result "NOT_VERIFIED" None None None;
  let_some bundle := strict_json raw else browser_bundle_result "ERROR" None (Some "INVALID_JSON"%string) None;
  let facts := verify_bundle_facts bundle None in
  reject_if negb (f_ok facts) with browser_bundle_result "NOT_VERIFIED" None None None;
  match canonical_checked bundle with
  | Some b => browser_bundle_result "VERIFIED" (Some (hex (sha256 b))) None (Some facts)
  | None => browser_bundle_result "NOT_VERIFIED" None None None
  end.

(** [fn acknowledgement_coverage]. *)
Definition acknowledgement_coverage (ack bundle : json) (facts : BundleFacts) : option string :=
  if negb (json_eqb (idx ack "origin") (idx bundle "origin")) then Some "other-origin"%string else
  from ← as_str (idx ack "from_hash"); to ← as_str (idx ack "to_hash");
  Some (match chain_sizes facts !! from, chain_sizes facts !! to with
        | Some start, Some end_ => if start <? end_ then "covered"%string else "malformed"%string
        | _, _ => "conflict"%string
        end).

(** [fn verify_acknowledgement_json]: the counterparty statement [b28::verified_acknowledgement]
    is an argument. *)
Definition verify_acknowledgement (verified_acknowledgement : bytes -> bytes -> option json)
    (envelope context bundle_json : bytes) : option (json * string * string) :=
  if MAX_BUNDLE_BYTES <? zlen bundle_json then None else
  bundle ← strict_json bundle_json;
  let facts := verify_bundle_facts bundle None in
  if negb (f_ok facts) then None else
  ack ← verified_acknowledgement envelope context;
  coverage ← acknowledgement_coverage ack bundle facts;
  canon ← canonical_checked bundle;
  Some (ack, coverage, hex (sha256 canon)).
Definition verify_acknowledgement_json (verified_acknowledgement : bytes -> bytes -> option json)
    (envelope context bundle_json : bytes) : json :=
  let accepted := verify_acknowledgement verified_acknowledgement envelope context bundle_json in
  let '(verdict, acknowledgement, coverage, bundle_digest) :=
    match accepted with
    | Some (ack, cover, digest) => ("VERIFIED"%string, ack, Some cover, Some digest)
    | None => ("NOT_VERIFIED"%string, JNull, None, None)
    end in
  let digest_of b := if String.eqb verdict "VERIFIED" then JString (hex (sha256 b)) else JNull in
  json_of_list [
    ("schema", JString "evd/acknowledgement-assessment/v1");
    ("verdict", JString verdict);
    ("acknowledgement", acknowledgement);
    ("coverage", json_of_opt coverage);
    ("bundle_digest", json_of_opt bundle_digest);
    ("context_digest", digest_of context);
    ("envelope_digest", digest_of envelope)]%string.
End Bundle.

(** What tsa.rs promises: the relying party's roots decide only whether a token is trusted,
    never whether it verifies or what time it shows; without roots nothing is trusted. *)
Class TsaLaws {T : Tsa} : Prop := {
  tst_roots_irrelevant : forall token h chain roots,
    fst <$> verified_tst token h chain roots = fst <$> verified_tst token h chain None;
  tst_untrusted : forall token h chain t b, verified_tst token h chain None = Some (t, b) -> b = false;
}.

(** ** Trust awards evidence, never a verdict *)
Section TrustIndependence.
Context {H : Hash} {SD : Serde} {B : Base64} {ED : Ed25519} {T : Tsa} {TL : TsaLaws}.

(** The facts without the evidence that trust can award. *)
Definition without_evidence (f : BundleFacts) : BundleFacts :=
  {| f_ok := f_ok f; complete := complete f; recorder_attested := []; trusted_tst_checkpoints := [];
     chain_sizes := chain_sizes f; f_continuity_gaps := f_continuity_gaps f;
     continuity_present := continuity_present f; continuity_ok := continuity_ok f; f_origin_attested := None |}.
(** Two runs in lockstep: the same verdict, and facts equal but for the evidence. *)
Definition lockstep (r r' : bool * BundleFacts) : Prop :=
  r.1 = r'.1 /\ without_evidence r.2 = without_evidence r'.2.

Lemma check_entry_leaf e kl size root covers tenant :
  size <= U64_MAX -> check_entry e kl size root covers tenant = true -> exists n, get_u64 e "leaf_index" = Some n.
Proof.
  intros Hs E. apply check_entry_inclusion_of in E as (payload & proof & _ & _ & E). unfold verify_inclusion in E.
  destruct (get_u64 e "leaf_index") as [n|]; [eauto|]. cbn in E.
  rewrite (proj2 (Z.leb_le size U64_MAX) Hs) in E. done.
Qed.

Lemma entries_lockstep entries kl size root covers tenant t t' : size <= U64_MAX -> forall f f',
  without_evidence f = without_evidence f' ->
  lockstep (check_entries_loop entries kl size root covers tenant t f)
    (check_entries_loop entries kl size root covers tenant t' f').
Proof.
  intros Hs. induction entries as [|e l IH]; intros f f' E; cbn [check_entries_loop]; [done|].
  destruct (check_entry e kl size root covers tenant) eqn:Ee; cbn [negb]; [|done].
  destruct (check_entry_leaf _ _ _ _ _ _ Hs Ee) as [n ->].
  destruct (entry_recorder_attested _ _ t), (entry_recorder_attested _ _ t'); apply IH; by rewrite ?E.
Qed.

Lemma tst_lockstep items r r' : forall f f', without_evidence f = without_evidence f' ->
  lockstep (check_tst_loop items r f) (check_tst_loop items r' f').
Proof.
  induction items as [|x l IH]; intros f f' E; cbn [check_tst_loop]; [done|].
  do 4 (case_match; [|done]). case_match; [|done].
  match goal with |- context [verified_tst ?a ?b ?c r] =>
    pose proof (tst_roots_irrelevant a b c r) as Hr; pose proof (tst_roots_irrelevant a b c r') as Hr';
    rewrite <- Hr' in Hr; destruct (verified_tst a b c r) as [[t1 b1]|], (verified_tst a b c r') as [[t2 b2]|] end;
    try done.
  injection Hr as ->. destruct (String.eqb _ _); cbn [negb]; [|done].
  destruct b1, b2; by apply IH.
Qed.

Lemma body_u64_bound v k n : json_wf v = true -> unwrap_or (body_u64 (idx v k) n) 0 <= U64_MAX.
Proof.
  intros Hw. destruct (body_u64 (idx v k) n) as [m|] eqn:E; [|done]. cbn.
  apply body_u64_range in E; [lia|]. unfold idx. destruct (get v k) as [x|] eqn:Ex; [|done]. by eapply get_wf.
Qed.

Lemma checks_lockstep bundle entries kl t t' f f' :
  json_wf bundle = true -> without_evidence f = without_evidence f' ->
  lockstep (check_checkpoints_and_entries bundle entries kl t f) (check_checkpoints_and_entries bundle entries kl t' f').
Proof.
  intros Hw E. unfold check_checkpoints_and_entries.
  destruct (get bundle "target_checkpoint") as [target|] eqn:Ht; [|done].
  destruct (get_array bundle "checkpoint_chain") as [ce|]; [|done]. destruct (mapM _ ce) as [chain|]; [|done].
  destruct (zlen chain =? 0); [done|].
  assert (lockstep (check_entry_set bundle entries target chain kl t f) (check_entry_set bundle entries target chain kl t' f')) as Hset.
  { unfold check_entry_set. set (c := check_export_manifest _ _ _ _).
    assert (without_evidence (set_complete c f) = without_evidence (set_complete c f')) as E1.
    { injection E as ? ? ? ? ? ?. unfold without_evidence. cbn. congruence. }
    assert (lockstep (check_entries entries target chain kl t (set_complete c f))
      (check_entries entries target chain kl t' (set_complete c f'))) as [Hb Hf].
    { unfold check_entries. destruct (hex_to_bytes _); [|done]. destruct (checkpoint_cover_deadlines _); [|done].
      destruct (_ ≫= _); [|done]. apply entries_lockstep; [|done].
      pose proof (body_u64_bound bundle "target_checkpoint" "tree_size" Hw) as Hb. unfold idx in Hb. by rewrite Ht in Hb. }
    destruct (check_entries _ _ _ _ t _) as [b1 f1], (check_entries _ _ _ _ t' _) as [b2 f2]. cbn in Hb, Hf. subst b2.
    split; [|done]. cbn. assert (complete f1 = complete f2) as -> by (by injection Hf). done. }
  destruct (check_entry_set _ _ _ _ _ t _) as [b1 f1], (check_entry_set _ _ _ _ _ t' _) as [b2 f2].
  destruct Hset as [Hb Hf]. cbn in Hb, Hf. subst b2.
  destruct b1; cbn [negb]; [|done]. destruct (check_target_checkpoint _ _); cbn [negb]; [|done].
  destruct (sparse_profile bundle); [|done]. destruct (check_checkpoint_chain _ _ _ _); cbn [negb]; [|done].
  destruct (check_bundle_origin _ _ _); cbn [negb]; [|done]. destruct (chain_head_matches _ _); cbn [negb]; [|done].
  destruct (check_lineage _); cbn [negb]; [|done]. destruct (checkpoint_facts chain) as [cps|]; [|done].
  assert (lockstep (check_attestation_records bundle cps t f1) (check_attestation_records bundle cps t' f2)) as Hatt.
  { unfold check_attestation_records. destruct (carried bundle "tst_records") as [tsts|].
    - unfold check_tst_records. destruct (check_bound_records tsts _ _ _); cbn [negb]; [|done].
      destruct (as_array tsts) as [items|]; [|done].
      destruct (tst_lockstep items (tsa_roots_pem t) (tsa_roots_pem t') f1 f2 Hf) as [Hb1 Hf1].
      destruct (check_tst_loop items (tsa_roots_pem t) f1) as [c1 g1], (check_tst_loop items (tsa_roots_pem t') f2) as [c2 g2].
      cbn in Hb1, Hf1. subst c2. destruct c1; cbn [negb]; [|done]. by destruct (is_some_and _ _).
    - cbn [negb]. by destruct (is_some_and _ _). }
  destruct (check_attestation_records _ _ t _) as [c1 g1], (check_attestation_records _ _ t' _) as [c2 g2].
  destruct Hatt as [Hb1 Hf1]. cbn in Hb1, Hf1. subst c2. destruct c1; cbn [negb]; [|done].
  split; [done|]. injection Hf1 as ? ? ? ? ? ?. unfold without_evidence. cbn. congruence.
Qed.

End TrustIndependence.

(** ** What a verified bundle is *)
Section Verdict.
Context {H : Hash} {SD : Serde} {B : Base64} {ED : Ed25519} {T : Tsa}.

(** A bundle that verifies: the conjunction of its parts' own specifications. *)
Record bundle_verified (bundle : json) (entries : list json) (kl : KeyLog) (target : json)
    (chain_entries chain : list json) (sparse : bool) (covers : list (Z * Z)) (root : bytes) (tenant : string)
    : Prop := {
  bv_schema : get_str bundle "schema" = Some "evd/bundle/v1"%string;
  bv_caps : within_caps bundle = true;
  bv_entries : entries = unwrap_or (get_array bundle "entries") [] /\ entries <> [];
  bv_cosign : forall e body, e ∈ entries -> body_of (idx e "envelope") = Some body ->
    forbidden_managed_edge_cosign body (idx e "envelope") = false;
  bv_keylog : replay_key_log entries = kl /\ ok kl = true;
  bv_jwks : check_jwks_match_log bundle kl = true;
  bv_target : get bundle "target_checkpoint" = Some target /\ check_target_checkpoint target kl = true;
  bv_chain : get_array bundle "checkpoint_chain" = Some chain_entries /\
    mapM (fun entry => get entry "checkpoint") chain_entries = Some chain /\ sparse_profile bundle = Some sparse /\
    check_checkpoint_chain chain chain_entries kl sparse = true;
  bv_origin : check_bundle_origin bundle target chain = true;
  bv_head : exists head h, last chain = Some head /\ checkpoint_body_hash head = Some h /\ checkpoint_body_hash target = Some h;
  bv_root : root_of target = Some root;
  bv_covers : checkpoint_cover_deadlines chain = Some covers;
  bv_tenant : exists origin, body_str target "origin" = Some origin /\ tenant_from_origin origin = Some tenant;
  bv_receipts : forall e, e ∈ entries -> check_entry e kl (size_of target) root covers tenant = true;
  bv_manifest : check_export_manifest bundle entries target kl <> Some false;
  bv_sequence : check_seq_uniqueness entries = true;
  bv_lineage : check_lineage entries = true;
}.

Lemma entries_loop_true es kl size root covers tenant trust : forall f f',
  check_entries_loop es kl size root covers tenant trust f = (true, f') ->
  (forall e, e ∈ es -> check_entry e kl size root covers tenant = true) /\ complete f' = complete f /\
  forall leaf, leaf ∈ recorder_attested f' -> leaf ∈ recorder_attested f \/
    exists e, e ∈ es /\ get_u64 e "leaf_index" = Some leaf /\ entry_recorder_attested (idx e "envelope") kl trust = true.
Proof.
  induction es as [|e es IH]; intros f f' E; cbn [check_entries_loop] in E.
  - injection E as <-. split; [by intros e ?%elem_of_nil|]. auto.
  - case_step E. apply negb_false_iff in E0. destruct (entry_recorder_attested _ _ _) eqn:Er.
    + case_step E. apply IH in E as (Hall & Hc & Hr). split; [intros x [->|?]%elem_of_cons; auto|]. split; [done|].
      intros leaf Hl. destruct (Hr leaf Hl) as [Hin|(x & ? & ? & ?)].
      * cbn in Hin. apply elem_of_app in Hin as [?|Hin]; [by left|]. apply list_elem_of_singleton in Hin as ->.
        right. exists e. set_solver.
      * right. exists x. set_solver.
    + apply IH in E as (Hall & Hc & Hr). split; [intros x [->|?]%elem_of_cons; auto|]. split; [done|].
      intros leaf Hl. destruct (Hr leaf Hl) as [?|(x & ? & ? & ?)]; [by left|]. right. exists x. set_solver.
Qed.
Lemma tst_loop_facts items r : forall f, let g := (check_tst_loop items r f).2 in
  recorder_attested g = recorder_attested f /\ complete g = complete f.
Proof.
  induction items as [|x l IH]; intros f; cbn [check_tst_loop]; [done|].
  do 5 (case_match; [|done]). destruct (verified_tst _ _ _ _) as [[t b]|]; [|done].
  destruct (String.eqb _ _); cbn [negb]; [|done]. destruct (IH (if b then push_tst s f else f)) as [-> ->]. by destruct b.
Qed.
Lemma attestation_facts bundle cps trust f :
  let g := (check_attestation_records bundle cps trust f).2 in
  recorder_attested g = recorder_attested f /\ complete g = complete f.
Proof.
  unfold check_attestation_records. destruct (carried bundle "tst_records") as [tsts|].
  - unfold check_tst_records. destruct (check_bound_records tsts _ _ _); cbn [negb]; [|done].
    destruct (as_array tsts) as [items|]; [|done]. pose proof (tst_loop_facts items (tsa_roots_pem trust) f) as Hl.
    destruct (check_tst_loop items _ f) as [b g]. destruct b; cbn [negb]; [|done]. by destruct (is_some_and _ _).
  - cbn [negb]. by destruct (is_some_and _ _).
Qed.

Lemma verify_bundle_ok bundle trust :
  f_ok (verify_bundle_facts bundle trust) = true ->
  exists entries kl target chain_entries chain sparse covers root tenant,
    bundle_verified bundle entries kl target chain_entries chain sparse covers root tenant /\
    complete (verify_bundle_facts bundle trust) = check_export_manifest bundle entries target kl /\
    f_origin_attested (verify_bundle_facts bundle trust) = origin_attested bundle kl trust /\
    (exists cps, checkpoint_facts chain = Some cps /\ chain_sizes (verify_bundle_facts bundle trust) = snd <$> cps) /\
    forall leaf, leaf ∈ recorder_attested (verify_bundle_facts bundle trust) -> exists e, e ∈ entries /\
      get_u64 e "leaf_index" = Some leaf /\ entry_recorder_attested (idx e "envelope") kl trust = true.
Proof.
  unfold verify_bundle_facts.
  destruct (negb (opt_str_eqb _ _)) eqn:Es; [done|]. destruct (negb (within_caps bundle)) eqn:Ec; [done|].
  destruct (zlen _ =? 0) eqn:Ee; [done|]. destruct (existsb _ _) eqn:Ef; [done|].
  set (entries := unwrap_or (get_array bundle "entries") []) in *. set (kl := replay_key_log entries) in *.
  destruct (ok kl) eqn:Eok; cbn [negb]; [|done]. destruct (check_jwks_match_log bundle kl) eqn:Ej; cbn [negb]; [|done].
  unfold check_checkpoints_and_entries.
  destruct (get bundle "target_checkpoint") as [target|] eqn:Et; [|done].
  destruct (get_array bundle "checkpoint_chain") as [ce|] eqn:Ece; [|done].
  destruct (mapM _ ce) as [chain|] eqn:Ech; [|done]. destruct (zlen chain =? 0); [done|].
  destruct (check_entry_set _ _ _ _ _ _ _) as [b f] eqn:Eset. destruct b; cbn [negb]; [|done].
  destruct (check_target_checkpoint target kl) eqn:Etc; cbn [negb]; [|done].
  destruct (sparse_profile bundle) as [sparse|] eqn:Esp; [|done].
  destruct (check_checkpoint_chain _ _ _ _) eqn:Ecc; cbn [negb]; [|done].
  destruct (check_bundle_origin _ _ _) eqn:Ebo; cbn [negb]; [|done].
  destruct (chain_head_matches _ _) eqn:Ehm; cbn [negb]; [|done].
  destruct (check_lineage _) eqn:Eli; cbn [negb]; [|done].
  destruct (checkpoint_facts chain) as [cps|] eqn:Ecf; [|done].
  pose proof (attestation_facts bundle cps trust f) as [Hr2 Hc2].
  destruct (check_attestation_records _ _ _ _) as [b2 f2] eqn:Eat. destruct b2; cbn [negb]; [|done]. intros _.
  cbn in Hr2, Hc2. cbn [f_ok settle_ok complete f_origin_attested chain_sizes recorder_attested set_chain].
  unfold check_entry_set in Eset. destruct (check_entries _ _ _ _ _ _) as [b3 f3] eqn:Een. injection Eset as Eb <-.
  rewrite !andb_true_iff, negb_true_iff, bool_decide_eq_false in Eb. destruct Eb as [[-> Hcomp] Hseq].
  unfold check_entries in Een. destruct (hex_to_bytes _) as [root|] eqn:Ero; [|done].
  destruct (checkpoint_cover_deadlines chain) as [covers|] eqn:Eco; [|done].
  destruct (_ ≫= _) as [tenant|] eqn:Ete in Een; [|done].
  apply entries_loop_true in Een as (Hall & Hc3 & Hr3). cbn [complete set_complete] in Hc3.
  exists entries, kl, target, ce, chain, sparse, covers, root, tenant. split; [constructor|].
  - by apply negb_false_iff, opt_str_eqb_true in Es.
  - by apply negb_false_iff in Ec.
  - split; [done|]. by intros ->.
  - intros e body He Hb. rewrite existsb_false in Ef. specialize (Ef e He). cbn in Ef. rewrite Hb in Ef. done.
  - done.
  - done.
  - done.
  - done.
  - done.
  - unfold chain_head_matches in Ehm. case_step Ehm. case_step Ehm. apply String.eqb_eq in Ehm as ->.
    apply bind_Some in E as (head & Hl & Hh). eauto.
  - done.
  - done.
  - apply bind_Some in Ete as (o & ? & ?). eauto.
  - done.
  - congruence.
  - done.
  - done.
  - split; [congruence|]. split; [done|]. split; [eauto|]. intros leaf Hl. rewrite Hr2 in Hl.
    destruct (Hr3 leaf Hl) as [Hin|?]; [by apply elem_of_nil in Hin|done].
Qed.

(** A favourable verdict means every part holds: the schema and caps, the key log and its
    JWKS, the target, the chain down to genesis, the origin, every entry, the manifest, the
    sequence numbers and the lineage; and the completeness reported is the manifest's own. *)
Theorem verify_bundle_sound (bundle : json) (trust : option json) :
  f_ok (verify_bundle_facts bundle trust) = true ->
  exists entries kl target chain_entries chain sparse covers root tenant,
    bundle_verified bundle entries kl target chain_entries chain sparse covers root tenant /\
    complete (verify_bundle_facts bundle trust) = check_export_manifest bundle entries target kl.
Proof.
  intros E. apply verify_bundle_ok in E as (entries & kl & target & ce & chain & sparse & covers & root & tenant & Hv & Hc & _).
  eauto 12.
Qed.

(** No check touches the origin attestation; it is settled last. *)
Lemma entries_loop_origin es kl size root covers tenant trust : forall f,
  f_origin_attested (check_entries_loop es kl size root covers tenant trust f).2 = f_origin_attested f.
Proof.
  induction es as [|e es IH]; intros f; cbn [check_entries_loop]; [done|]. destruct (negb _); [done|].
  destruct (entry_recorder_attested _ _ _); [|done]. destruct (get_u64 _ _); [|done]. by rewrite IH.
Qed.
Lemma tst_loop_origin items r : forall f, f_origin_attested (check_tst_loop items r f).2 = f_origin_attested f.
Proof.
  induction items as [|x l IH]; intros f; cbn [check_tst_loop]; [done|]. do 5 (case_match; [|done]).
  destruct (verified_tst _ _ _ _) as [[t b]|]; [|done]. destruct (String.eqb _ _); cbn [negb]; [|done].
  rewrite IH. by destruct b.
Qed.
Lemma attestation_origin bundle cps trust f :
  f_origin_attested (check_attestation_records bundle cps trust f).2 = f_origin_attested f.
Proof.
  unfold check_attestation_records. destruct (carried bundle "tst_records") as [tsts|].
  - unfold check_tst_records. destruct (negb (check_bound_records _ _ _ _)); [done|].
    destruct (as_array tsts) as [items|]; [|done]. pose proof (tst_loop_origin items (tsa_roots_pem trust) f) as Ho.
    destruct (check_tst_loop _ _ _) as [b g]. destruct b; cbn [negb]; [|done]. by destruct (is_some_and _ _).
  - cbn [negb]. by destruct (is_some_and _ _).
Qed.
Lemma entry_set_origin bundle es target chain kl trust f :
  f_origin_attested (check_entry_set bundle es target chain kl trust f).2 = f_origin_attested f.
Proof.
  unfold check_entry_set, check_entries. destruct (hex_to_bytes _); [|done].
  destruct (checkpoint_cover_deadlines chain); [|done]. destruct (_ ≫= _); [|done].
  set (g := set_complete _ f). pose proof (entries_loop_origin es kl (unwrap_or (body_u64 target "tree_size") 0) l l0 s trust g) as Ho.
  by destruct (check_entries_loop _ _ _ _ _ _ _ _).
Qed.
Lemma checks_origin bundle es kl trust f :
  f_origin_attested (check_checkpoints_and_entries bundle es kl trust f).2 = f_origin_attested f.
Proof.
  unfold check_checkpoints_and_entries. destruct (get bundle _) as [target|]; [|done]. destruct (get_array bundle _) as [ce|]; [|done].
  destruct (mapM (fun entry => get entry "checkpoint") ce) as [chain|]; [|done]. destruct (zlen chain =? 0); [done|].
  pose proof (entry_set_origin bundle es target chain kl trust f) as Hs.
  destruct (check_entry_set _ _ _ _ _ _ _) as [b1 f1]. destruct b1; cbn [negb]; [|done].
  destruct (check_target_checkpoint _ _); cbn [negb]; [|done]. destruct (sparse_profile _); [|done].
  destruct (check_checkpoint_chain _ _ _ _); cbn [negb]; [|done]. destruct (check_bundle_origin _ _ _); cbn [negb]; [|done].
  destruct (chain_head_matches _ _); cbn [negb]; [|done]. destruct (check_lineage _); cbn [negb]; [|done].
  destruct (checkpoint_facts chain) as [cps|]; [|done]. pose proof (attestation_origin bundle cps trust f1) as Ha.
  destruct (check_attestation_records _ _ _ _) as [b2 f2]. cbn in Hs, Ha. destruct b2; cbn; congruence.
Qed.

(** A rejected bundle earns nothing: no recorder attestation, no trusted timestamp, no chain
    and no origin attestation survive a failed verdict. *)
Theorem rejected_bundle_earns_nothing (bundle : json) (trust : option json) :
  f_ok (verify_bundle_facts bundle trust) = false ->
  let f := verify_bundle_facts bundle trust in
  recorder_attested f = [] /\ trusted_tst_checkpoints f = [] /\ chain_sizes f = ∅ /\ f_origin_attested f = None.
Proof.
  unfold verify_bundle_facts. do 4 (case_match; [done|]). destruct (ok _); cbn [negb]; [|done].
  destruct (check_jwks_match_log _ _); cbn [negb]; [|done].
  match goal with |- context [check_checkpoints_and_entries bundle ?es ?kl trust ?f] =>
    pose proof (checks_origin bundle es kl trust f) as Ho end.
  destruct (check_checkpoints_and_entries _ _ _ _ _) as [b1 f1]. cbn in Ho. by destruct b1.
Qed.
End Verdict.

(** ** Trusted timestamps *)
Section Timestamps.
Context {H : Hash} {SD : Serde} {B : Base64} {ED : Ed25519} {T : Tsa}.

Lemma entries_loop_trusted es kl size root covers tenant trust : forall f,
  trusted_tst_checkpoints (check_entries_loop es kl size root covers tenant trust f).2 = trusted_tst_checkpoints f.
Proof.
  induction es as [|e es IH]; intros f; cbn [check_entries_loop]; [done|]. destruct (negb _); [done|].
  destruct (entry_recorder_attested _ _ _); [|done]. destruct (get_u64 _ _); [|done]. by rewrite IH.
Qed.
Lemma entry_set_trusted bundle es target chain kl trust f :
  trusted_tst_checkpoints (check_entry_set bundle es target chain kl trust f).2 = trusted_tst_checkpoints f.
Proof.
  unfold check_entry_set, check_entries. destruct (hex_to_bytes _) as [root|]; [|done].
  destruct (checkpoint_cover_deadlines chain) as [covers|]; [|done]. destruct (_ ≫= _) as [tenant|]; [|done].
  set (g := set_complete _ f).
  pose proof (entries_loop_trusted es kl (unwrap_or (body_u64 target "tree_size") 0) root covers tenant trust g) as Ht.
  by destruct (check_entries_loop _ _ _ _ _ _ _ _).
Qed.

(** A record carries a token over the checkpoint hash [h], shown with the token's own time. *)
Definition timestamps (record : json) (h : string) (roots : option string) (trusted : bool) : Prop :=
  exists token_b64 token displayed chain, get_str record "checkpoint_body_hash" = Some h /\
    get_str record "token_der_b64" = Some token_b64 /\ b64_decode token_b64 = Some token /\
    get_str record "gen_time" = Some displayed /\ get_str record "cert_chain_pem" = Some chain /\
    verified_tst token h chain roots = Some (displayed, trusted).
Lemma tst_loop_trusted items roots h : forall f, h ∈ trusted_tst_checkpoints (check_tst_loop items roots f).2 ->
  h ∈ trusted_tst_checkpoints f \/ exists record, record ∈ items /\ timestamps record h roots true.
Proof.
  induction items as [|x l IH]; intros f; cbn [check_tst_loop]; [by left|].
  destruct (get_str x "checkpoint_body_hash") as [bh|] eqn:Ebh; [|by left].
  destruct (get_str x "token_der_b64") as [b64|] eqn:Eb; [|by left].
  destruct (get_str x "gen_time") as [displayed|] eqn:Eg; [|by left].
  destruct (get_str x "cert_chain_pem") as [pem|] eqn:Ep; [|by left]. destruct (b64_decode b64) as [token|] eqn:Et; [|by left].
  destruct (verified_tst token bh pem roots) as [[t b]|] eqn:Ev; [|by left].
  destruct (String.eqb_spec t displayed) as [->|]; [|by left]. cbn [negb]. intros [Hin|(r & Hr & Hts)]%IH.
  - destruct b; [|by left]. cbn in Hin. apply elem_of_app in Hin as [?|Hin]; [by left|]. apply list_elem_of_singleton in Hin as ->.
    right. exists x. split; [by left|]. unfold timestamps. eauto 12.
  - right. exists r. split; [by right|done].
Qed.

Lemma attestation_trusted bundle cps trust f h : (check_attestation_records bundle cps trust f).1 = true ->
  h ∈ trusted_tst_checkpoints (check_attestation_records bundle cps trust f).2 ->
  h ∈ trusted_tst_checkpoints f \/ exists records record, get bundle "tst_records" = Some (JArray records) /\
    check_bound_records (JArray records) TST_REQUIRED "gen_time" cps = true /\ record ∈ records /\
    timestamps record h (tsa_roots_pem trust) true.
Proof.
  unfold check_attestation_records. destruct (carried bundle "tst_records") as [tsts|] eqn:Ec.
  - apply opt_filter_Some in Ec as [Ec _]. unfold check_tst_records. destruct (check_bound_records tsts _ _ _) eqn:Eb; cbn [negb]; [|done].
    destruct tsts as [| | | |records|]; cbn [as_array negb]; try done.
    pose proof (tst_loop_trusted records (tsa_roots_pem trust) h f) as Hl.
    destruct (check_tst_loop _ _ _) as [[] g]; cbn [negb]; [|done]. destruct (is_some_and _ _); [done|].
    intros _ [?|(r & ? & ?)]%Hl; [by left|]. right. exists records, r. done.
  - cbn [negb]. destruct (is_some_and _ _); [done|]. by left.
Qed.

(** A checkpoint reported as trusted carries a trusted token over its own body hash, whose
    time is not before the checkpoint's. *)
Lemma trusted_tst_record bundle trust h : h ∈ trusted_tst_checkpoints (verify_bundle_facts bundle trust) ->
  exists chain_entries chain records record displayed cp ts c t,
    get_array bundle "checkpoint_chain" = Some chain_entries /\
    mapM (fun entry => get entry "checkpoint") chain_entries = Some chain /\
    get bundle "tst_records" = Some (JArray records) /\ record ∈ records /\ timestamps record h (tsa_roots_pem trust) true /\
    get_str record "gen_time" = Some displayed /\ cp ∈ chain /\ checkpoint_body_hash cp = Some h /\
    body_str cp "ts" = Some ts /\ utc_epoch_micros displayed = Some c /\ utc_epoch_micros ts = Some t /\ t <= c.
Proof.
  unfold verify_bundle_facts. do 4 (case_match; [intros Hn; by apply elem_of_nil in Hn|]). set (kl := replay_key_log _).
  destruct (ok kl); cbn [negb]; [|intros Hn; by apply elem_of_nil in Hn].
  destruct (check_jwks_match_log bundle kl); cbn [negb]; [|intros Hn; by apply elem_of_nil in Hn].
  destruct (check_checkpoints_and_entries _ _ _ _ _) as [[] g] eqn:E; [|intros Hn; by apply elem_of_nil in Hn].
  unfold check_checkpoints_and_entries in E. case_step E. rename j into target.
  destruct (get_array bundle "checkpoint_chain") as [ce|] eqn:Ece; [|done]. destruct (mapM _ ce) as [chain|] eqn:Ech; [|done].
  case_step E. destruct (check_entry_set _ _ _ _ _ _ _) as [b1 f1] eqn:Es.
  match type of Es with check_entry_set ?a ?b ?c ?d ?e ?i ?f = _ => pose proof (entry_set_trusted a b c d e i f) as Hs end.
  rewrite Es in Hs. cbn in Hs. do 7 (case_step E). destruct (checkpoint_facts chain) as [cps|] eqn:Ecps; [|done].
  pose proof (attestation_trusted bundle cps trust f1 h) as Ha.
  destruct (check_attestation_records _ _ _ _) as [[] f2] eqn:Eat; cbn [negb] in E; [|done]. injection E as <-. cbn [fst snd] in Ha.
  intros Hin. destruct (Ha eq_refl) as [Hn|(records & r & Hrec & Hb & Hr & Hts)]; [done|rewrite Hs in Hn; by apply elem_of_nil in Hn|].
  pose proof Hts as (_ & _ & d & _ & Hh & _ & _ & Hd & _).
  eapply bound_records_spec in Hb as (arr & [= <-] & _ & _ & Hall); [|done].
  destruct (Hall r Hr) as (cp & h' & ts & claimed & c & t & Hcp & Hh' & Hbh & Hbts & Hcl & Hc & Ht & Hle & _).
  rewrite Hh in Hh'. cbn in Hh'. subst h'. rewrite Hd in Hcl. injection Hcl as <-. exists ce, chain, records, r, d, cp, ts, c, t. done.
Qed.

Lemma tst_loop_true items roots : forall f, (check_tst_loop items roots f).1 = true <->
  forall record, record ∈ items -> exists h trusted, timestamps record h roots trusted.
Proof.
  induction items as [|x l IH]; intros f; cbn [check_tst_loop].
  { split; [intros _ r Hr; by apply elem_of_nil in Hr|done]. }
  transitivity ((exists h trusted, timestamps x h roots trusted) /\ forall r, r ∈ l -> exists h trusted, timestamps r h roots trusted).
  2:{ setoid_rewrite elem_of_cons. naive_solver. }
  unfold timestamps at 1. split.
  - destruct (get_str x "checkpoint_body_hash") as [bh|]; [|done]. destruct (get_str x "token_der_b64") as [b64|]; [|done].
    destruct (get_str x "gen_time") as [displayed|]; [|done]. destruct (get_str x "cert_chain_pem") as [pem|]; [|done].
    destruct (b64_decode b64) as [token|] eqn:Et; [|done]. destruct (verified_tst token bh pem roots) as [[t b]|] eqn:Ev; [|done].
    destruct (String.eqb_spec t displayed) as [->|]; [|done]. cbn [negb]. intros Hl. split; [|by eapply IH].
    exists bh, b, b64, token, displayed, pem. done.
  - intros [(h & b & b64 & token & displayed & pem & -> & -> & Ht & -> & -> & Hv) Hl]. rewrite Ht, Hv, String.eqb_refl. by apply IH.
Qed.

(** The evidence beside the chain: tokens and anchors bound to its checkpoints, every token verified. *)
Record attestations_verified (bundle : json) (chain : list json) (roots : option string) (cps : CheckpointFacts) : Prop := {
  at_checkpoints : checkpoint_facts chain = Some cps;
  at_tokens : forall records, carried bundle "tst_records" = Some records ->
    check_bound_records records TST_REQUIRED "gen_time" cps = true /\
    forall items record, records = JArray items -> record ∈ items -> exists h trusted, timestamps record h roots trusted;
  at_anchors : forall records, carried bundle "anchor_records" = Some records ->
    check_bound_records records ANCHOR_REQUIRED "block_ts" cps = true;
}.
Lemma attestations_true bundle cps trust f chain : checkpoint_facts chain = Some cps ->
  (check_attestation_records bundle cps trust f).1 = true <-> attestations_verified bundle chain (tsa_roots_pem trust) cps.
Proof.
  intros Hcps. unfold check_attestation_records. split.
  - intros E. destruct (carried bundle "tst_records") as [tsts|] eqn:Et.
    + unfold check_tst_records in E. destruct (check_bound_records tsts _ _ _) eqn:Eb; cbn [negb] in E; [|done].
      destruct (as_array tsts) as [items|] eqn:Ea; [|done]. pose proof (tst_loop_true items (tsa_roots_pem trust) f) as Hl.
      destruct (check_tst_loop _ _ _) as [[] g]; cbn [negb] in E; [|done]. destruct (is_some_and _ _) eqn:Ean; [done|].
      split; [done| |].
      * intros records Hrec. rewrite Et in Hrec. injection Hrec as <-. split; [done|]. intros items' r -> Hr. injection Ea as <-. by apply Hl.
      * intros records Hc. rewrite Hc in Ean. cbn in Ean. by apply negb_false_iff in Ean.
    + cbn [negb] in E. destruct (is_some_and _ _) eqn:Ean; [done|]. split; [done|by intros ?; rewrite Et|].
      intros records Hc. rewrite Hc in Ean. cbn in Ean. by apply negb_false_iff in Ean.
  - intros [_ Ht Ha]. assert (is_some_and (carried bundle "anchor_records") (fun anchors =>
      negb (check_bound_records anchors ANCHOR_REQUIRED "block_ts" cps)) = false) as ->.
    { destruct (carried bundle "anchor_records") as [anchors|]; [|done]. cbn. by rewrite Ha. }
    destruct (carried bundle "tst_records") as [tsts|] eqn:Et; [|done]. destruct (Ht tsts eq_refl) as [Hb Hl].
    unfold check_tst_records. rewrite Hb. cbn [negb]. unfold check_bound_records in Hb. destruct tsts as [| | | |items|]; try done.
    cbn [as_array] in *. pose proof (proj2 (tst_loop_true items (tsa_roots_pem trust) f)) as Ho.
    destruct (check_tst_loop _ _ _) as [b g]. cbn in Ho. rewrite Ho; [done|]. intros r Hr. by apply (Hl items r).
Qed.
End Timestamps.

(** ** Which bundles verify *)
Section Exact.
Context {H : Hash} {SD : Serde} {B : Base64} {ED : Ed25519} {T : Tsa}.

(** One guard of a chain of early returns. *)
Lemma guard_true (c : bool) (f : BundleFacts) (k : bool * BundleFacts) :
  (if negb c then (false, f) else k).1 = true <-> c = true /\ k.1 = true.
Proof. by destruct c; cbn; intuition. Qed.
Lemma found_true {A} (o : option A) (f : BundleFacts) (k : A -> bool * BundleFacts) :
  (match o with Some x => k x | None => (false, f) end).1 = true <-> exists x, o = Some x /\ (k x).1 = true.
Proof. destruct o; naive_solver. Qed.
Lemma nonempty_zlen {A} (l : list A) : (zlen l =? 0) = false <-> l <> [].
Proof. destruct l; [done|]. rewrite zlen_cons, Z.eqb_neq. pose proof (zlen_nonneg l). split; [done|lia]. Qed.

Lemma entries_loop_exact es kl size root covers tenant trust : size <= U64_MAX -> forall f,
  (check_entries_loop es kl size root covers tenant trust f).1 = true <->
  forall e, e ∈ es -> check_entry e kl size root covers tenant = true.
Proof.
  intros Hsize. induction es as [|e es IH]; intros f; cbn [check_entries_loop].
  { split; [intros _ e He; by apply elem_of_nil in He|done]. }
  rewrite guard_true.
  assert (check_entry e kl size root covers tenant = true -> is_Some (get_u64 e "leaf_index")) as Hleaf.
  { intros Hc. apply check_entry_spec in Hc as (payload & body & leaf & [_ _ _ -> _ _ _ (proof & _ & Hi) _]).
    destruct (get_u64 e "leaf_index"); [done|]. cbn in Hi. unfold verify_inclusion in Hi.
    by rewrite (proj2 (Z.leb_le size U64_MAX)) in Hi by lia. }
  split.
  - intros [Hc Hk] x [->|Hx]%elem_of_cons; [done|]. revert x Hx.
    destruct (entry_recorder_attested _ _ _); [apply found_true in Hk as (leaf & _ & Hk)|]; by eapply IH.
  - intros Hall. assert (check_entry e kl size root covers tenant = true) as Hc by (apply Hall; by left). split; [done|].
    assert (forall x, x ∈ es -> check_entry x kl size root covers tenant = true) as Hl by (intros x Hx; apply Hall; by right).
    destruct (entry_recorder_attested _ _ _); [|by apply IH]. destruct (Hleaf Hc) as [leaf ->]. by apply IH.
Qed.

Lemma entry_set_true bundle es target chain kl trust f : size_of target <= U64_MAX ->
  (check_entry_set bundle es target chain kl trust f).1 = true <->
  exists root covers tenant, root_of target = Some root /\ checkpoint_cover_deadlines chain = Some covers /\
    (exists origin, body_str target "origin" = Some origin /\ tenant_from_origin origin = Some tenant) /\
    (forall e, e ∈ es -> check_entry e kl (size_of target) root covers tenant = true) /\
    check_export_manifest bundle es target kl <> Some false /\ check_seq_uniqueness es = true.
Proof.
  intros Hsize. unfold check_entry_set.
  assert (forall f', complete (check_entries es target chain kl trust f').2 = complete f') as Hcomp.
  { intros f'. unfold check_entries. destruct (hex_to_bytes _) as [root|]; [|done].
    destruct (checkpoint_cover_deadlines chain) as [covers|]; [|done]. destruct (_ ≫= _) as [tenant|]; [|done].
    generalize dependent f'. induction es as [|e es' IH]; intros f'; cbn [check_entries_loop]; [done|]. destruct (negb _); [done|].
    destruct (entry_recorder_attested _ _ _); [|done]. destruct (get_u64 _ _); [|done]. by rewrite IH. }
  specialize (Hcomp (set_complete (check_export_manifest bundle es target kl) f)).
  pose proof (entries_loop_exact es kl (size_of target)) as Hl. unfold check_entries, size_of, root_of in *.
  destruct (hex_to_bytes _) as [root|]; [|cbn; naive_solver].
  destruct (checkpoint_cover_deadlines chain) as [covers|]; [|cbn; naive_solver].
  assert (forall tenant, (o ← body_str target "origin"; tenant_from_origin o) = Some tenant <->
    exists origin, body_str target "origin" = Some origin /\ tenant_from_origin origin = Some tenant) as Ht.
  { intros tenant. rewrite bind_Some. done. }
  destruct (_ ≫= _) as [tenant|] in Hcomp, Ht |- *.
  - specialize (Hl root covers tenant trust Hsize (set_complete (check_export_manifest bundle es target kl) f)).
    destruct (check_entries_loop _ _ _ _ _ _ _ _) as [b g]. cbn [fst snd] in *. rewrite !andb_true_iff, Hcomp, Hl.
    rewrite negb_true_iff, bool_decide_eq_false. cbn [complete set_complete]. split.
    + intros [[Hall Hm] Hs]. exists root, covers, tenant. split_and!; try done. by apply Ht.
    + intros (r & c & t & [= <-] & [= <-] & [= ->]%Ht & Hall & Hm & Hs). done.
  - split; [done|]. intros (r & c & t & _ & _ & [=]%Ht & _).
Qed.

(** The checks on the chain, one after the other. *)
Lemma checks_true bundle es kl trust f : json_wf bundle = true ->
  (check_checkpoints_and_entries bundle es kl trust f).1 = true <->
  exists target chain_entries chain sparse cps, get bundle "target_checkpoint" = Some target /\
    get_array bundle "checkpoint_chain" = Some chain_entries /\
    mapM (fun entry => get entry "checkpoint") chain_entries = Some chain /\ chain <> [] /\
    (check_entry_set bundle es target chain kl trust f).1 = true /\ check_target_checkpoint target kl = true /\
    sparse_profile bundle = Some sparse /\ check_checkpoint_chain chain chain_entries kl sparse = true /\
    check_bundle_origin bundle target chain = true /\ chain_head_matches chain target = true /\ check_lineage es = true /\
    checkpoint_facts chain = Some cps /\ attestations_verified bundle chain (tsa_roots_pem trust) cps.
Proof.
  intros Hw. unfold check_checkpoints_and_entries. split.
  - intros (target & Ht & (ce & Hce & (chain & Hch & E)%found_true)%found_true)%found_true.
    destruct (zlen chain =? 0) eqn:Hne; [done|]. apply nonempty_zlen in Hne.
    destruct (check_entry_set _ _ _ _ _ _ _) as [b f1] eqn:Es.
    apply guard_true in E as [-> E]. apply guard_true in E as [Htc E]. apply found_true in E as (sparse & Hsp & E).
    apply guard_true in E as [Hcc E]. apply guard_true in E as [Hbo E]. apply guard_true in E as [Hhm E].
    apply guard_true in E as [Hli E]. apply found_true in E as (cps & Hcps & E).
    pose proof (proj1 (attestations_true bundle cps trust f1 chain Hcps)) as Ha.
    destruct (check_attestation_records _ _ _ _) as [b2 f2]. apply guard_true in E as [-> _].
    exists target, ce, chain, sparse, cps. rewrite Es. split_and!; auto.
  - intros (target & ce & chain & sparse & cps & Ht & Hce & Hch & Hne & Hes & Htc & Hsp & Hcc & Hbo & Hhm & Hli & Hcps & Ha).
    apply nonempty_zlen in Hne. rewrite Ht, Hce, Hch, Hne. destruct (check_entry_set _ _ _ _ _ _ _) as [b f1]. cbn in Hes. subst b.
    rewrite Htc, Hsp, Hcc, Hbo, Hhm, Hli, Hcps. cbn [negb].
    pose proof (proj2 (attestations_true bundle cps trust f1 chain Hcps) Ha) as Ho.
    destruct (check_attestation_records _ _ _ _) as [b2 f2]. cbn in Ho. by subst b2.
Qed.

Lemma head_matches_true chain target : chain_head_matches chain target = true <->
  exists head h, last chain = Some head /\ checkpoint_body_hash head = Some h /\ checkpoint_body_hash target = Some h.
Proof.
  unfold chain_head_matches. split.
  - intros E. case_step E. case_step E. apply String.eqb_eq in E as ->. apply bind_Some in E0 as (head & ? & ?). eauto.
  - intros (head & h & -> & Hh & ->). cbn [mbind option_bind]. rewrite Hh. apply String.eqb_refl.
Qed.

Lemma facts_ok bundle trust : f_ok (verify_bundle_facts bundle trust) = true <->
  let entries := unwrap_or (get_array bundle "entries") [] in let kl := replay_key_log entries in
  get_str bundle "schema" = Some "evd/bundle/v1"%string /\ within_caps bundle = true /\ entries <> [] /\
  (forall e body, e ∈ entries -> body_of (idx e "envelope") = Some body -> forbidden_managed_edge_cosign body (idx e "envelope") = false) /\
  ok kl = true /\ check_jwks_match_log bundle kl = true /\
  (check_checkpoints_and_entries bundle entries kl trust BundleFacts_default).1 = true.
Proof.
  unfold verify_bundle_facts. cbv zeta. set (entries := unwrap_or (get_array bundle "entries") []). set (kl := replay_key_log entries).
  rewrite <- opt_str_eqb_true, <- nonempty_zlen.
  assert (existsb (fun e => is_some_and (body_of (idx e "envelope")) (fun body =>
      forbidden_managed_edge_cosign body (idx e "envelope"))) entries = false <->
    forall e body, e ∈ entries -> body_of (idx e "envelope") = Some body ->
      forbidden_managed_edge_cosign body (idx e "envelope") = false) as <-.
  { rewrite existsb_false. split.
    - intros Hx e body He Hb. specialize (Hx e He). by rewrite Hb in Hx.
    - intros Hx e He. destruct (body_of (idx e "envelope")) as [body|] eqn:Eb; [|done]. by apply (Hx e body). }
  destruct (opt_str_eqb _ _); cbn [negb]; [|naive_solver]. destruct (within_caps bundle); cbn [negb]; [|naive_solver].
  destruct (zlen entries =? 0); [naive_solver|]. destruct (existsb _ _); [naive_solver|].
  destruct (ok kl); cbn [negb]; [|naive_solver]. destruct (check_jwks_match_log bundle kl); cbn [negb]; [|naive_solver].
  destruct (check_checkpoints_and_entries _ _ _ _ _) as [[] f]; cbn; naive_solver.
Qed.

End Exact.

(** ** Evidence *)
Section Evidence.
Context {H : Hash} {SD : Serde} {B : Base64} {ED : Ed25519} {T : Tsa}.

Lemma entry_recorder_attested_spec env kl trust :
  entry_recorder_attested env kl trust = true ->
  exists sigs s issuer key, get_array env "signatures" = Some sigs /\ 2 <= zlen sigs /\ s ∈ sigs /\ issuer ∈ sigs /\
    is_non_issuer kl (unwrap_or (get_str issuer "keyid") EmptyString) = false /\
    (exists st, state kl !! unwrap_or (get_str s "keyid") EmptyString = Some st /\ recorder st = true) /\
    key_for trust "recorder_keys" (Some (unwrap_or (get_str s "keyid") EmptyString)) = Some key /\
    keys kl !! unwrap_or (get_str s "keyid") EmptyString = Some key.
Proof.
  unfold entry_recorder_attested. intros E. case_step E. case_step E. rename l into sigs.
  apply orb_false_iff in E1 as [Hlen Hiss].
  assert (exists x, x ∈ sigs /\ is_non_issuer kl (unwrap_or (get_str x "keyid") EmptyString) = false) as (issuer & Hin & Hni).
  { clear -Hiss. induction sigs as [|x l IH]; [done|]. cbn in Hiss. apply andb_false_iff in Hiss as [Hx|Hl].
    - exists x. set_solver.
    - destruct (IH Hl) as (y & ? & ?). exists y. set_solver. }
  apply existsb_exists in E as (s & Hs & E). apply list_elem_of_In in Hs. unfold recorder_signature in E.
  case_step E. apply negb_false_iff, is_some_and_true in E1. case_step E. case_step E.
  apply then_some_Some in E3 as [_ <-]. apply bool_decide_eq_true in E.
  exists sigs, s, issuer, l. split_and!; try done. by apply Z.ltb_ge.
Qed.

(** A leaf reported as recorder-attested carries a dual attestation: beside a signature by an
    issuing key, a signature by a key the log registered as a recorder, whose very material the
    relying party named, and both verify over the receipt. *)
Theorem recorder_attestation_sound (bundle : json) (trust : option json) (leaf : Z) :
  leaf ∈ recorder_attested (verify_bundle_facts bundle trust) ->
  exists e payload sigs s issuer key issuer_key st, e ∈ unwrap_or (get_array bundle "entries") [] /\
    get_u64 e "leaf_index" = Some leaf /\ payload_of (idx e "envelope") = Some payload /\
    get_array (idx e "envelope") "signatures" = Some sigs /\ s ∈ sigs /\ issuer ∈ sigs /\
    let kl := replay_key_log (unwrap_or (get_array bundle "entries") []) in
    state kl !! unwrap_or (get_str s "keyid") EmptyString = Some st /\ recorder st = true /\
    key_for trust "recorder_keys" (Some (unwrap_or (get_str s "keyid") EmptyString)) = Some key /\
    signature s (pae RECEIPT_TYPE payload) key /\
    is_non_issuer kl (unwrap_or (get_str issuer "keyid") EmptyString) = false /\
    keys kl !! unwrap_or (get_str issuer "keyid") EmptyString = Some issuer_key /\
    signature issuer (pae RECEIPT_TYPE payload) issuer_key.
Proof.
  intros Hl. destruct (f_ok (verify_bundle_facts bundle trust)) eqn:Eok.
  2:{ assert (recorder_attested (verify_bundle_facts bundle trust) = []) as Hnil.
      { revert Eok. unfold verify_bundle_facts. do 4 (case_match; [done|]). destruct (ok _); cbn [negb]; [|done].
        destruct (check_jwks_match_log _ _); cbn [negb]; [|done].
        destruct (check_checkpoints_and_entries _ _ _ _ _) as [[] f]; done. }
      rewrite Hnil in Hl. by apply elem_of_nil in Hl. }
  destruct (verify_bundle_ok bundle trust Eok) as (es & kl & target & ce & chain & sparse & covers & root & tenant & Hv & _ & _ & _ & Hr).
  destruct (Hr leaf Hl) as (e & He & Hleaf & Ha). destruct Hv as [_ _ [Hes _] _ [Hkl _] _ _ _ _ _ _ _ _ Hent _ _ _]. subst es kl.
  apply entry_recorder_attested_spec in Ha as (sigs & s & issuer & key & Hs & _ & Hin & Hin' & Hni & (st & Hst & Hrec) & Htr & Hkey).
  specialize (Hent e He). apply check_entry_signatures in Hent as (payload & sigs' & Hp & Hs' & Hsig).
  rewrite Hs in Hs'. injection Hs' as <-. destruct (Hsig s Hin) as (k1 & Hk1 & Hv1). destruct (Hsig issuer Hin') as (k2 & Hk2 & Hv2).
  rewrite Hkey in Hk1. injection Hk1 as <-. exists e, payload, sigs, s, issuer, key, k2, st. split_and!; done.
Qed.

End Evidence.
