(* ===== verification/Pki.v ===== *)
(** * Pki: what tsa.rs takes from the CMS, X.509 and signature crates

    The crates der, x509-cert, cms, p256, p384, rsa and sha2 are third-party code.  Their
    public structs are records with the fields tsa.rs reads; their operations are the
    members of the class [Pki], in the order in which tsa.rs uses them; an [Err] or a
    [None] of the crate is [None].  Object identifiers are their dotted spelling, which is
    how the source writes its constants. *)
From S2P Require Import Prelude.

Abbreviation ObjectIdentifier := string (only parsing).

(** [der::Tag], of which the source tells apart the universal SEQUENCE and the
    context-specific tags; every other tag by its octet. *)
Inductive Tag :=
| Sequence
| ContextSpecific (constructed : bool) (number : Z)
| OtherTag (octet : u8).
(** [der::asn1::Any]: a tag and the bytes of its value; [AnyRef] borrows one. *)
Record Any := { any_tag : Tag; any_value : bytes }.

(** [x509_cert::spki::AlgorithmIdentifierOwned]. *)
Record AlgorithmIdentifier := { oid : ObjectIdentifier; parameters : option Any }.

#[export] Instance Tag_eq : EqDecision Tag.
Proof. solve_decision. Defined.
#[export] Instance Any_eq : EqDecision Any.
Proof. solve_decision. Defined.
#[export] Instance AlgorithmIdentifier_eq : EqDecision AlgorithmIdentifier.
Proof. solve_decision. Defined.

(** [x509_cert::name::Name]: a sequence of sets of attribute types and values. *)
Definition Name : Type := list (list (ObjectIdentifier * Any)).

(** [cms::content_info]. *)
Inductive CmsVersion := V0 | V1 | V2 | V3 | V4 | V5.
#[export] Instance CmsVersion_eq : EqDecision CmsVersion.
Proof. solve_decision. Defined.
Record ContentInfo := { content_type : ObjectIdentifier; content : Any }.
Record EncapsulatedContentInfo := { econtent_type : ObjectIdentifier; econtent : option Any }.

(** [x509_cert::attr::Attribute]; [Attributes] is a set of them. *)
Record Attribute := { attr_oid : ObjectIdentifier; values : list Any }.

(** [x509_cert::ext]: an extension, and the contents of the three that are read. *)
Record Extension := { extn_id : ObjectIdentifier; critical : bool; extn_value : bytes }.
Record BasicConstraints := { ca : bool; path_len_constraint : option u8 }.
Record KeyUsage := { key_cert_sign : bool }.
Definition ExtendedKeyUsage : Type := list ObjectIdentifier.

(** [cms::signed_data::SignerInfo] and the identifier it carries. *)
Record IssuerAndSerialNumber := { ias_issuer : Name; ias_serial_number : bytes }.
Inductive SignerIdentifier :=
| IssuerAndSerial (ias : IssuerAndSerialNumber)
| SubjectKeyIdentifier (ski : bytes).
Record SignerInfo := {
  si_version : CmsVersion;
  sid : SignerIdentifier;
  digest_alg : AlgorithmIdentifier;
  signed_attrs : option (list Attribute);
  si_signature_algorithm : AlgorithmIdentifier;
  si_signature : bytes;
}.

(** ** Opaque values: times, bit strings and the reader's cursor *)
Class PkiTypes := {
  SliceReader : Type;
  BitString : Type;
  GeneralizedTime : Type;
  Time : Type;
}.

Section Certificates.
Context {PT : PkiTypes}.

(** [x509_cert::certificate]. *)
Record Validity := { not_before : Time; not_after : Time }.
Record SubjectPublicKeyInfo := { spki_algorithm : AlgorithmIdentifier; subject_public_key : BitString }.
Record TbsCertificate := {
  serial_number : bytes;
  tbs_signature : AlgorithmIdentifier;
  issuer : Name;
  validity : Validity;
  subject : Name;
  subject_public_key_info : SubjectPublicKeyInfo;
  extensions : option (list Extension);
}.
Record Certificate := {
  tbs_certificate : TbsCertificate;
  signature_algorithm : AlgorithmIdentifier;
  signature : BitString;
}.
(** [cms::cert::CertificateChoices]. *)
Inductive CertificateChoices :=
| ChoiceCertificate (cert : Certificate)
| ChoiceOther (format : ObjectIdentifier).
End Certificates.

(** ** Operations *)

(** [ecdsa] at one curve: keys, DER signatures and the prehash verifier. *)
Class EcdsaCurve := {
  VerifyingKey : Type;
  EcSignature : Type;
  from_sec1_bytes : bytes -> option VerifyingKey;
  sig_from_der : bytes -> option EcSignature;
  verify_prehash : VerifyingKey -> bytes -> EcSignature -> bool;
}.

Class Pki {PT : PkiTypes} := {
  sha384_digest : bytes -> bytes;
  sha512_digest : bytes -> bytes;
  p256_curve : EcdsaCurve;
  p384_curve : EcdsaCurve;
  RsaPublicKey : Type;
  Pkcs1v15Sign : Type;
  rsa_from_pkcs1_der : bytes -> option RsaPublicKey;
  sign_sha256 : Pkcs1v15Sign;
  sign_sha384 : Pkcs1v15Sign;
  sign_sha512 : Pkcs1v15Sign;
  rsa_verify : RsaPublicKey -> Pkcs1v15Sign -> bytes -> bytes -> bool;
  (** the reader: [SliceReader::new], [is_finished], [T::decode] *)
  reader_new : bytes -> option SliceReader;
  is_finished : SliceReader -> bool;
  decode_oid : SliceReader -> option (ObjectIdentifier * SliceReader);
  decode_any : SliceReader -> option (Any * SliceReader);
  decode_u8 : SliceReader -> option (u8 * SliceReader);
  decode_int : SliceReader -> option (bytes * SliceReader);
  decode_octets : SliceReader -> option (bytes * SliceReader);
  decode_algorithm : SliceReader -> option (AlgorithmIdentifier * SliceReader);
  decode_generalized_time : SliceReader -> option (GeneralizedTime * SliceReader);
  (** whole values: [T::from_der], [Any::decode_as], [to_der] *)
  any_from_der : bytes -> option Any;
  any_to_der : Any -> option bytes;
  any_as_oid : Any -> option ObjectIdentifier;
  any_as_octets : Any -> option bytes;
  content_info_from_der : bytes -> option ContentInfo;
  crl_from_der : bytes -> bool;
  name_to_der : Name -> option bytes;
  attrs_to_der : list Attribute -> option bytes;
  cert_to_der : Certificate -> option bytes;
  tbs_to_der : TbsCertificate -> option bytes;
  bit_bytes : BitString -> option bytes;
  (** [TbsCertificate::get::<T>]: an error, no such extension, or its criticality and content *)
  get_basic_constraints : TbsCertificate -> option (option (bool * BasicConstraints));
  get_key_usage : TbsCertificate -> option (option (bool * KeyUsage));
  get_extended_key_usage : TbsCertificate -> option (option (bool * ExtendedKeyUsage));
  load_pem_chain : bytes -> option (list Certificate);
  (** [to_unix_duration], in nanoseconds, and [to_date_time().to_string()] *)
  generalized_unix : GeneralizedTime -> Z;
  time_unix : Time -> Z;
  date_time_string : GeneralizedTime -> string;
}.

(** What path building relies on: DER is one encoding per value, and a certificate encodes
    only when its to-be-signed part, a member of it, does. *)
Class PkiLaws {PT : PkiTypes} {P : Pki} : Prop := {
  cert_der_inj : forall c c' d, cert_to_der c = Some d -> cert_to_der c' = Some d -> c = c';
  cert_der_tbs : forall c d, cert_to_der c = Some d -> is_Some (tbs_to_der (tbs_certificate c));
}.
