(* ===== verification/Token.v ===== *)
(** * Token: RFC 3161 timestamp tokens (tsa.rs)

    One definition per function of tsa.rs, over the parsed values of [Pki]: the token's
    structure ([parse_token], [check_signer_info], [find_signer_cert]), signatures
    ([verify_sig]), the path builder shared by the carried-chain gate and the supplied-root
    upgrade ([walk_chain]), and [verified_tst], which composes them. *)
From S2P Require Import Prelude Hash Text Pki.

(** ** Object identifiers *)
Definition OID_SIGNED_DATA := "1.2.840.113549.1.7.2".
Definition OID_TST_INFO := "1.2.840.113549.1.9.16.1.4".
Definition OID_CONTENT_TYPE := "1.2.840.113549.1.9.3".
Definition OID_MESSAGE_DIGEST := "1.2.840.113549.1.9.4".
Definition OID_SHA256 := "2.16.840.1.101.3.4.2.1".
Definition OID_SHA384 := "2.16.840.1.101.3.4.2.2".
Definition OID_SHA512 := "2.16.840.1.101.3.4.2.3".
Definition OID_ECDSA_SHA256 := "1.2.840.10045.4.3.2".
Definition OID_ECDSA_SHA384 := "1.2.840.10045.4.3.3".
Definition OID_ECDSA_SHA512 := "1.2.840.10045.4.3.4".
Definition OID_EC_PUBLIC_KEY := "1.2.840.10045.2.1".
Definition OID_PRIME256V1 := "1.2.840.10045.3.1.7".
Definition OID_SECP384R1 := "1.3.132.0.34".
Definition OID_RSA_ENCRYPTION := "1.2.840.113549.1.1.1".
Definition OID_SHA256_RSA := "1.2.840.113549.1.1.11".
Definition OID_SHA384_RSA := "1.2.840.113549.1.1.12".
Definition OID_SHA512_RSA := "1.2.840.113549.1.1.13".
Definition OID_KEY_USAGE := "2.5.29.15".
Definition OID_SUBJECT_ALT_NAME := "2.5.29.17".
Definition OID_BASIC_CONSTRAINTS := "2.5.29.19".
Definition OID_NAME_CONSTRAINTS := "2.5.29.30".
Definition OID_EXTENDED_KEY_USAGE := "2.5.29.37".
Definition OID_ID_KP_TIME_STAMPING := "1.3.6.1.5.5.7.3.8".

(** [matches!(oid, A | B | ...)]. *)
Definition one_of (o : ObjectIdentifier) (l : list ObjectIdentifier) : bool := existsb (String.eqb o) l.

(** ** Signatures *)
Section Signatures.
Context {H : Hash} {PT : PkiTypes} {P : Pki}.

(** [fn hash_bytes]. *)
Definition hash_bytes (o : ObjectIdentifier) (data : bytes) : option bytes :=
  if String.eqb o OID_SHA256 then Some (sha256_digest data)
  else if String.eqb o OID_SHA384 then Some (sha384_digest data)
  else if String.eqb o OID_SHA512 then Some (sha512_digest data)
  else None.

(** [macro_rules! verify_ecdsa_curve]. *)
Definition verify_ecdsa_curve (curve : EcdsaCurve) (key sig digest : bytes) : bool :=
  let_some key := from_sec1_bytes key else false;
  let_some sig := sig_from_der sig else false;
  verify_prehash key digest sig.

(** [fn verify_ecdsa]. *)
Definition verify_ecdsa (spki : SubjectPublicKeyInfo) (sig digest : bytes) : bool :=
  reject_if negb (String.eqb (oid (spki_algorithm spki)) OID_EC_PUBLIC_KEY) with false;
  let curve := p ← parameters (spki_algorithm spki); any_as_oid p in
  let_some key_bytes := bit_bytes (subject_public_key spki) else false;
  match curve with
  | Some c =>
      if String.eqb c OID_PRIME256V1 then verify_ecdsa_curve p256_curve key_bytes sig digest
      else if String.eqb c OID_SECP384R1 then verify_ecdsa_curve p384_curve key_bytes sig digest
      else false
  | None => false
  end.

(** [fn verify_rsa]. *)
Definition verify_rsa (spki : SubjectPublicKeyInfo) (sig digest : bytes) (hash_oid : ObjectIdentifier) : bool :=
  reject_if negb (String.eqb (oid (spki_algorithm spki)) OID_RSA_ENCRYPTION) with false;
  let_some key_bytes := bit_bytes (subject_public_key spki) else false;
  let_some key := rsa_from_pkcs1_der key_bytes else false;
  let scheme :=
    if String.eqb hash_oid OID_SHA256 then Some sign_sha256
    else if String.eqb hash_oid OID_SHA384 then Some sign_sha384
    else if String.eqb hash_oid OID_SHA512 then Some sign_sha512
    else None in
  let_some scheme := scheme else false;
  rsa_verify key scheme digest sig.

(** [fn verify_sig]: the key chooses the family, the signature algorithm the hash. *)
Definition signature_hash (sig_alg digest_hint : ObjectIdentifier) : ObjectIdentifier :=
  if one_of sig_alg [OID_ECDSA_SHA256; OID_SHA256_RSA] then OID_SHA256
  else if one_of sig_alg [OID_ECDSA_SHA384; OID_SHA384_RSA] then OID_SHA384
  else if one_of sig_alg [OID_ECDSA_SHA512; OID_SHA512_RSA] then OID_SHA512
  else digest_hint.
Definition verify_sig (spki : SubjectPublicKeyInfo) (sig_alg digest_hint : ObjectIdentifier) (sig data : bytes) : bool :=
  let hash_oid := signature_hash sig_alg digest_hint in
  let_some digest := hash_bytes hash_oid data else false;
  if String.eqb (oid (spki_algorithm spki)) OID_RSA_ENCRYPTION then
    one_of sig_alg [OID_RSA_ENCRYPTION; OID_SHA256_RSA; OID_SHA384_RSA; OID_SHA512_RSA]
      && verify_rsa spki sig digest hash_oid
  else if String.eqb (oid (spki_algorithm spki)) OID_EC_PUBLIC_KEY then
    one_of sig_alg [OID_ECDSA_SHA256; OID_ECDSA_SHA384; OID_ECDSA_SHA512] && verify_ecdsa spki sig digest
  else false.
End Signatures.

(** ** The token's structure *)

(** [struct TstImprint] and [struct TimestampSignedData], whose DER decoder is derived. *)
Section Structs.
Context {PT : PkiTypes}.
Record TstImprint := { alg : ObjectIdentifier; digest : bytes; gen_time : GeneralizedTime }.
Record TimestampSignedData := {
  version : CmsVersion;
  digest_algorithms : list AlgorithmIdentifier;
  encap_content_info : EncapsulatedContentInfo;
  certificates : option (list CertificateChoices);
  crls : option (list Any);
  signer_infos : list SignerInfo;
}.
End Structs.
Class SignedDataDecode {PT : PkiTypes} := any_as_signed_data : Any -> option TimestampSignedData.

Section Token.
Context {H : Hash} {PT : PkiTypes} {P : Pki} {SDD : SignedDataDecode}.

(** [fn other_revocation_present]: [None] is a malformed item, [Some true] another format. *)
Definition other_revocation_item (item : Any) : option bool :=
  match any_tag item with
  | Sequence =>
      der ← any_to_der item;
      if crl_from_der der then Some false else None
  | ContextSpecific true 1 =>
      reader ← reader_new (any_value item);
      '(_, reader) ← decode_oid reader;
      '(_, reader) ← decode_any reader;
      reject_if negb (is_finished reader) with None;
      Some true
  | _ => None
  end.
Fixpoint other_revocation_loop (items : list Any) (other : bool) : option bool :=
  match items with
  | [] => Some other
  | item :: t => found ← other_revocation_item item; other_revocation_loop t (other || found)
  end.
Definition other_revocation_present (crls : option (list Any)) : option bool :=
  other_revocation_loop (unwrap_or crls []) false.

(** [fn parse_imprint]: the imprint is one SEQUENCE of the reader, read by a reader of its own. *)
Definition parse_imprint (r : SliceReader) : option ((ObjectIdentifier * bytes) * SliceReader) :=
  '(imprint, r) ← decode_any r;
  reject_if negb (bool_decide (any_tag imprint = Sequence)) with None;
  ir ← reader_new (any_value imprint);
  '(alg, ir) ← decode_algorithm ir;
  '(digest, _) ← decode_octets ir;
  Some ((oid alg, digest), r).

(** [fn parse_tst_info]. *)
Definition parse_tst_info (tst_der : bytes) : option TstImprint :=
  outer ← any_from_der tst_der;
  reject_if negb (bool_decide (any_tag outer = Sequence)) with None;
  r ← reader_new (any_value outer);
  '(v, r) ← decode_u8 r;
  reject_if negb (v =? 1) with None;
  '(_, r) ← decode_oid r;
  '((alg, digest), r) ← parse_imprint r;
  '(_, r) ← decode_int r;
  '(gen_time, _) ← decode_generalized_time r;
  Some {| alg := alg; digest := digest; gen_time := gen_time |}.

(** [fn parse_token]. *)
Definition is_other_choice (c : CertificateChoices) : bool :=
  match c with ChoiceOther _ => true | ChoiceCertificate _ => false end.
Definition parse_token (token_der : bytes) : option (TimestampSignedData * bytes * TstImprint) :=
  ci ← content_info_from_der token_der;
  reject_if negb (String.eqb (content_type ci) OID_SIGNED_DATA) with None;
  sd ← any_as_signed_data (content ci);
  reject_if negb (String.eqb (econtent_type (encap_content_info sd)) OID_TST_INFO) with None;
  let other_cert := is_some_and (certificates sd) (existsb is_other_choice) in
  other_revocation ← other_revocation_present (crls sd);
  reject_if negb (bool_decide (version sd = if other_cert || other_revocation then V5 else V3)) with None;
  content ← econtent (encap_content_info sd);
  tst_der ← any_as_octets content;
  info ← parse_tst_info tst_der;
  Some (sd, tst_der, info).

(** [fn signed_attribute]: the only attribute of its type, with one value. *)
Definition signed_attribute (attrs : list Attribute) (o : ObjectIdentifier) : option Any :=
  match filter (fun a => attr_oid a = o) attrs with
  | [attr] => match values attr with [v] => Some v | _ => None end
  | _ => None
  end.

(** [fn check_signer_info]. *)
Definition check_signer_info (sd : TimestampSignedData) (tst_der : bytes) : option SignerInfo :=
  match signer_infos sd with
  | [si] =>
      reject_if negb (bool_decide (si_version si = V1))
                || match sid si with IssuerAndSerial _ => false | _ => true end with None;
      signed_attrs ← signed_attrs si;
      reject_if match signed_attrs with [] => true | _ => false end with None;
      want ← hash_bytes (oid (digest_alg si)) tst_der;
      content_attr ← signed_attribute signed_attrs OID_CONTENT_TYPE;
      content_type ← any_as_oid content_attr;
      reject_if negb (String.eqb content_type OID_TST_INFO) with None;
      digest_attr ← signed_attribute signed_attrs OID_MESSAGE_DIGEST;
      message_digest ← any_as_octets digest_attr;
      reject_if negb (bytes_eqb message_digest want) with None;
      Some si
  | _ => None
  end.

(** [fn find_signer_cert]: the first certificate with that serial number and issuer; an
    issuer that does not encode ends the search when its serial number matches. *)
Fixpoint find_cert_loop (choices : list CertificateChoices) (ias : IssuerAndSerialNumber) (want_issuer : bytes)
    : option Certificate :=
  match choices with
  | [] => None
  | ChoiceCertificate cert :: t =>
      if bytes_eqb (serial_number (tbs_certificate cert)) (ias_serial_number ias) then
        der ← name_to_der (issuer (tbs_certificate cert));
        if bytes_eqb der want_issuer then Some cert else find_cert_loop t ias want_issuer
      else find_cert_loop t ias want_issuer
  | ChoiceOther _ :: t => find_cert_loop t ias want_issuer
  end.
Definition find_signer_cert (sd : TimestampSignedData) (si : SignerInfo) : option Certificate :=
  match sid si with
  | IssuerAndSerial ias =>
      want_issuer ← name_to_der (ias_issuer ias);
      choices ← certificates sd;
      find_cert_loop choices ias want_issuer
  | _ => None
  end.

(** ** Certificates *)

(** [fn cert_sig_valid]. *)
Definition cert_sig_valid (current issuer : Certificate) (tbs_der : bytes) : bool :=
  reject_if negb (bool_decide (signature_algorithm current = tbs_signature (tbs_certificate current))) with false;
  let_some sig := bit_bytes (signature current) else false;
  verify_sig (subject_public_key_info (tbs_certificate issuer)) (oid (signature_algorithm current))
    (oid (signature_algorithm current)) sig tbs_der.

(** [fn ca_constraint]: [None] is not a CA, [Some limit] a CA with its path length limit. *)
Definition ca_constraint (cert : Certificate) : option (option u8) :=
  '(_, bc) ← mjoin (get_basic_constraints (tbs_certificate cert));
  '(_, ku) ← mjoin (get_key_usage (tbs_certificate cert));
  then_some (ca bc && key_cert_sign ku) (path_len_constraint bc).

(** [fn is_timestamping_signer]. *)
Definition is_timestamping_signer (cert : Certificate) : bool :=
  match get_extended_key_usage (tbs_certificate cert) with
  | Some (Some (true, eku)) => bool_decide (eku = [OID_ID_KP_TIME_STAMPING])
  | _ => false
  end.

(** [fn gen_time_in_validity]. *)
Definition gen_time_in_validity (gen_time : GeneralizedTime) (cert : Certificate) : bool :=
  let g := generalized_unix gen_time in
  let v := validity (tbs_certificate cert) in
  (time_unix (not_before v) <=? g) && (g <=? time_unix (not_after v)).

(** [fn path_candidate_ok]; [below] counts certificates and is a [nat]. *)
Definition profile_ok (cert : Certificate) : bool :=
  is_none_or (extensions (tbs_certificate cert)) (forallb (fun ext =>
    negb (String.eqb (extn_id ext) OID_NAME_CONSTRAINTS)
    && (negb (critical ext)
        || one_of (extn_id ext) [OID_KEY_USAGE; OID_SUBJECT_ALT_NAME; OID_BASIC_CONSTRAINTS; OID_EXTENDED_KEY_USAGE]))).
Definition path_candidate_ok (current issuer : Certificate) (tbs : bytes) (supplied : bool)
    (at_ : option GeneralizedTime) (below : nat) : bool :=
  let constraint := if supplied then ca_constraint issuer else Some None in
  (negb supplied || profile_ok current && profile_ok issuer)
  && is_some constraint
  && is_none_or at_ (fun time => gen_time_in_validity time issuer)
  && is_none_or (mjoin constraint) (fun limit => Z.of_nat below <=? limit)
  && cert_sig_valid current issuer tbs.

(** ** The path builder

    [fn walk_chain].  The stack is a list with its top first; one turn of the [while]
    loop is [walk_step], the [for] loop over the candidates is [try_candidates]. *)
Record Walk := { stack : list (Certificate * nat); seen : gmap bytes nat }.
Inductive Turn := Found (b : bool) | Next (w : Walk).

Section Walk.
Context (pool : list Certificate) (roots_arg : option (list Certificate)) (at_ : option GeneralizedTime).

Definition supplied : bool := is_some roots_arg.
Definition roots : list Certificate := unwrap_or roots_arg [].
Definition root_ders : gset bytes := list_to_set (omap cert_to_der roots).

(** Is the subject of [cert] its issuer's name? *)
Definition self_issued (cert : Certificate) : bool :=
  bool_decide (subject (tbs_certificate cert) = issuer (tbs_certificate cert)).
Definition cas_below (current : Certificate) (ca_below : nat) : nat :=
  ca_below + (if is_some (ca_constraint current) && negb (self_issued current) then 1 else 0).
Definition candidates (current : Certificate) : list (Certificate * bytes) :=
  sort_by (fun a b => bytes_leb a.2 b.2)
    (omap (fun cert => (fun der => (cert, der)) <$> cert_to_der cert)
       (filter (fun c => subject (tbs_certificate c) = issuer (tbs_certificate current)) (roots ++ pool))).

Fixpoint try_candidates (current : Certificate) (tbs : bytes) (below : nat) (cs : list (Certificate * bytes))
    (stk : list (Certificate * nat)) : option (list (Certificate * nat)) :=
  match cs with
  | [] => Some stk
  | (iss, _) :: t =>
      if negb (path_candidate_ok current iss tbs supplied at_ below) then try_candidates current tbs below t stk
      else if negb supplied && self_issued iss then None
      else try_candidates current tbs below t ((iss, below) :: stk)
  end.

Definition walk_step (current : Certificate) (ca_below : nat) (rest : list (Certificate * nat))
    (seen : gmap bytes nat) : Turn :=
  let_some current_der := cert_to_der current else Next {| stack := rest; seen := seen |};
  reject_if supplied && bool_decide (current_der ∈ root_ders) with Found true;
  reject_if is_some_and (seen !! current_der) (fun best => (best <=? ca_below)%nat)
    with Next {| stack := rest; seen := seen |};
  let seen := <[current_der := ca_below]> seen in
  let below := cas_below current ca_below in
  let_some tbs := tbs_to_der (tbs_certificate current) else Found false;
  match try_candidates current tbs below (rev (candidates current)) rest with
  | None => Found true
  | Some stk => Next {| stack := stk; seen := seen |}
  end.

Fixpoint walk_loop (fuel : nat) (w : Walk) : option bool :=
  match fuel with
  | O => None
  | S fuel =>
      match stack w with
      | [] => Some false
      | (current, ca_below) :: rest =>
          match walk_step current ca_below rest (seen w) with
          | Found b => Some b
          | Next w => walk_loop fuel w
          end
      end
  end.

Definition walk_start (signer : Certificate) : Walk := {| stack := [(signer, O)]; seen := ∅ |}.
(** Enough turns: every certificate lowers its best count at most as often as there are counts,
    and a turn that lowers one pushes at most every certificate ([walk_loop_total]). *)
Definition walk_fuel : nat := let n := S (length roots + length pool) in n * S n * n + 2.
Definition walk_chain (signer : Certificate) : bool :=
  unwrap_or (walk_loop walk_fuel (walk_start signer)) false.
End Walk.

(** ** The verifier *)

(** [fn verified_tst]. *)
Definition verified_tst (token_der : bytes) (expected_digest_hex cert_chain_pem : string) (roots_pem : option string)
    : option (GeneralizedTime * bool) :=
  '(sd, tst_der, tst) ← parse_token token_der;
  reject_if negb (String.eqb (alg tst) OID_SHA256) || negb (String.eqb (hex (digest tst)) expected_digest_hex)
    with None;
  si ← check_signer_info sd tst_der;
  signer ← find_signer_cert sd si;
  attrs_der ← (a ← signed_attrs si; attrs_to_der a);
  let spki := subject_public_key_info (tbs_certificate signer) in
  reject_if negb (verify_sig spki (oid (si_signature_algorithm si)) (oid (digest_alg si)) (si_signature si) attrs_der)
    with None;
  pool ← load_pem_chain (str_bytes cert_chain_pem);
  let trusted := is_some_and (pem ← roots_pem; load_pem_chain (str_bytes pem)) (fun roots =>
    is_timestamping_signer signer && walk_chain pool (Some roots) (Some (gen_time tst)) signer) in
  reject_if negb (walk_chain pool None None signer) with None;
  then_some (gen_time_in_validity (gen_time tst) signer) (gen_time tst, trusted).

(** [fn verify_tst]. *)
Definition verify_tst (token_der : bytes) (expected_digest_hex cert_chain_pem : string) : bool :=
  is_some (verified_tst token_der expected_digest_hex cert_chain_pem None).
End Token.
