(* ===== verification/TokenPath.v ===== *)
(** * TokenPath: what the path builder of tsa.rs decides

    [Link] says declaratively when a certificate may follow another on a path, [Anchored]
    when a path from a certificate ends where the builder wants it to end, and [Path] spells
    the certificates of one out.  The theorems: the loop always ends within its fuel, what it
    finds is anchored, and whatever is anchored is found; its pruning of certificates seen
    with a smaller count of CAs loses no path. *)
From S2P Require Import Prelude Hash Text Pki Token.

(** ** Links and paths *)
Section Paths.
Context {H : Hash} {PT : PkiTypes} {P : Pki}.
Context (pool : list Certificate) (roots_arg : option (list Certificate)) (at_ : option GeneralizedTime).

Abbreviation supplied := (supplied roots_arg).
Abbreviation known := (roots roots_arg ++ pool).

(** The two algorithm fields agree and the issuer's key signed the encoded body. *)
Definition signed_by (current iss : Certificate) : Prop :=
  signature_algorithm current = tbs_signature (tbs_certificate current) /\
  exists sig tbs, bit_bytes (signature current) = Some sig /\ tbs_to_der (tbs_certificate current) = Some tbs /\
    verify_sig (subject_public_key_info (tbs_certificate iss)) (oid (signature_algorithm current))
      (oid (signature_algorithm current)) sig tbs = true.

(** RFC 5280: a CA certificate that may sign others, with room below it. *)
Definition may_sign (iss : Certificate) (below : nat) : Prop :=
  exists c bc c' ku, get_basic_constraints (tbs_certificate iss) = Some (Some (c, bc)) /\
    get_key_usage (tbs_certificate iss) = Some (Some (c', ku)) /\
    ca bc = true /\ key_cert_sign ku = true /\
    forall limit, path_len_constraint bc = Some limit -> Z.of_nat below <= limit.

(** No name constraints, and no critical extension that is not one of the four processed ones. *)
Definition understood (cert : Certificate) : Prop :=
  forall exts ext, extensions (tbs_certificate cert) = Some exts -> ext ∈ exts ->
    extn_id ext <> OID_NAME_CONSTRAINTS /\
    (critical ext = true ->
     extn_id ext ∈ [OID_KEY_USAGE; OID_SUBJECT_ALT_NAME; OID_BASIC_CONSTRAINTS; OID_EXTENDED_KEY_USAGE]).

Definition valid_at (cert : Certificate) (t : GeneralizedTime) : Prop :=
  time_unix (not_before (validity (tbs_certificate cert))) <= generalized_unix t <=
  time_unix (not_after (validity (tbs_certificate cert))).

(** [iss] may follow [current] when [below] certification authorities lie below [iss]. *)
Record Link (current iss : Certificate) (below : nat) : Prop := {
  link_known : iss ∈ known;
  link_name : subject (tbs_certificate iss) = issuer (tbs_certificate current);
  link_encodes : is_Some (cert_to_der iss);
  link_signed : signed_by current iss;
  link_time : forall t, at_ = Some t -> valid_at iss t;
  link_ca : supplied = true -> may_sign iss below;
  link_profile : supplied = true -> understood current /\ understood iss;
}.

(** Byte-identical to a supplied root. *)
Definition is_root (cert : Certificate) : Prop :=
  exists root der, root ∈ roots roots_arg /\ cert_to_der root = Some der /\ cert_to_der cert = Some der.

(** A path from [current], with [n] authorities below it, ends: at a supplied root, or,
    without supplied roots, at a carried issuer that is its own issuer by name. *)
Inductive Anchored : Certificate -> nat -> Prop :=
| anchored_root current n : supplied = true -> is_root current -> Anchored current n
| anchored_self current n iss :
    supplied = false -> is_Some (cert_to_der current) -> Link current iss (cas_below current n) ->
    self_issued iss = true -> Anchored current n
| anchored_link current n iss :
    is_Some (cert_to_der current) -> Link current iss (cas_below current n) ->
    Anchored iss (cas_below current n) -> Anchored current n.

(** The certificates of a path in order: every link is counted over the authorities before
    it, those that are not issued by themselves. *)
Definition cas (certs : list Certificate) : nat :=
  length (List.filter (fun c => is_some (ca_constraint c) && negb (self_issued c)) certs).
Definition CertPath (path : list Certificate) : Prop :=
  forall pre current iss post, path = pre ++ current :: iss :: post -> Link current iss (cas (pre ++ [current])).
End Paths.

(** ** The tests the builder makes, declaratively *)
Section Tests.
Context {H : Hash} {PT : PkiTypes} {P : Pki}.
Context (pool : list Certificate) (roots_arg : option (list Certificate)) (at_ : option GeneralizedTime).
Abbreviation supplied := (supplied roots_arg).

Lemma one_of_true o l : one_of o l = true <-> o ∈ l.
Proof.
  unfold one_of. rewrite existsb_exists. setoid_rewrite String.eqb_eq. setoid_rewrite <- list_elem_of_In.
  split; [by intros (x & ? & ->)|eauto].
Qed.

Lemma profile_ok_true cert : profile_ok cert = true <-> understood cert.
Proof.
  unfold profile_ok, understood. rewrite is_none_or_true. setoid_rewrite forallb_forall.
  setoid_rewrite <- list_elem_of_In. split.
  - intros Hp exts ext E Hin. specialize (Hp _ E _ Hin). bool_prop. split; [by apply String.eqb_neq|].
    intros Hc. rewrite Hc in *. apply one_of_true. by destruct_or?.
  - intros Hp exts E ext Hin. destruct (Hp _ _ E Hin) as [Hn Hc]. apply String.eqb_neq in Hn. rewrite Hn. cbn [negb andb].
    destruct (critical ext); [|done]. by apply one_of_true, Hc.
Qed.

Lemma ca_constraint_Some cert limit : ca_constraint cert = Some limit <->
  exists c bc c' ku, get_basic_constraints (tbs_certificate cert) = Some (Some (c, bc)) /\
    get_key_usage (tbs_certificate cert) = Some (Some (c', ku)) /\
    ca bc = true /\ key_cert_sign ku = true /\ path_len_constraint bc = limit.
Proof.
  unfold ca_constraint. split.
  - destruct (get_basic_constraints _) as [[[c bc]|]|], (get_key_usage _) as [[[c' ku]|]|]; try done.
    cbn. rewrite then_some_Some, andb_true_iff. intros [[? ?] ?]. eauto 10.
  - intros (c & bc & c' & ku & -> & -> & Hc & Hk & <-). cbn. by rewrite Hc, Hk.
Qed.

Lemma may_sign_spec cert below : may_sign cert below <->
  exists limit, ca_constraint cert = Some limit /\ forall l, limit = Some l -> Z.of_nat below <= l.
Proof.
  setoid_rewrite ca_constraint_Some. unfold may_sign. split.
  - intros (c & bc & c' & ku & ? & ? & ? & ? & ?). exists (path_len_constraint bc). eauto 12.
  - intros (limit & (c & bc & c' & ku & ? & ? & ? & ? & <-) & ?). eauto 10.
Qed.

Lemma cert_sig_valid_spec current iss tbs : tbs_to_der (tbs_certificate current) = Some tbs ->
  cert_sig_valid current iss tbs = true <-> signed_by current iss.
Proof.
  intros Et. unfold cert_sig_valid, signed_by. split.
  - case_bool_decide as Ha; [|done]. cbn [negb]. destruct (bit_bytes _) as [sig|]; [|done]. eauto 10.
  - intros (Ha & sig & tbs' & -> & Et' & Hv). rewrite bool_decide_eq_true_2 by done. cbn [negb]. congruence.
Qed.

Lemma gen_time_in_validity_true t cert : gen_time_in_validity t cert = true <-> valid_at cert t.
Proof. unfold gen_time_in_validity, valid_at. rewrite andb_true_iff, !Z.leb_le. done. Qed.

Lemma constraint_ok iss below :
  is_some (ca_constraint iss) && is_none_or (mjoin (ca_constraint iss)) (fun limit => Z.of_nat below <=? limit) = true
  <-> may_sign iss below.
Proof.
  rewrite may_sign_spec, andb_true_iff, is_none_or_true. setoid_rewrite Z.leb_le.
  destruct (ca_constraint iss) as [limit|]; cbn.
  - split; [intros [_ ?]; eauto|]. intros (? & [= <-] & ?). eauto.
  - split; [by intros [? _]|by intros (? & ? & _)].
Qed.

Lemma path_candidate_ok_spec current iss tbs below : tbs_to_der (tbs_certificate current) = Some tbs ->
  path_candidate_ok current iss tbs supplied at_ below = true <->
  signed_by current iss /\ (forall t, at_ = Some t -> valid_at iss t) /\
  (supplied = true -> may_sign iss below) /\ (supplied = true -> understood current /\ understood iss).
Proof.
  intros Et. rewrite <- constraint_ok, <- !profile_ok_true, <- (cert_sig_valid_spec _ _ _ Et).
  setoid_rewrite <- gen_time_in_validity_true. rewrite <- is_none_or_true. unfold path_candidate_ok.
  rewrite !andb_true_iff. destruct supplied; cbn [negb orb]; [rewrite andb_true_iff; tauto|].
  cbn [is_some mjoin option_join is_none_or]. intuition congruence.
Qed.
End Tests.

(** ** One turn of the loop *)
Section Turn.
Context {H : Hash} {PT : PkiTypes} {P : Pki}.
Context (pool : list Certificate) (roots_arg : option (list Certificate)) (at_ : option GeneralizedTime).
Abbreviation supplied := (supplied roots_arg).
Abbreviation known := (roots roots_arg ++ pool).
Abbreviation Link := (Link pool roots_arg at_).

(** The cases of [walk_step], with what the candidates loop leaves. *)
Inductive StepView (current : Certificate) (n : nat) (rest : list (Certificate * nat)) (sn : gmap bytes nat) : Turn -> Prop :=
| view_opaque : cert_to_der current = None -> StepView current n rest sn (Next {| stack := rest; seen := sn |})
| view_root : supplied = true -> is_root roots_arg current -> StepView current n rest sn (Found true)
| view_seen der best : cert_to_der current = Some der -> sn !! der = Some best -> (best <= n)%nat ->
    StepView current n rest sn (Next {| stack := rest; seen := sn |})
| view_no_body der : cert_to_der current = Some der -> tbs_to_der (tbs_certificate current) = None ->
    StepView current n rest sn (Found false)
| view_self iss : is_Some (cert_to_der current) -> supplied = false -> Link current iss (cas_below current n) ->
    self_issued iss = true -> StepView current n rest sn (Found true)
| view_push der stk : cert_to_der current = Some der ->
    (forall best, sn !! der = Some best -> (n < best)%nat) ->
    (supplied = true -> ~ is_root roots_arg current) ->
    (supplied = false -> forall iss, Link current iss (cas_below current n) -> self_issued iss = false) ->
    (forall e, e ∈ stk <-> e ∈ rest \/ exists iss, Link current iss (cas_below current n) /\ e = (iss, cas_below current n)) ->
    (length stk <= length rest + length known)%nat ->
    StepView current n rest sn (Next {| stack := stk; seen := <[der := n]> sn |}).

Lemma elem_of_candidates current iss d : (iss, d) ∈ candidates pool roots_arg current <->
  iss ∈ known /\ subject (tbs_certificate iss) = issuer (tbs_certificate current) /\ cert_to_der iss = Some d.
Proof.
  unfold candidates. rewrite sort_by_perm, list_elem_of_omap. setoid_rewrite list_elem_of_filter. split.
  - intros (x & [? ?] & E). destruct (cert_to_der x) eqn:Ed; [|done]. cbn in E. simplify_eq. done.
  - intros (? & ? & E). exists iss. by rewrite E.
Qed.
Lemma length_candidates current : (length (candidates pool roots_arg current) <= length known)%nat.
Proof.
  unfold candidates. rewrite sort_by_perm. etrans; [apply length_omap_le|]. apply length_filter.
Qed.

Lemma candidate_link current iss tbs below : tbs_to_der (tbs_certificate current) = Some tbs ->
  ((exists d, (iss, d) ∈ candidates pool roots_arg current) /\ path_candidate_ok current iss tbs supplied at_ below = true)
  <-> Link current iss below.
Proof.
  intros Et. rewrite (path_candidate_ok_spec roots_arg at_ current iss tbs below Et). setoid_rewrite elem_of_candidates. split.
  - intros ((d & ? & ? & ?) & ? & ? & ? & ?). by split.
  - intros [? ? [d ?] ? ? ? ?]. split_and!; eauto.
Qed.

Lemma try_candidates_eq current tbs below cs : forall stk,
  try_candidates roots_arg at_ current tbs below cs stk =
  let ok c := path_candidate_ok current c.1 tbs supplied at_ below in
  if existsb (fun c : Certificate * bytes => ok c && (negb supplied && self_issued c.1)) cs then None
  else Some (rev (map (fun c => (c.1, below)) (List.filter ok cs)) ++ stk).
Proof.
  induction cs as [|[iss d] cs IH]; intros stk; cbn [try_candidates existsb List.filter fst]; [done|].
  cbn zeta in IH. destruct (path_candidate_ok _ _ _ _ _ _); cbn [negb andb orb map rev]; [|apply IH].
  destruct (negb supplied && self_issued iss); cbn [orb]; [done|]. rewrite IH.
  destruct (existsb _ _); [done|]. by rewrite <- app_assoc.
Qed.

Lemma try_candidates_spec current tbs below stk : tbs_to_der (tbs_certificate current) = Some tbs ->
  match try_candidates roots_arg at_ current tbs below (rev (candidates pool roots_arg current)) stk with
  | None => supplied = false /\ exists iss, Link current iss below /\ self_issued iss = true
  | Some stk' =>
      (supplied = false -> forall iss, Link current iss below -> self_issued iss = false) /\
      (forall e, e ∈ stk' <-> e ∈ stk \/ exists iss, Link current iss below /\ e = (iss, below)) /\
      (length stk' <= length stk + length known)%nat
  end.
Proof.
  intros Et. rewrite try_candidates_eq. cbn zeta.
  destruct (existsb _ _) eqn:Ex; setoid_rewrite <- (fun iss => candidate_link current iss tbs below Et).
  - apply existsb_exists in Ex as ([iss d] & Hin & Hx). rewrite <- list_elem_of_In, elem_of_rev in Hin. bool_prop. eauto 10.
  - rewrite existsb_false in Ex. split_and!.
    + intros Hsup iss [[d Hin] Hok]. apply elem_of_rev in Hin. specialize (Ex _ Hin). cbn in Ex. by rewrite Hok, Hsup in Ex.
    + intros e. rewrite elem_of_app, Logic.or_comm. apply or_iff_compat_l. rewrite elem_of_rev, list_elem_of_In, in_map_iff.
      setoid_rewrite filter_In. setoid_rewrite <- list_elem_of_In. setoid_rewrite elem_of_rev. split.
      * intros ([iss d] & <- & ? & ?). eauto 10.
      * intros (iss & [[d ?] ?] & ->). by exists (iss, d).
    + rewrite length_app, length_rev, length_map. pose proof (filter_length_le (fun c => path_candidate_ok current c.1 tbs supplied at_ below) (rev (candidates pool roots_arg current))).
      rewrite length_rev in *. pose proof (length_candidates current). lia.
Qed.

Lemma elem_of_root_ders der : der ∈ root_ders roots_arg <-> exists root, root ∈ roots roots_arg /\ cert_to_der root = Some der.
Proof. unfold root_ders. rewrite elem_of_list_to_set, list_elem_of_omap. done. Qed.

Lemma walk_step_view current n rest sn : StepView current n rest sn (walk_step pool roots_arg at_ current n rest sn).
Proof.
  unfold walk_step. destruct (cert_to_der current) as [der|] eqn:Ed; [|by constructor].
  destruct (supplied && _) eqn:Er. { apply andb_true_iff in Er as [Hsup (root & ? & ?)%bool_decide_eq_true%elem_of_root_ders].
    apply view_root; [done|by exists root, der]. }
  destruct (is_some_and _ _) eqn:Es. { bool_prop. destruct Es as (best & ? & ?%Nat.leb_le). by eapply view_seen. }
  destruct (tbs_to_der _) as [tbs|] eqn:Et; [|by eapply view_no_body].
  pose proof (try_candidates_spec current tbs (cas_below current n) rest Et) as Hc.
  destruct (try_candidates _ _ _ _ _ _ _) as [stk|].
  - destruct Hc as (Hs & He & Hl). apply view_push; [done| | |done..].
    + intros best Eb. rewrite Eb in Es. cbn in Es. by apply Nat.leb_gt in Es.
    + intros Hsup (root & d & Hin & Hd & Hd'). rewrite Hsup in Er. cbn in Er. apply bool_decide_eq_false in Er.
      apply Er, elem_of_root_ders. exists root. split; [done|congruence].
  - destruct Hc as (Hs & iss & Hl & Hself). by apply (view_self _ _ _ _ iss).
Qed.
End Turn.

(** ** The loop ends *)
Section Termination.
Context {H : Hash} {PT : PkiTypes} {P : Pki}.
Context (pool : list Certificate) (roots_arg : option (list Certificate)) (at_ : option GeneralizedTime).
Context (signer : Certificate).
Abbreviation known := (roots roots_arg ++ pool).

(** The encodings a turn can meet, and how many there can be. *)
Let D : list bytes := omap cert_to_der (signer :: known).
Let n : nat := S (length known).

Definition best_or (sn : gmap bytes nat) (d : bytes) : nat := from_option id (S n) (sn !! d).
Definition potential (sn : gmap bytes nat) : nat := sum_list_with (best_or sn) D.
Definition turns (w : Walk) : nat := potential (seen w) * n + length (stack w).

Record WalkInv (w : Walk) : Prop := {
  inv_stack : forall c m, (c, m) ∈ stack w -> c ∈ signer :: known /\ (m <= size (seen w))%nat;
  inv_dom : dom (seen w) ⊆ (list_to_set D : gset bytes);
  inv_seen : forall d m, seen w !! d = Some m -> (m <= size (seen w))%nat;
}.

Lemma sum_list_with_lt {A} (f g : A -> nat) l x : x ∈ l -> (forall y, (f y <= g y)%nat) -> (f x < g x)%nat ->
  (sum_list_with f l < sum_list_with g l)%nat.
Proof.
  intros Hx Hle Hlt. assert (forall k, (sum_list_with f k <= sum_list_with g k)%nat) as Hs.
  { induction k as [|y k IH]; cbn; [done|]. specialize (Hle y). lia. }
  induction Hx as [? l|? y l Hx IH]; cbn; [specialize (Hs l); lia|specialize (Hle y); specialize (IH Hlt); lia].
Qed.

Lemma length_D : (length D <= n)%nat.
Proof. unfold D, n. etrans; [apply length_omap_le|]. done. Qed.
Lemma seen_small w : WalkInv w -> (size (seen w) <= n)%nat.
Proof.
  intros [_ Hd _]. rewrite <- (size_dom (D := gset bytes)). etrans; [by apply subseteq_size|]. etrans; [apply size_list_to_set_le|apply length_D].
Qed.

Lemma size_insert_dom (sn : gmap bytes nat) d m : (size sn <= size (<[d := m]> sn))%nat.
Proof. rewrite <- !(size_dom (D := gset bytes)). apply subseteq_size. set_solver. Qed.
Lemma size_insert_fresh (sn : gmap bytes nat) d m : sn !! d = None -> size (<[d := m]> sn) = S (size sn).
Proof. apply map_size_insert_None. Qed.

(** The count given to the candidates stays within the number of certificates seen. *)
Lemma cas_below_small (sn : gmap bytes nat) c d m : (m <= size sn)%nat -> (forall b, sn !! d = Some b -> (m < b)%nat) ->
  (forall b, sn !! d = Some b -> (b <= size sn)%nat) ->
  (cas_below c m <= size (<[d := m]> sn))%nat.
Proof.
  intros Hm Hf Hs. assert (cas_below c m <= S m)%nat by (unfold cas_below; case_match; lia).
  destruct (sn !! d) as [b|] eqn:E; [|rewrite size_insert_fresh by done; lia].
  specialize (Hf b eq_refl). specialize (Hs b eq_refl). pose proof (size_insert_dom sn d m). lia.
Qed.

Lemma walk_inv_push w c m rest d stk : WalkInv w -> stack w = (c, m) :: rest -> cert_to_der c = Some d ->
  (forall b, seen w !! d = Some b -> (m < b)%nat) ->
  (forall e, e ∈ stk <-> e ∈ rest \/ exists iss, Link pool roots_arg at_ c iss (cas_below c m) /\ e = (iss, cas_below c m)) ->
  WalkInv {| stack := stk; seen := <[d := m]> (seen w) |}.
Proof.
  intros [Hst Hd Hs] Es Ed Hf He. destruct (Hst c m) as [Hc Hm]; [rewrite Es; by left|].
  pose proof (size_insert_dom (seen w) d m). split; cbn [stack seen].
  - intros c' m' [Hin|(iss & [] & [= -> ->])]%He.
    + destruct (Hst c' m'); [rewrite Es; by right|]. split; [done|lia].
    + split; [by right|]. by apply cas_below_small; [..|apply Hs].
  - rewrite dom_insert. apply union_subseteq. split; [|done]. apply singleton_subseteq_l, elem_of_list_to_set, list_elem_of_omap. eauto.
  - intros d' m' [[_ <-]|[_ Hl%Hs]]%lookup_insert_Some; lia.
Qed.
Lemma walk_inv_pop w e rest : WalkInv w -> stack w = e :: rest -> WalkInv {| stack := rest; seen := seen w |}.
Proof. intros [Hst Hd Hs] Es. split; cbn; [|done..]. intros c m Hin. apply Hst. rewrite Es. by right. Qed.

Lemma potential_drops w c m rest d : WalkInv w -> stack w = (c, m) :: rest -> cert_to_der c = Some d ->
  (forall b, seen w !! d = Some b -> (m < b)%nat) -> (potential (<[d := m]> (seen w)) < potential (seen w))%nat.
Proof.
  intros Hw Es Ed Hf. pose proof (seen_small w Hw). destruct Hw as [Hst Hd Hs].
  destruct (Hst c m) as [Hc Hm]; [rewrite Es; by left|].
  assert (m < best_or (seen w) d)%nat as Hlt.
  { unfold best_or. destruct (seen w !! d) as [b|]; cbn; [by apply Hf|lia]. }
  apply (sum_list_with_lt _ _ _ d); [apply list_elem_of_omap; eauto| |].
  - intros d'. unfold best_or at 1. destruct (decide (d = d')) as [<-|Hne].
    + rewrite lookup_insert_eq. cbn. lia.
    + by rewrite lookup_insert_ne by done.
  - unfold best_or at 1. rewrite lookup_insert_eq. done.
Qed.

Lemma walk_loop_ends fuel : forall w, WalkInv w -> (turns w < fuel)%nat -> is_Some (walk_loop pool roots_arg at_ fuel w).
Proof.
  induction fuel as [|fuel IH]; intros w Hw Hf; [lia|]. cbn [walk_loop].
  destruct (stack w) as [|[c m] rest] eqn:Es; [done|]. unfold turns in *. rewrite Es in Hf. cbn [length] in Hf.
  destruct (walk_step_view pool roots_arg at_ c m rest (seen w)) as [| | | | |d stk Ed Hfr _ _ He Hl]; try done;
    [apply IH; [by eapply walk_inv_pop|cbn [seen stack]; lia]..|].
  apply IH; [by eapply walk_inv_push|]. cbn [seen stack]. pose proof (potential_drops w c m rest d Hw Es Ed Hfr).
  unfold n in *. nia.
Qed.

Lemma walk_start_inv : WalkInv (walk_start signer).
Proof.
  split; cbn [stack seen walk_start].
  - intros c m [= -> ->]%list_elem_of_singleton. split; [by left|lia].
  - by rewrite dom_empty.
  - intros d m Hl. by rewrite lookup_empty in Hl.
Qed.
Lemma walk_start_turns : (turns (walk_start signer) < walk_fuel pool roots_arg)%nat.
Proof.
  unfold turns, walk_fuel. cbn [seen stack walk_start length]. rewrite <- length_app. fold n.
  assert (forall l, sum_list_with (best_or ∅) l = length l * S n)%nat as Hs.
  { induction l as [|d l IHl]; cbn; [done|]. rewrite IHl. unfold best_or. rewrite lookup_empty. done. }
  unfold potential. rewrite Hs. pose proof length_D. assert (length D * S n * n <= n * S n * n)%nat by nia. lia.
Qed.

Lemma walk_loop_more fuel : forall w b fuel', walk_loop pool roots_arg at_ fuel w = Some b -> (fuel <= fuel')%nat ->
  walk_loop pool roots_arg at_ fuel' w = Some b.
Proof.
  induction fuel as [|fuel IH]; intros w b [|fuel'] E Hle; try done; [lia|]. cbn [walk_loop] in *.
  destruct (stack w) as [|[c m] rest]; [done|]. destruct (walk_step _ _ _ _ _ _ _); [done|]. apply IH; [done|lia].
Qed.

Lemma walk_loop_chain : walk_loop pool roots_arg at_ (walk_fuel pool roots_arg) (walk_start signer)
  = Some (walk_chain pool roots_arg at_ signer).
Proof.
  destruct (walk_loop_ends _ _ walk_start_inv walk_start_turns) as [b E]. unfold walk_chain. by rewrite E.
Qed.
End Termination.

(** ** What is found is anchored *)
Section Soundness.
Context {H : Hash} {PT : PkiTypes} {P : Pki}.
Context (pool : list Certificate) (roots_arg : option (list Certificate)) (at_ : option GeneralizedTime).
Abbreviation Anchored := (Anchored pool roots_arg at_).

Lemma walk_loop_sound fuel : forall w, walk_loop pool roots_arg at_ fuel w = Some true ->
  exists c n, (c, n) ∈ stack w /\ Anchored c n.
Proof.
  induction fuel as [|fuel IH]; intros w; cbn [walk_loop]; [done|].
  destruct (stack w) as [|[c n] rest]; [done|]. setoid_rewrite elem_of_cons.
  destruct (walk_step_view pool roots_arg at_ c n rest (seen w)) as [Ed|Hs Hr|d b Ed|d Ed|i|d stk Ed Hf Hr Hs He]; intros E;
    try apply IH in E as (c' & n' & Hin & Ha); cbn [stack] in *; try done; eauto.
  - exists c, n. split; [by left|]. by apply anchored_root.
  - exists c, n. split; [by left|]. by eapply anchored_self.
  - apply He in Hin as [Hin|(iss & Hl & [= -> ->])]; [eauto|].
    exists c, n. split; [by left|]. apply (anchored_link _ _ _ _ _ iss); rewrite ?Ed; done.
Qed.

Lemma walk_chain_anchored signer : walk_chain pool roots_arg at_ signer = true -> Anchored signer 0.
Proof.
  intros E. pose proof (walk_loop_chain pool roots_arg at_ signer) as Hw. rewrite E in Hw.
  apply walk_loop_sound in Hw as (c & n & [= -> ->]%list_elem_of_singleton & Ha). done.
Qed.

Lemma cas_app l l' : cas (l ++ l') = (cas l + cas l')%nat.
Proof. unfold cas. by rewrite List.filter_app, length_app. Qed.
Lemma cas_below_cas c n : cas_below c n = (n + cas [c])%nat.
Proof. unfold cas_below, cas. cbn. by destruct (_ && _). Qed.

(** The certificates of an anchored path, when roots were supplied. *)
Lemma anchored_path c n : supplied roots_arg = true -> Anchored c n ->
  exists rest root, last (c :: rest) = Some root /\ is_root roots_arg root /\
    forall pre cur iss post, c :: rest = pre ++ cur :: iss :: post ->
      Link pool roots_arg at_ cur iss (n + cas (pre ++ [cur])).
Proof.
  intros Hs. induction 1 as [c n _ Hr|c n iss Hf|c n iss Hd Hl Ha (rest & root & El & Hr & IH)]; [|congruence|].
  - exists [], c. split_and!; [done|done|]. intros [|? [|]] ? ? ?; done.
  - exists (iss :: rest), root. split_and!; [by rewrite last_cons_cons|done|].
    intros [|c' pre] cur i post [= -> E].
    + inversion E; subst. cbn [app]. by rewrite <- cas_below_cas.
    + specialize (IH pre cur i post E). rewrite cas_below_cas in IH. 
      change ((c' :: pre) ++ [cur]) with ([c'] ++ (pre ++ [cur])). by rewrite cas_app, Nat.add_assoc.
Qed.

Lemma path_anchored rest : forall c n root, supplied roots_arg = true -> is_Some (cert_to_der c) ->
  last (c :: rest) = Some root -> is_root roots_arg root ->
  (forall pre cur iss post, c :: rest = pre ++ cur :: iss :: post -> Link pool roots_arg at_ cur iss (n + cas (pre ++ [cur]))) ->
  Anchored c n.
Proof.
  induction rest as [|iss rest IH]; intros c n root Hs Hd El Hr Hp.
  - injection El as ->. by apply anchored_root.
  - pose proof (Hp [] c iss rest eq_refl) as Hl. cbn [app] in Hl. rewrite <- cas_below_cas in Hl.
    apply (anchored_link _ _ _ _ _ iss); [done..|]. apply (IH _ _ root); [done|apply Hl|by rewrite last_cons_cons in El|done|].
    intros pre cur i post E. specialize (Hp (c :: pre) cur i post). rewrite cas_below_cas, <- Nat.add_assoc, <- cas_app.
    apply Hp. by rewrite E.
Qed.

Lemma trusted_path signer : supplied roots_arg = true -> walk_chain pool roots_arg at_ signer = true ->
  exists path root, head path = Some signer /\ last path = Some root /\ is_root roots_arg root /\
    CertPath pool roots_arg at_ path.
Proof.
  intros Hs Hw. apply walk_chain_anchored, (anchored_path _ _ Hs) in Hw as (rest & root & El & Hr & Hp).
  by exists (signer :: rest), root.
Qed.
End Soundness.

(** ** What is anchored is found *)
Section Completeness.
Context {H : Hash} {PT : PkiTypes} {P : Pki} {PL : PkiLaws}.
Context (pool : list Certificate) (roots_arg : option (list Certificate)) (at_ : option GeneralizedTime).
Abbreviation Anchored := (Anchored pool roots_arg at_).
Abbreviation Link := (Link pool roots_arg at_).

Lemma link_fewer c i n m : (m <= n)%nat -> Link c i n -> Link c i m.
Proof.
  intros Hle [? ? ? ? ? Hca ?]. split; try done. intros Hs.
  destruct (Hca Hs) as (? & bc & ? & ku & ? & ? & ? & ? & Hl). repeat eexists; try done.
  intros l El. specialize (Hl l El). lia.
Qed.
Lemma cas_below_mono c n m : (m <= n)%nat -> (cas_below c m <= cas_below c n)%nat.
Proof. unfold cas_below. lia. Qed.
Lemma anchored_encodes c n : Anchored c n -> is_Some (cert_to_der c).
Proof. by intros [? ? ? (? & ? & ? & ? & ->)| |]. Qed.

(** A certificate the rest of the run answers for: on the stack, or seen, with no larger count. *)
Definition covered (w : Walk) (c : Certificate) (n : nat) : Prop :=
  (exists m, (m <= n)%nat /\ (c, m) ∈ stack w) \/
  (exists d m, cert_to_der c = Some d /\ seen w !! d = Some m /\ (m <= n)%nat).

(** Whatever was seen is not an end of a path, and its links are covered. *)
Definition Settled (w : Walk) (c : Certificate) (m : nat) : Prop :=
  (supplied roots_arg = true -> ~ is_root roots_arg c) /\
  forall iss, Link c iss (cas_below c m) ->
    (supplied roots_arg = false -> self_issued iss = false) /\ covered w iss (cas_below c m).
Definition Closed (w : Walk) : Prop :=
  forall c d m, cert_to_der c = Some d -> seen w !! d = Some m -> Settled w c m.

(** [w'] still answers for everything [w] did. *)
Definition Keeps (w w' : Walk) : Prop :=
  forall c n, is_Some (cert_to_der c) -> covered w c n -> covered w' c n.

Lemma covered_more w c n m : (n <= m)%nat -> covered w c n -> covered w c m.
Proof. intros Hle [(k & ? & ?)|(d & k & ? & ? & ?)]; [left; exists k|right; exists d, k]; split_and!; done || lia. Qed.
Lemma settled_kept w w' c m : Keeps w w' -> Settled w c m -> Settled w' c m.
Proof.
  intros Hk [Hr Hl]. split; [done|]. intros iss Hi. destruct (Hl iss Hi). split; [done|]. apply Hk; [apply Hi|done].
Qed.

(** Popping a certificate that does not encode, or that was seen with no larger count. *)
Lemma keeps_pop w c n rest : stack w = (c, n) :: rest ->
  (forall d, cert_to_der c = Some d -> exists b, seen w !! d = Some b /\ (b <= n)%nat) ->
  Keeps w {| stack := rest; seen := seen w |}.
Proof.
  intros Es Hseen c' n' [d Ed] [(m & Hm & Hin)|Hd]; [|by right]. rewrite Es in Hin.
  apply elem_of_cons in Hin as [[= -> ->]|Hin]; [|by left; exists m].
  destruct (Hseen d Ed) as (b & Hb & Hle). right. exists d, b. split_and!; [done..|lia].
Qed.
Lemma keeps_push w c n rest d stk : stack w = (c, n) :: rest -> cert_to_der c = Some d ->
  (forall b, seen w !! d = Some b -> (n < b)%nat) -> (forall e, e ∈ rest -> e ∈ stk) ->
  Keeps w {| stack := stk; seen := <[d := n]> (seen w) |}.
Proof.
  intros Es Ed Hf Hin c' n' _ [(m & Hm & Hc)|(d' & m & Ed' & Hs & Hle)].
  - rewrite Es in Hc. apply elem_of_cons in Hc as [[= -> ->]|Hc]; [|left; exists m; split; [done|by apply Hin]].
    right. exists d, n. cbn. by rewrite lookup_insert_eq.
  - right. destruct (decide (d = d')) as [<-|Hne].
    + exists d, n. cbn. rewrite lookup_insert_eq. specialize (Hf m Hs). split_and!; [done..|lia].
    + exists d', m. cbn. by rewrite lookup_insert_ne.
Qed.

(** A turn that does not decide keeps the walk closed and loses nothing that was covered. *)
Lemma walk_step_closed w c n rest w' : stack w = (c, n) :: rest ->
  walk_step pool roots_arg at_ c n rest (seen w) = Next w' -> Closed w -> Closed w' /\ Keeps w w'.
Proof.
  intros Es E Hc. pose proof (walk_step_view pool roots_arg at_ c n rest (seen w)) as Hv. rewrite E in Hv.
  inversion Hv as [Ed| |d b Ed Hb Hle| | |d stk Ed Hf Hr Hs He _]; subst.
  - assert (Keeps w {| stack := rest; seen := seen w |}) as Hk by (eapply keeps_pop; [done|congruence]).
    split; [|done]. intros c' d m Ed' Hd. eapply settled_kept; [done|by eapply Hc].
  - assert (Keeps w {| stack := rest; seen := seen w |}) as Hk.
    { eapply keeps_pop; [done|]. intros d' Ed'. exists b. split; [congruence|done]. }
    split; [|done]. intros c' d' m Ed' Hd. eapply settled_kept; [done|by eapply Hc].
  - assert (Keeps w {| stack := stk; seen := <[d := n]> (seen w) |}) as Hk.
    { eapply keeps_push; [done..|]. intros e Hin. apply He. by left. }
    split; [|done]. intros c' d' m Ed' Hd. cbn [seen] in Hd. apply lookup_insert_Some in Hd as [[<- <-]|[_ Hd]]; [|eapply settled_kept; [done|by eapply Hc]].
    assert (c' = c) as -> by (by eapply cert_der_inj). split; [done|]. intros iss Hl. split; [eauto|].
    left. exists (cas_below c n). split; [done|]. apply He. eauto.
Qed.

(** An exhausted walk covers nothing that is anchored. *)
Lemma exhausted_not_anchored w c n : stack w = [] -> Closed w -> Anchored c n -> covered w c n -> False.
Proof.
  intros Es Hc Ha. induction Ha as [c n Hs Hr|c n iss Hs Hd Hl Hi|c n iss Hd Hl Ha IH];
    intros [(m & _ & Hin)|(d & m & Ed & Hm & Hle)]; try (rewrite Es in Hin; by apply elem_of_nil in Hin);
    destruct (Hc _ _ _ Ed Hm) as [Hr' Hl'].
  - by apply Hr'.
  - apply (link_fewer _ _ _ (cas_below c m)) in Hl; [|by apply cas_below_mono]. apply Hl' in Hl as [Hf _]. rewrite Hf in Hi; done.
  - apply IH. apply (covered_more _ _ (cas_below c m)); [by apply cas_below_mono|].
    apply Hl', (link_fewer _ _ (cas_below c n)); [by apply cas_below_mono|done].
Qed.

Lemma walk_loop_complete fuel : forall w c n b, Closed w -> Anchored c n -> covered w c n ->
  walk_loop pool roots_arg at_ fuel w = Some b -> b = true.
Proof.
  induction fuel as [|fuel IH]; intros w c n b Hc Ha Hcov; cbn [walk_loop]; [done|].
  destruct (stack w) as [|[cur k] rest] eqn:Es; [by edestruct exhausted_not_anchored|].
  destruct (walk_step pool roots_arg at_ cur k rest (seen w)) as [b'|w'] eqn:E.
  - intros [= ->]. pose proof (walk_step_view pool roots_arg at_ cur k rest (seen w)) as Hv. rewrite E in Hv.
    inversion Hv as [| | |d Ed Et| |]; subst; [done| |done]. destruct (cert_der_tbs cur d Ed). congruence.
  - destruct (walk_step_closed w cur k rest w' Es E Hc) as [Hc' Hk]. apply (IH w' c n); [done..|].
    apply Hk; [by eapply anchored_encodes|done].
Qed.

Lemma anchored_walk_chain signer : Anchored signer 0 -> walk_chain pool roots_arg at_ signer = true.
Proof.
  intros Ha. eapply (walk_loop_complete _ (walk_start signer) signer 0%nat); [|done| |apply walk_loop_chain].
  - intros c d m _ Hd. cbn in Hd. by rewrite lookup_empty in Hd.
  - left. exists 0%nat. split; [done|by left].
Qed.
End Completeness.

(** ** The builder's answer does not depend on the fuel *)

(** C25: The path builder terminates: within its fuel the loop answers, more fuel changes
    nothing, so [walk_chain] is the answer of the source's unbounded loop on any certificates. *)
Theorem walk_terminates {H : Hash} {PT : PkiTypes} {P : Pki} (pool : list Certificate)
    (roots_arg : option (list Certificate)) (at_ : option GeneralizedTime) (signer : Certificate) (k : nat) :
  walk_loop pool roots_arg at_ (walk_fuel pool roots_arg + k) (walk_start signer)
  = Some (walk_chain pool roots_arg at_ signer).
Proof. eapply walk_loop_more; [apply walk_loop_chain|lia]. Qed.
