(* ===== verification/TokenSpec.v ===== *)
(** * TokenSpec: what a verified timestamp token is

    The declarative meaning of an accepted token: its structure, the one signer it names,
    the family and hash of every signature, the path to a carried or supplied root, and the
    time; that [verified_tst] answers exactly that; and that it is the [Tsa] the bundle
    checks ask for. *)
From S2P Require Import Prelude Hash Text Json Utc Dsse Checkpoint Trust Bundle Pki Token TokenPath.

(** ** Signatures *)
Section Signed.
Context {H : Hash} {PT : PkiTypes} {P : Pki}.

(** The hash of a signature algorithm: its own, or the hint under the bare RSA identifier. *)
Definition SIGNATURE_HASHES : list (ObjectIdentifier * ObjectIdentifier) :=
  [(OID_ECDSA_SHA256, OID_SHA256); (OID_SHA256_RSA, OID_SHA256); (OID_ECDSA_SHA384, OID_SHA384);
   (OID_SHA384_RSA, OID_SHA384); (OID_ECDSA_SHA512, OID_SHA512); (OID_SHA512_RSA, OID_SHA512)].
Definition uses_hash (sig_alg hint h : ObjectIdentifier) : Prop :=
  (sig_alg, h) ∈ SIGNATURE_HASHES \/ sig_alg = OID_RSA_ENCRYPTION /\ h = hint.

(** An RSA key under an RSA algorithm, with the PKCS#1 scheme of the hash. *)
Definition rsa_signed (spki : SubjectPublicKeyInfo) (sig_alg h : ObjectIdentifier) (sig digest : bytes) : Prop :=
  oid (spki_algorithm spki) = OID_RSA_ENCRYPTION /\
  sig_alg ∈ [OID_RSA_ENCRYPTION; OID_SHA256_RSA; OID_SHA384_RSA; OID_SHA512_RSA] /\
  exists kb key scheme, bit_bytes (subject_public_key spki) = Some kb /\ rsa_from_pkcs1_der kb = Some key /\
    (h = OID_SHA256 /\ scheme = sign_sha256 \/ h = OID_SHA384 /\ scheme = sign_sha384 \/ h = OID_SHA512 /\ scheme = sign_sha512) /\
    rsa_verify key scheme digest sig = true.
(** A key on one of two curves under an ECDSA algorithm. *)
Definition ec_signed (spki : SubjectPublicKeyInfo) (sig_alg : ObjectIdentifier) (sig digest : bytes) : Prop :=
  oid (spki_algorithm spki) = OID_EC_PUBLIC_KEY /\ sig_alg ∈ [OID_ECDSA_SHA256; OID_ECDSA_SHA384; OID_ECDSA_SHA512] /\
  exists p c curve kb key s, parameters (spki_algorithm spki) = Some p /\ any_as_oid p = Some c /\
    (c = OID_PRIME256V1 /\ curve = p256_curve \/ c = OID_SECP384R1 /\ curve = p384_curve) /\
    bit_bytes (subject_public_key spki) = Some kb /\ from_sec1_bytes (EcdsaCurve := curve) kb = Some key /\
    sig_from_der sig = Some s /\ verify_prehash key digest s = true.

Lemma verify_rsa_spec spki sig digest h : verify_rsa spki sig digest h = true <->
  oid (spki_algorithm spki) = OID_RSA_ENCRYPTION /\
  exists kb key scheme, bit_bytes (subject_public_key spki) = Some kb /\ rsa_from_pkcs1_der kb = Some key /\
    (h = OID_SHA256 /\ scheme = sign_sha256 \/ h = OID_SHA384 /\ scheme = sign_sha384 \/ h = OID_SHA512 /\ scheme = sign_sha512) /\
    rsa_verify key scheme digest sig = true.
Proof.
  unfold verify_rsa. split.
  - destruct (String.eqb_spec (oid (spki_algorithm spki)) OID_RSA_ENCRYPTION) as [->|]; cbn [negb]; [|done].
    destruct (bit_bytes _) as [kb|]; [|done]. destruct (rsa_from_pkcs1_der kb) as [key|] eqn:Ek; [|done]. intros E. split; [done|].
    revert E. destruct (String.eqb_spec h OID_SHA256) as [->|]; [eauto 12|].
    destruct (String.eqb_spec h OID_SHA384) as [->|]; [eauto 12|]. destruct (String.eqb_spec h OID_SHA512) as [->|]; [eauto 12|done].
  - intros (-> & kb & key & scheme & -> & -> & [[-> ->]|[[-> ->]|[-> ->]]] & Hv); exact Hv.
Qed.

Lemma verify_ecdsa_curve_spec curve kb sig digest : verify_ecdsa_curve curve kb sig digest = true <->
  exists key s, from_sec1_bytes (EcdsaCurve := curve) kb = Some key /\ sig_from_der sig = Some s /\ verify_prehash key digest s = true.
Proof.
  unfold verify_ecdsa_curve. destruct (from_sec1_bytes kb) as [key|], (sig_from_der sig) as [s|]; split; try done;
    try (intros (? & ? & ? & ? & ?); congruence). eauto.
Qed.

Lemma verify_ecdsa_spec spki sig digest : verify_ecdsa spki sig digest = true <->
  oid (spki_algorithm spki) = OID_EC_PUBLIC_KEY /\
  exists p c curve kb key s, parameters (spki_algorithm spki) = Some p /\ any_as_oid p = Some c /\
    (c = OID_PRIME256V1 /\ curve = p256_curve \/ c = OID_SECP384R1 /\ curve = p384_curve) /\
    bit_bytes (subject_public_key spki) = Some kb /\ from_sec1_bytes (EcdsaCurve := curve) kb = Some key /\
    sig_from_der sig = Some s /\ verify_prehash key digest s = true.
Proof.
  unfold verify_ecdsa. split.
  - destruct (String.eqb_spec (oid (spki_algorithm spki)) OID_EC_PUBLIC_KEY) as [->|]; cbn [negb]; [|done].
    destruct (parameters _) as [p|]; cbn [mbind option_bind]; [|by destruct (bit_bytes _)].
    destruct (bit_bytes _) as [kb|]; [|done]. destruct (any_as_oid p) as [c|] eqn:Ec; [|done]. intros E. split; [done|].
    destruct (String.eqb_spec c OID_PRIME256V1) as [->|].
    + apply verify_ecdsa_curve_spec in E as (key & s & ? & ? & ?). exists p, OID_PRIME256V1, p256_curve, kb, key, s. auto 10.
    + destruct (String.eqb_spec c OID_SECP384R1) as [->|]; [|done].
      apply verify_ecdsa_curve_spec in E as (key & s & ? & ? & ?). exists p, OID_SECP384R1, p384_curve, kb, key, s. auto 10.
  - intros (-> & p & c & curve & kb & key & s & -> & Hc & Hcurve & -> & Hk & Hs & Hv). cbn [mbind option_bind]. rewrite Hc.
    destruct Hcurve as [[-> ->]|[-> ->]]; cbn [negb]; rewrite ?String.eqb_refl; cbn [negb]; apply verify_ecdsa_curve_spec; eauto.
Qed.
Lemma uses_hash_exact sig_alg hint h :
  sig_alg ∈ [OID_RSA_ENCRYPTION; OID_SHA256_RSA; OID_SHA384_RSA; OID_SHA512_RSA;
             OID_ECDSA_SHA256; OID_ECDSA_SHA384; OID_ECDSA_SHA512] ->
  uses_hash sig_alg hint h <-> signature_hash sig_alg hint = h.
Proof.
  intros Hin. unfold uses_hash. assert (forall l, (sig_alg, h) ∈ l <-> Exists (fun p => sig_alg = p.1 /\ h = p.2) l) as ->.
  { intros l. rewrite Exists_exists. split; [intros ?; by exists (sig_alg, h)|intros ([] & ? & ? & ?); naive_solver]. }
  unfold SIGNATURE_HASHES. rewrite !Exists_cons, Exists_nil. cbn [fst snd].
  repeat (apply elem_of_cons in Hin as [->|Hin]); [..|by apply elem_of_nil in Hin];
    (split; [intros Hc; destruct_or?; destruct_and?; subst; try done; discriminate|intros <-; vm_compute; tauto]).
Qed.

Lemma verify_sig_spec spki sig_alg hint sig data : verify_sig spki sig_alg hint sig data = true <->
  exists h d, uses_hash sig_alg hint h /\ hash_bytes h data = Some d /\
    (rsa_signed spki sig_alg h sig d \/ ec_signed spki sig_alg sig d).
Proof.
  unfold verify_sig. split.
  - destruct (hash_bytes _ data) as [d|] eqn:Ed; [|done]. intros E. exists (signature_hash sig_alg hint), d.
    destruct (String.eqb_spec (oid (spki_algorithm spki)) OID_RSA_ENCRYPTION) as [Er|].
    + apply andb_true_iff in E as [Ha%one_of_true Hv%verify_rsa_spec]. split; [apply uses_hash_exact; [set_solver|done]|].
      split; [done|]. left. by split; [|split; [|apply Hv]].
    + destruct (String.eqb_spec (oid (spki_algorithm spki)) OID_EC_PUBLIC_KEY) as [Ee|]; [|done].
      apply andb_true_iff in E as [Ha%one_of_true Hv%verify_ecdsa_spec]. split; [apply uses_hash_exact; [set_solver|done]|].
      split; [done|]. right. by split; [|split; [|apply Hv]].
  - intros (h & d & Hu & Hd & [(Ho & Ha & Hv)|(Ho & Ha & Hv)]); (apply uses_hash_exact in Hu as <-; [|set_solver]);
      rewrite Hd, Ho; cbn [String.eqb]; apply one_of_true in Ha.
    + rewrite String.eqb_refl, Ha. by apply verify_rsa_spec.
    + change (String.eqb OID_EC_PUBLIC_KEY OID_RSA_ENCRYPTION) with false. rewrite String.eqb_refl, Ha. by apply verify_ecdsa_spec.
Qed.
End Signed.

(** ** Tokens *)
Section Specification.
Context {H : Hash} {PT : PkiTypes} {P : Pki} {SDD : SignedDataDecode}.

(** Exactly one attribute of type [o], holding exactly the value [v]. *)
Definition unique_attribute (attrs : list Attribute) (o : ObjectIdentifier) (v : Any) : Prop :=
  exists pre a post, attrs = pre ++ a :: post /\ attr_oid a = o /\ values a = [v] /\
    forall b, b ∈ pre ++ post -> attr_oid b <> o.

(** The first carried certificate of that serial number and issuer; every earlier one of the
    serial number has an issuer that encodes differently. *)
Definition names_cert (ias : IssuerAndSerialNumber) (want : bytes) (cert : Certificate) : Prop :=
  serial_number (tbs_certificate cert) = ias_serial_number ias /\ name_to_der (issuer (tbs_certificate cert)) = Some want.
Definition passes_over (ias : IssuerAndSerialNumber) (want : bytes) (choice : CertificateChoices) : Prop :=
  forall c, choice = ChoiceCertificate c -> serial_number (tbs_certificate c) = ias_serial_number ias ->
    exists other, name_to_der (issuer (tbs_certificate c)) = Some other /\ other <> want.
Definition first_signer (choices : list CertificateChoices) (ias : IssuerAndSerialNumber) (want : bytes) (cert : Certificate)
    : Prop :=
  exists pre post, choices = pre ++ ChoiceCertificate cert :: post /\ names_cert ias want cert /\
    forall c, c ∈ pre -> passes_over ias want c.

(** The token is CMS signed data around a TSTInfo. *)
Record token_parsed (token : bytes) (sd : TimestampSignedData) (tst_der : bytes) (tst : TstImprint) : Prop := {
  tp_content : exists ci, content_info_from_der token = Some ci /\ content_type ci = OID_SIGNED_DATA /\
    any_as_signed_data (content ci) = Some sd;
  tp_info : econtent_type (encap_content_info sd) = OID_TST_INFO /\ exists e, econtent (encap_content_info sd) = Some e /\
    any_as_octets e = Some tst_der /\ parse_tst_info tst_der = Some tst;
  tp_version : exists other, other_revocation_present (crls sd) = Some other /\
    version sd = if is_some_and (certificates sd) (existsb is_other_choice) || other then V5 else V3;
}.

(** One signer, whose signed attributes name the TSTInfo and its digest. *)
Record token_signer (sd : TimestampSignedData) (tst_der : bytes) (si : SignerInfo) (attrs : list Attribute)
    (signer : Certificate) : Prop := {
  ts_single : signer_infos sd = [si] /\ si_version si = V1;
  ts_attrs : signed_attrs si = Some attrs /\ attrs <> [];
  ts_content_type : exists v, unique_attribute attrs OID_CONTENT_TYPE v /\ any_as_oid v = Some OID_TST_INFO;
  ts_digest : exists v d, unique_attribute attrs OID_MESSAGE_DIGEST v /\ any_as_octets v = Some d /\
    hash_bytes (oid (digest_alg si)) tst_der = Some d;
  ts_certificate : exists ias choices want, sid si = IssuerAndSerial ias /\ certificates sd = Some choices /\
    name_to_der (ias_issuer ias) = Some want /\ first_signer choices ias want signer;
}.

(** The signer's key signed the attributes, an anchored chain was carried, and the time is the
    signer's. *)
Record token_verified (token : bytes) (expected_hex chain_pem : string) (tst : TstImprint) (signer : Certificate)
    (pool : list Certificate) : Prop := {
  tv_token : exists sd tst_der si attrs attrs_der, token_parsed token sd tst_der tst /\
    token_signer sd tst_der si attrs signer /\ attrs_to_der attrs = Some attrs_der /\
    verify_sig (subject_public_key_info (tbs_certificate signer)) (oid (si_signature_algorithm si)) (oid (digest_alg si))
      (si_signature si) attrs_der = true;
  tv_imprint : alg tst = OID_SHA256 /\ hex (digest tst) = expected_hex;
  tv_pool : load_pem_chain (str_bytes chain_pem) = Some pool;
  tv_chain : Anchored pool None None signer 0;
  tv_time : valid_at signer (gen_time tst);
}.

(** The signer is a timestamp authority of the supplied roots. *)
Definition signer_trusted (roots_pem : option string) (pool : list Certificate) (t : GeneralizedTime) (signer : Certificate) : Prop :=
  exists pem roots, roots_pem = Some pem /\ load_pem_chain (str_bytes pem) = Some roots /\
    get_extended_key_usage (tbs_certificate signer) = Some (Some (true, [OID_ID_KP_TIME_STAMPING])) /\
    Anchored pool (Some roots) (Some t) signer 0.

Lemma signed_attribute_spec attrs o v : signed_attribute attrs o = Some v <-> unique_attribute attrs o v.
Proof.
  unfold signed_attribute. induction attrs as [|a attrs IH]; [split; [done|by intros ([] & ? & ? & ? & _)]|].
  rewrite filter_cons. destruct (decide (attr_oid a = o)) as [Ho|Ho].
  - split.
    + destruct (filter _ attrs) as [|] eqn:Ef; [|done]. destruct (values a) as [|v' []] eqn:Ev; try done. intros [= <-].
      exists [], a, attrs. split_and!; try done. intros b Hb Hbo.
      assert (b ∈ filter (fun a => attr_oid a = o) attrs) as Hf by (by apply list_elem_of_filter). rewrite Ef in Hf. by apply elem_of_nil in Hf.
    + intros (pre & a' & post & E & Ho' & Hv & Hn). destruct pre as [|b pre]; injection E as <- ->.
      * assert (filter (fun a => attr_oid a = o) post = []) as ->; [|by rewrite Hv].
        apply elem_of_nil_inv. intros b [Hb Hin]%list_elem_of_filter. by apply (Hn b).
      * exfalso. apply (Hn a); [by left|done].
  - rewrite IH. unfold unique_attribute. split.
    + intros (pre & a' & post & -> & ? & ? & Hn). exists (a :: pre), a', post. split_and!; try done.
      intros b [->|Hb]%elem_of_cons; [done|by apply Hn].
    + intros (pre & a' & post & E & ? & ? & Hn). destruct pre as [|b pre]; injection E as -> ->; [done|].
      exists pre, a', post. split_and!; try done. intros b' Hb. apply Hn. by right.
Qed.

Lemma first_signer_cons x choices ias want cert : first_signer (x :: choices) ias want cert <->
  x = ChoiceCertificate cert /\ names_cert ias want cert \/ passes_over ias want x /\ first_signer choices ias want cert.
Proof.
  split.
  - intros ([|y pre] & post & [= -> ->] & Hn & Hp); [by left|]. right. split; [apply Hp; by left|].
    exists pre, post. split_and!; [done..|]. intros c Hc. apply Hp. by right.
  - intros [[-> Hn]|[Hx (pre & post & -> & Hn & Hp)]].
    + exists [], choices. split_and!; [done..|]. intros c Hc. by apply elem_of_nil in Hc.
    + exists (x :: pre), post. split_and!; [done..|]. intros c [->|Hc]%elem_of_cons; [done|by apply Hp].
Qed.
Lemma passes_over_cert ias want c : passes_over ias want (ChoiceCertificate c) <->
  (serial_number (tbs_certificate c) = ias_serial_number ias ->
   exists other, name_to_der (issuer (tbs_certificate c)) = Some other /\ other <> want).
Proof. split; [intros Hp; by apply Hp|intros Hp c' [= ->]; done]. Qed.

Lemma find_cert_loop_spec ias want choices cert :
  find_cert_loop choices ias want = Some cert <-> first_signer choices ias want cert.
Proof.
  induction choices as [|[c|f] choices IH]; cbn [find_cert_loop].
  - split; [done|by intros ([] & ? & ? & _)].
  - rewrite first_signer_cons, passes_over_cert, <- IH. unfold names_cert, bytes_eqb.
    case_bool_decide as Es; [|naive_solver].
    destruct (name_to_der (issuer (tbs_certificate c))) as [der|] eqn:Ed; cbn [mbind option_bind]; [|naive_solver].
    case_bool_decide; naive_solver.
  - rewrite first_signer_cons, IH. unfold passes_over. naive_solver.
Qed.

Lemma parse_token_spec token sd tst_der tst :
  parse_token token = Some (sd, tst_der, tst) <-> token_parsed token sd tst_der tst.
Proof.
  unfold parse_token. split.
  - intros (ci & Eci & E)%bind_Some. destruct (String.eqb_spec (content_type ci) OID_SIGNED_DATA) as [Et|]; [|done].
    cbn [negb] in E. apply bind_Some in E as (sd' & Esd & E).
    destruct (String.eqb_spec (econtent_type (encap_content_info sd')) OID_TST_INFO) as [Ee|]; [|done]. cbn [negb] in E.
    apply bind_Some in E as (other & Eo & E). case_bool_decide as Ev; [|done]. cbn [negb] in E.
    apply bind_Some in E as (e & Eec & E). apply bind_Some in E as (d & Eoct & E). apply bind_Some in E as (info & Ei & [= <- <- <-]).
    split; eauto 10.
  - intros [(ci & -> & Et & Esd) (Ee & e & Eec & Eoct & Ei) (other & Eo & Ev)]. cbn [mbind option_bind].
    rewrite Et, String.eqb_refl, Esd. cbn [negb mbind option_bind]. rewrite Ee, String.eqb_refl. cbn [negb].
    rewrite Eo. cbn [mbind option_bind]. rewrite bool_decide_eq_true_2 by done. cbn [negb].
    rewrite Eec. cbn [mbind option_bind]. rewrite Eoct. cbn [mbind option_bind]. by rewrite Ei.
Qed.

Lemma check_signer_info_spec sd tst_der si : check_signer_info sd tst_der = Some si <->
  exists attrs ias, (signer_infos sd = [si] /\ si_version si = V1) /\ sid si = IssuerAndSerial ias /\
    (signed_attrs si = Some attrs /\ attrs <> []) /\
    (exists v, unique_attribute attrs OID_CONTENT_TYPE v /\ any_as_oid v = Some OID_TST_INFO) /\
    exists v d, unique_attribute attrs OID_MESSAGE_DIGEST v /\ any_as_octets v = Some d /\
      hash_bytes (oid (digest_alg si)) tst_der = Some d.
Proof.
  unfold check_signer_info. split.
  - destruct (signer_infos sd) as [|s []] eqn:Es; try done. intros E. case_step E. apply orb_false_iff in E0 as [Ev Esid].
    apply negb_false_iff, bool_decide_eq_true in Ev. apply bind_Some in E as (attrs & Ea & E). case_step E.
    apply bind_Some in E as (want & Ew & E). apply bind_Some in E as (v & Ev1 & E). apply bind_Some in E as (ct & Ect & E).
    destruct (String.eqb_spec ct OID_TST_INFO) as [->|]; [|done]. cbn [negb] in E.
    apply bind_Some in E as (v' & Ev2 & E). apply bind_Some in E as (d & Ed & E). case_step E. injection E as ->.
    apply negb_false_iff, bytes_eqb_true in E1 as ->. apply signed_attribute_spec in Ev1, Ev2.
    destruct (sid si) as [ias|] eqn:Eias; [|done]. exists attrs, ias. split_and!; eauto. by intros ->.
  - intros (attrs & ias & [-> Hv] & Hi & [Ha Hne] & (v & Hct & Hoid) & v' & d & Hmd & Hoct & Hh).
    apply signed_attribute_spec in Hct, Hmd. rewrite bool_decide_eq_true_2, Hi, Ha by done. cbn [negb orb mbind option_bind].
    destruct attrs as [|a attrs]; [done|]. rewrite Hh. cbn [mbind option_bind]. rewrite Hct. cbn [mbind option_bind].
    rewrite Hoid. cbn [mbind option_bind]. rewrite String.eqb_refl. cbn [negb]. rewrite Hmd. cbn [mbind option_bind].
    rewrite Hoct. cbn [mbind option_bind]. unfold bytes_eqb. by rewrite bool_decide_eq_true_2.
Qed.

Lemma find_signer_cert_spec sd si signer : find_signer_cert sd si = Some signer <->
  exists ias choices want, sid si = IssuerAndSerial ias /\ certificates sd = Some choices /\
    name_to_der (ias_issuer ias) = Some want /\ first_signer choices ias want signer.
Proof.
  unfold find_signer_cert. setoid_rewrite <- find_cert_loop_spec. split.
  - destruct (sid si) as [ias|]; [|done]. intros (want & ? & (choices & ? & ?)%bind_Some)%bind_Some. eauto 10.
  - intros (ias & choices & want & -> & Hc & Hw & Hf). rewrite Hw. cbn [mbind option_bind]. by rewrite Hc.
Qed.

Lemma token_signer_spec sd tst_der si signer :
  check_signer_info sd tst_der = Some si /\ find_signer_cert sd si = Some signer <->
  exists attrs, token_signer sd tst_der si attrs signer.
Proof.
  rewrite check_signer_info_spec, find_signer_cert_spec. split.
  - intros [(attrs & ? & ? & ? & ? & ? & ?) ?]. exists attrs. by split.
  - intros (attrs & [? ? ? ? (ias & choices & want & ? & ? & ? & ?)]). split; eauto 10.
Qed.

Lemma is_timestamping_signer_true cert : is_timestamping_signer cert = true <->
  get_extended_key_usage (tbs_certificate cert) = Some (Some (true, [OID_ID_KP_TIME_STAMPING])).
Proof.
  unfold is_timestamping_signer. destruct (get_extended_key_usage _) as [[[[] eku]|]|]; try by split.
  rewrite bool_decide_eq_true. split; [by intros ->|congruence].
Qed.
End Specification.

(** ** The relying party's roots decide trust only *)
Section Roots.
Context {H : Hash} {PT : PkiTypes} {P : Pki} {SDD : SignedDataDecode}.

(** The answer for the supplied roots, and everything [verified_tst] decides without them. *)
Definition trusted_answer (roots_pem : option string) (pool : list Certificate) (t : GeneralizedTime) (signer : Certificate)
    : bool :=
  is_some_and (pem ← roots_pem; load_pem_chain (str_bytes pem)) (fun roots =>
    is_timestamping_signer signer && walk_chain pool (Some roots) (Some t) signer).
Definition accepted (token : bytes) (expected_hex chain_pem : string) : option (TstImprint * Certificate * list Certificate) :=
  '(sd, tst_der, tst) ← parse_token token;
  reject_if negb (String.eqb (alg tst) OID_SHA256) || negb (String.eqb (hex (digest tst)) expected_hex) with None;
  si ← check_signer_info sd tst_der;
  signer ← find_signer_cert sd si;
  attrs_der ← (a ← signed_attrs si; attrs_to_der a);
  reject_if negb (verify_sig (subject_public_key_info (tbs_certificate signer)) (oid (si_signature_algorithm si))
                    (oid (digest_alg si)) (si_signature si) attrs_der) with None;
  pool ← load_pem_chain (str_bytes chain_pem);
  then_some (walk_chain pool None None signer && gen_time_in_validity (gen_time tst) signer) (tst, signer, pool).

Lemma verified_tst_eq token hex_ pem roots_pem : verified_tst token hex_ pem roots_pem =
  '(tst, signer, pool) ← accepted token hex_ pem; Some (gen_time tst, trusted_answer roots_pem pool (gen_time tst) signer).
Proof.
  unfold verified_tst, accepted. destruct (parse_token token) as [[[sd tst_der] tst]|]; cbn [mbind option_bind]; [|done].
  destruct (_ || _); [done|]. destruct (check_signer_info sd tst_der) as [si|]; cbn [mbind option_bind]; [|done].
  destruct (find_signer_cert sd si) as [signer|]; cbn [mbind option_bind]; [|done].
  destruct (signed_attrs si) as [attrs|]; cbn [mbind option_bind]; [|done].
  destruct (attrs_to_der attrs) as [d|]; cbn [mbind option_bind]; [|done].
  destruct (negb (verify_sig _ _ _ _ _)); [done|]. destruct (load_pem_chain _) as [pool|]; cbn [mbind option_bind]; [|done].
  destruct (walk_chain pool None None signer); cbn [negb andb]; [|done]. by destruct (gen_time_in_validity _ _).
Qed.

(** [tsa::verified_tst] is what the bundle checks ask of a [Tsa], its time displayed. *)
Definition token_tsa : Tsa := fun token expected_hex chain_pem roots_pem =>
  (fun '(t, trusted) => (date_time_string t, trusted)) <$> verified_tst token expected_hex chain_pem roots_pem.
Lemma token_tsa_laws : TsaLaws (T := token_tsa).
Proof.
  split; unfold Bundle.verified_tst, token_tsa; setoid_rewrite verified_tst_eq.
  - intros token h pem roots_pem. by destruct (accepted token h pem) as [[[tst signer] pool]|].
  - intros token h pem t b. destruct (accepted token h pem) as [[[tst signer] pool]|]; [|done]. by intros [= _ <-].
Qed.

Lemma accepted_sound token hex_ pem tst signer pool :
  accepted token hex_ pem = Some (tst, signer, pool) -> token_verified token hex_ pem tst signer pool.
Proof.
  unfold accepted. intros ([[sd tst_der] tst'] & Ep & E)%bind_Some. case_step E. apply orb_false_iff in E0 as [Ea Eh].
  apply negb_false_iff, String.eqb_eq in Ea, Eh. apply bind_Some in E as (si & Esi & E). apply bind_Some in E as (s & Es & E).
  apply bind_Some in E as (d & Ed & E). case_step E. apply negb_false_iff in E0. apply bind_Some in E as (pool' & El & E).
  apply then_some_Some in E as [[Ew Et]%andb_true_iff [= -> -> ->]]. apply parse_token_spec in Ep.
  destruct (proj1 (token_signer_spec sd tst_der si signer) (conj Esi Es)) as [attrs Hs].
  destruct (ts_attrs _ _ _ _ _ Hs) as [Ha _]. rewrite Ha in Ed. cbn in Ed.
  split; [by exists sd, tst_der, si, attrs, d|done..|by apply walk_chain_anchored|by apply gen_time_in_validity_true].
Qed.

Lemma trusted_answer_sound roots_pem pool t signer : trusted_answer roots_pem pool t signer = true ->
  exists pem roots, roots_pem = Some pem /\ load_pem_chain (str_bytes pem) = Some roots /\
    get_extended_key_usage (tbs_certificate signer) = Some (Some (true, [OID_ID_KP_TIME_STAMPING])) /\
    walk_chain pool (Some roots) (Some t) signer = true.
Proof.
  unfold trusted_answer.
  intros (roots & (pem & -> & ?)%bind_Some & [?%is_timestamping_signer_true ?]%andb_true_iff)%is_some_and_true. eauto 10.
Qed.
End Roots.

(** ** The verifier decides the specification *)
Section Exactness.
Context {H : Hash} {PT : PkiTypes} {P : Pki} {PL : PkiLaws} {SDD : SignedDataDecode}.

Lemma walk_chain_true pool roots_arg at_ signer :
  walk_chain pool roots_arg at_ signer = true <-> Anchored pool roots_arg at_ signer 0.
Proof. split; [apply walk_chain_anchored|apply anchored_walk_chain]. Qed.

Lemma trusted_answer_true roots_pem pool t signer :
  trusted_answer roots_pem pool t signer = true <-> signer_trusted roots_pem pool t signer.
Proof.
  unfold trusted_answer, signer_trusted. rewrite is_some_and_true.
  setoid_rewrite andb_true_iff. setoid_rewrite is_timestamping_signer_true. setoid_rewrite walk_chain_true. split.
  - intros (roots & (pem & -> & ?)%bind_Some & ? & ?). eauto 10.
  - intros (pem & roots & -> & Hl & ? & ?). cbn. eauto.
Qed.

Lemma accepted_spec token hex_ pem tst signer pool :
  accepted token hex_ pem = Some (tst, signer, pool) <-> token_verified token hex_ pem tst signer pool.
Proof.
  split; [apply accepted_sound|]. unfold accepted. intros [(sd & tst_der & si & attrs & d & Hp & Hs & Hd & Hv) [Ha Hh] Hl Hc Ht].
  apply parse_token_spec in Hp as ->. cbn [mbind option_bind]. rewrite Ha, Hh, !String.eqb_refl. cbn [negb orb].
  destruct (ts_attrs _ _ _ _ _ Hs) as [Hat _].
  destruct (proj2 (token_signer_spec sd tst_der si signer)) as [Hck Hfs]; [eauto|].
  rewrite Hck. cbn [mbind option_bind]. rewrite Hfs, Hat. cbn [mbind option_bind]. rewrite Hd. cbn [mbind option_bind].
  rewrite Hv. cbn [negb]. rewrite Hl. cbn [mbind option_bind].
  apply walk_chain_true in Hc as ->. by apply gen_time_in_validity_true in Ht as ->.
Qed.

(** C22: A token verifies exactly when it is an RFC 3161 token for the expected digest: CMS
    signed data of the right version around a TSTInfo, one signer with a unique content type
    and message digest among its attributes, the first carried certificate it names, a
    signature by that key over the attributes, a carried chain that ends at a self-issued
    certificate, and a time within the certificate's validity.  It is trusted exactly when
    the signer's only, critical, extended key usage is timestamping and a path under the
    relying party's roots exists at that time. *)
Theorem verified_tst_exact (token : bytes) (expected_hex chain_pem : string) (roots_pem : option string)
    (t : GeneralizedTime) (trusted : bool) :
  verified_tst token expected_hex chain_pem roots_pem = Some (t, trusted) <->
  exists tst signer pool, token_verified token expected_hex chain_pem tst signer pool /\ t = gen_time tst /\
    (trusted = true <-> signer_trusted roots_pem pool t signer).
Proof.
  rewrite verified_tst_eq. setoid_rewrite <- accepted_spec. setoid_rewrite <- trusted_answer_true. split.
  - intros ([[tst signer] pool] & Ea & [= <- <-])%bind_Some. by exists tst, signer, pool.
  - intros (tst & signer & pool & -> & -> & Ht). cbn. do 2 f_equal. apply eq_true_iff_eq. by rewrite Ht.
Qed.

(** C24: A path the relying party would accept is found: whenever certificates among the
    supplied roots and the carried pool lead from the signer to a supplied root, each named
    and signed by the next, a CA valid at the time with room for the authorities below it,
    the path builder answers true, whatever else it tries first. *)
Theorem path_found (pool roots : list Certificate) (t : GeneralizedTime) (signer root : Certificate)
    (path : list Certificate) :
  is_Some (cert_to_der signer) -> head path = Some signer -> last path = Some root -> is_root (Some roots) root ->
  CertPath pool (Some roots) (Some t) path -> walk_chain pool (Some roots) (Some t) signer = true.
Proof.
  intros Hd Eh El Hr Hp. apply walk_chain_true. destruct path as [|c rest]; [done|]. injection Eh as ->.
  by apply (path_anchored pool (Some roots) (Some t) rest signer 0 root).
Qed.
End Exactness.

(** ** Trusted checkpoints of a bundle *)
Section Composition.
Context {H : Hash} {SD : Serde} {B : Base64} {ED : Ed25519} {PT : PkiTypes} {P : Pki} {SDD : SignedDataDecode}.

(** C23: A checkpoint a bundle report calls trusted is one of the bundle's own chain, and a
    record of the bundle carries a verified token over its body hash, displayed with the
    token's own time, which is not before the checkpoint's, whose signer is a timestamp
    authority with a path to a certificate of the trust context's roots: along it every
    issuer is a CA that names and signs the certificate before it, was valid at the token's
    time and has room for the authorities below it. *)
Theorem trusted_checkpoint_path (bundle : json) (trust : option json) (h : string) :
  h ∈ trusted_tst_checkpoints (verify_bundle_facts (T := token_tsa) bundle trust) ->
  exists chain_entries chain cp ts t_micros, get_array bundle "checkpoint_chain" = Some chain_entries /\
    mapM (fun entry => get entry "checkpoint") chain_entries = Some chain /\ cp ∈ chain /\
    checkpoint_body_hash cp = Some h /\ body_str cp "ts" = Some ts /\ utc_epoch_micros ts = Some t_micros /\
  exists records record token chain_pem tst signer pool gen_micros, get bundle "tst_records" = Some (JArray records) /\
    record ∈ records /\ get_str record "checkpoint_body_hash" = Some h /\
    get_str record "token_der_b64" ≫= b64_decode = Some token /\ get_str record "cert_chain_pem" = Some chain_pem /\
    token_verified token h chain_pem tst signer pool /\ get_str record "gen_time" = Some (date_time_string (gen_time tst)) /\
    utc_epoch_micros (date_time_string (gen_time tst)) = Some gen_micros /\ t_micros <= gen_micros /\
  exists roots_pem roots path root, tsa_roots_pem trust = Some roots_pem /\
    load_pem_chain (str_bytes roots_pem) = Some roots /\
    get_extended_key_usage (tbs_certificate signer) = Some (Some (true, [OID_ID_KP_TIME_STAMPING])) /\
    head path = Some signer /\ last path = Some root /\ is_root (Some roots) root /\
    CertPath pool (Some roots) (Some (gen_time tst)) path.
Proof.
  intros (ce & chain & records & r & d & cp & ts & c & t & Hce & Hch & Hrec & Hr & Hts & Hd & Hcp & Hh & Hbts & Hc & Ht & Hle)%trusted_tst_record.
  destruct Hts as (b64 & token & d' & pem & Hbh & Hb64 & Hdec & Hd' & Hpem & Hv). rewrite Hd in Hd'. injection Hd' as <-.
  unfold Bundle.verified_tst, token_tsa in Hv. rewrite verified_tst_eq in Hv.
  destruct (accepted token h pem) as [[[tst signer] pool]|] eqn:Ea; [|done]. cbn in Hv. injection Hv as Ed Etr. subst d.
  apply accepted_sound in Ea. apply trusted_answer_sound in Etr as (rpem & roots & Hrp & Hl & Heku & Hw).
  apply trusted_path in Hw as (path & root & ? & ? & ? & ?); [|done].
  exists ce, chain, cp, ts, t. split_and!; [done..|]. exists records, r, token, pem, tst, signer, pool, c.
  split_and!; try done; [by rewrite Hb64|]. exists rpem, roots, path, root. done.
Qed.
End Composition.

(** ** The carried gate *)
Section CarriedGate.
Context {H : Hash} {PT : PkiTypes} {P : Pki} {PL : PkiLaws}.

(** Without supplied roots the gate stops at any carried certificate that signed the signer
    and whose subject and issuer are one name: whether that certificate's own signature
    verifies is never asked. *)
Lemma carried_root_signature_unread pool signer iss : is_Some (cert_to_der signer) -> iss ∈ pool ->
  is_Some (cert_to_der iss) -> subject (tbs_certificate iss) = issuer (tbs_certificate signer) -> signed_by signer iss ->
  subject (tbs_certificate iss) = issuer (tbs_certificate iss) -> walk_chain pool None None signer = true.
Proof.
  intros Hd Hin Hdi Hn Hs Hself. apply walk_chain_true. apply (anchored_self _ _ _ _ _ iss); [done|done| |by apply bool_decide_eq_true].
  by split.
Qed.
End CarriedGate.
