(* ===== verification/Disclosure.v ===== *)
(** * Disclosure: selective disclosure packages (lib.rs)

    A package opens one commitment of one receipt: domain, nonce and payload hash to
    the committed value.  The field/domain profile is closed; the theorems say what a
    commitment binds and what it does not, and exactly which packages verify. *)
From S2P Require Import Prelude Hash Text Json Jcs Utc Dsse KeyLog Merkle Checkpoint Trust Entries Bundle.

Definition DISCLOSURE_SCHEMA : string := "evd/disclosure/v1".
Definition DOMAIN_PREFIX : string := "evd/v1/".
Definition DISCLOSURE_FIELD_DOMAINS : list (string * list string) := [
  ("payload", ["evd/v1/payload"]);
  ("prompt", ["evd/v1/prompt"; "evd/v1/llm.prompt"]);
  ("output", ["evd/v1/output"; "evd/v1/llm.output"]);
  ("tool.args", ["evd/v1/tool.args"]);
  ("tool.result", ["evd/v1/tool.result"]);
  ("message", ["evd/v1/interaction.message"]);
  ("policy_input", ["evd/v1/policy.input"]);
  ("policy_output", ["evd/v1/policy.output"]);
  ("approver_id", ["evd/v1/approver_id"]);
  ("justification", ["evd/v1/justification"]);
  ("escalation_target_id", ["evd/v1/escalation_target"]);
  ("config", ["evd/v1/agent.config"; "evd/v1/lineage/config"]);
  ("query", ["evd/v1/query"]);
  ("trigger_content", ["evd/v1/guardrail.trigger"]);
  ("amount_exact", ["evd/v1/payment.amount"]);
  ("counterparty_id", ["evd/v1/payment.counterparty"]);
  ("mandate_ref", ["evd/v1/payment.mandate"]);
  ("system_prompt", ["evd/v1/lineage/system_prompt"]);
  ("tool_manifest", ["evd/v1/lineage/tool_manifest"]);
  ("mandate_document", ["evd/v1/lineage/mandate_document"]);
  ("created_by_id", ["evd/v1/lineage/created_by_id"]);
  ("enrolment_evidence", ["evd/v1/authority/enrolment_evidence"]);
  ("source_manifest", ["evd/v1/authority/source_manifest"]);
  ("inputs", ["evd/v1/authority/inputs"]);
  ("context_doc", ["evd/v1/authority/context_doc"]);
  ("request", ["evd/v1/authority/request"]);
  ("batch", ["evd/v1/node/batch"]);
  ("attestation", ["evd/v1/node/attestation"]);
  ("statement", ["evd/v1/node/triage"]);
  ("doc", ["evd/v1/node/coverage"])]%string.

(** [fn disclosure_domain]. *)
Definition custom_domain (field : string) : string := "evd/v1/x/" +:+ field.
Definition disclosure_domain (field domain : string) : bool :=
  reject_if negb (disclosure_text field) || negb (disclosure_text domain) || negb (starts_with DOMAIN_PREFIX domain)
  with false;
  let fixed := is_some_and (List.find (fun nd => String.eqb nd.1 field) DISCLOSURE_FIELD_DOMAINS)
    (fun nd => str_in domain nd.2) in
  fixed || String.eqb domain (custom_domain field).

Section Disclosure.
Context {H : Hash} {SD : Serde} {B : Base64} {ED : Ed25519} {T : Tsa}.

(** [fn disclosure_nonce] and [fn disclosure_payload]. *)
Definition disclosure_nonce (pkg : json) : option bytes :=
  s ← str_field pkg "nonce_hex"; nonce ← hex_to_bytes s; then_some (16 <=? zlen nonce) nonce.
Definition disclosure_payload (pkg : json) : option bytes :=
  text ← str_field pkg "payload_b64"; payload ← b64_decode text;
  then_some (String.eqb (b64_encode payload) text) payload.

(** [fn disclosure_fields]: [(receipt_hash, field, domain, nonce, payload)]. *)
Definition disclosure_fields (pkg : json) : option (string * string * string * bytes * bytes) :=
  o ← as_object pkg;
  if negb (zlen o =? 6) || negb (opt_str_eqb (str_field pkg "schema") (Some DISCLOSURE_SCHEMA)) then None else
  rh ← str_field pkg "receipt_hash";
  if negb (lower_sha256 rh) then None else
  field ← str_field pkg "field"; domain ← str_field pkg "domain";
  if negb (disclosure_domain field domain) then None else
  nonce ← disclosure_nonce pkg; payload ← disclosure_payload pkg;
  Some (rh, field, domain, nonce, payload).

(** [fn disclosure_commitment]: the bytes hashed, and their digest. *)
Definition commitment_input (domain : string) (payload nonce : bytes) : bytes :=
  str_bytes domain ++ [0] ++ nonce ++ [0] ++ payload.
Definition disclosure_commitment (domain : string) (payload nonce : bytes) : string :=
  hex (sha256 (commitment_input domain payload nonce)).

(** [fn disclosure_committed_value]. *)
Definition disclosure_committed_value (raw : bytes) (field : string) : option string :=
  body ← canonical_body raw; cs ← get body "commitments"; v ← get cs field; as_str v.

(** [fn verify_disclosure]: the first entry with the named receipt hash decides. *)
Fixpoint disclosure_loop (entries : list json) (rh field domain : string) (nonce payload : bytes) : bool :=
  match entries with
  | [] => false
  | e :: t =>
      match (env ← get e "envelope"; payload_of env) with
      | None => disclosure_loop t rh field domain nonce payload
      | Some raw =>
          if negb (String.eqb (hex (sha256 raw)) rh) then disclosure_loop t rh field domain nonce payload
          else
            let_some expected := disclosure_committed_value raw field else false;
            String.eqb (disclosure_commitment domain payload nonce) expected
      end
  end.
Definition verify_disclosure (pkg bundle : json) : bool :=
  let_some (rh, field, domain, nonce, payload) := disclosure_fields pkg else false;
  let_some entries := get_array bundle "entries" else false;
  disclosure_loop entries rh field domain nonce payload.

(** [fn verify_disclosure_json]. *)
Definition verify_disclosure_json (package_json bundle_json : bytes) : bool :=
  reject_if (MAX_BUNDLE_BYTES <? zlen package_json) || (MAX_BUNDLE_BYTES <? zlen bundle_json) with false;
  let_some pkg := strict_json package_json else false;
  let_some bundle := strict_json bundle_json else false;
  verify_disclosure pkg bundle.
End Disclosure.

(** ** The field/domain profile *)

Lemma str_app_inj p a b : (p +:+ a = p +:+ b)%string -> a = b.
Proof. induction p as [|c p IH]; [done|]. intros E. injection E as E. auto. Qed.
Lemma starts_with_app p s : starts_with p (p +:+ s) = true.
Proof. induction p as [|c p IH]; [done|]. change (String c p +:+ s) with (String c (p +:+ s)). cbn. by rewrite Ascii.eqb_refl. Qed.

(** No fixed domain is of the custom shape, and no two fields share one: by computation. *)
Definition fixed_pairs : list (string * string) :=
  flat_map (fun nd => map (fun d => (d, nd.1)) nd.2) DISCLOSURE_FIELD_DOMAINS.
Lemma fixed_not_custom : forallb (fun df => negb (starts_with "evd/v1/x/" df.1)) fixed_pairs = true.
Proof. vm_compute. reflexivity. Qed.
Lemma fixed_functional : forallb (fun a => forallb (fun b => negb (String.eqb a.1 b.1) || String.eqb a.2 b.2) fixed_pairs) fixed_pairs = true.
Proof. vm_compute. reflexivity. Qed.

Lemma disclosure_domain_cases field domain :
  disclosure_domain field domain = true -> (domain, field) ∈ fixed_pairs \/ domain = custom_domain field.
Proof.
  unfold disclosure_domain. intros E. case_step E. apply orb_true_iff in E as [E|E]; [left|right; by apply String.eqb_eq].
  apply is_some_and_true in E as ([n ds] & Hf & Hd). apply find_some in Hf as [Hin Hn]. cbn in Hn, Hd.
  apply String.eqb_eq in Hn as ->. apply str_in_elem in Hd. unfold fixed_pairs. apply list_elem_of_In, in_flat_map.
  exists (field, ds). split; [done|]. apply in_map_iff. exists domain. split; [done|]. by apply list_elem_of_In.
Qed.

(** A domain names its field: no domain is admitted for two fields, so a commitment made for
    one field of a receipt is never disclosed as another. *)
Theorem disclosure_domain_determines_field (field field' domain : string) :
  disclosure_domain field domain = true -> disclosure_domain field' domain = true -> field = field'.
Proof.
  intros H1 H2. apply disclosure_domain_cases in H1, H2.
  pose proof fixed_not_custom as Hnc. pose proof fixed_functional as Hfn. rewrite forallb_elem in Hnc, Hfn.
  assert (forall f, starts_with "evd/v1/x/" (custom_domain f) = true) as Hc by (intros f; apply starts_with_app).
  destruct H1 as [H1| ->], H2 as [H2|E2].
  - specialize (Hfn _ H1). rewrite forallb_elem in Hfn. specialize (Hfn _ H2). cbn in Hfn.
    rewrite String.eqb_refl in Hfn. by apply String.eqb_eq in Hfn.
  - subst. specialize (Hnc _ H1). cbn [fst] in Hnc. by rewrite Hc in Hnc.
  - subst. specialize (Hnc _ H2). cbn [fst] in Hnc. by rewrite Hc in Hnc.
  - by apply str_app_inj in E2.
Qed.

(** ** What a commitment binds *)
Section Binding.
Context {H : Hash} {SD : Serde} {B : Base64} {ED : Ed25519} {T : Tsa}.

(** Two openings with one commitment and nonces of one length are the same opening, for
    domains without NUL bytes: domain, nonce and payload, up to an explicit collision. *)
Theorem disclosure_commitment_binding {L : HashLaws} (d d' : string) (n n' p p' : bytes) :
  domain_ok d = true -> domain_ok d' = true -> length n = length n' ->
  disclosure_commitment d p n = disclosure_commitment d' p' n' ->
  (d = d' /\ n = n' /\ p = p') \/ Collision [commitment_input d p n] [commitment_input d' p' n'].
Proof.
  intros Hd Hd' Hn E. unfold disclosure_commitment in E. apply hex_inj in E.
  destruct (collision_or_equal (commitment_input d p n) (commitment_input d' p' n') [commitment_input d p n]
    [commitment_input d' p' n'] ltac:(set_solver) ltac:(set_solver) E) as [Ei|Hc]; [left|by right].
  unfold commitment_input in Ei.
  apply (split_run (fun b => negb (b =? 0))) in Ei as [Ed Ei]; try done.
  injection Ei as Ei. apply app_inj_1 in Ei as [-> Ei]; [|done]. injection Ei as ->. by apply str_bytes_inj in Ed as ->.
Qed.

(** Without a fixed nonce length the boundary between nonce and payload is not bound: moving
    a NUL-delimited prefix of the payload into the nonce opens the same commitment. *)
Theorem disclosure_boundary_shift (domain : string) (nonce x payload : bytes) :
  disclosure_commitment domain (x ++ [0] ++ payload) nonce =
  disclosure_commitment domain payload (nonce ++ [0] ++ x).
Proof. unfold disclosure_commitment, commitment_input. by rewrite <- !app_assoc. Qed.

(** The profile of a package: six members, and the five it opens with. *)
Record package_opens (pkg : json) (rh field domain : string) (nonce payload : bytes) : Prop := {
  po_members : exists o, as_object pkg = Some o /\ zlen o = 6;
  po_schema : str_field pkg "schema" = Some DISCLOSURE_SCHEMA;
  po_hash : str_field pkg "receipt_hash" = Some rh /\ lower_sha256 rh = true;
  po_field : str_field pkg "field" = Some field;
  po_domain : str_field pkg "domain" = Some domain /\ disclosure_domain field domain = true;
  po_nonce : exists s, str_field pkg "nonce_hex" = Some s /\ hex_to_bytes s = Some nonce /\ 16 <= zlen nonce;
  po_payload : exists s, str_field pkg "payload_b64" = Some s /\ b64_decode s = Some payload /\ b64_encode payload = s }.

Lemma disclosure_nonce_Some pkg nonce :
  disclosure_nonce pkg = Some nonce <->
  exists s, str_field pkg "nonce_hex" = Some s /\ hex_to_bytes s = Some nonce /\ 16 <= zlen nonce.
Proof.
  unfold disclosure_nonce. rewrite bind_Some. setoid_rewrite bind_Some. setoid_rewrite then_some_Some.
  setoid_rewrite Z.leb_le. split; [intros (s & ? & n & ? & ? & ->); eauto|intros (s & ? & ? & ?); eauto 8].
Qed.
Lemma disclosure_payload_Some pkg payload :
  disclosure_payload pkg = Some payload <->
  exists s, str_field pkg "payload_b64" = Some s /\ b64_decode s = Some payload /\ b64_encode payload = s.
Proof.
  unfold disclosure_payload. rewrite bind_Some. setoid_rewrite bind_Some. setoid_rewrite then_some_Some.
  setoid_rewrite String.eqb_eq. split; [intros (s & ? & n & ? & ? & ->); eauto|intros (s & ? & ? & ?); eauto 8].
Qed.

Lemma disclosure_fields_spec pkg rh field domain nonce payload :
  disclosure_fields pkg = Some (rh, field, domain, nonce, payload) <-> package_opens pkg rh field domain nonce payload.
Proof.
  unfold disclosure_fields. split.
  - intros E. apply bind_Some in E as (o & Ho & E). case_step E. apply orb_false_iff in E0 as [Hl Hs].
    apply negb_false_iff, Z.eqb_eq in Hl. apply negb_false_iff, bool_decide_eq_true in Hs.
    apply bind_Some in E as (rh' & ? & E). case_step E. apply negb_false_iff in E0.
    apply bind_Some in E as (f & ? & E). apply bind_Some in E as (d & ? & E). case_step E. apply negb_false_iff in E1.
    apply bind_Some in E as (n & Hn & E). apply bind_Some in E as (p & Hp & [= <- <- <- <- <-]).
    apply disclosure_nonce_Some in Hn. apply disclosure_payload_Some in Hp. split; eauto.
  - intros [(o & Ho & Hl) Hs [Hrh Hlow] Hf [Hd Hdom] Hn Hp].
    apply disclosure_nonce_Some in Hn. apply disclosure_payload_Some in Hp. apply Z.eqb_eq in Hl.
    rewrite Ho. cbn [mbind option_bind]. rewrite Hl, Hs. unfold opt_str_eqb. rewrite bool_decide_eq_true_2 by done.
    cbn [negb orb]. by rewrite Hrh; cbn [mbind option_bind]; rewrite Hlow, Hf; cbn [mbind option_bind negb];
      rewrite Hd; cbn [mbind option_bind]; rewrite Hdom, Hn, Hp.
Qed.

(** The receipt an entry carries under a hash, and the value it commits to in a field. *)
Definition carries (rh : string) (e : json) (raw : bytes) : Prop :=
  exists env, get e "envelope" = Some env /\ payload_of env = Some raw /\ hex (sha256 raw) = rh.
Definition commits (raw : bytes) (field value : string) : Prop :=
  exists body cs, canonical_body raw = Some body /\ get body "commitments" = Some cs /\ get_str cs field = Some value.

Lemma commits_spec raw field value : disclosure_committed_value raw field = Some value <-> commits raw field value.
Proof.
  unfold disclosure_committed_value, commits, get_str. split.
  - intros (b & Hb & (cs & Hcs & E)%bind_Some)%bind_Some. by exists b, cs.
  - intros (b & cs & -> & Hcs & E). cbn. by rewrite Hcs.
Qed.

Lemma carries_payload rh e raw : carries rh e raw -> (env ← get e "envelope"; payload_of env) = Some raw /\ hex (sha256 raw) = rh.
Proof. intros (env & -> & Hp & Hh). by rewrite <- Hp. Qed.

(** Skipping an entry that does not carry the receipt. *)
Lemma loop_skip e t rh (P : bytes -> Prop) (loop : list json -> bool) :
  (forall r, ~ carries rh e r) -> loop (e :: t) = loop t ->
  (loop t = true <-> exists b x a raw, t = b ++ x :: a /\ (forall y r, y ∈ b -> ~ carries rh y r) /\ carries rh x raw /\ P raw) ->
  loop (e :: t) = true <->
  exists b x a raw, e :: t = b ++ x :: a /\ (forall y r, y ∈ b -> ~ carries rh y r) /\ carries rh x raw /\ P raw.
Proof.
  intros Hn -> ->. split.
  - intros (b & x & a & raw & -> & Hb & Hc & Hv). exists (e :: b), x, a, raw. split_and!; try done.
    intros y r [->|Hy]%elem_of_cons; eauto.
  - intros ([|y b] & x & a & raw & Heq & Hb & Hc & Hv); injection Heq as -> ->; [by destruct (Hn raw)|].
    exists b, x, a, raw. split_and!; try done. intros z r Hz. apply Hb. set_solver.
Qed.

(** The loop stops at the first entry that carries the receipt. *)
Lemma disclosure_loop_spec entries rh field domain nonce payload :
  disclosure_loop entries rh field domain nonce payload = true <->
  exists before e after raw, entries = before ++ e :: after /\
    (forall x r, x ∈ before -> ~ carries rh x r) /\ carries rh e raw /\
    commits raw field (disclosure_commitment domain payload nonce).
Proof.
  induction entries as [|e t IH]; [split; [done|intros ([|] & ? & ? & ? & ? & _); done]|].
  assert (forall r, carries rh e r -> disclosure_loop (e :: t) rh field domain nonce payload = true <->
    commits r field (disclosure_commitment domain payload nonce)) as Hhit.
  { intros r Hc. apply carries_payload in Hc as [Hp Hh]. rewrite <- commits_spec. cbn. rewrite Hp, Hh, String.eqb_refl.
    cbn [negb]. destruct (disclosure_committed_value r field) as [x|]; [|done]. rewrite String.eqb_eq. by split; [intros <-|intros [= <-]]. }
  destruct (env ← get e "envelope"; payload_of env) as [raw|] eqn:Hp;
    [destruct (decide (hex (sha256 raw) = rh)) as [Hh|Hh]|].
  - assert (carries rh e raw) as Hc by (apply bind_Some in Hp as (env & ? & ?); by exists env).
    rewrite (Hhit raw Hc). split.
    + intros Hv. exists [], e, t, raw. split_and!; try done. intros x r Hx. by apply elem_of_nil in Hx.
    + intros ([|y b] & x & a & r & Heq & Hb & Hx & Hv); injection Heq as -> ->.
      * apply carries_payload in Hx as [Hx _]. by simplify_eq.
      * destruct (Hb y raw); [set_solver|done].
  - apply (loop_skip e t rh (fun r => commits r field (disclosure_commitment domain payload nonce))
      (fun l => disclosure_loop l rh field domain nonce payload)); [intros r Hc; apply carries_payload in Hc as [? ?]; congruence| |exact IH].
    cbn. rewrite Hp. by apply String.eqb_neq in Hh as ->.
  - apply (loop_skip e t rh (fun r => commits r field (disclosure_commitment domain payload nonce))
      (fun l => disclosure_loop l rh field domain nonce payload)); [intros r Hc; apply carries_payload in Hc as [? ?]; congruence| |exact IH].
    cbn. by rewrite Hp.
Qed.

(** C40: a disclosure verifies exactly when the package fits its closed profile and the first
    carried entry whose payload has the named hash is a canonical receipt that commits, under the
    very field named, to the digest of the opened domain, nonce and payload. *)
Theorem verify_disclosure_exact (pkg bundle : json) :
  verify_disclosure pkg bundle = true <->
  exists rh field domain nonce payload before e after raw,
    package_opens pkg rh field domain nonce payload /\
    get_array bundle "entries" = Some (before ++ e :: after) /\
    (forall x r, x ∈ before -> ~ carries rh x r) /\ carries rh e raw /\
    commits raw field (hex (sha256 (commitment_input domain payload nonce))).
Proof.
  unfold verify_disclosure. split.
  - intros E. case_step E. destruct p as [[[[rh field] domain] nonce] payload]. case_step E.
    apply disclosure_fields_spec in E0. apply disclosure_loop_spec in E as (b & e & a & raw & -> & ? & ? & ?).
    by exists rh, field, domain, nonce, payload, b, e, a, raw.
  - intros (rh & field & domain & nonce & payload & b & e & a & raw & Hp & Hes & Hb & Hc & Hv).
    apply disclosure_fields_spec in Hp. rewrite Hp, Hes. apply disclosure_loop_spec. by exists b, e, a, raw.
Qed.
End Binding.
