(* ===== verification/CborWire.v ===== *)
(** * CborWire: deterministic CBOR (cbor_wire.rs, cbor.rs)

    The item heads, the profile-parameterised emitter and the bounded
    structural scan shared by the certificate, COSE and CWT profiles, and the
    certificate profile's own entry points.  The theorems: heads round-trip and
    are minimal, the scan accepts exactly the items of a recursive grammar
    within its two budgets, and the emitter is injective up to the order of a
    map's pairs, so canonical bytes name one value. *)
From S2P Require Import Prelude Text.

(** [ciborium::Value] (its [Integer] is a 65-bit signed integer, kept as its
    value; the variants after [Null] never reach the emitter's model). *)
Inductive cbor :=
  | CInteger (i : Z)
  | CBytes (b : bytes)
  | CFloat (bits : Z)
  | CText (s : string)
  | CBool (b : bool)
  | CNull
  | CTag (tag : Z) (v : cbor)
  | CArray (a : list cbor)
  | CMap (m : list (cbor * cbor)).

(** [ciborium::de::from_reader], outside the repository. *)
Class Ciborium := from_reader : bytes -> option cbor.

(** ** Item heads *)

(** [u16], [u32], [u64] [to_be_bytes]: the low [n] bytes, most significant first. *)
Fixpoint be_bytes (n : nat) (x : Z) : bytes :=
  match n with
  | O => []
  | S n => Z.land (Z.shiftr x (8 * Z.of_nat n)) 255 :: be_bytes n x
  end.

(** [fn write_head]: the bytes appended to [out]. *)
Definition write_head (major : u8) (arg : Z) : bytes :=
  if arg <=? 23 then [Z.lor (Z.shiftl major 5) arg]
  else if arg <=? 255 then [Z.lor (Z.shiftl major 5) 24; arg]
  else if arg <=? 65535 then Z.lor (Z.shiftl major 5) 25 :: be_bytes 2 arg
  else if arg <=? 4294967295 then Z.lor (Z.shiftl major 5) 26 :: be_bytes 4 arg
  else Z.lor (Z.shiftl major 5) 27 :: be_bytes 8 arg.

(** [data.get(i)] and [data.get(a..z)]. *)
Definition byte_get (data : bytes) (i : Z) : option u8 := data !! Z.to_nat i.
Definition range_get (data : bytes) (a z : Z) : option bytes :=
  then_some (z <=? zlen data) (take (Z.to_nat (z - a)) (drop (Z.to_nat a) data)).

(** [fn read_head]: (major, argument, next offset). *)
Definition read_head (data : bytes) (i : Z) : option (u8 * Z * Z) :=
  byte ← byte_get data i;
  let major := Z.shiftr byte 5 in
  let info := Z.land byte 31 in
  let i := i + 1 in
  reject_if major =? 6 with None;
  reject_if major =? 7 with then_some ((20 <=? info) && (info <=? 22)) (major, 0, i);
  reject_if info <? 24 with Some (major, info, i);
  reject_if 27 <? info with None;
  let width := Z.shiftl 1 (info - 24) in
  raw ← range_get data i (i + width);
  let arg := foldl (fun arg byte => Z.lor (Z.land (Z.shiftl arg 8) U64_MAX) byte) 0 raw in
  Some (major, arg, i + width).

(** ** The emitter *)

(** [struct Profile]. *)
Record Profile := { int_keys : bool; bools : bool }.

(** [fn write_int], [fn write_text]: the bytes appended to [out], [None] for [false]. *)
Definition write_int (i : Z) : option bytes :=
  reject_if (i <? I64_MIN) || (I64_MAX <? i) with None;
  Some (if 0 <=? i then write_head 0 i else write_head 1 (-1 - i)).
Definition write_text (s : string) : bytes := write_head 3 (slen s) ++ str_bytes s.

(** [fn write_key]. *)
Definition write_key (k : cbor) (p : Profile) : option bytes :=
  match k with
  | CInteger i => if int_keys p then write_int i else None
  | CText s => Some (write_text s)
  | _ => None
  end.

(** The tail of [fn write_map], once every pair is encoded: sort by encoded key,
    refuse equal keys, emit. *)
Definition key_leb (a b : bytes * bytes) : bool := bytes_leb a.1 b.1.
Definition emit_map (pairs : list (bytes * bytes)) : option bytes :=
  let pairs := sort_by key_leb pairs in
  reject_if existsb (fun w => bytes_eqb w.1.1 w.2.1) (windows2 pairs) with None;
  Some (write_head 5 (zlen pairs) ++ concat (map (fun q => q.1 ++ q.2) pairs)).

(** [fn write_value] and [fn write_map]: the bytes appended to [out], [None] for
    [false] (the callers drop [out] then). *)
Fixpoint write_value (v : cbor) (limit : Z) (p : Profile) : option bytes :=
  reject_if limit <? 0 with None;
  match v with
  | CNull => Some [246]
  | CBool b => if bools p then Some [if b then 245 else 244] else None
  | CInteger i => write_int i
  | CText s => Some (write_text s)
  | CBytes b => Some (write_head 2 (zlen b) ++ b)
  | CArray a =>
      let fix items (a : list cbor) : option bytes :=
        match a with
        | [] => Some []
        | item :: a => x ← write_value item (limit - 1) p; xs ← items a; Some (x ++ xs)
        end in
      xs ← items a; Some (write_head 4 (zlen a) ++ xs)
  | CMap m =>
      let fix encode (m : list (cbor * cbor)) : option (list (bytes * bytes)) :=
        match m with
        | [] => Some []
        | (k, v) :: m =>
            kb ← write_key k p;
            vb ← write_value v (limit - 1) p;
            t ← encode m;
            Some ((kb, vb) :: t)
        end in
      pairs ← encode m; emit_map pairs
  | _ => None
  end.

(** [fn canonical_bytes]. *)
Definition canonical_bytes (v : cbor) (limit : Z) (p : Profile) : option bytes :=
  write_value v limit p.

(** ** The structural scan *)

(** [fn scan_string]: the new offset. *)
Definition scan_string (data : bytes) (i arg : Z) : option Z :=
  reject_if zlen data <? i with None;
  let remaining := zlen data - i in
  reject_if negb (arg <=? remaining) with None;
  Some (i + arg).

(** [fn scan_container]: the stack with the new frame, and whether one was pushed.
    The head of the list is the top of the stack. *)
Definition scan_container (data : bytes) (i : Z) (major arg : Z) (stack : list Z) (max_depth : Z)
    : option (list Z * bool) :=
  count ← (if major =? 4 then Some arg else then_some (arg * 2 <=? U64_MAX) (arg * 2));
  reject_if zlen data - i <? count with None;
  reject_if count =? 0 with Some (stack, false);
  reject_if max_depth <=? zlen stack with None;
  Some (count :: stack, true).

(** [fn scan_item]: the new offset, the stack, whether a frame was pushed. *)
Definition scan_item (data : bytes) (i : Z) (major arg : Z) (stack : list Z) (max_depth : Z)
    : option (Z * list Z * bool) :=
  if (major =? 2) || (major =? 3) then i ← scan_string data i arg; Some (i, stack, false)
  else if (major =? 4) || (major =? 5) then
    '(stack, pushed) ← scan_container data i major arg stack max_depth; Some (i, stack, pushed)
  else Some (i, stack, false).

(** [fn complete_item]. *)
Fixpoint complete_item (stack : list Z) : list Z * bool :=
  match stack with
  | [] => ([], true)
  | top :: rest => if 0 <? top - 1 then ((top - 1) :: rest, false) else complete_item rest
  end.

(** The loop of [fn structural_scan]; [budget] is [max_items - items], so the
    loop runs out exactly where [items > max_items] returns [None]. *)
Fixpoint scan_loop (budget : nat) (data : bytes) (stack : list Z) (i : Z) (max_depth : Z) : option Z :=
  match budget with
  | O => None
  | S budget =>
      '(major, arg, next) ← read_head data i;
      '(i, stack, pushed) ← scan_item data next major arg stack max_depth;
      if (pushed : bool) then scan_loop budget data stack i max_depth
      else
        let '(stack, finished) := complete_item stack in
        if (finished : bool) then Some i else scan_loop budget data stack i max_depth
  end.

(** [fn structural_scan]. *)
Definition structural_scan (data : bytes) (max_depth max_items : Z) : option Z :=
  scan_loop (Z.to_nat max_items) data [] 0 max_depth.

(** ** cbor.rs *)

Definition MAX_DEPTH : Z := 64.
Definition MAX_BYTES : Z := 16 * 1024 * 1024.
Definition MAX_ITEMS : Z := 100000.
Definition CERT_PROFILE : Profile := {| int_keys := false; bools := true |}.

(** [fn canonical_cbor]. *)
Definition canonical_cbor (v : cbor) : option bytes := canonical_bytes v MAX_DEPTH CERT_PROFILE.

(** [fn decode_cbor]. *)
Definition decode_cbor `{Ciborium} (data : bytes) (max_depth max_bytes : Z) : option cbor :=
  reject_if max_bytes <? zlen data with None;
  n ← structural_scan data max_depth MAX_ITEMS;
  reject_if negb (n =? zlen data) with None;
  value ← from_reader data;
  canon ← canonical_cbor value;
  then_some (bytes_eqb canon data) value.

(** ** Item heads: the argument and the offset round-trip *)

Lemma be_bytes_length n x : length (be_bytes n x) = n.
Proof. induction n; cbn; auto. Qed.

Lemma be_bytes_byte n x : Forall is_byte (be_bytes n x).
Proof.
  induction n as [|n IH]; cbn; constructor; [|done]. unfold is_byte.
  rewrite (land_ones_mod _ 8) by lia. change (2 ^ 8) with 256. apply Z.mod_pos_bound. lia.
Qed.

Lemma read_step a x : 0 <= a < 2 ^ 56 -> is_byte x -> Z.lor (Z.land (Z.shiftl a 8) U64_MAX) x = a * 256 + x.
Proof.
  unfold is_byte. intros Ha Hx. change U64_MAX with (2 ^ 64 - 1). rewrite land_ones_mod by lia.
  rewrite Z.mod_small by (rewrite Z.shiftl_mul_pow2 by lia; lia). by apply lor_shiftl.
Qed.

Lemma read_be_bytes n x a : 0 <= a -> (a + 1) * 256 ^ Z.of_nat n <= 2 ^ 64 ->
  foldl (fun arg byte => Z.lor (Z.land (Z.shiftl arg 8) U64_MAX) byte) a (be_bytes n x)
  = a * 256 ^ Z.of_nat n + x mod 256 ^ Z.of_nat n.
Proof.
  revert a. induction n as [|n IH]; intros a Ha Hb; cbn [be_bytes foldl].
  { change (256 ^ Z.of_nat 0) with 1. rewrite Z.mod_1_r. lia. }
  assert (256 ^ Z.of_nat (S n) = 256 * 256 ^ Z.of_nat n) as E
    by (rewrite Nat2Z.inj_succ, Z.pow_succ_r by lia; done).
  assert (1 <= 256 ^ Z.of_nat n) by (apply Z.pow_le_mono_r with (a := 256) (b := 0); lia).
  rewrite E in *. set (P := 256 ^ Z.of_nat n) in *.
  rewrite (land_ones_mod _ 8), Z.shiftr_div_pow2, Z.pow_mul_r by lia. change (2 ^ 8) with 256. fold P.
  pose proof (Z.mod_pos_bound (x / P) 256 ltac:(lia)).
  rewrite read_step by (try (unfold is_byte); nia).
  rewrite IH by nia. rewrite (Z.mul_comm 256 P), Z.rem_mul_r by lia. lia.
Qed.

Lemma initial_byte major info : 0 <= major -> 0 <= info < 32 ->
  Z.shiftr (Z.lor (Z.shiftl major 5) info) 5 = major /\ Z.land (Z.lor (Z.shiftl major 5) info) 31 = info.
Proof.
  intros Hm Hi. rewrite lor_shiftl by lia. change (2 ^ 5) with 32. split.
  - rewrite Z.shiftr_div_pow2 by lia. change (2 ^ 5) with 32. symmetry; apply Z.div_unique with info; lia.
  - rewrite (land_ones_mod _ 5) by lia. change (2 ^ 5) with 32. symmetry. apply Z.mod_unique with major; lia.
Qed.

Lemma byte_get_app pre x post : byte_get (pre ++ x :: post) (zlen pre) = Some x.
Proof. unfold byte_get, zlen. rewrite Nat2Z.id, lookup_app_r, Nat.sub_diag by lia. done. Qed.

Lemma range_get_app pre l post n : n = zlen l ->
  range_get (pre ++ l ++ post) (zlen pre) (zlen pre + n) = Some l.
Proof.
  intros ->. unfold range_get. rewrite (proj2 (Z.leb_le _ _)) by (rewrite !zlen_app; pose proof (zlen_nonneg post); lia).
  cbn. f_equal. unfold zlen. replace (Z.to_nat (_ - _)) with (length l) by lia.
  rewrite Nat2Z.id, drop_app_length, take_app_length. done.
Qed.

(** A head with [width] argument bytes. *)
Lemma read_head_wide major arg pre post info n : 0 <= major <= 5 -> 24 <= info <= 27 ->
  Z.of_nat n = Z.shiftl 1 (info - 24) -> 0 <= arg < 256 ^ Z.of_nat n ->
  read_head (pre ++ (Z.lor (Z.shiftl major 5) info :: be_bytes n arg) ++ post) (zlen pre)
  = Some (major, arg, zlen pre + 1 + Z.of_nat n).
Proof.
  intros Hm Hi Hn Ha. unfold read_head. cbn [app]. rewrite byte_get_app. cbn [mbind option_bind].
  destruct (initial_byte major info) as [-> ->]; [lia..|].
  rewrite (proj2 (Z.eqb_neq major 6)), (proj2 (Z.eqb_neq major 7)), (proj2 (Z.ltb_ge info 24)),
    (proj2 (Z.ltb_ge 27 info)) by lia.
  rewrite <- Hn.
  replace (zlen pre + 1) with (zlen (pre ++ [Z.lor (Z.shiftl major 5) info])) at 1 2
    by (rewrite zlen_app; reflexivity).
  rewrite cons_middle, app_assoc.
  rewrite range_get_app by (unfold zlen; by rewrite be_bytes_length). cbn [mbind option_bind].
  assert (256 ^ Z.of_nat n <= 2 ^ 64).
  { rewrite Hn. assert (info = 24 \/ info = 25 \/ info = 26 \/ info = 27) as [->|[->|[->| ->]]] by lia; done. }
  rewrite read_be_bytes by lia. rewrite Z.mod_small by lia. done.
Qed.

Lemma read_head_app major arg pre post : 0 <= major <= 5 -> is_u64 arg ->
  read_head (pre ++ write_head major arg ++ post) (zlen pre)
  = Some (major, arg, zlen pre + zlen (write_head major arg)).
Proof.
  unfold is_u64, U64_MAX. intros Hm Ha. unfold write_head.
  destruct (arg <=? 23) eqn:E1; [|destruct (arg <=? 255) eqn:E2; [|destruct (arg <=? 65535) eqn:E3;
    [|destruct (arg <=? 4294967295) eqn:E4]]]; bool_prop.
  - unfold read_head. cbn [app]. rewrite byte_get_app. cbn [mbind option_bind].
    destruct (initial_byte major arg) as [-> ->]; [lia..|].
    rewrite (proj2 (Z.eqb_neq major 6)), (proj2 (Z.eqb_neq major 7)), (proj2 (Z.ltb_lt arg 24)) by lia. done.
  - assert (be_bytes 1 arg = [arg]) as <-.
    { cbn. rewrite Z.shiftr_0_r, (land_ones_mod _ 8), Z.mod_small by lia. done. }
    rewrite (read_head_wide _ _ _ _ 24 1) by (try done; lia). do 2 f_equal. unfold zlen; cbn; lia.
  - rewrite (read_head_wide _ _ _ _ 25 2) by (try done; lia). do 2 f_equal. unfold zlen; cbn; lia.
  - rewrite (read_head_wide _ _ _ _ 26 4) by (try done; lia). do 2 f_equal. unfold zlen; cbn; lia.
  - rewrite (read_head_wide _ _ _ _ 27 8) by (try done; lia). do 2 f_equal. unfold zlen; cbn; lia.
Qed.

Lemma write_head_inj m a a' r r' : 0 <= m <= 5 -> is_u64 a -> is_u64 a' ->
  write_head m a ++ r = write_head m a' ++ r' -> a = a' /\ r = r'.
Proof.
  intros Hm Ha Ha' He. pose proof (read_head_app m a [] r Hm Ha) as H1.
  pose proof (read_head_app m a' [] r' Hm Ha') as H2. cbn [app] in *. rewrite He, H2 in H1.
  injection H1 as <- _. split; [done|]. by apply app_inv_head in He.
Qed.

(** ** The emitter, one level at a time *)

Definition write_pair (limit : Z) (p : Profile) (x : cbor * cbor) : option (bytes * bytes) :=
  kb ← write_key x.1 p; vb ← write_value x.2 limit p; Some (kb, vb).

Lemma write_array a limit p : write_value (CArray a) limit p =
  if limit <? 0 then None
  else xs ← mapM (fun x => write_value x (limit - 1) p) a; Some (write_head 4 (zlen a) ++ concat xs).
Proof.
  cbn [write_value]. destruct (limit <? 0); [done|].
  match goal with |- (_ ← ?f a; Some (?h ++ _)) = _ => set (items := f); generalize h end.
  assert (forall a, items a = (xs ← mapM (fun x => write_value x (limit - 1) p) a; Some (concat xs))) as E.
  { clear a. induction a as [|x a IH]; [done|]. cbn [items mapM]. fold items. rewrite IH.
    destruct (write_value x _ p); cbn; [|done]. by destruct (mapM _ a). }
  intros h. rewrite E. by destruct (mapM _ a).
Qed.

Lemma write_map m limit p : write_value (CMap m) limit p =
  if limit <? 0 then None else pairs ← mapM (write_pair (limit - 1) p) m; emit_map pairs.
Proof.
  cbn [write_value]. destruct (limit <? 0); [done|].
  match goal with |- (_ ← ?f m; _) = _ => set (encode := f) end.
  assert (forall m, encode m = mapM (write_pair (limit - 1) p) m) as ->; [|done].
  clear m. induction m as [|[k v] m IH]; [done|]. cbn [encode mapM]. fold encode. rewrite IH.
  change (write_pair (limit - 1) p (k, v))
    with (kb ← write_key k p; vb ← write_value v (limit - 1) p; Some (kb, vb)).
  by destruct (write_key k p), (write_value v _ p).
Qed.

(** Induction on a value through its arrays and maps. *)
Fixpoint cbor_ind' (P : cbor -> Prop)
    (Hi : forall i, P (CInteger i)) (Hb : forall b, P (CBytes b)) (Hf : forall f, P (CFloat f))
    (Ht : forall s, P (CText s)) (Ho : forall b, P (CBool b)) (Hn : P CNull)
    (Hg : forall t v, P (CTag t v)) (Ha : forall a, Forall P a -> P (CArray a))
    (Hm : forall m, Forall (fun x => P x.2) m -> P (CMap m)) (v : cbor) : P v :=
  let go := cbor_ind' P Hi Hb Hf Ht Ho Hn Hg Ha Hm in
  match v with
  | CInteger i => Hi i
  | CBytes b => Hb b
  | CFloat f => Hf f
  | CText s => Ht s
  | CBool b => Ho b
  | CNull => Hn
  | CTag t v => Hg t v
  | CArray a =>
      Ha a ((fix all (a : list cbor) : Forall P a :=
        match a with [] => Forall_nil_2 _ | x :: a => Forall_cons_2 _ _ _ (go x) (all a) end) a)
  | CMap m =>
      Hm m ((fix all (m : list (cbor * cbor)) : Forall (fun x => P x.2) m :=
        match m with [] => Forall_nil_2 _ | x :: m => Forall_cons_2 _ _ _ (go x.2) (all m) end) m)
  end.

(** Sorted keys, adjacent ones distinct: all distinct. *)
Lemma bytes_eqb_neq a b : bytes_eqb a b = false <-> a <> b.
Proof. apply bool_decide_eq_false. Qed.
Lemma keys_strict (q : list (bytes * bytes)) : Sorted (fun x y => key_leb x y = true) q ->
  (forall w, w ∈ windows2 q -> w.1.1 <> w.2.1) -> StronglySorted (fun a b => bytes_compare a b = Lt) q.*1.
Proof.
  intros Hs Hw. apply (Sorted_StronglySorted _).
  induction Hs as [|x q Hs IH Hh]; cbn [fmap list_fmap]; [constructor|].
  destruct q as [|y q]; [repeat constructor|]. constructor.
  - apply IH. intros w Hin. apply Hw. cbn [windows2]. by right.
  - inversion Hh as [|? ? Hxy]; subst. cbn. constructor. apply bytes_leb_compare in Hxy as [Hxy|Hxy]; [done|].
    destruct (Hw (x, y)); [by left|done].
Qed.
Lemma keys_nodup (l : list bytes) : StronglySorted (fun a b => bytes_compare a b = Lt) l -> NoDup l.
Proof.
  induction 1 as [|x l _ IH Hf]; constructor; [|done].
  intros Hin. rewrite Forall_forall in Hf. by apply (bytes_lt_irrefl x), Hf.
Qed.

(** An accepted map: its pairs in the order of their distinct encoded keys. *)
Lemma emit_map_Some pairs b : emit_map pairs = Some b ->
  exists q, q ≡ₚ pairs /\ NoDup q.*1 /\ Sorted (fun x y => key_leb x y = true) q
            /\ b = write_head 5 (zlen q) ++ concat (map (fun x => x.1 ++ x.2) q).
Proof.
  unfold emit_map. intros H. case_step H. injection H as <-. exists (sort_by key_leb pairs).
  assert (Sorted (fun x y => key_leb x y = true) (sort_by key_leb pairs)) as Hs
    by (apply sort_by_sorted; intros; apply bytes_leb_total).
  split_and!; [apply sort_by_perm| |done|done].
  apply keys_nodup, keys_strict; [done|]. intros w Hw. apply bytes_eqb_neq, (proj1 (existsb_false _ _) E), Hw.
Qed.

(** What the emitter wrote, by the shape of the value. *)
Definition written (l : Z) (p : Profile) (v : cbor) (b : bytes) : Prop :=
  match v with
  | CNull => b = [246]
  | CBool c => b = [if c then 245 else 244]
  | CInteger i => (I64_MIN <= i <= I64_MAX) /\ b = (if 0 <=? i then write_head 0 i else write_head 1 (-1 - i))
  | CText s => b = write_text s
  | CBytes c => b = write_head 2 (zlen c) ++ c
  | CArray a => exists xs, Forall2 (fun x e => write_value x (l - 1) p = Some e) a xs
                           /\ b = write_head 4 (zlen a) ++ concat xs
  | CMap m => exists m1 q, m1 ≡ₚ m /\ Forall2 (fun x e => write_pair (l - 1) p x = Some e) m1 q
                /\ StronglySorted (fun a b => bytes_compare a b = Lt) q.*1
                /\ b = write_head 5 (zlen m) ++ concat (map (fun x => x.1 ++ x.2) q)
  | _ => False
  end.

Lemma write_int_Some i b : write_int i = Some b <->
  (I64_MIN <= i <= I64_MAX) /\ b = (if 0 <=? i then write_head 0 i else write_head 1 (-1 - i)).
Proof.
  unfold write_int. split.
  - intros H. case_step H. bool_prop. injection H as <-. split; [lia|done].
  - intros [Hi ->]. destruct (_ || _) eqn:E; [|done]. bool_prop. lia.
Qed.

Lemma write_value_written v l p b : write_value v l p = Some b -> 0 <= l /\ written l p v b.
Proof.
  intros H. assert (0 <= l) as Hl.
  { destruct (Z.ltb_spec l 0) as [E|E]; [|done]. destruct v; cbn in H; rewrite (proj2 (Z.ltb_lt l 0)) in H by lia; done. }
  split; [done|]. assert ((l <? 0) = false) as El by (apply Z.ltb_ge; lia).
  destruct v as [i|c|f|s|c| |t v|a|m]; cbn [written].
  1: cbn in H; rewrite El in H; by apply write_int_Some.
  1-6: cbn in H; rewrite El in H; by repeat case_step H; simplify_eq.
  - rewrite write_array, El in H. apply bind_Some in H as (xs & E & [= <-]).
    exists xs. split; [by apply mapM_Some|done].
  - rewrite write_map, El in H. apply bind_Some in H as (pairs & E & Hm).
    apply mapM_Some in E. unfold emit_map in Hm. case_step Hm. injection Hm as <-.
    set (q := sort_by key_leb pairs).
    assert (pairs ≡ₚ q) as Hq by (symmetry; apply sort_by_perm).
    apply Forall2_flip in E. destruct (Permutation_Forall2 Hq E) as (m1 & Hp & Hf%Forall2_flip).
    exists m1, q. split_and!; [done|done| |].
    + apply keys_strict; [apply sort_by_sorted; intros; apply bytes_leb_total|].
      intros w Hw. apply bytes_eqb_neq, (proj1 (existsb_false _ _) E0), Hw.
    + do 2 f_equal; unfold zlen. rewrite <- Hq. f_equal. by eapply Forall2_length.
Qed.

Lemma write_head_cons m a : 0 <= m <= 5 -> 0 <= a -> exists x t, write_head m a = x :: t /\ Z.shiftr x 5 = m.
Proof.
  intros Hm Ha. unfold write_head.
  repeat match goal with |- context [if ?c then _ else _] => destruct c eqn:? end; bool_prop;
    do 2 eexists; (split; [reflexivity|]); apply initial_byte; lia.
Qed.

(** The first byte's major type. *)
Definition major_of (v : cbor) : Z :=
  match v with
  | CInteger i => if 0 <=? i then 0 else 1
  | CBytes _ => 2 | CText _ => 3 | CArray _ => 4 | CMap _ => 5 | _ => 7
  end.

Lemma write_value_cons v l p b : write_value v l p = Some b ->
  exists x t, b = x :: t /\ Z.shiftr x 5 = major_of v.
Proof.
  intros [_ H]%write_value_written.
  destruct v as [i|c|f|s|c| |t v|a|m]; cbn [written major_of] in *; try done.
  - destruct H as [Hi ->]. destruct (0 <=? i) eqn:E; bool_prop; apply write_head_cons; lia.
  - destruct (write_head_cons 2 (zlen c)) as (x & t & E & ?); [lia|apply zlen_nonneg|].
    rewrite H, E. by exists x, (t ++ c).
  - destruct (write_head_cons 3 (slen s)) as (x & t & E & ?); [lia|unfold slen; lia|].
    rewrite H. unfold write_text. rewrite E. by exists x, (t ++ str_bytes s).
  - subst b. destruct c; by do 2 eexists.
  - subst b. by do 2 eexists.
  - destruct H as (xs & _ & ->). destruct (write_head_cons 4 (zlen a)) as (x & t & E & ?); [lia|apply zlen_nonneg|].
    rewrite E. by exists x, (t ++ concat xs).
  - destruct H as (m1 & q & _ & _ & _ & ->).
    destruct (write_head_cons 5 (zlen m)) as (x & t & E & ?); [lia|apply zlen_nonneg|]. rewrite E. by do 2 eexists.
Qed.

(** ** Canonical bytes name one value *)

(** Equal up to the order of the pairs of a map. *)
Inductive cbor_equiv : cbor -> cbor -> Prop :=
  | equiv_refl v : cbor_equiv v v
  | equiv_array a a' : Forall2 cbor_equiv a a' -> cbor_equiv (CArray a) (CArray a')
  | equiv_map m m' m1 m1' : m1 ≡ₚ m -> m1' ≡ₚ m' ->
      Forall2 (fun x y => x.1 = y.1 /\ cbor_equiv x.2 y.2) m1 m1' -> cbor_equiv (CMap m) (CMap m').

(** The statement proved by induction: an emitted value is self-delimiting. *)
Definition self_delimiting (v : cbor) : Prop := forall l p b v' l' p' b' r r',
  write_value v l p = Some b -> write_value v' l' p' = Some b' ->
  zlen b <= USIZE_MAX -> zlen b' <= USIZE_MAX -> b ++ r = b' ++ r' ->
  cbor_equiv v v' /\ b = b' /\ r = r'.

Lemma write_text_inj s s' r r' : slen s <= USIZE_MAX -> slen s' <= USIZE_MAX ->
  write_text s ++ r = write_text s' ++ r' -> s = s' /\ r = r'.
Proof.
  unfold write_text. rewrite <- !app_assoc. intros Hs Hs' H.
  apply write_head_inj in H as [Hl H]; [|lia|unfold is_u64, slen, USIZE_MAX in *; lia..].
  apply app_inj_1 in H as [H ->]; [by apply str_bytes_inj in H|].
  apply Nat2Z.inj. change (zlen (str_bytes s) = zlen (str_bytes s')). by rewrite !length_str_bytes.
Qed.

Lemma write_key_inj k k' p p' b b' r r' : write_key k p = Some b -> write_key k' p' = Some b' ->
  zlen b <= USIZE_MAX -> zlen b' <= USIZE_MAX -> b ++ r = b' ++ r' -> k = k' /\ b = b' /\ r = r'.
Proof.
  intros H H' Hb Hb' E.
  assert (forall k p b, write_key k p = Some b -> exists p, write_value k 0 p = Some b) as Hv.
  { clear. intros v q w Hw. exists q. destruct v; cbn in Hw; try done. by case_step Hw. }
  destruct (Hv _ _ _ H) as (q & Hw), (Hv _ _ _ H') as (q' & Hw').
  destruct (write_value_cons _ _ _ _ Hw) as (x & t & Ex & Hx), (write_value_cons _ _ _ _ Hw') as (x' & t' & Ex' & Hx').
  assert (major_of k = major_of k') as Hm by (subst; cbn in E; congruence).
  clear x t Ex Hx x' t' Ex' Hx'.
  destruct k as [i| | |s| | | | |], k' as [i'| | |s'| | | | |]; try done; cbn in H, H'; simplify_eq.
  - case_step H. case_step H'. apply write_int_Some in H as [Hi ->], H' as [Hi' ->]. unfold I64_MIN, I64_MAX in *.
    cbn in Hm. destruct (0 <=? i) eqn:Ei, (0 <=? i') eqn:Ei'; try done; bool_prop;
      (apply write_head_inj in E as [E ->]; [|lia|unfold is_u64, U64_MAX; lia..]).
    + by subst.
    + assert (i = i') by lia. by subst.
  - cbn in Hm. destruct (0 <=? i); done.
  - cbn in Hm. destruct (0 <=? i'); done.
  - unfold write_text in Hb, Hb'. rewrite !zlen_app, length_str_bytes in Hb, Hb'.
    pose proof (zlen_nonneg (write_head 3 (slen s))). pose proof (zlen_nonneg (write_head 3 (slen s'))).
    apply write_text_inj in E as [-> ->]; [done|lia..].
Qed.

Lemma items_inj l p l' p' a a' xs xs' r r' : Forall self_delimiting a ->
  Forall2 (fun x e => write_value x l p = Some e) a xs -> Forall2 (fun x e => write_value x l' p' = Some e) a' xs' ->
  zlen (concat xs) <= USIZE_MAX -> zlen (concat xs') <= USIZE_MAX -> length a = length a' ->
  concat xs ++ r = concat xs' ++ r' -> Forall2 cbor_equiv a a' /\ concat xs = concat xs' /\ r = r'.
Proof.
  intros Hd Hf. revert Hd a' xs'. induction Hf as [|x e a xs Hx Hf IH]; intros Hd a' xs' Hf' Hl Hl' Hn E.
  { destruct a'; [|done]. inversion Hf'; subst. by split_and!. }
  destruct a' as [|x' a']; [done|]. inversion Hf' as [|? e' ? xs'' Hx' Hf'']; subst. cbn [concat] in *.
  inversion Hd as [|? ? Hdx Hda]; subst. rewrite zlen_app in Hl, Hl'. rewrite <- !app_assoc in E.
  pose proof (zlen_nonneg e). pose proof (zlen_nonneg e').
  pose proof (zlen_nonneg (concat xs)). pose proof (zlen_nonneg (concat xs'')).
  destruct (Hdx _ _ _ _ _ _ _ _ _ Hx Hx' ltac:(lia) ltac:(lia) E) as (Hq & -> & E').
  destruct (IH Hda _ _ Hf'' ltac:(lia) ltac:(lia) ltac:(cbn in Hn; lia) E') as (Hqs & -> & ->).
  split_and!; [by constructor|done..].
Qed.

Lemma write_pair_Some l p x e : write_pair l p x = Some e ->
  write_key x.1 p = Some e.1 /\ write_value x.2 l p = Some e.2.
Proof.
  unfold write_pair. intros H. apply bind_Some in H as (kb & -> & H).
  apply bind_Some in H as (vb & -> & H). injection H as <-. done.
Qed.

Lemma pairs_inj l p l' p' m m' q q' r r' : Forall (fun x => self_delimiting x.2) m ->
  Forall2 (fun x e => write_pair l p x = Some e) m q -> Forall2 (fun x e => write_pair l' p' x = Some e) m' q' ->
  let w := fun q : list (bytes * bytes) => concat (map (fun x => x.1 ++ x.2) q) in
  zlen (w q) <= USIZE_MAX -> zlen (w q') <= USIZE_MAX -> length m = length m' -> w q ++ r = w q' ++ r' ->
  Forall2 (fun x y => x.1 = y.1 /\ cbor_equiv x.2 y.2) m m' /\ w q = w q' /\ r = r'.
Proof.
  intros Hd Hf Hf' w. revert Hd m' q' Hf'. subst w.
  induction Hf as [|x e m q Hx Hf IH]; intros Hd m' q' Hf' Hl Hl' Hn E.
  { destruct m'; [|done]. inversion Hf'; subst. by split_and!. }
  destruct m' as [|x' m']; [done|]. inversion Hf' as [|? e' ? q'' Hx' Hf'']; subst. cbn [concat map] in *.
  inversion Hd as [|? ? Hdx Hdm]; subst. rewrite !zlen_app in Hl, Hl'. rewrite <- !app_assoc in E.
  apply write_pair_Some in Hx as [Hk Hv], Hx' as [Hk' Hv'].
  destruct e as [kb vb], e' as [kb' vb']; cbn [fst snd] in *.
  pose proof (zlen_nonneg kb). pose proof (zlen_nonneg kb'). pose proof (zlen_nonneg vb). pose proof (zlen_nonneg vb').
  set (w := concat (map (fun x => x.1 ++ x.2) q)) in *. set (w' := concat (map (fun x => x.1 ++ x.2) q'')) in *.
  pose proof (zlen_nonneg w). pose proof (zlen_nonneg w').
  destruct (write_key_inj _ _ _ _ _ _ _ _ Hk Hk' ltac:(lia) ltac:(lia) E) as (Ek & -> & E1).
  destruct (Hdx _ _ _ _ _ _ _ _ _ Hv Hv' ltac:(lia) ltac:(lia) E1) as (Hq & -> & E2).
  destruct (IH Hdm _ _ Hf'' ltac:(fold w; lia) ltac:(fold w'; lia) ltac:(cbn in Hn; lia) E2) as (Hqs & Ew & ->).
  fold w w' in Ew. rewrite Ew. split_and!; [by constructor|done..].
Qed.

Lemma write_value_nonempty v l p b : write_value v l p = Some b -> 1 <= zlen b.
Proof. intros (x & t & -> & _)%write_value_cons. rewrite zlen_cons. pose proof (zlen_nonneg t). lia. Qed.

Lemma items_length l p a xs : Forall2 (fun x e => write_value x l p = Some e) a xs -> zlen a <= zlen (concat xs).
Proof.
  induction 1 as [|x e a xs Hx _ IH]; [done|]. cbn [concat]. rewrite zlen_cons, zlen_app.
  apply write_value_nonempty in Hx. lia.
Qed.

Lemma write_key_value k p b : write_key k p = Some b -> write_value k 0 p = Some b.
Proof. destruct k; cbn; try done. by intros H; case_step H. Qed.

Lemma pairs_length l p m q : Forall2 (fun x e => write_pair l p x = Some e) m q ->
  zlen m * 2 <= zlen (concat (map (fun x => x.1 ++ x.2) q)).
Proof.
  induction 1 as [|x e m q Hx _ IH]; [done|]. cbn [concat map]. rewrite zlen_cons, !zlen_app.
  apply write_pair_Some in Hx as [Hk%write_key_value%write_value_nonempty Hv%write_value_nonempty]. lia.
Qed.

Lemma write_value_self_delimiting v : self_delimiting v.
Proof.
  induction v as [i|c|f|s|c| |t v|a IH|m IH] using cbor_ind'; intros l p b v' l' p' b' r r' H H' Hb Hb' E;
    pose proof H as (x & t' & Ex & Hx)%write_value_cons; pose proof H' as (x' & t'' & Ex' & Hx')%write_value_cons;
    assert (major_of v' = major_of (_ : cbor)) as Hm by (rewrite <- Hx', <- Hx; subst; cbn in E; congruence);
    clear x t' Ex Hx x' t'' Ex' Hx'; pose proof H as [_ W]%write_value_written; pose proof H' as [_ W']%write_value_written;
    destruct v' as [i'|c'|f'|s'|c'| |t' v'|a'|m']; cbn [written] in W, W'; try done; cbn [major_of] in Hm;
    repeat match type of Hm with context [if ?c then _ else _] => destruct c eqn:?; try done end.
  1,2: cbn in H, H'; case_step H; case_step H';
    destruct (write_key_inj (CInteger i) (CInteger i') {| int_keys := true; bools := true |}
      {| int_keys := true; bools := true |} _ _ _ _ H H' Hb Hb' E) as ([= ->] & -> & ->); split_and!; [constructor|done..].
  - subst b b'. rewrite !zlen_app in *. rewrite <- !app_assoc in E.
    pose proof (zlen_nonneg (write_head 2 (zlen c))). pose proof (zlen_nonneg (write_head 2 (zlen c'))).
    pose proof (zlen_nonneg c). pose proof (zlen_nonneg c').
    apply write_head_inj in E as [El E]; [|lia|unfold is_u64, USIZE_MAX in *; lia..].
    apply app_inj_1 in E as [-> ->]; [|unfold zlen in El; lia]. split_and!; [constructor|done..].
  - subst b b'. unfold write_text in Hb, Hb'. rewrite !zlen_app, length_str_bytes in Hb, Hb'.
    pose proof (zlen_nonneg (write_head 3 (slen s))). pose proof (zlen_nonneg (write_head 3 (slen s'))).
    apply write_text_inj in E as [-> ->]; [|lia..]. split_and!; [constructor|done..].
  - subst. destruct c, c'; cbn in E; simplify_eq; split_and!; try done; constructor.
  - subst. destruct c; done.
  - subst. destruct c'; done.
  - subst. cbn in E. simplify_eq. split_and!; [constructor|done..].
  - destruct W as (xs & Hxs & ->), W' as (xs' & Hxs' & ->). rewrite !zlen_app in *. rewrite <- !app_assoc in E.
    pose proof (zlen_nonneg (write_head 4 (zlen a))). pose proof (zlen_nonneg (write_head 4 (zlen a'))).
    pose proof (items_length _ _ _ _ Hxs). pose proof (items_length _ _ _ _ Hxs').
    pose proof (zlen_nonneg a). pose proof (zlen_nonneg a').
    apply write_head_inj in E as [El E]; [|lia|unfold is_u64, USIZE_MAX in *; lia..].
    destruct (items_inj _ _ _ _ _ _ _ _ _ _ IH Hxs Hxs' ltac:(lia) ltac:(lia) ltac:(unfold zlen in El; lia) E)
      as (Hq & -> & ->).
    rewrite El. split_and!; [by constructor|done..].
  - destruct W as (m1 & q & Hp & Hq & _ & ->), W' as (m1' & q' & Hp' & Hq' & _ & ->). rewrite !zlen_app in *.
    rewrite <- !app_assoc in E.
    pose proof (zlen_nonneg (write_head 5 (zlen m))). pose proof (zlen_nonneg (write_head 5 (zlen m'))).
    pose proof (pairs_length _ _ _ _ Hq). pose proof (pairs_length _ _ _ _ Hq').
    assert (zlen m1 = zlen m) by (unfold zlen; by rewrite Hp). assert (zlen m1' = zlen m') by (unfold zlen; by rewrite Hp').
    pose proof (zlen_nonneg m). pose proof (zlen_nonneg m').
    apply write_head_inj in E as [El E]; [|lia|unfold is_u64, USIZE_MAX in *; lia..].
    rewrite <- Hp in IH.
    assert (length m1 = length m1') as Hn by (unfold zlen in *; lia).
    destruct (pairs_inj _ _ _ _ _ _ _ _ r r' IH Hq Hq') as (Heq & Ew & ->); [cbv zeta; lia|cbv zeta; lia|done|done|].
    rewrite El, Ew. split_and!; [by econstructor|done..].
Qed.

(** The same canonical bytes, even under different profiles: the same value. *)
Lemma canonical_bytes_binds v v' l l' p p' b : zlen b <= USIZE_MAX ->
  canonical_bytes v l p = Some b -> canonical_bytes v' l' p' = Some b -> cbor_equiv v v'.
Proof.
  intros Hb H H'. by destruct (write_value_self_delimiting v l p b v' l' p' b [] [] H H' Hb Hb eq_refl).
Qed.

(** Equal values have the same canonical bytes. *)
Lemma emit_map_perm q q' : q ≡ₚ q' -> emit_map q = emit_map q'.
Proof.
  intros Hp. unfold emit_map.
  assert (Sorted (fun x y => key_leb x y = true) (sort_by key_leb q)) as Hs
    by (apply sort_by_sorted; intros; apply bytes_leb_total).
  assert (Sorted (fun x y => key_leb x y = true) (sort_by key_leb q')) as Hs'
    by (apply sort_by_sorted; intros; apply bytes_leb_total).
  assert (sort_by key_leb q ≡ₚ sort_by key_leb q') as Hp' by by rewrite !sort_by_perm.
  assert (forall s s', Sorted (fun x y => key_leb x y = true) s -> Sorted (fun x y => key_leb x y = true) s' ->
    s ≡ₚ s' -> existsb (fun w => bytes_eqb w.1.1 w.2.1) (windows2 s) = false -> s = s') as Huniq.
  { clear. intros s s' Hs Hs' Hp He.
    assert (StronglySorted (fun a b => bytes_compare a b = Lt) s.*1) as Hk.
    { apply keys_strict; [done|]. intros w Hw. apply bytes_eqb_neq, (proj1 (existsb_false _ _) He), Hw. }
    apply keys_nodup in Hk.
    assert (Transitive (fun x y : bytes * bytes => key_leb x y = true)) as Ht.
    { intros x y z. unfold key_leb. rewrite !bytes_leb_compare.
      intros [H1|H1] [H2|H2]; rewrite ?H1, ?H2 in *; eauto using bytes_compare_trans. }
    apply (Sorted_unique_strong (fun x y => key_leb x y = true)); [|done..].
    intros x y Hx Hy Hxy Hyx. rewrite <- Hp in Hy. unfold key_leb in *.
    assert (x.1 = y.1) as Hkey.
    { apply bytes_leb_compare in Hxy as [Hxy|Hxy]; [|done].
      apply bytes_leb_compare in Hyx as [Hyx|Hyx]; [|done].
      exfalso. apply (bytes_lt_irrefl x.1). by eapply bytes_compare_trans. }
    apply list_elem_of_lookup in Hx as [i Hi], Hy as [j Hj].
    assert (i = j) as ->; [|congruence].
    apply (NoDup_lookup _ i j x.1 Hk); rewrite list_lookup_fmap; [by rewrite Hi|by rewrite Hj, Hkey]. }
  destruct (existsb _ (windows2 (sort_by key_leb q))) eqn:E, (existsb _ (windows2 (sort_by key_leb q'))) eqn:E';
    [done|..].
  - rewrite (Huniq _ _ Hs' Hs) in E' by (auto; by symmetry). congruence.
  - rewrite (Huniq _ _ Hs Hs' Hp' E) in E. congruence.
  - by rewrite (Huniq _ _ Hs Hs' Hp' E).
Qed.

Lemma write_value_equiv v v' l p : cbor_equiv v v' -> write_value v l p = write_value v' l p.
Proof.
  revert v' l. induction v as [i|c|f|s|c| |t v|a IH|m IH] using cbor_ind'; intros v' l H;
    inversion H as [|? a' Ha|? m' m1 m1' Hp Hp' Hm]; subst; try done.
  - rewrite !write_array. destruct (l <? 0); [done|].
    replace (zlen a') with (zlen a) by (unfold zlen; f_equal; by eapply Forall2_length).
    assert (mapM (fun x => write_value x (l - 1) p) a = mapM (fun x => write_value x (l - 1) p) a') as ->; [|done].
    clear H. induction Ha as [|x y a a' Hxy _ IHa]; [done|]. inversion IH; subst. cbn [mapM].
    rewrite IHa by done. by erewrite H1.
  - rewrite !write_map. destruct (l <? 0); [done|]. rewrite <- Hp in IH.
    assert (mapM (write_pair (l - 1) p) m1 = mapM (write_pair (l - 1) p) m1') as E.
    { clear Hp Hp' H. induction Hm as [|[k x] [k' y] m1 m1' [Hk Hxy] _ IHm]; [done|]. inversion IH; subst. cbn [mapM].
      rewrite IHm by done. cbn in Hk, Hxy. subst k'.
      assert (write_pair (l - 1) p (k, x) = write_pair (l - 1) p (k, y)) as ->; [|done].
      unfold write_pair. cbn [fst snd] in *. by rewrite (H1 y (l - 1) Hxy). }
    assert (forall m q, m ≡ₚ q -> (pairs ← mapM (write_pair (l - 1) p) m; emit_map pairs)
      = (pairs ← mapM (write_pair (l - 1) p) q; emit_map pairs)) as Hperm.
    { clear. intros m q Hp. assert (forall m q, m ≡ₚ q -> forall k, mapM (write_pair (l - 1) p) m = Some k ->
        exists k', mapM (write_pair (l - 1) p) q = Some k' /\ k ≡ₚ k') as Hone.
      { intros m1 q1 H1 k Hk%mapM_Some. destruct (Permutation_Forall2 H1 Hk) as (k' & Hp' & Hk').
        exists k'. by split; [apply mapM_Some|]. }
      destruct (mapM _ m) as [k|] eqn:Ek.
      - destruct (Hone _ _ Hp _ Ek) as (k' & -> & Hk). by apply emit_map_perm.
      - destruct (mapM _ q) as [k|] eqn:Ek'; [|done].
        destruct (Hone _ _ (symmetry Hp) _ Ek') as (k' & E & _). congruence. }
    rewrite (Hperm m m1), (Hperm m' m1'), E; done.
Qed.

(** ** The structural scan recognises a grammar *)

(** [item data d i j n]: from [i] to [j] lies one well-formed item whose heads the
    reader admits, of [n] heads in all, with at most [d] non-empty containers nested
    in each other; [items data d c i j n]: [c] such items in a row. *)
Inductive item (data : bytes) : Z -> Z -> Z -> nat -> Prop :=
  | item_scalar d i major arg j : read_head data i = Some (major, arg, j) ->
      major < 2 \/ 5 < major -> item data d i j 1
  | item_string d i major arg j : read_head data i = Some (major, arg, j) ->
      major = 2 \/ major = 3 -> arg <= zlen data - j -> item data d i (j + arg) 1
  | item_empty d i major j : read_head data i = Some (major, 0, j) ->
      major = 4 \/ major = 5 -> item data d i j 1
  | item_container d i major arg count j k n : read_head data i = Some (major, arg, j) ->
      major = 4 /\ count = arg \/ major = 5 /\ count = arg * 2 /\ count <= U64_MAX ->
      0 < count <= zlen data - j -> 0 < d -> items data (d - 1) count j k n -> item data d i k (S n)
with items (data : bytes) : Z -> Z -> Z -> Z -> nat -> Prop :=
  | items_nil d i : items data d 0 i i 0
  | items_cons d count i j k n1 n2 : 0 < count -> item data d i j n1 ->
      items data d (count - 1) j k n2 -> items data d count i k (n1 + n2).

Scheme item_mind := Minimality for item Sort Prop with items_mind := Minimality for items Sort Prop.
Combined Scheme item_items_ind from item_mind, items_mind.

Section Scan.
Context (data : bytes) (max_depth : Z) (Hbytes : Forall is_byte data).

Lemma read_head_bounds i major arg j : 0 <= i -> read_head data i = Some (major, arg, j) ->
  i < j <= zlen data /\ 0 <= arg.
Proof using Hbytes.
  intros Hi H. unfold read_head in H. apply bind_Some in H as (x & Hx & H).
  assert (is_byte x) as Hb by (by eapply Forall_lookup_1).
  assert (i < zlen data) as Hl by (apply lookup_lt_Some in Hx; unfold zlen; lia).
  assert (0 <= Z.land x 31) by (apply Z.land_nonneg; lia).
  case_step H. destruct (Z.shiftr x 5 =? 7).
  { apply then_some_Some in H as [_ [= <- <- <-]]. lia. }
  destruct (Z.land x 31 <? 24) eqn:E24; [injection H as <- <- <-; lia|].
  case_step H. apply bind_Some in H as (raw & Hraw & [= <- <- <-]). bool_prop.
  assert (0 < Z.shiftl 1 (Z.land x 31 - 24)) by (rewrite Z.shiftl_1_l; apply Z.pow_pos_nonneg; lia).
  unfold range_get in Hraw. apply then_some_Some in Hraw as [Hz <-]. bool_prop. split; [lia|].
  match goal with |- context [foldl ?f 0 ?r] => assert (forall a l, 0 <= a -> Forall is_byte l -> 0 <= foldl f a l) as Hfold end.
  { clear. intros a l Ha Hl. revert a Ha. induction Hl as [|y l Hy _ IH]; intros a Ha; cbn [foldl]; [done|].
    apply IH, Z.lor_nonneg. split; [|unfold is_byte in Hy; lia]. apply Z.land_nonneg. right. done. }
  apply Hfold; [done|]. by apply Forall_take, Forall_drop.
Qed.

Lemma item_bounds : (forall d i j n, item data d i j n -> 0 <= i -> i < j <= zlen data /\ (1 <= n)%nat)
  /\ (forall d c i j n, items data d c i j n -> 0 <= i <= zlen data -> i <= j <= zlen data).
Proof using Hbytes.
  apply item_items_ind; intros; try (edestruct read_head_bounds; [|eassumption|]; [done|]); split; try lia;
    naive_solver lia.
Qed.

Definition counts (major arg count : Z) : Prop :=
  major = 4 /\ count = arg \/ major = 5 /\ count = arg * 2 /\ count <= U64_MAX.

Lemma scan_item_counts major arg count j stack : counts major arg count ->
  scan_item data j major arg stack max_depth =
    if zlen data - j <? count then None else if count =? 0 then Some (j, stack, false)
    else if max_depth <=? zlen stack then None else Some (j, count :: stack, true).
Proof using.
  unfold scan_item, scan_container.
  intros [[-> ->]|(-> & -> & Hu)]; cbn [Z.eqb Pos.eqb orb]; [|rewrite (proj2 (Z.leb_le _ _) Hu)];
    cbn [then_some mbind option_bind]; repeat case_match; done.
Qed.

(** What the loop does once an item is complete. *)
Definition resume (budget : nat) (stack : list Z) (i : Z) : option Z :=
  let '(stack, finished) := complete_item stack in
  if finished then Some i else scan_loop budget data stack i max_depth.

Lemma scan_runs : (forall d i j n, item data d i j n -> 0 <= i -> forall b stack, d = max_depth - zlen stack ->
      scan_loop (n + b) data stack i max_depth = resume b stack j)
  /\ (forall d c i j n, items data d c i j n -> 0 <= i -> 0 < c -> forall b stack, d = max_depth - zlen stack - 1 ->
      scan_loop (n + b) data (c :: stack) i max_depth = resume b stack j).
Proof using Hbytes.
  apply item_items_ind.
  - intros d i major arg j Hr Hm Hi b stack Hd. cbn [Nat.add scan_loop]. rewrite Hr. cbn [mbind option_bind].
    unfold scan_item. repeat (rewrite (proj2 (Z.eqb_neq major _)) by lia). cbn. done.
  - intros d i major arg j Hr Hm Ha Hi b stack Hd. destruct (read_head_bounds _ _ _ _ Hi Hr).
    cbn [Nat.add scan_loop]. rewrite Hr. cbn [mbind option_bind]. unfold scan_item, scan_string.
    rewrite (proj2 (orb_true_iff _ _)) by (rewrite !Z.eqb_eq; done).
    rewrite (proj2 (Z.ltb_ge _ _)), (proj2 (Z.leb_le _ _)) by lia. done.
  - intros d i major j Hr Hm Hi b stack Hd. destruct (read_head_bounds _ _ _ _ Hi Hr).
    cbn [Nat.add scan_loop]. rewrite Hr. cbn [mbind option_bind].
    rewrite (scan_item_counts major 0 0) by (unfold counts, U64_MAX; lia).
    rewrite (proj2 (Z.ltb_ge _ _)) by lia. done.
  - intros d i major arg c j k n Hr Hm Hc Hd _ IH Hi b stack ->. destruct (read_head_bounds _ _ _ _ Hi Hr).
    cbn [Nat.add scan_loop]. rewrite Hr. cbn [mbind option_bind].
    rewrite (scan_item_counts major arg c) by done.
    rewrite (proj2 (Z.ltb_ge _ _)), (proj2 (Z.eqb_neq _ _)), (proj2 (Z.leb_gt _ _)) by lia.
    cbn [mbind option_bind]. apply IH; lia.
  - lia.
  - intros d c i j k n1 n2 Hc Hitem IH1 Hitems IH2 Hi _ b stack Hd.
    destruct (proj1 item_bounds _ _ _ _ Hitem Hi) as [Hj _].
    rewrite <- Nat.add_assoc, (IH1 Hi _ (c :: stack)) by (rewrite zlen_cons; lia).
    unfold resume at 1. cbn [complete_item]. destruct (0 <? c - 1) eqn:E; bool_prop.
    + apply IH2; lia.
    + assert (c - 1 = 0) as E0 by lia. rewrite E0 in Hitems. inversion Hitems; subst; [done|lia].
Qed.

(** One turn of the loop, read backwards. *)
Lemma scan_turn b stack i j : 0 <= i -> scan_loop (S b) data stack i max_depth = Some j ->
  exists major arg next, read_head data i = Some (major, arg, next) /\
    ((exists k, item data (max_depth - zlen stack) i k 1 /\ i < k /\ resume b stack k = Some j) \/
     (exists count, counts major arg count /\ 0 < count <= zlen data - next /\ zlen stack < max_depth /\
        scan_loop b data (count :: stack) next max_depth = Some j)).
Proof using Hbytes.
  intros Hi H. cbn [scan_loop] in H. apply bind_Some in H as ([[major arg] next] & Hr & H).
  exists major, arg, next. split; [done|].
  destruct (read_head_bounds _ _ _ _ Hi Hr) as [Hn Ha].
  apply bind_Some in H as ([[k st] pushed] & Hs & H).
  destruct (decide (major = 4 \/ major = 5)) as [Hm|Hm].
  - assert (exists count, counts major arg count \/ count = arg * 2 /\ U64_MAX < count /\ major = 5) as (count & Hc).
    { destruct Hm as [-> | ->]; [exists arg; left; by left|]. exists (arg * 2). unfold counts. lia. }
    destruct Hc as [Hc|(-> & Hu & ->)].
    + rewrite (scan_item_counts major arg count) in Hs by done.
      case_step Hs. destruct (count =? 0) eqn:E0; [|case_step Hs]; simplify_eq; bool_prop.
      * left. exists k. split_and!; [|lia|exact H]. apply item_empty with major; [|done].
        rewrite Hr. do 3 f_equal. unfold counts in Hc. lia.
      * right. exists count. assert (0 <= count) by (unfold counts in Hc; lia). split_and!; try done; lia.
    + exfalso. unfold scan_item, scan_container in Hs. cbn [Z.eqb Pos.eqb orb] in Hs.
      rewrite (proj2 (Z.leb_gt (arg * 2) _)) in Hs by lia. done.
  - left. exists k. unfold scan_item in Hs. destruct ((major =? 2) || (major =? 3)) eqn:E23.
    + unfold scan_string in Hs. case_step Hs. case_step Hs. cbn in Hs. simplify_eq. bool_prop.
      split_and!; [by eapply item_string|lia|exact H].
    + destruct ((major =? 4) || (major =? 5)) eqn:E45; [bool_prop; lia|]. simplify_eq. bool_prop.
      split_and!; [|lia|exact H]. eapply item_scalar; [done|lia].
Qed.

Lemma scan_items_back bound : (forall b, (b < bound)%nat -> forall stack i j, 0 <= i ->
    scan_loop b data stack i max_depth = Some j ->
    exists k n b', (n + b' = b)%nat /\ item data (max_depth - zlen stack) i k n /\ resume b' stack k = Some j) ->
  forall m b count stack i j, (b < bound)%nat -> count = Z.of_nat (S m) -> 0 <= i ->
    scan_loop b data (count :: stack) i max_depth = Some j ->
    exists k n b', (n + b' = b)%nat /\ items data (max_depth - zlen stack - 1) count i k n /\ resume b' stack k = Some j.
Proof using Hbytes.
  intros IH. induction m as [|m IHm]; intros b count stack i j Hb -> Hi H.
  all: destruct (IH b Hb _ _ _ Hi H) as (k & n & b' & Hn & Hitem & Hr);
    replace (max_depth - zlen (_ :: stack)) with (max_depth - zlen stack - 1) in Hitem by (rewrite zlen_cons; lia);
    destruct (proj1 item_bounds _ _ _ _ Hitem Hi) as [Hk Hn1]; unfold resume in Hr; cbn [complete_item] in Hr.
  - exists k, (n + 0)%nat, b'. split_and!; [lia| |exact Hr].
    eapply items_cons; [lia|exact Hitem|]. change (Z.of_nat 1 - 1) with 0. constructor.
  - rewrite (proj2 (Z.ltb_lt 0 _)) in Hr by lia.
    destruct (IHm b' (Z.of_nat (S m)) stack k j) as (k' & n' & b'' & Hn' & Hitems & Hr'); [lia|done|lia| |].
    { rewrite <- Hr. do 2 f_equal. lia. }
    exists k', (n + n')%nat, b''. split_and!; [lia| |done].
    eapply items_cons; [lia|exact Hitem|]. by replace (Z.of_nat (S (S m)) - 1) with (Z.of_nat (S m)) by lia.
Qed.

Lemma scan_back b stack i j : 0 <= i -> scan_loop b data stack i max_depth = Some j ->
  exists k n b', (n + b' = b)%nat /\ item data (max_depth - zlen stack) i k n /\ resume b' stack k = Some j.
Proof using Hbytes.
  revert stack i j. induction b as [b IH] using lt_wf_ind. intros stack i j Hi H.
  destruct b as [|b]; [done|].
  destruct (scan_turn _ _ _ _ Hi H) as (major & arg & next & Hr & [(k & Hk & _ & Hres)|(count & Hc & Hl & Hd & Hs)]).
  { exists k, 1%nat, b. done. }
  destruct (read_head_bounds _ _ _ _ Hi Hr).
  destruct (scan_items_back (S b) (fun b' Hb' => IH b' Hb') (Z.to_nat (count - 1)) b count stack next j)
    as (k & n & b' & <- & Hitems & Hres); [lia..|done|].
  exists k, (S n), b'. split_and!; [lia| |done]. eapply item_container; [done|exact Hc|done|lia|done].
Qed.

(** The scan accepts exactly the items of the grammar that stay within its two
    budgets, and returns where the item ends. *)
Lemma structural_scan_items max_items j : structural_scan data max_depth max_items = Some j <->
  exists n, item data max_depth 0 j n /\ Z.of_nat n <= max_items.
Proof using Hbytes.
  unfold structural_scan. split.
  - intros H. apply scan_back in H as (k & n & b' & Hn & Hitem & [= ->]); [|done].
    rewrite zlen_nil, Z.sub_0_r in Hitem. exists n. split; [done|].
    destruct (proj1 item_bounds _ _ _ _ Hitem); lia.
  - intros (n & Hitem & Hn). replace (Z.to_nat max_items) with (n + (Z.to_nat max_items - n))%nat by lia.
    rewrite (proj1 scan_runs _ _ _ _ Hitem) by (rewrite ?zlen_nil; lia). done.
Qed.
End Scan.

(** ** The scan admits what the emitter writes *)

(** The item heads of a value's encoding. *)
Fixpoint heads (v : cbor) : nat :=
  match v with
  | CArray a => S (foldr (fun x n => heads x + n)%nat O a)
  | CMap m => S (foldr (fun x n => 1 + (heads x.2 + n))%nat O m)
  | _ => 1
  end.

Lemma pair_heads_perm (m m' : list (cbor * cbor)) : m ≡ₚ m' ->
  foldr (fun x n => 1 + (heads x.2 + n))%nat O m = foldr (fun x n => 1 + (heads x.2 + n))%nat O m'.
Proof. induction 1; cbn [foldr]; lia. Qed.

Definition scannable (v : cbor) : Prop := forall l p b pre post,
  write_value v l p = Some b -> zlen (pre ++ b ++ post) <= USIZE_MAX ->
  item (pre ++ b ++ post) l (zlen pre) (zlen pre + zlen b) (heads v).

Lemma scan_items l p a xs pre post : Forall scannable a ->
  Forall2 (fun x e => write_value x l p = Some e) a xs -> zlen (pre ++ concat xs ++ post) <= USIZE_MAX ->
  items (pre ++ concat xs ++ post) l (zlen a) (zlen pre) (zlen pre + zlen (concat xs))
    (foldr (fun x n => heads x + n)%nat O a).
Proof.
  intros Hs Hf. revert pre Hs. induction Hf as [|x e a xs Hx _ IH]; intros pre Hs Hl; cbn [concat foldr] in *.
  { rewrite !zlen_nil, Z.add_0_r. constructor. }
  inversion Hs as [|? ? Hsx Hsa]; subst. rewrite <- app_assoc in *.
  eapply items_cons; [rewrite zlen_cons; pose proof (zlen_nonneg a); lia|apply Hsx with p; [done|exact Hl]|].
  rewrite zlen_cons, zlen_app. replace (1 + zlen a - 1) with (zlen a) by lia.
  rewrite (app_assoc pre e) in *. rewrite Z.add_assoc. rewrite <- zlen_app. by apply IH.
Qed.

Lemma scan_key k p b l pre post : write_key k p = Some b -> zlen (pre ++ b ++ post) <= USIZE_MAX ->
  item (pre ++ b ++ post) l (zlen pre) (zlen pre + zlen b) 1.
Proof.
  intros H Hl. rewrite !zlen_app in Hl. pose proof (zlen_nonneg pre). pose proof (zlen_nonneg post).
  destruct k as [i| | |s| | | | |]; cbn in H; try done.
  - case_step H. apply write_int_Some in H as [Hi ->]. unfold I64_MIN, I64_MAX in Hi.
    destruct (0 <=? i) eqn:Ei; bool_prop; eapply item_scalar;
      solve [apply read_head_app; unfold is_u64, U64_MAX; lia|lia].
  - injection H as <-. unfold write_text in *. rewrite <- app_assoc, zlen_app, Z.add_assoc in *.
    pose proof (zlen_nonneg (write_head 3 (slen s))). rewrite length_str_bytes in *.
    eapply item_string; [apply read_head_app; unfold is_u64, slen, USIZE_MAX in *; lia|auto|].
    rewrite !zlen_app, length_str_bytes. lia.
Qed.

Lemma scan_pairs l p m q pre post : Forall (fun x => scannable x.2) m ->
  Forall2 (fun x e => write_pair l p x = Some e) m q ->
  let w := concat (map (fun x => x.1 ++ x.2) q) in
  zlen (pre ++ w ++ post) <= USIZE_MAX ->
  items (pre ++ w ++ post) l (zlen m * 2) (zlen pre) (zlen pre + zlen w)
    (foldr (fun x n => 1 + (heads x.2 + n))%nat O m).
Proof.
  intros Hs Hf. revert pre Hs. induction Hf as [|x [kb vb] m q Hx _ IH]; intros pre Hs w Hl; subst w;
    cbn [concat foldr map fst snd] in *.
  { change (zlen (@nil (cbor * cbor)) * 2) with 0. rewrite Z.add_0_r. constructor. }
  inversion Hs as [|? ? Hsx Hsm]; subst. apply write_pair_Some in Hx as [Hk Hv]. cbn [fst snd] in Hk, Hv.
  rewrite <- !app_assoc in *. pose proof (zlen_nonneg m).
  eapply (items_cons _ _ _ _ _ _ 1); [rewrite zlen_cons; lia|by eapply scan_key|].
  rewrite (app_assoc pre kb) in *. rewrite <- zlen_app.
  eapply items_cons; [rewrite zlen_cons; lia|apply Hsx with p; [done|exact Hl]|].
  replace (zlen (x :: m) * 2 - 1 - 1) with (zlen m * 2) by (rewrite zlen_cons; lia).
  rewrite (app_assoc _ vb) in *. rewrite <- zlen_app.
  replace (zlen pre + _) with (zlen ((pre ++ kb) ++ vb) + zlen (concat (map (fun x => x.1 ++ x.2) q)))
    by (rewrite !zlen_app; lia).
  by apply IH.
Qed.

Lemma write_value_scannable v : scannable v.
Proof.
  induction v as [i|c|f|s|c| |t v|a IH|m IH] using cbor_ind'; intros l p b pre post H Hl;
    pose proof H as [Hl0 W]%write_value_written; cbn [written heads] in *; try done;
    pose proof Hl as Hn; rewrite !zlen_app in Hn; pose proof (zlen_nonneg pre); pose proof (zlen_nonneg post).
  - apply (scan_key (CInteger i) {| int_keys := true; bools := true |}); [|done].
    cbn in H. case_step H. done.
  - subst b. rewrite <- app_assoc, zlen_app, Z.add_assoc in *. pose proof (zlen_nonneg (write_head 2 (zlen c))).
    pose proof (zlen_nonneg c).
    eapply item_string; [apply read_head_app; unfold is_u64, USIZE_MAX in *; lia|auto|].
    rewrite !zlen_app. lia.
  - apply (scan_key (CText s) p); [|done]. by subst.
  - subst b. eapply item_scalar with (major := 7) (arg := 0); [|lia]. unfold read_head. destruct c; cbn [app];
      rewrite byte_get_app; reflexivity.
  - subst b. eapply item_scalar with (major := 7) (arg := 0); [|lia]. unfold read_head. cbn [app];
      rewrite byte_get_app; reflexivity.
  - destruct W as (xs & Hxs & ->). rewrite <- app_assoc in *. rewrite zlen_app, Z.add_assoc in *.
    pose proof (zlen_nonneg (write_head 4 (zlen a))). pose proof (items_length _ _ _ _ Hxs). pose proof (zlen_nonneg a).
    assert (is_u64 (zlen a)) by (unfold is_u64, USIZE_MAX in *; lia).
    pose proof (read_head_app 4 (zlen a) pre (concat xs ++ post) ltac:(lia) ltac:(done)) as Hr.
    pose proof (scan_items (l - 1) p a xs (pre ++ write_head 4 (zlen a)) post IH Hxs) as Hit.
    rewrite <- app_assoc, !(zlen_app pre) in Hit.
    destruct a as [|x a].
    { inversion Hxs; subst. cbn [concat] in *. rewrite zlen_nil, Z.add_0_r. eapply item_empty; [exact Hr|auto]. }
    eapply item_container; [exact Hr|left; done| | |by apply Hit].
    + rewrite !zlen_app, !zlen_cons in *. pose proof (zlen_nonneg a). lia.
    + inversion Hxs as [|? e ? ? Hx _]; subst. apply write_value_written in Hx as [? _]. lia.
  - destruct W as (m1 & q & Hp & Hq & _ & ->). rewrite <- app_assoc in *. rewrite zlen_app, Z.add_assoc in *.
    set (w := concat (map (fun x => x.1 ++ x.2) q)) in *.
    pose proof (zlen_nonneg (write_head 5 (zlen m))). pose proof (pairs_length _ _ _ _ Hq) as Hlen. pose proof (zlen_nonneg m).
    assert (zlen m1 = zlen m) as Hm by (unfold zlen; by rewrite Hp). rewrite Hm in Hlen. fold w in Hlen.
    assert (is_u64 (zlen m)) by (unfold is_u64, USIZE_MAX in *; lia).
    pose proof (read_head_app 5 (zlen m) pre (w ++ post) ltac:(lia) ltac:(done)) as Hr.
    rewrite <- Hp in IH.
    rewrite <- (pair_heads_perm _ _ Hp).
    pose proof (scan_pairs (l - 1) p m1 q (pre ++ write_head 5 (zlen m)) post IH Hq) as Hit. cbv zeta in Hit.
    fold w in Hit. rewrite <- app_assoc, !(zlen_app pre), Hm in Hit.
    destruct m1 as [|x m1].
    { inversion Hq; subst. cbn in Hm. rewrite <- Hm in *. subst w. cbn [concat map] in *.
      rewrite zlen_nil, Z.add_0_r. eapply item_empty; [exact Hr|auto]. }
    eapply (item_container _ _ _ _ _ (zlen m * 2)); [exact Hr|right; split_and!; [done|done|unfold USIZE_MAX in *; lia]| |
      |by apply Hit].
    + rewrite !zlen_app. rewrite zlen_cons in Hm. pose proof (zlen_nonneg m1). lia.
    + inversion Hq as [|? e ? ? Hx _]; subst. apply write_pair_Some in Hx as [_ Hx].
      apply write_value_written in Hx as [? _]. lia.
Qed.

(** ** Properties *)

(** [read_head] inverts [write_head] at any offset of any buffer: same major type, same
    64-bit argument, and the offset just past the head, whatever follows. *)
Theorem head_roundtrip major arg pre post : 0 <= major <= 5 -> is_u64 arg ->
  read_head (pre ++ write_head major arg ++ post) (zlen pre)
  = Some (major, arg, zlen pre + zlen (write_head major arg)).
Proof. apply read_head_app. Qed.

(** C35: [structural_scan], a loop over an explicit stack, accepts exactly the buffers that start
    with one well-formed item of the recursive grammar [item] with at most [max_depth] nested
    non-empty containers and at most [max_items] heads, and returns where that item ends; in
    particular it always finishes. *)
Theorem structural_scan_spec data max_depth max_items j : Forall is_byte data ->
  structural_scan data max_depth max_items = Some j <->
  exists n, item data max_depth 0 j n /\ Z.of_nat n <= max_items.
Proof. intros Hb. by apply structural_scan_items. Qed.

(** C36: canonical bytes name one value: two values with the same canonical encoding (even under
    different profiles and depth limits) are equal up to the order of the pairs of their maps. *)
Theorem canonical_bytes_injective v v' limit limit' p p' b : zlen b <= USIZE_MAX ->
  canonical_bytes v limit p = Some b -> canonical_bytes v' limit' p' = Some b -> cbor_equiv v v'.
Proof. apply canonical_bytes_binds. Qed.

(** [decode_cbor] accepts exactly the bytes [canonical_cbor] emits for its result: they fit the
    byte cap, hold one item within the depth and item caps, and re-encode to themselves. *)
Theorem decode_cbor_spec `{Ciborium} data max_depth max_bytes v : Forall is_byte data ->
  decode_cbor data max_depth max_bytes = Some v <->
  zlen data <= max_bytes /\ (exists n, item data max_depth 0 (zlen data) n /\ Z.of_nat n <= MAX_ITEMS) /\
  from_reader data = Some v /\ canonical_cbor v = Some data.
Proof.
  intros Hb. rewrite <- structural_scan_items by done. unfold decode_cbor. split.
  - intros Hd. case_step Hd. apply bind_Some in Hd as (n & Hs & Hd). case_step Hd.
    apply bind_Some in Hd as (w & Hr & Hd). apply bind_Some in Hd as (c & Hc & Hd).
    apply then_some_Some in Hd as [He ->]. bool_prop. subst. done.
  - intros (Hl & -> & -> & Hc). rewrite (proj2 (Z.ltb_ge _ _)) by done. cbn [mbind option_bind].
    rewrite Z.eqb_refl. cbn [negb mbind option_bind]. rewrite Hc. cbn [mbind option_bind].
    apply then_some_Some. by rewrite bytes_eqb_true.
Qed.

(** Nothing the emitter writes is lost to the pre-scan or to the re-encoding check: the
    canonical bytes of a value within the caps decode, to whatever equal value the codec reads. *)
Theorem decode_cbor_canonical `{Ciborium} v v' b max_bytes :
  canonical_cbor v = Some b -> zlen b <= max_bytes -> max_bytes <= USIZE_MAX ->
  Z.of_nat (heads v) <= MAX_ITEMS -> from_reader b = Some v' -> cbor_equiv v v' ->
  Forall is_byte b -> decode_cbor b MAX_DEPTH max_bytes = Some v'.
Proof.
  intros Hc Hl Hm Hn Hr He Hb. unfold decode_cbor.
  assert (structural_scan b MAX_DEPTH MAX_ITEMS = Some (zlen b)) as ->.
  { apply structural_scan_items; [done|]. exists (heads v). split; [|done].
    pose proof (write_value_scannable v _ _ _ [] [] Hc) as Hi. rewrite app_nil_r in Hi. apply Hi. cbn. lia. }
  rewrite (proj2 (Z.ltb_ge _ _)) by done. cbn [mbind option_bind]. rewrite Z.eqb_refl. cbn [negb].
  rewrite Hr. cbn [mbind option_bind]. unfold canonical_cbor, canonical_bytes in *.
  rewrite <- (write_value_equiv v v') by done. rewrite Hc. cbn [mbind option_bind].
  apply then_some_Some. by rewrite bytes_eqb_true.
Qed.
