(* ===== verification/Cose.v ===== *)
(** * Cose: COSE_Sign1 envelopes (cose.rs)

    The decoder of the envelope framing, the Sig_structure the signature covers,
    and the verifier.  The theorems: the signed bytes name the protected header and
    the payload, and an accepted envelope is the canonical one of its parts, signed
    by the key its protected header names. *)
From S2P Require Import Prelude Hash Text Dsse CborWire.

Section Cose.
Context {C : Ciborium} {ED : Ed25519}.

Definition TAG_SIGN1 : u8 := 210.
Definition COSE_PROFILE : Profile := {| int_keys := true; bools := false |}.

(** [fn decode_canonical]. *)
Definition decode_canonical (data : bytes) (max_depth : Z) : option cbor :=
  n ← structural_scan data max_depth MAX_ITEMS;
  reject_if negb (n =? zlen data) with None;
  v ← from_reader data;
  canon ← canonical_bytes v max_depth COSE_PROFILE;
  then_some (bytes_eqb canon data) v.

(** [fn sig_structure]. *)
Definition sig_structure (protected_bytes : bytes) (payload : option bytes) : option bytes :=
  let body := unwrap_or payload [] in
  canonical_cbor (CArray [CText "Signature1"; CBytes protected_bytes; CBytes []; CBytes body]).

(** [struct Sign1]. *)
Record Sign1 := {
  protected : cbor;
  unprotected : cbor;
  payload : option bytes;
  kid : string;
}.

(** [fn kid_of]: the loop over the entries of the protected map. *)
Fixpoint kid_of_entries (entries : list (cbor * cbor)) : option string :=
  match entries with
  | [] => None
  | (CInteger i, CBytes b) :: t => if i =? 4 then from_utf8 b else kid_of_entries t
  | _ :: t => kid_of_entries t
  end.
Definition kid_of (protected : cbor) : option string :=
  match protected with CMap entries => kid_of_entries entries | _ => None end.

(** [fn unpack]: (protected bytes, unprotected, payload, signature). *)
Definition unpack (array : cbor) : option (bytes * cbor * option bytes * bytes) :=
  match array with
  | CArray [p; u; b; s] =>
      signature ← (match s with CBytes x => Some x | _ => None end);
      payload ← (match b with CNull => Some None | CBytes x => Some (Some x) | _ => None end);
      reject_if negb (match u with CMap _ => true | _ => false end) with None;
      protected_bytes ← (match p with CBytes x => Some x | _ => None end);
      Some (protected_bytes, u, payload, signature)
  | _ => None
  end.

(** [fn verify_sign1]. *)
Definition verify_sign1 (cose : bytes) (keys : gmap string bytes) (max_bytes max_depth : Z) : option Sign1 :=
  reject_if (max_bytes <? zlen cose) || negb (bool_decide (byte_get cose 0 = Some TAG_SIGN1)) with None;
  array ← decode_canonical (drop 1 cose) max_depth;
  '(protected_bytes, unprotected, payload, signature) ← unpack array;
  protected ← decode_canonical protected_bytes max_depth;
  kid ← kid_of protected;
  public_raw ← keys !! kid;
  sig_input ← sig_structure protected_bytes payload;
  reject_if negb (ed25519_verify public_raw sig_input signature) with None;
  Some {| protected := protected; unprotected := unprotected; payload := payload; kid := kid |}.

(** ** What an accepted envelope is *)

Lemma decode_canonical_Some data max_depth v : decode_canonical data max_depth = Some v ->
  from_reader data = Some v /\ canonical_bytes v max_depth COSE_PROFILE = Some data.
Proof.
  unfold decode_canonical. intros H. apply bind_Some in H as (n & _ & H). case_step H.
  apply bind_Some in H as (w & Hr & H). apply bind_Some in H as (c & Hc & H).
  apply then_some_Some in H as [He%bytes_eqb_true ->]. by subst.
Qed.

(** The framing of an envelope. *)
Definition payload_value (p : option bytes) : cbor := match p with Some b => CBytes b | None => CNull end.
Definition framing (protected_bytes : bytes) (unprotected : cbor) (p : option bytes) (signature : bytes) : cbor :=
  CArray [CBytes protected_bytes; unprotected; payload_value p; CBytes signature].

Lemma unpack_Some array pb u p s : unpack array = Some (pb, u, p, s) <->
  array = framing pb u p s /\ exists m, u = CMap m.
Proof.
  split.
  - intros H. destruct array as [| | | | | | |a|]; try done. cbn in H.
    destruct a as [|x0 [|x1 [|x2 [|x3 [|? ?]]]]]; try done.
    destruct x3; try done. destruct x2; try done; destruct x1; try done; destruct x0; try done;
      cbn in H; injection H as <- <- <- <-; split; try done; by eexists.
  - intros [-> [m ->]]. by destruct p.
Qed.

(** [s] with signature bytes [signature] over protected bytes [pb], as an envelope: the
    bytes are the only canonical ones of their parts, the protected header names a key of
    [keys], and that key signed the Sig_structure. *)
Record sign1_envelope (keys : gmap string bytes) (max_depth : Z) (cose : bytes) (s : Sign1)
    (pb signature : bytes) : Prop := {
  e_tag : exists raw, cose = TAG_SIGN1 :: raw /\
    canonical_bytes (framing pb (unprotected s) (payload s) signature) max_depth COSE_PROFILE = Some raw;
  e_unprotected : exists m, unprotected s = CMap m;
  e_protected : canonical_bytes (protected s) max_depth COSE_PROFILE = Some pb;
  e_kid : kid_of (protected s) = Some (kid s);
  e_signed : exists key message, keys !! kid s = Some key /\
    sig_structure pb (payload s) = Some message /\ ed25519_signed key message signature;
}.

Lemma verify_sign1_envelope cose keys max_bytes max_depth s :
  verify_sign1 cose keys max_bytes max_depth = Some s ->
  zlen cose <= max_bytes /\ exists pb signature, sign1_envelope keys max_depth cose s pb signature.
Proof.
  unfold verify_sign1. intros H. case_step H.
  apply orb_false_iff in E as [Hl%Z.ltb_ge Ht%negb_false_iff%bool_decide_eq_true].
  apply bind_Some in H as (array & Ha & H). apply bind_Some in H as ([[[pb u] p] sg] & Hu & H).
  apply bind_Some in H as (pr & Hp & H). apply bind_Some in H as (k & Hk & H).
  apply bind_Some in H as (key & Hkey & H). apply bind_Some in H as (msg & Hm & H).
  destruct (ed25519_verify key msg sg) eqn:Ev; [|done]. injection H as <-.
  apply ed25519_verify_true in Ev. apply decode_canonical_Some in Ha as [_ Ha], Hp as [_ Hp].
  apply unpack_Some in Hu as [-> Hm']. split; [lia|]. exists pb, sg.
  destruct cose as [|x raw]; [done|]. injection Ht as ->.
  constructor; cbn [protected unprotected payload kid]; eauto.
Qed.

Lemma equiv_bytes b v : cbor_equiv (CBytes b) v -> v = CBytes b.
Proof. by inversion 1. Qed.

Lemma sig_structure_binds p p' x x' b : zlen b <= USIZE_MAX ->
  sig_structure p x = Some b -> sig_structure p' x' = Some b -> p = p' /\ unwrap_or x [] = unwrap_or x' [].
Proof.
  intros Hb H H'. pose proof (canonical_bytes_binds _ _ _ _ _ _ _ Hb H H') as E.
  inversion E as [|? ? Hf|]; subst; [done|].
  repeat match goal with Hf : Forall2 _ (_ :: _) _ |- _ => inversion Hf; clear Hf; subst end.
  repeat match goal with Hq : cbor_equiv (CBytes _) _ |- _ => apply equiv_bytes in Hq end. by simplify_eq.
Qed.

(** The bytes a COSE signature covers name one protected header and one payload (an absent
    payload signs as the empty one): a signature cannot be moved to another header or payload. *)
Theorem sig_structure_injective (p p' : bytes) (x x' : option bytes) (b : bytes) : zlen b <= USIZE_MAX ->
  sig_structure p x = Some b -> sig_structure p' x' = Some b -> p = p' /\ unwrap_or x [] = unwrap_or x' [].
Proof. apply sig_structure_binds. Qed.

(** [verify_sign1] accepts only an envelope within the byte cap that is the canonical encoding
    of its four parts under tag 18, whose canonical protected header names a registered key id,
    and whose signature that key made over the Sig_structure of the header and the payload. *)
Theorem verify_sign1_sound (cose : bytes) (keys : gmap string bytes) (max_bytes max_depth : Z) (s : Sign1) :
  verify_sign1 cose keys max_bytes max_depth = Some s ->
  zlen cose <= max_bytes /\ exists pb signature, sign1_envelope keys max_depth cose s pb signature.
Proof. apply verify_sign1_envelope. Qed.
End Cose.
