(* ===== verification/Scitt.v ===== *)
(** * Scitt: transparency receipts (scitt.rs)

    The SCITT receipt verifier: an issuer's signed statement, a transparency
    service's receipt over a checkpoint, and the inclusion proof that ties them; and
    the carried pack with its registration policy, which decides the service keys.
    The theorems: a verified receipt is a signed statement whose digest is a leaf of
    the signed tree, the receipt's payload binds the root and size, and the pack's
    keys come from a policy a local root signed. *)
From S2P Require Import Prelude Hash Merkle Text Json Jcs Dsse Checkpoint CborWire Cose.

Definition MAX_BYTES : Z := 65536.
Definition MAX_DEPTH : Z := 16.
Definition MAX_AUDIT_PATH : Z := 64.
Definition CHECKPOINT_SCHEMA : string := "evd/checkpoint/v1".
Definition PACK_SCHEMA : string := "evd/scitt-pack/v1".
Definition POLICY_SCHEMA : string := "evd/registration-policy/v1".
Definition POLICY_PROFILE : string := "scitt-action-profile-v1".
Definition STATEMENT_CTY : string := "application/vnd.swarrm.action-certificate+cbor".
Definition SCOPE_DIGEST_CLAIM : string := "evd_scope_digest".
Definition PACK_FIELDS : list string :=
  ["schema"; "certificate_id"; "signed_statement"; "receipt"; "checkpoint"; "registration_policy"; "ts_jwks"].
Definition PACK_OPTIONAL_FIELDS : list string := ["anchor_record"; "tst_record"].
Definition POLICY_FIELDS : list string :=
  ["schema"; "policy_version"; "ts_origin"; "accepted_profiles"; "max_statement_bytes"; "ts_keys"; "signature"].
Definition CHECKPOINT_FIELDS : list string := ["schema"; "origin"; "tree_size"; "root_hash"; "ts"; "prev_hash"].
Definition CHECKPOINT_OPTIONAL_FIELDS : list string := ["alg"].

(** [fn object_fields]. *)
Definition object_fields (value : json) (required optional : list string) : option (list (string * json)) :=
  object ← as_object value;
  reject_if negb (forallb (fun name => contains_key object name) required) with None;
  then_some (forallb (fun kv => str_in kv.1 required || str_in kv.1 optional) object) object.

(** ** CBOR accessors *)

(** [fn imap] and [fn tmap]: the first pair with that key. *)
Definition imap (v : cbor) (key : Z) : option cbor :=
  match v with
  | CMap m => snd <$> List.find (fun kx => match kx.1 with CInteger i => i =? key | _ => false end) m
  | _ => None
  end.
Definition tmap (body : cbor) (key : string) : option cbor :=
  match body with
  | CMap m => snd <$> List.find (fun kx => match kx.1 with CText t => String.eqb t key | _ => false end) m
  | _ => None
  end.

(** [fn as_uint], [fn as_int], [fn as_text], [fn btext], [fn map_len]. *)
Definition as_uint (v : cbor) : option Z :=
  match v with CInteger i => then_some ((0 <=? i) && (i <=? U64_MAX)) i | _ => None end.
Definition as_int (v : cbor) : option Z := match v with CInteger i => Some i | _ => None end.
Definition as_text (v : cbor) : option string := match v with CText t => Some t | _ => None end.
Definition btext (body : cbor) (key : string) : option string := x ← tmap body key; as_text x.
Definition map_len (v : cbor) : option Z := match v with CMap m => Some (zlen m) | _ => None end.
Definition opt_z_eqb (a b : option Z) : bool := bool_decide (a = b).

Section Scitt.
Context {H : Hash} {SD : Serde} {B : Base64} {ED : Ed25519} {C : Ciborium}.

(** [fn strict_b64]. *)
Definition strict_b64 (value : string) : option bytes :=
  raw ← b64_decode value; then_some (String.eqb (b64_encode raw) value) raw.

(** [fn checkpoint_algorithm]. *)
Definition checkpoint_algorithm (body : cbor) : option (option string) :=
  match tmap body "alg" with
  | None => Some None
  | Some (CText value) => if String.eqb value "EdDSA" then Some (Some value) else None
  | Some _ => None
  end.

(** [fn statement_profile]. *)
Definition statement_profile (stmt : Sign1) (cid : bytes) (certificate_id : string) : bool :=
  reject_if negb (bool_decide (payload stmt = Some cid)) || negb (zlen cid =? 32) || negb (hex32 certificate_id)
  with false;
  reject_if negb (opt_z_eqb (map_len (unprotected stmt)) (Some 0))
    || negb (opt_z_eqb (map_len (protected stmt)) (Some 4))
  with false;
  reject_if negb (opt_z_eqb (x ← imap (protected stmt) 1; as_int x) (Some (-8)))
    || negb (opt_str_eqb (x ← imap (protected stmt) 3; as_text x) (Some STATEMENT_CTY))
  with false;
  let_some claims := imap (protected stmt) 15 else false;
  let scope := (x ← tmap claims SCOPE_DIGEST_CLAIM; as_text x) in
  let expected_claims := if is_some scope then 3 else 2 in
  opt_z_eqb (map_len claims) (Some expected_claims)
  && is_some_and (x ← imap claims 1; as_text x) (fun s => negb (is_empty s))
  && opt_str_eqb (x ← imap claims 2; as_text x) (Some certificate_id)
  && is_none_or scope hex32.

(** [fn receipt_profile]. *)
Definition receipt_profile (receipt : Sign1) : bool :=
  opt_z_eqb (map_len (protected receipt)) (Some 3)
  && opt_z_eqb (x ← imap (protected receipt) 1; as_int x) (Some (-8))
  && opt_z_eqb (x ← imap (protected receipt) 395; as_int x) (Some 1)
  && is_some_and (payload receipt) (fun p => zlen p =? 32).

(** [json!({...})]: the members inserted in turn. *)
Definition json_object (members : list (string * json)) : json :=
  JObject (fold_left (fun m kv => obj_insert m kv.1 kv.2) members []).

(** [fn checkpoint_body]: (body, root hash in hex, tree size). *)
Definition checkpoint_body (body : cbor) : option (json * string * Z) :=
  algorithm ← checkpoint_algorithm body;
  schema ← btext body "schema";
  reject_if negb (String.eqb schema CHECKPOINT_SCHEMA
                  && opt_z_eqb (map_len body) (Some (6 + if is_some algorithm then 1 else 0)))
  with None;
  root_hex ← btext body "root_hash";
  tree_size ← (x ← tmap body "tree_size"; as_uint x);
  origin ← btext body "origin";
  ts ← btext body "ts";
  prev_hash ← btext body "prev_hash";
  let members :=
    [("schema", JString CHECKPOINT_SCHEMA); ("origin", JString origin); ("tree_size", JNumber (PosInt tree_size));
     ("root_hash", JString root_hex); ("ts", JString ts); ("prev_hash", JString prev_hash)] in
  let obj := json_object (members ++ match algorithm with Some value => [("alg", JString value)] | None => [] end) in
  Some (obj, root_hex, tree_size).

(** [fn checkpoint]: (body, its hash, root, tree size). *)
Definition checkpoint (unprotected : cbor) : option (json * string * bytes * Z) :=
  inner ← imap unprotected (-2);
  '(obj, root_hex, tree_size) ← checkpoint_body inner;
  canon ← canonical_checked obj;
  root ← hex_to_bytes root_hex;
  Some (obj, hex (sha256 canon), root, tree_size).

(** [fn checkpoint_json_body]. *)
Definition checkpoint_json_body (body : json) : bool :=
  is_some (object_fields body CHECKPOINT_FIELDS CHECKPOINT_OPTIONAL_FIELDS)
  && is_none_or (get body "alg") (fun value => opt_str_eqb (as_str value) (Some "EdDSA"%string))
  && opt_str_eqb (get_str body "schema") (Some CHECKPOINT_SCHEMA)
  && is_some (get_str body "origin")
  && is_some (get_u64 body "tree_size")
  && is_some (get_str body "root_hash")
  && is_some (get_str body "ts")
  && is_some (get_str body "prev_hash").

(** [fn verify_signed_checkpoint]; [fn pae] of scitt.rs has the text of lib.rs's. *)
Definition verify_signed_checkpoint (checkpoint : json) (keys : gmap string bytes)
    (expected_origin : option string) : bool :=
  reject_if is_none (object_fields checkpoint ["body"; "kid"; "sig"] []) with false;
  let_some body := opt_filter (get checkpoint "body") checkpoint_json_body else false;
  reject_if is_some_and expected_origin (fun origin => negb (opt_str_eqb (get_str body "origin") (Some origin)))
  with false;
  let_some key := (kid ← get_str checkpoint "kid"; keys !! kid) else false;
  let_some signature := (s ← get_str checkpoint "sig"; strict_b64 s) else false;
  let_some canonical := canonical_checked body else false;
  ed25519_verify key (pae CHECKPOINT_TYPE canonical) signature.

(** ** The pack and its registration policy *)

(** [fn policy_shape]. *)
Definition policy_shape (policy : json) (statement_bytes : Z) : bool :=
  let maximum := get_u64 policy "max_statement_bytes" in
  is_some (object_fields policy POLICY_FIELDS [])
  && opt_str_eqb (get_str policy "schema") (Some POLICY_SCHEMA)
  && opt_json_eqb (get policy "accepted_profiles") (Some (JArray [JString POLICY_PROFILE]))
  && is_some_and maximum (fun limit => (statement_bytes <=? limit) && (limit <=? MAX_BYTES))
  && is_some_and (get_str policy "policy_version") (fun value => negb (is_empty value))
  && is_some_and (get_str policy "ts_origin") (fun value => negb (is_empty value)).

(** [fn policy_signature_valid]. *)
Definition policy_signature_valid (policy : json) (trusted_roots : gmap string bytes) : bool :=
  let_some signature := (s ← get_str policy "signature"; strict_b64 s) else false;
  let_some object := as_object policy else false;
  let unsigned := obj_remove object "signature" in
  let_some canonical := canonical_checked (JObject unsigned) else false;
  existsb (fun root => ed25519_verify root canonical signature) (map_to_list trusted_roots).*2.

(** [fn policy_key]. *)
Definition policy_key (entry : json) : option (json * string * bytes) :=
  _ ← object_fields entry ["kid"; "jwk"] [];
  jwk ← get entry "jwk";
  _ ← object_fields jwk ["alg"; "crv"; "kid"; "kty"; "use"; "x"] [];
  '(raw, derived) ← key_from_jwk jwk;
  then_some (opt_str_eqb (get_str entry "kid") (Some derived) && opt_str_eqb (get_str jwk "kid") (Some derived))
    (jwk, derived, raw).

(** [fn carried_ts_jwks]. *)
Definition carried_ts_jwks (pack : json) (expected : Z) : option (list json) :=
  jwks ← get pack "ts_jwks";
  o ← object_fields jwks ["keys"] [];
  carried ← (x ← obj_get o "keys"; as_array x);
  then_some (zlen carried =? expected) carried.

(** [fn insert_policy_key]. *)
Definition insert_policy_key (keys : gmap string bytes) (entry carried_jwk : json) : option (gmap string bytes) :=
  '(jwk, kid, raw) ← policy_key entry;
  then_some (json_eqb carried_jwk jwk && is_none (keys !! kid)) (<[kid := raw]> keys).

(** [fn policy_ts_keys]: the loop over [entries.iter().zip(carried)]. *)
Fixpoint policy_keys_loop (keys : gmap string bytes) (pairs : list (json * json)) : option (gmap string bytes) :=
  match pairs with
  | [] => Some keys
  | (entry, carried_jwk) :: t => keys ← insert_policy_key keys entry carried_jwk; policy_keys_loop keys t
  end.
Definition policy_ts_keys (policy pack : json) : option (gmap string bytes) :=
  entries ← get_array policy "ts_keys";
  reject_if negb ((1 <=? zlen entries) && (zlen entries <=? 64)) with None;
  carried ← carried_ts_jwks pack (zlen entries);
  policy_keys_loop ∅ (zip entries carried).

(** [fn verified_scitt_pack_keys]. *)
Definition verified_scitt_pack_keys (pack : json) (trusted_roots : gmap string bytes)
    (signed_statement : bytes) : option (gmap string bytes) :=
  object ← object_fields pack PACK_FIELDS PACK_OPTIONAL_FIELDS;
  reject_if negb (opt_str_eqb (x ← obj_get object "schema"; as_str x) (Some PACK_SCHEMA)) with None;
  policy ← obj_get object "registration_policy";
  reject_if negb (policy_shape policy (zlen signed_statement) && policy_signature_valid policy trusted_roots)
  with None;
  keys ← policy_ts_keys policy pack;
  origin ← get_str policy "ts_origin";
  checkpoint ← obj_get object "checkpoint";
  then_some (verify_signed_checkpoint checkpoint keys (Some origin)) keys.

(** ** The receipt *)

(** [fn inclusion]: (tree size, leaf index, path). *)
Definition path_hash (h : cbor) : option bytes :=
  match h with CBytes b => then_some (zlen b =? 32) b | _ => None end.
Definition inclusion (unprotected : cbor) : option (Z * Z * list bytes) :=
  triple ← (x ← imap unprotected 396; imap x (-1));
  match triple with
  | CArray [size; index; path] =>
      tree_size ← as_uint size;
      leaf_index ← as_uint index;
      raw ← (match path with CArray raw => Some raw | _ => None end);
      reject_if MAX_AUDIT_PATH <? zlen raw with None;
      path ← mapM path_hash raw;
      Some (tree_size, leaf_index, path)
  | _ => None
  end.

(** [fn receipt_checkpoint]: (root, tree size). *)
Definition receipt_checkpoint (rcpt : Sign1) (ts_keys : gmap string bytes) (expected_checkpoint : option json)
    : option (bytes * Z) :=
  '(inner, body_hash, root, tree_size) ← checkpoint (unprotected rcpt);
  reject_if negb (bool_decide (hex <$> payload rcpt = Some body_hash)) with None;
  reject_if is_some_and expected_checkpoint (fun outer =>
    negb (opt_json_eqb (get outer "body") (Some inner) && verify_signed_checkpoint outer ts_keys None))
  with None;
  Some (root, tree_size).

(** [fn verify_scitt_receipt_inner]. *)
Definition verify_scitt_receipt_inner (signed_statement receipt : bytes) (ts_keys issuer_keys : gmap string bytes)
    (certificate_id : string) (expected_checkpoint : option json) : bool :=
  reject_if negb (hex32 certificate_id) with false;
  let_some cid := hex_to_bytes certificate_id else false;
  let_some stmt := verify_sign1 signed_statement issuer_keys MAX_BYTES MAX_DEPTH else false;
  reject_if negb (statement_profile stmt cid certificate_id) with false;
  let statement_digest := sha256 signed_statement in
  let_some rcpt := verify_sign1 receipt ts_keys MAX_BYTES MAX_DEPTH else false;
  reject_if negb (receipt_profile rcpt) with false;
  let_some (root, checkpoint_size) := receipt_checkpoint rcpt ts_keys expected_checkpoint else false;
  let_some (tree_size, leaf_index, path) := inclusion (unprotected rcpt) else false;
  reject_if negb (tree_size =? checkpoint_size) || (tree_size <=? leaf_index) with false;
  let leaf := sha256 ([0] ++ statement_digest) in
  verify_inclusion leaf leaf_index tree_size path root.

(** [fn verify_scitt_receipt] and [fn verify_scitt_receipt_with_checkpoint]. *)
Definition verify_scitt_receipt (signed_statement receipt : bytes) (ts_keys issuer_keys : gmap string bytes)
    (certificate_id : string) : bool :=
  verify_scitt_receipt_inner signed_statement receipt ts_keys issuer_keys certificate_id None.
Definition verify_scitt_receipt_with_checkpoint (signed_statement receipt : bytes)
    (ts_keys issuer_keys : gmap string bytes) (certificate_id : string) (expected_checkpoint : json) : bool :=
  verify_scitt_receipt_inner signed_statement receipt ts_keys issuer_keys certificate_id (Some expected_checkpoint).

(** ** Helpers *)

Lemma is_some_true {A} (o : option A) : is_some o = true <-> exists x, o = Some x.
Proof. destruct o; cbn; naive_solver. Qed.

Lemma as_uint_range v n : as_uint v = Some n -> is_u64 n.
Proof.
  destruct v; cbn; try done. intros [Hr <-]%then_some_Some.
  apply andb_true_iff in Hr as [?%Z.leb_le ?%Z.leb_le]. done.
Qed.

Lemma mapM_path raw path : mapM path_hash raw = Some path -> Forall is_hash path.
Proof.
  intros Hf%mapM_Some. induction Hf as [|x h raw path Hx _ IH]; constructor; [|done].
  destruct x; try done. cbn in Hx. apply then_some_Some in Hx as [Hl%Z.eqb_eq ->].
  unfold is_hash, zlen in *. lia.
Qed.

Lemma inclusion_Some u n i path : inclusion u = Some (n, i, path) ->
  is_u64 n /\ is_u64 i /\ zlen path <= MAX_AUDIT_PATH /\ Forall is_hash path.
Proof.
  unfold inclusion. intros E. apply bind_Some in E as (t & _ & E).
  destruct t as [| | | | | | |[|n0 [|i0 [|p0 [|? ?]]]]|]; try done.
  apply bind_Some in E as (n' & Hn%as_uint_range & E). apply bind_Some in E as (i' & Hi%as_uint_range & E).
  apply bind_Some in E as (raw & _ & E). case_step E. bool_prop.
  apply bind_Some in E as (p & Hp & [= <- <- <-]). split_and!; [done|done| |by eapply mapM_path].
  unfold zlen in *. by rewrite <- (length_mapM _ _ _ Hp).
Qed.

(** What [checkpoint] reads from the unprotected header. *)
Record checkpoint_object (obj : json) (root_hex : string) (size : Z) : Prop := {
  c_wf : json_wf obj = true;
  c_schema : get_str obj "schema" = Some CHECKPOINT_SCHEMA;
  c_root : get_str obj "root_hash" = Some root_hex;
  c_size : get obj "tree_size" = Some (JNumber (PosInt size));
  c_range : is_u64 size;
}.

Lemma checkpoint_body_Some v obj root_hex size : checkpoint_body v = Some (obj, root_hex, size) ->
  checkpoint_object obj root_hex size.
Proof.
  unfold checkpoint_body. intros E. apply bind_Some in E as (alg & _ & E).
  apply bind_Some in E as (sch & _ & E). case_step E. apply bind_Some in E as (rh & _ & E).
  apply bind_Some in E as (ts & Hts & E). apply bind_Some in Hts as (x & _ & Hts%as_uint_range).
  apply bind_Some in E as (o & _ & E). apply bind_Some in E as (t & _ & E).
  apply bind_Some in E as (ph & _ & [= <- <- <-]).
  assert ((0 <=? ts) && (ts <=? U64_MAX) = true) as Hw
    by (unfold is_u64 in Hts; rewrite andb_true_iff, !Z.leb_le; done).
  destruct alg as [a|]; (constructor; [|reflexivity..|done]); cbv -[Z.leb U64_MAX andb];
    rewrite Hw; reflexivity.
Qed.

Lemma checkpoint_Some u obj h root size : checkpoint u = Some (obj, h, root, size) ->
  exists canon root_hex, checkpoint_object obj root_hex size /\ canonical_checked obj = Some canon /\
    h = hex (sha256 canon) /\ hex_to_bytes root_hex = Some root.
Proof.
  unfold checkpoint. intros E. apply bind_Some in E as (inner & _ & E).
  apply bind_Some in E as ([[o rh] n] & Hb%checkpoint_body_Some & E).
  apply bind_Some in E as (canon & Hc & E). apply bind_Some in E as (r & Hr & [= <- <- <- <-]). by exists canon, rh.
Qed.

Lemma obj_get_equiv v w k x : jcs_equiv v w -> get v k = Some x -> exists y, get w k = Some y /\ jcs_equiv x y.
Proof.
  intros E. inversion E as [| | | | |m n Hf]; subst; try done.
  unfold get. cbn [as_object mbind option_bind]. clear E.
  induction Hf as [|[i a] [j b] m n [Hij Hab] _ IH]; [done|]. cbn in *. subst j.
  destruct (String.eqb k i); [|done]. intros [= ->]. by exists b.
Qed.

(** Equal checkpoint bodies commit to one root and one size. *)
Lemma checkpoint_object_binds {SL : SerdeLaws} o1 o2 c rh1 rh2 n1 n2 :
  checkpoint_object o1 rh1 n1 -> checkpoint_object o2 rh2 n2 ->
  canonical_checked o1 = Some c -> canonical_checked o2 = Some c -> rh1 = rh2 /\ n1 = n2.
Proof.
  intros [W1 _ R1 S1 N1] [W2 _ R2 S2 N2] H1 H2.
  pose proof (canonical_binds _ _ _ W1 W2 H1 H2) as E. split.
  - pose proof (jcs_equiv_get_str _ _ "root_hash" E). congruence.
  - destruct (obj_get_equiv _ _ _ _ E S1) as (y & Hy & Ey). rewrite S2 in Hy. injection Hy as <-.
    inversion Ey as [| |? ? t T1 T2| | |]; subst.
    assert (forall n, is_u64 n -> json_wf (JNumber (PosInt n)) = true) as Hwf.
    { intros n [Hlo Hhi]. cbn -[Z.leb]. by rewrite andb_true_iff, !Z.leb_le. }
    assert (PosInt n1 = PosInt n2) as [= ->]; [|done].
    by apply (integer_number_text _ _ t); auto.
Qed.

(** The payload of an accepted receipt, byte by byte, is part of the receipt. *)
Lemma framing_bytes pb u p s d q raw : canonical_bytes (framing pb u (Some p) s) d q = Some raw ->
  Forall is_byte raw -> Forall is_byte p.
Proof.
  intros [_ (xs & Hx & ->)]%write_value_written Hr.
  apply Forall_app in Hr as [_ Hr]. unfold framing in Hx.
  repeat match goal with Hf : Forall2 _ (_ :: _) _ |- _ => inversion Hf; clear Hf; subst end.
  cbn [concat] in Hr. rewrite !Forall_app in Hr. destruct Hr as (_ & _ & Hr & _).
  match goal with Hp : write_value (CBytes p) _ _ = Some _ |- _ =>
    apply write_value_written in Hp as [_ Hp]; cbn in Hp; subst end.
  by apply Forall_app in Hr as [_ Hr].
Qed.

(** ** Registration *)

Definition statement_leaf (statement : bytes) : bytes := sha256 ([0] ++ sha256 statement).

(** A statement, its receipt, and the signed tree position between them. *)
Record registered (ts_keys issuer_keys : gmap string bytes) (certificate_id : string)
    (statement receipt root : bytes) (size index : Z) (path : list bytes) : Prop := {
  r_statement : exists stmt cid pb signature claims,
    sign1_envelope issuer_keys MAX_DEPTH statement stmt pb signature /\
    hex_to_bytes certificate_id = Some cid /\ is_hash cid /\ payload stmt = Some cid /\
    imap (protected stmt) 15 = Some claims /\ imap claims 2 = Some (CText certificate_id);
  r_receipt : exists rcpt pb signature obj canon root_hex,
    sign1_envelope ts_keys MAX_DEPTH receipt rcpt pb signature /\
    checkpoint_object obj root_hex size /\ hex_to_bytes root_hex = Some root /\
    canonical_checked obj = Some canon /\ payload rcpt = Some (sha256 canon);
  r_index : 0 <= index < size;
  r_path : zlen path <= MAX_AUDIT_PATH /\ Forall is_hash path;
  r_proof : verify_inclusion (statement_leaf statement) index size path root = true;
}.

Lemma statement_profile_facts stmt cid certificate_id : statement_profile stmt cid certificate_id = true ->
  payload stmt = Some cid /\ is_hash cid /\
  exists claims, imap (protected stmt) 15 = Some claims /\ imap claims 2 = Some (CText certificate_id).
Proof.
  unfold statement_profile. intros E. case_step E. apply orb_false_iff in E0 as [E0 _].
  apply orb_false_iff in E0 as [Hp%negb_false_iff%bool_decide_eq_true Hl%negb_false_iff%Z.eqb_eq].
  do 2 case_step E. destruct (imap (protected stmt) 15) as [claims|]; [|done].
  apply andb_true_iff in E as [E _]. apply andb_true_iff in E as [_ E%opt_str_eqb_true].
  split_and!; [done|unfold is_hash, zlen in *; lia|]. exists claims. split; [done|].
  apply bind_Some in E as (x & -> & E). destruct x; try done. by injection E as ->.
Qed.

Lemma receipt_checkpoint_facts {L : HashLaws} rcpt ts_keys expected root size :
  (forall p, payload rcpt = Some p -> Forall is_byte p) ->
  receipt_checkpoint rcpt ts_keys expected = Some (root, size) ->
  exists obj canon root_hex, checkpoint_object obj root_hex size /\ hex_to_bytes root_hex = Some root /\
    canonical_checked obj = Some canon /\ payload rcpt = Some (sha256 canon).
Proof.
  intros Hb E. unfold receipt_checkpoint in E.
  apply bind_Some in E as ([[[obj h] r] n] & Hc & E). do 2 case_step E. injection E as <- <-.
  apply negb_false_iff, bool_decide_eq_true in E0.
  apply checkpoint_Some in Hc as (canon & rh & Hobj & Hcan & -> & Hroot).
  destruct (payload rcpt) as [p|] eqn:Ep; [|done]. cbn in E0. injection E0 as E0.
  apply (f_equal hex_to_bytes) in E0. rewrite !hex_to_bytes_hex in E0 by (try apply digest_bytes; auto).
  injection E0 as ->. exists obj, canon, rh. done.
Qed.

Lemma receipt_registered {L : HashLaws} statement receipt ts_keys issuer_keys certificate_id expected :
  Forall is_byte receipt ->
  verify_scitt_receipt_inner statement receipt ts_keys issuer_keys certificate_id expected = true ->
  exists root size index path,
    registered ts_keys issuer_keys certificate_id statement receipt root size index path.
Proof.
  intros Hb. unfold verify_scitt_receipt_inner. intros E.
  case_step E. destruct (hex_to_bytes certificate_id) as [cid|] eqn:Ecid; [|done].
  destruct (verify_sign1 statement _ _ _) as [stmt|] eqn:Estmt; [|done].
  case_step E. apply negb_false_iff, statement_profile_facts in E1 as (Hp & Hcid & claims & Hcl & Hsub).
  destruct (verify_sign1 receipt _ _ _) as [rcpt|] eqn:Ercpt; [|done]. case_step E.
  destruct (receipt_checkpoint rcpt ts_keys expected) as [[root csize]|] eqn:Ecp; [|done].
  destruct (inclusion (unprotected rcpt)) as [[[size index] path]|] eqn:Einc; [|done]. case_step E.
  apply orb_false_iff in E2 as [Hs%negb_false_iff%Z.eqb_eq Hi%Z.leb_gt]. subst csize.
  apply inclusion_Some in Einc as (_ & [Hi0 _] & Hlen & Hpath).
  apply verify_sign1_envelope in Estmt as (_ & pb & sg & Hstmt), Ercpt as (_ & pb' & sg' & Hrcpt).
  apply receipt_checkpoint_facts in Ecp as (obj & canon & rh & Hobj & Hroot & Hcan & Hpay).
  - exists root, size, index, path. constructor; [|by exists rcpt, pb', sg', obj, canon, rh|lia|done|exact E].
    exists stmt, cid, pb, sg, claims. done.
  - intros p Hpp. destruct Hrcpt as [(raw & -> & Hraw) _ _ _ _]. rewrite Hpp in Hraw.
    eapply framing_bytes; [exact Hraw|]. by inversion Hb.
Qed.


(** The payload a service signs fixes the tree: two receipts whose unprotected checkpoints have
    the same body hash (the payload) carry the same root and the same size, or two different
    canonical bodies collide under SHA-256. *)
Theorem checkpoint_hash_binds {L : HashLaws} {SL : SerdeLaws} (u1 u2 : cbor) (o1 o2 : json) (h : string)
    (r1 r2 : bytes) (n1 n2 : Z) :
  checkpoint u1 = Some (o1, h, r1, n1) -> checkpoint u2 = Some (o2, h, r2, n2) ->
  (r1 = r2 /\ n1 = n2) \/
  exists c1 c2, canonical_checked o1 = Some c1 /\ canonical_checked o2 = Some c2 /\ Collision [c1] [c2].
Proof.
  intros (c1 & h1 & O1 & C1 & -> & R1)%checkpoint_Some (c2 & h2 & O2 & C2 & Eh%hex_inj & R2)%checkpoint_Some.
  destruct (decide (c1 = c2)) as [->|Hne].
  - left. destruct (checkpoint_object_binds _ _ _ _ _ _ _ O1 O2 C1 C2) as [-> ->]. split; [congruence|done].
  - right. exists c1, c2. split_and!; [done..|]. exists c1, c2. rewrite !list_elem_of_singleton. done.
Qed.

(** ** The pack *)

Lemma object_fields_Some v required optional m : object_fields v required optional = Some m ->
  v = JObject m /\ (forall k, k ∈ required -> exists x, obj_get m k = Some x) /\
  (forall k x, (k, x) ∈ m -> k ∈ required \/ k ∈ optional).
Proof.
  unfold object_fields. intros E. apply bind_Some in E as (o & Ho & E). case_step E.
  apply then_some_Some in E as [Hc ->]. destruct v; try done. injection Ho as ->.
  apply negb_false_iff in E0. rewrite forallb_elem in E0. rewrite forallb_elem in Hc. split_and!; [done|..].
  - intros k Hk. by apply contains_key_true, E0.
  - intros k x Hin. apply Hc in Hin. cbn in Hin. by rewrite orb_true_iff, !str_in_elem in Hin.
Qed.

Lemma policy_key_kid entry jwk kid raw : policy_key entry = Some (jwk, kid, raw) ->
  kid = Dsse.kid_of raw /\ get_str entry "kid" = Some kid.
Proof.
  unfold policy_key. intros E. apply bind_Some in E as (? & _ & E). apply bind_Some in E as (j & _ & E).
  apply bind_Some in E as (? & _ & E). apply bind_Some in E as ([r d] & Hk & E).
  apply then_some_Some in E as [Hc [= <- <- <-]]. apply andb_true_iff in Hc as [Hc%opt_str_eqb_true _].
  split; [|done]. unfold key_from_jwk in Hk. apply bind_Some in Hk as (k & _ & Hk). by case_all Hk; simplify_eq.
Qed.

(** The keys accumulated from the policy: one per entry, under the kid the key itself derives. *)
Definition policy_keys_from (entries : list json) (keys : gmap string bytes) : Prop :=
  forall kid raw, keys !! kid = Some raw -> kid = Dsse.kid_of raw /\
    exists entry jwk, entry ∈ entries /\ policy_key entry = Some (jwk, kid, raw).

Lemma policy_keys_loop_from entries pairs keys keys' : (forall e c, (e, c) ∈ pairs -> e ∈ entries) ->
  policy_keys_from entries keys -> policy_keys_loop keys pairs = Some keys' ->
  policy_keys_from entries keys' /\ size keys' = (size keys + length pairs)%nat.
Proof.
  revert keys. induction pairs as [|[e c] pairs IH]; intros keys Hin Hk E; cbn in E.
  { injection E as <-. split; [done|]. cbn. lia. }
  apply bind_Some in E as (keys1 & E1 & E). unfold insert_policy_key in E1.
  apply bind_Some in E1 as ([[jwk kid] raw] & Hp & E1). apply then_some_Some in E1 as [Hc <-].
  apply andb_true_iff in Hc as [_ Hfresh]. unfold is_none in Hfresh.
  destruct (keys !! kid) eqn:Hnone; [done|]. apply IH in E as [Hfrom Hsize].
  - split; [done|]. rewrite Hsize, map_size_insert_None by done. cbn. lia.
  - intros e' c' Hin'. eapply Hin. by right.
  - intros k r Hl. destruct (decide (kid = k)) as [<-|Hne].
    + rewrite lookup_insert_eq in Hl. injection Hl as <-. split; [by eapply policy_key_kid|].
      exists e, jwk. split; [|done]. eapply Hin. by left.
    + rewrite lookup_insert_ne in Hl by done. auto.
Qed.

(** A checkpoint signed under one of [keys]. *)
Record signed_checkpoint (checkpoint : json) (keys : gmap string bytes) (expected_origin : option string) : Prop := {
  sc_closed : exists m, checkpoint = JObject m /\ forall k x, (k, x) ∈ m -> k ∈ ["body"; "kid"; "sig"]%string;
  sc_origin : forall o, expected_origin = Some o -> (b ← get checkpoint "body"; get_str b "origin") = Some o;
  sc_signed : exists body kid key canon text signature, get checkpoint "body" = Some body /\
    checkpoint_json_body body = true /\ get_str checkpoint "kid" = Some kid /\ keys !! kid = Some key /\
    canonical_checked body = Some canon /\ get_str checkpoint "sig" = Some text /\
    b64_decode text = Some signature /\ b64_encode signature = text /\
    ed25519_signed key (pae CHECKPOINT_TYPE canon) signature;
}.
Lemma verify_signed_checkpoint_signed checkpoint keys origin :
  verify_signed_checkpoint checkpoint keys origin = true -> signed_checkpoint checkpoint keys origin.
Proof.
  unfold verify_signed_checkpoint. intros E.
  destruct (object_fields checkpoint _ _) as [m|] eqn:Em; [|done]. cbn [is_none is_some negb] in E.
  apply object_fields_Some in Em as (-> & _ & Hc).
  destruct (opt_filter _ _) as [body|] eqn:Eb; [|done]. apply opt_filter_Some in Eb as [Hb Hbody].
  destruct (is_some_and origin _) eqn:Eo; [done|].
  destruct (kid ← get_str _ "kid"; keys !! kid) as [key|] eqn:Ek; [|done].
  destruct (s ← get_str _ "sig"; strict_b64 s) as [sg|] eqn:Es; [|done].
  destruct (canonical_checked body) as [canon|] eqn:Ec; [|done].
  apply bind_Some in Ek as (kid & Hk & Hkey). apply bind_Some in Es as (text & Ht & Es).
  unfold strict_b64 in Es. apply bind_Some in Es as (raw & Hr & Es).
  apply then_some_Some in Es as [He%String.eqb_eq ->]. apply ed25519_verify_true in E. constructor.
  - exists m. split; [done|]. intros k x Hin. apply Hc in Hin as [?|?%elem_of_nil]; done.
  - intros o ->. rewrite Hb. cbn. cbn in Eo. by apply negb_false_iff, opt_str_eqb_true in Eo.
  - by exists body, kid, key, canon, text, sg.
Qed.

(** What a carried pack must prove before it contributes keys. *)
Record pack_authorized (pack : json) (trusted_roots : gmap string bytes) (signed_statement : bytes)
    (keys : gmap string bytes) : Prop := {
  p_policy : exists members entries limit, get pack "registration_policy" = Some (JObject members) /\
    get_array (JObject members) "ts_keys" = Some entries /\ policy_keys_from entries keys /\
    Z.of_nat (size keys) = zlen entries /\ 1 <= zlen entries <= 64 /\
    get_u64 (JObject members) "max_statement_bytes" = Some limit /\ zlen signed_statement <= limit <= MAX_BYTES /\
    exists name root canon text signature, trusted_roots !! name = Some root /\
      canonical_checked (JObject (obj_remove members "signature")) = Some canon /\
      get_str (JObject members) "signature" = Some text /\ b64_decode text = Some signature /\
      ed25519_signed root canon signature;
  p_checkpoint : exists checkpoint origin, get pack "checkpoint" = Some checkpoint /\
    (policy ← get pack "registration_policy"; get_str policy "ts_origin") = Some origin /\
    signed_checkpoint checkpoint keys (Some origin);
}.

Lemma policy_signature_signed policy roots : policy_signature_valid policy roots = true ->
  exists members name root canon text signature, policy = JObject members /\ roots !! name = Some root /\
    canonical_checked (JObject (obj_remove members "signature")) = Some canon /\
    get_str policy "signature" = Some text /\ b64_decode text = Some signature /\
    ed25519_signed root canon signature.
Proof.
  unfold policy_signature_valid. intros E.
  destruct (s ← get_str policy "signature"; strict_b64 s) as [sg|] eqn:Es; [|done].
  destruct policy as [| | | | |m]; try done. cbn [as_object] in E.
  destruct (canonical_checked _) as [canon|] eqn:Ec; [|done].
  apply existsb_exists in E as (root & Hin & E). apply list_elem_of_In, list_elem_of_fmap in Hin as ([name r] & -> & Hin).
  apply elem_of_map_to_list in Hin. apply bind_Some in Es as (text & Ht & Es). unfold strict_b64 in Es.
  apply bind_Some in Es as (raw & Hr & Es). apply then_some_Some in Es as [_ ->].
  apply ed25519_verify_true in E. by exists m, name, r, canon, text, sg.
Qed.

Lemma policy_ts_keys_from policy pack keys : policy_ts_keys policy pack = Some keys ->
  exists entries, get_array policy "ts_keys" = Some entries /\ 1 <= zlen entries <= 64 /\
    policy_keys_from entries keys /\ Z.of_nat (size keys) = zlen entries.
Proof.
  unfold policy_ts_keys. intros E. apply bind_Some in E as (entries & He & E). case_step E.
  apply negb_false_iff, andb_true_iff in E0 as [?%Z.leb_le ?%Z.leb_le].
  apply bind_Some in E as (carried & Hc & E). exists entries.
  assert (zlen carried = zlen entries) as Hlen.
  { unfold carried_ts_jwks in Hc. apply bind_Some in Hc as (? & _ & Hc). apply bind_Some in Hc as (? & _ & Hc).
    apply bind_Some in Hc as (? & _ & Hc). by apply then_some_Some in Hc as [Hc%Z.eqb_eq ->]. }
  apply (policy_keys_loop_from entries) in E as [Hf Hs].
  - split_and!; try done. rewrite Hs, map_size_empty. unfold zlen in *. rewrite length_zip. lia.
  - intros e c Hin. by apply elem_of_zip_l in Hin.
  - intros k r Hl. by rewrite lookup_empty in Hl.
Qed.

(** The service keys a pack contributes are authorised out of band: they are exactly the entries
    of a registration policy that one of the caller's own roots signed, each under the key id its
    own material derives, the statement fits the policy's limit, and the pack's checkpoint is
    signed, for the policy's origin, by one of those keys. *)
Theorem scitt_pack_keys_sound (pack : json) (trusted_roots : gmap string bytes) (signed_statement : bytes)
    (keys : gmap string bytes) :
  verified_scitt_pack_keys pack trusted_roots signed_statement = Some keys ->
  pack_authorized pack trusted_roots signed_statement keys.
Proof.
  unfold verified_scitt_pack_keys. intros E. apply bind_Some in E as (o & Ho & E).
  apply object_fields_Some in Ho as (-> & _ & _). case_step E.
  apply bind_Some in E as (policy & Hpol & E). case_step E. apply negb_false_iff, andb_true_iff in E1 as [Hshape Hsig].
  apply bind_Some in E as (ks & Hks & E). apply bind_Some in E as (origin & Hor & E).
  apply bind_Some in E as (cp & Hcp & E). apply then_some_Some in E as [Hv ->].
  apply policy_signature_signed in Hsig as (m & name & root & canon & text & sg & -> & Hroot).
  apply policy_ts_keys_from in Hks as (entries & He & Hlen & Hfrom & Hsize).
  apply verify_signed_checkpoint_signed in Hv.
  unfold policy_shape in Hshape. rewrite !andb_true_iff in Hshape. destruct Hshape as [[[_ Hlim] _] _].
  apply is_some_and_true in Hlim as (limit & Hl & Hr). apply andb_true_iff in Hr as [?%Z.leb_le ?%Z.leb_le].
  constructor.
  - exists m, entries, limit. split_and!; try done; try lia. by exists name, root, canon, text, sg.
  - exists cp, origin. split_and!; [done| |done]. unfold get. cbn [as_object mbind option_bind]. by rewrite Hpol.
Qed.
End Scitt.
