(* ===== verification/PyValue.v ===== *)
(** * PyValue: JSON values read with the reference engine's conventions (action.rs, certificate.rs)

    The verdict engine mirrors a Python program, so it reads members with Python's
    rules: a missing key is null, truthiness, [str()] and [repr()], iteration that may
    raise.  [Raise] is the marker type of action.rs; [result] is [Result<T, Raise>]. *)
From S2P Require Import Prelude Text Json Utc Dsse Trust.

(** [Display] of [serde_json::Number] and of [serde_json::Value]. *)
Class Display := {
  number_display : number -> string;
  value_display : json -> string;
}.

(** [Result<T, Raise>]. *)
Inductive result (A : Type) : Type :=
  | Ok (a : A)
  | Raise.
Arguments Ok {A} a.
Arguments Raise {A}.
#[export] Instance result_bind : MBind result :=
  fun A B f r => match r with Ok a => f a | Raise => Raise end.

(** ** Strings *)

(** [str.chars()] as one string per character. *)
Fixpoint split_chars (fuel : nat) (b : bytes) : list string :=
  match fuel, b with
  | S fuel, x :: _ => bytes_str (take (utf8_width x) b) :: split_chars fuel (drop (utf8_width x) b)
  | _, _ => []
  end.
Definition char_strings (s : string) : list string := split_chars (String.length s) (str_bytes s).

(** [str::trim]. *)
Definition is_white (c : string) : bool := forallb is_whitespace (chars c).
Fixpoint drop_white (l : list string) : list string :=
  match l with c :: t => if is_white c then drop_white t else l | [] => [] end.
Definition trim (s : string) : string :=
  String.concat EmptyString (rev (drop_white (rev (drop_white (char_strings s))))).

(** [str.replace(c, by)] of a one-byte character, and [to_ascii_uppercase]. *)
Definition replace_byte (c : u8) (by_ s : string) : string :=
  bytes_str (flat_map (fun x => if x =? c then str_bytes by_ else [x]) (str_bytes s)).
Definition to_ascii_uppercase (s : string) : string :=
  bytes_str (map (fun x => if is_ascii_lowercase x then x - 32 else x) (str_bytes s)).

(** [str.split_once(c)] on the bytes. *)
Fixpoint split_once (c : u8) (b : bytes) : option (bytes * bytes) :=
  match b with
  | [] => None
  | x :: t => if x =? c then Some ([], t) else '(l, r) ← split_once c t; Some (x :: l, r)
  end.

(** A [BTreeSet<String>] that is iterated: its elements in order. *)
Fixpoint set_insert (x : string) (l : list string) : list string :=
  match l with
  | [] => [x]
  | y :: t => if String.eqb x y then l else if str_ltb x y then x :: l else y :: set_insert x t
  end.

(** ** Members *)

(** [fn flag], [fn arr], [fn obj], [fn g]; [fn s] is [get_str]. *)
Definition flag (v : json) (k : string) : bool := unwrap_or (x ← get v k; as_bool x) false.
Definition arr (v : json) (k : string) : list json := unwrap_or (get_array v k) [].
Definition obj (v : json) (k : string) : option json := opt_filter (get v k) is_object.
Definition g (v : json) (k : string) : json := unwrap_or (get v k) JNull.

(** [v[k] = x] on an object of [json!]. *)
Definition set_member (v : json) (k : string) (x : json) : json :=
  match v with JObject m => JObject (obj_insert m k x) | _ => v end.

(** A number is zero, as [n.as_f64() == Some(0.0)]. *)
Definition number_is_zero (n : number) : bool :=
  is_some_and (num_as_f64 n) (fun f => SFeqb f (S754_zero false)).

(** [fn truthy] and [fn nonempty]. *)
Definition truthy (v : option json) : bool :=
  match v with
  | None | Some JNull => false
  | Some (JBool b) => b
  | Some (JNumber n) => match num_as_f64 n with Some f => negb (SFeqb f (S754_zero false)) | None => true end
  | Some (JString x) => negb (is_empty x)
  | Some (JArray a) => negb (zlen a =? 0)
  | Some (JObject m) => negb (zlen m =? 0)
  end.
Definition nonempty (v : json) (k : string) : bool := truthy (get v k).

(** [fn nts]. *)
Definition nts (t : json) : option string :=
  t ← as_str t;
  reject_if negb (canonical_utc t) with None;
  let base := take (length (str_bytes t) - 1) (str_bytes t) in
  let '(whole, frac) := unwrap_or (split_once #"." base) (base, []) in
  Some (bytes_str (whole ++ [ #"." ] ++ pad_right frac ++ [ #"Z" ])).

(** [fn tri]. *)
Definition tri (a : bool) (av : string) (b : bool) (bv weak : string) : string :=
  if a then av else if b then bv else weak.

(** [fn iter_items]. *)
Definition iter_items (v : option json) : result (list json) :=
  match v with
  | None | Some JNull | Some (JBool false) => Ok []
  | Some (JNumber n) => if number_is_zero n then Ok [] else Raise
  | Some (JString x) => Ok (map JString (char_strings x))
  | Some (JArray a) => Ok a
  | Some (JObject m) => Ok (map (fun kv => JString kv.1) m)
  | Some (JBool true) => Raise
  end.

Section Display.
Context {D : Display}.

(** [fn py_repr] and [fn py_str]. *)
Fixpoint py_repr (v : json) : string :=
  match v with
  | JNull => "None"
  | JBool b => tri b "True" true "False" EmptyString
  | JNumber n => number_display n
  | JString x =>
      "'" +:+ replace_byte #"'" "\'" (replace_byte #"\" "\\" x) +:+ "'"
  | JArray a => "[" +:+ join_str ", " (map py_repr a) +:+ "]"
  | JObject m => "{" +:+ join_str ", " (map (fun kx => "'" +:+ kx.1 +:+ "': " +:+ py_repr kx.2) m) +:+ "}"
  end%string.
Definition py_str (v : option json) (default : string) : string :=
  match v with
  | None => default
  | Some (JString x) => x
  | Some other => py_repr other
  end.
End Display.

(** ** Lemmas *)

Lemma get_set_member v k x k' : is_object v = true ->
  get (set_member v k x) k' = if String.eqb k' k then Some x else get v k'.
Proof. destruct v; try done. intros _. unfold get. cbn. apply obj_get_insert. Qed.
Lemma set_member_object v k x : is_object v = true -> is_object (set_member v k x) = true.
Proof. by destruct v. Qed.

Lemma result_bind_Ok {A C} (r : result A) (f : A -> result C) y : (r ≫= f) = Ok y <-> exists x, r = Ok x /\ f x = Ok y.
Proof. destruct r; cbn; split; [eauto|intros (? & [= <-] & ?); done|done|intros (? & ? & _); done]. Qed.

Lemma Ok_inj {A} (x y : A) : Ok x = Ok y -> x = y.
Proof. by injection 1. Qed.
