(* ===== verification/Times.v ===== *)
(** * Times: normalized timestamps compare as instants (action.rs, [nts])

    The verdict engine compares timestamps as strings, after [nts] has padded their
    fraction to six digits.  The comparison is proved to be the chronological one, on
    the reference calendar of Utc. *)
From S2P Require Import Prelude Text Json Utc Dsse Trust PyValue.

(** ** Decimal fields of one width *)

Lemma compare_app a b x y : length a = length b ->
  bytes_compare (a ++ x) (b ++ y) = match bytes_compare a b with Eq => bytes_compare x y | c => c end.
Proof.
  revert b. induction a as [|c a IH]; intros [|d b]; cbn; try done. intros [= Hl].
  destruct (c ?= d); auto.
Qed.
Lemma compare_same l x y : bytes_compare (l ++ x) (l ++ y) = bytes_compare x y.
Proof. by rewrite compare_app, bytes_compare_refl. Qed.

Lemma decimal_compare a b m n : length a = length b -> decimal a = Some m -> decimal b = Some n ->
  bytes_compare a b = (m ?= n).
Proof.
  revert b m n. induction a as [|c a IH] using rev_ind; intros b m n Hl Ha Hb.
  { destruct b; [|done]. injection Ha as <-. injection Hb as <-. done. }
  destruct b as [|d b _] using rev_ind; [rewrite length_app in Hl; cbn in Hl; lia|].
  rewrite !length_app in Hl. cbn in Hl. rewrite decimal_snoc in Ha, Hb.
  apply bind_Some in Ha as (m' & Hm & Ha). apply bind_Some in Hb as (n' & Hn & Hb).
  apply then_some_Some in Ha as [Hc <-]. apply then_some_Some in Hb as [Hd <-].
  rewrite compare_app by lia. rewrite (IH b m' n') by (done || lia).
  apply digit_value in Hc, Hd. cbn [bytes_compare].
  destruct (Z.compare_spec m' n'); symmetry.
  - subst. destruct (Z.compare_spec c d); [apply Z.compare_eq_iff|apply Z.compare_lt_iff|apply Z.compare_gt_iff]; lia.
  - apply Z.compare_lt_iff. lia.
  - apply Z.compare_gt_iff. lia.
Qed.

(** ** The bytes of a normalized timestamp *)

Lemma slice_split b i j k : (i <= j <= k)%nat -> slice b i k = slice b i j ++ slice b j k.
Proof.
  intros Hij. unfold slice. replace (k - i)%nat with ((j - i) + (k - j))%nat by lia.
  rewrite <- take_take_drop, drop_drop. do 3 f_equal. lia.
Qed.
Lemma slice_one b i c : (i < length b)%nat -> byte_at b i = c -> slice b i (S i) = [c].
Proof.
  intros Hi <-. unfold slice, byte_at. replace (S i - i)%nat with 1%nat by lia.
  destruct (nth_lookup_or_length b i 0) as [Hn|]; [|lia]. by rewrite (drop_S _ _ _ Hn).
Qed.

(** The first nineteen bytes: the six fields between their separators. *)
Definition clock_bytes (b : bytes) : bytes :=
  slice b 0 4 ++ [45] ++ slice b 5 7 ++ [45] ++ slice b 8 10 ++ [84] ++ slice b 11 13 ++ [58] ++ slice b 14 16
  ++ [58] ++ slice b 17 19.

Lemma canonical_clock s : canonical_utc s = true ->
  let b := str_bytes s in take 19 b = clock_bytes b /\ (20 < zlen b -> byte_at b 19 = 46).
Proof.
  intros Hc. destruct (canonical_utc_shape s Hc) as (Hl & _). unfold canonical_utc in Hc.
  set (b := str_bytes s) in *. cbv zeta in *. case_step Hc. rewrite !orb_false_iff in E. destruct_and! E. clear Hc.
  repeat match goal with Hx : negb _ = false |- _ => apply negb_false_iff, Z.eqb_eq in Hx || clear Hx end.
  split.
  - change (take 19 b) with (slice b 0 19). unfold clock_bytes.
    rewrite (slice_split b 0 4), (slice_split b 4 5), (slice_split b 5 7), (slice_split b 7 8), (slice_split b 8 10),
      (slice_split b 10 11), (slice_split b 11 13), (slice_split b 13 14), (slice_split b 14 16), (slice_split b 16 17) by lia.
    by rewrite (slice_one b 4 45), (slice_one b 7 45), (slice_one b 10 84), (slice_one b 13 58), (slice_one b 16 58) by (done || lia).
  - intros Hz. match goal with Hx : (20 <? _) && _ = false |- _ => rename Hx into E2 end.
    rewrite (proj2 (Z.ltb_lt _ _) Hz) in E2. cbn [andb] in E2. apply orb_false_iff in E2 as [E2 _].
    by apply negb_false_iff, Z.eqb_eq in E2.
Qed.

Lemma split_once_none c l : Forall (fun x => x <> c) l -> split_once c l = None.
Proof. induction 1 as [|x l Hx _ IH]; cbn; [done|]. by rewrite (proj2 (Z.eqb_neq _ _) Hx), IH. Qed.
Lemma split_once_app c l r : Forall (fun x => x <> c) l -> split_once c (l ++ c :: r) = Some (l, r).
Proof.
  induction 1 as [|x l Hx _ IH]; cbn; [by rewrite Z.eqb_refl|]. by rewrite (proj2 (Z.eqb_neq _ _) Hx), IH.
Qed.

Lemma digits_no_dot b n : decimal b = Some n -> Forall (fun x => x <> 46) b.
Proof.
  intros Hd. apply decimal_digits in Hd. rewrite forallb_forall in Hd. apply Forall_forall. intros x Hx.
  apply list_elem_of_In, Hd, digit_value in Hx. change #"0" with 48 in Hx. lia.
Qed.
Lemma digits_byte b n : decimal b = Some n -> Forall is_byte b.
Proof.
  intros Hd. apply decimal_digits in Hd. rewrite forallb_forall in Hd. apply Forall_forall. intros x Hx.
  apply list_elem_of_In, Hd, digit_value in Hx. change #"0" with 48 in Hx. unfold is_byte. lia.
Qed.

Lemma nts_shape s : canonical_utc s = true ->
  exists t f, nts (JString s) = Some t /\ str_bytes t = clock_bytes (str_bytes s) ++ [46] ++ f ++ [90] /\
    length f = 6%nat /\ decimal f = Some (micro (fields s)).
Proof.
  intros Hc. destruct (canonical_utc_shape s Hc) as (Hl & _ & Hf & Hfr). destruct (canonical_clock s Hc) as [Hclock Hdot].
  unfold nts, fields. cbn [as_str mbind option_bind micro]. rewrite Hc. cbn [negb]. set (b := str_bytes s) in *. cbv zeta in *.
  rewrite !Forall_cons in Hf. cbn [fst snd] in Hf. destruct Hf as (H1 & H2 & H3 & H4 & H5 & H6 & _).
  assert (Forall (fun x => x <> 46) (clock_bytes b)) as Hnd.
  { unfold clock_bytes. repeat (apply Forall_app; split); try (by eapply digits_no_dot); by repeat constructor. }
  assert (Forall is_byte (clock_bytes b)) as Hby.
  { unfold clock_bytes. repeat (apply Forall_app; split); try (by eapply digits_byte); by repeat constructor. }
  destruct Hl as [Hl|Hl].
  - assert (take (length b - 1) b = clock_bytes b) as -> by by rewrite Hl. rewrite (split_once_none #"." _ Hnd). cbn [unwrap_or].
    do 2 eexists. split; [done|]. split_and!; [apply str_bytes_str|done|].
    + apply Forall_app. split; [done|]. by repeat constructor.
    + unfold fraction. by rewrite (proj2 (Z.ltb_ge _ _)) by (unfold zlen; lia).
  - assert (20 < zlen b) as Hz by (unfold zlen; lia). specialize (Hfr Hz). specialize (Hdot Hz).
    set (frac := slice b 20 (length b - 1)) in *.
    assert (take (length b - 1) b = clock_bytes b ++ #"." :: frac) as ->.
    { rewrite <- Hclock. replace (take (length b - 1) b) with (slice b 0 (length b - 1)) by (unfold slice; by rewrite Nat.sub_0_r).
      rewrite (slice_split b 0 19), (slice_split b 19 20) by lia. by rewrite (slice_one b 19 46) by (done || lia). }
    rewrite (split_once_app #"." _ _ Hnd). cbn [unwrap_or].
    set (k := (6 - length frac)%nat). assert (length frac <= 6)%nat as Hlf by (unfold frac; rewrite length_slice; lia).
    assert (decimal (pad_right frac) = Some (fraction b)) as Hp.
    { unfold pad_right. fold k. rewrite (decimal_zeros _ _ _ Hfr). unfold fraction.
      rewrite (proj2 (Z.ltb_lt _ _) Hz). do 3 f_equal. unfold k, frac. rewrite length_slice. unfold zlen. lia. }
    exists (bytes_str (clock_bytes b ++ [ #"." ] ++ pad_right frac ++ [ #"Z" ])), (pad_right frac). split_and!; [done| | |done].
    + apply str_bytes_str. apply Forall_app. split; [done|]. apply Forall_app. split; [by repeat constructor|].
      apply Forall_app. split; [by eapply digits_byte|by repeat constructor].
    + unfold pad_right. rewrite length_app, length_replicate. lia.
Qed.

Lemma field_step a b m n sep x y : decimal a = Some m -> decimal b = Some n -> length a = length b ->
  bytes_compare (a ++ sep ++ x) (b ++ sep ++ y) = match m ?= n with Eq => bytes_compare x y | c => c end.
Proof. intros Ha Hb Hl. rewrite compare_app, compare_same by done. by rewrite (decimal_compare a b m n). Qed.

Lemma nts_compare s t a b : canonical_utc s = true -> canonical_utc t = true ->
  nts (JString s) = Some a -> nts (JString t) = Some b ->
  bytes_compare (str_bytes a) (str_bytes b) = bytes_compare (civil_list (fields s)) (civil_list (fields t)).
Proof.
  intros Hs Ht Ha Hb. destruct (nts_shape s Hs) as (a' & f & Ha' & Ea & Lf & Df).
  destruct (nts_shape t Ht) as (b' & f' & Hb' & Eb & Lf' & Df'). rewrite Ha in Ha'. rewrite Hb in Hb'.
  injection Ha' as <-. injection Hb' as <-. rewrite Ea, Eb.
  destruct (canonical_utc_shape s Hs) as (Hl & _ & Hf & _). destruct (canonical_utc_shape t Ht) as (Hl' & _ & Hf' & _).
  unfold clock_bytes, civil_list, fields in *. cbn [micro year month day hour minute second bytes_compare] in *.
  set (p := str_bytes s) in *. set (q := str_bytes t) in *. clearbody p q.
  rewrite !Forall_cons in Hf, Hf'. cbn [fst snd] in Hf, Hf'. destruct_and! Hf. destruct_and! Hf'.
  rewrite <- !app_assoc.
  repeat (erewrite field_step; [|eassumption..|rewrite !length_slice; lia]).
  rewrite (compare_app f f'), (decimal_compare f f' (fraction p) (fraction q)) by (done || lia).
  by destruct (fraction p ?= fraction q).
Qed.

(** C39: normalized timestamps are ordered as strings exactly as the instants they name: for
    two canonical timestamps of any precision, [nts] gives strings whose byte order is
    the chronological order of the reference calendar, and which are equal exactly when
    the instants are. *)
Theorem nts_chronological (s t : string) (Hs : canonical_utc s = true) (Ht : canonical_utc t = true) :
  exists a b i j, nts (JString s) = Some a /\ nts (JString t) = Some b /\
    utc_epoch_micros s = Some i /\ utc_epoch_micros t = Some j /\
    (str_ltb a b = true <-> i < j) /\ (a = b <-> i = j).
Proof.
  destruct (nts_shape s Hs) as (a & _ & Ha & _). destruct (nts_shape t Ht) as (b & _ & Hb & _).
  pose proof (nts_compare s t a b Hs Ht Ha Hb) as Hcmp.
  exists a, b, (instant (fields s)), (instant (fields t)). rewrite !utc_epoch_micros_canonical by done.
  destruct (canonical_utc_shape s Hs) as (_ & Os & _). destruct (canonical_utc_shape t Ht) as (_ & Ot & _).
  pose proof (civil_before_instant _ _ Os Ot) as Hlt. pose proof (civil_before_instant _ _ Ot Os) as Hgt.
  assert (a = b <-> fields s = fields t) as Heq.
  { split; intros E.
    - rewrite E, bytes_compare_refl in Hcmp. symmetry in Hcmp. apply bytes_compare_eq in Hcmp.
      clear -Hcmp. destruct (fields s), (fields t). unfold civil_list in Hcmp. cbn in Hcmp. injection Hcmp. by intros -> -> -> -> -> -> ->.
    - rewrite E, bytes_compare_refl in Hcmp. apply bytes_compare_eq in Hcmp.
      rewrite <- (bytes_str_bytes a), <- (bytes_str_bytes b). by rewrite Hcmp. }
  rewrite Heq. split_and!; try done.
  - unfold str_ltb. rewrite bytes_ltb_lt, Hcmp. split; [apply Hlt|]. intros Hi.
    destruct (civil_total (fields s) (fields t)) as [?|[E|E]]; [done|rewrite E in Hi; lia|apply Hgt in E; lia].
  - split; [by intros ->|]. intros Hi.
    destruct (civil_total (fields s) (fields t)) as [E|[E|E]]; [apply Hlt in E; lia|done|apply Hgt in E; lia].
Qed.
