(* ===== verification/Verdict.v ===== *)
(** * Verdict: the verdict engine (action.rs, [derive_vector])

    A verdict input is mapped to a verdict vector, one dimension per function, each
    with its weak value.  Definitions first, in the order of the source; then what the
    vector can and cannot say: without the relying party's anchors no favourable value
    is reachable, the engine is total, a material disagreement is terminal, and
    eligibility is exactly the conjunction of its gates. *)
From S2P Require Import Prelude Hash Text Json Jcs Utc Dsse Trust PyValue.

Definition ID_VALS : list string := ["VERIFIED"; "NOT_VERIFIED"; "CONFLICT"].
Definition INTENT_VALS : list string := ["RECORDED"; "NOT_RECORDED"; "CONFLICT"].
Definition KP_METHODS : list string := ["DOMAIN_CONTROL"; "TRUST_LIST"; "EXTERNAL_CA"].
Definition NODE_BASES : list string := ["HARDWARE_ATTESTED"; "INDEPENDENTLY_ATTESTED"; "LOG_WITNESSED_SOFTWARE"].
Definition LEGAL : list string :=
  ["source_registry"; "registry_id"; "ultimate_controller"; "retrieved_at"; "retrieval_proof"].
Definition POP : list string :=
  ["dense_seq_range"; "tree_size"; "checkpoint_ref"; "consistency_proof_ref"; "query_descriptor"; "result_root";
   "count"; "signature"].
Definition GATED : list string :=
  ["identity"; "authority"; "intent"; "integrity"; "linkage"; "outcome"; "coverage"; "coverage_basis";
   "temporal_binding"; "fork_findings"; "scitt_receipt"].
Definition ELIGIBLE_EXACT : list (string * string) :=
  [("identity", "VERIFIED"); ("authority", "VERIFIED"); ("intent", "RECORDED"); ("integrity", "VALID");
   ("outcome", "MATCHED"); ("coverage", "CLOSED")]%string.
Definition MAX_SOURCE_PROOFS : Z := 128.
Definition MAX_SOURCE_PROOF_TOTAL_BYTES : Z := 8 * 1024 * 1024.
Definition MAX_VERDICT_INPUT_BYTES : Z := 16 * 1024 * 1024.
Definition MAX_TRUST_CONTEXT_BYTES : Z := 1024 * 1024.
Definition MATERIAL_FLOOR : list string := ["value"; "currency"; "counterparty"].
Definition STRUCTURAL_FIELDS : list string :=
  ["action_class"; "action_id"; "context_commitment"; "event_key"; "external_ref"; "finality"; "inputs_commitment";
   "outcome"; "proof_digests"; "reference"; "schema"; "source_effect_time"; "source_identity_ref"].

(** [s(v, k) == Some(x)]. *)
Definition says (v : json) (k x : string) : bool := opt_str_eqb (get_str v k) (Some x).
Definition is_array (v : json) : bool := is_some (as_array v).

Section Verdict.
Context {H : Hash} {SD : Serde} {B : Base64} {ED : Ed25519} {D : Display}.

(** [fn authority_block]: the echoed block and the derived one. *)
Definition pick (a : json) (integ name : string) (allowed : list string) (weak : string) : string :=
  match get_str a name with
  | Some v => if String.eqb integ "VALID" && str_in v allowed then v else weak
  | None => weak
  end.
Definition authority_block (vi : json) : json * json :=
  let a := g vi "authority" in
  let integ := tri (says a "integrity" "VALID") "VALID" true "INVALID" EmptyString in
  let ii := g a "intent_interval" in
  let derived := json_of_list [
    ("identity", JString (pick a integ "identity" ID_VALS "NOT_VERIFIED"));
    ("authority", JString (pick a integ "authority" ID_VALS "NOT_VERIFIED"));
    ("intent", JString (pick a integ "intent" INTENT_VALS "NOT_RECORDED"));
    ("integrity", JString integ);
    ("intent_interval", json_of_list [("lower", g ii "lower"); ("upper", g ii "upper")])]%string in
  (a, derived).

(** ** Source signature *)

(** [fn bound_source_keys] and [fn bound_source_key]. *)
Definition bound_source_keys (si : json) : result (list json) :=
  keys ← iter_items (if is_object si then get si "keys" else None);
  if existsb (fun k => is_object k && (is_array (g k "kid") || is_object (g k "kid"))) keys then Raise else Ok keys.
Definition bound_source_key (keys : list json) (kid : option string) : option json :=
  match List.filter (fun key => is_object key && opt_str_eqb (get_str key "kid") kid) keys with
  | [first] => Some first
  | _ => None
  end.

(** [fn source_proof_material_size]. *)
Definition source_proof_material_size (proof : json) : option Z :=
  reject_if negb (is_object proof) with Some 0;
  let material := get proof "material" in
  let context := get proof "signature_context" in
  reject_if is_none material && is_none context with Some 0;
  let attributive := says proof "proof_type" "asymmetric_signature" || says proof "proof_type" "mac" in
  reject_if attributive && (is_none material
    || negb (opt_str_eqb (c ← context; as_str c) (Some SOURCE_WEBHOOK_SIGNATURE_CONTEXT))) with None;
  m ← material; text ← as_str m; decoded ← b64_decode text;
  then_some (String.eqb (b64_encode decoded) text && (zlen decoded <=? MAX_SOURCE_PROOF_MATERIAL_BYTES)) (zlen decoded).

(** [fn bounded_source_proofs]; its loop carries the total. *)
Fixpoint material_within (total : Z) (proofs : list json) : bool :=
  match proofs with
  | [] => true
  | proof :: t =>
      let_some n := source_proof_material_size proof else false;
      reject_if USIZE_MAX <? total + n with false;
      reject_if MAX_SOURCE_PROOF_TOTAL_BYTES <? total + n with false;
      material_within (total + n) t
  end.
Definition bounded_source_proofs (vi : json) : option (list json) :=
  match get vi "source_proofs" with
  | None => Some []
  | Some value =>
      proofs ← as_array value;
      reject_if MAX_SOURCE_PROOFS <? zlen proofs with None;
      then_some (material_within 0 proofs) proofs
  end.

(** [fn field_withheld]. *)
Definition withheld_items (vi : json) : result (list json) :=
  let view := g vi "view" in iter_items (if is_object view then get view "withheld_fields" else None).
Definition field_withheld (vi : json) (field : string) : result bool :=
  withheld ← withheld_items vi; Ok (existsb (fun w => String.eqb (py_str (Some w) EmptyString) field) withheld).

(** [fn full_source_proof_kind], [fn legacy_source_proof_kind], [fn source_proof_kind]. *)
Definition full_source_proof_kind (p : json) (key : option json) (kid : option string) (trust : option json) : string :=
  let family := (entry ← key; get_str entry "algorithm_family") in
  reject_if is_none key || negb (source_webhook_verified trust kid family p) with "NOTHING"%string;
  tri (says p "proof_type" "asymmetric_signature") "ASYMMETRIC" true "MAC" EmptyString.
Definition legacy_source_proof_kind (p : json) (key : option json) (kid : option string) (trust : option json) : string :=
  reject_if says p "proof_type" "asymmetric_signature" && is_some key
    && verified trust "source_keys" kid "source-proof" p with "ASYMMETRIC"%string;
  reject_if says p "proof_type" "mac" && mac_verified trust kid "source-proof" p with "MAC"%string;
  "NOTHING"%string.
Definition source_proof_kind (p : json) (keys : list json) (trust : option json) : string :=
  reject_if negb (is_object p) with "NOTHING"%string;
  let kid := get_str p "key_identity" in
  let key := bound_source_key keys kid in
  if is_some (get p "material") || is_some (get p "signature_context")
  then full_source_proof_kind p key kid trust else legacy_source_proof_kind p key kid trust.

(** [fn source_signature]. *)
Fixpoint source_proofs_loop (proofs keys : list json) (trust : option json) (has_mac : bool) : string :=
  match proofs with
  | [] => tri has_mac "SHARED_SECRET" false EmptyString "NONE"
  | p :: t =>
      let kind := source_proof_kind p keys trust in
      if String.eqb kind "ASYMMETRIC" then "ASYMMETRIC"%string
      else source_proofs_loop t keys trust (has_mac || String.eqb kind "MAC")
  end.
Definition source_signature (vi : json) (trust : option json) : result string :=
  withheld ← field_withheld vi "source_proofs";
  if (withheld : bool) then Ok "NOT_RECOMPUTED"%string else
  keys ← bound_source_keys (g vi "source_identity");
  Ok (let_some proofs := bounded_source_proofs vi else "NONE"%string;
      source_proofs_loop proofs keys trust false).

(** ** Control domain and Node *)

(** [fn grounded_controllers]. *)
Definition grounded_controllers (ev : json) : option (json * json) :=
  let le := g ev "legal_evidence" in
  let kp := g ev "key_provenance" in
  let method_ok := is_some_and (get_str kp "method") (fun m => str_in m KP_METHODS) in
  then_some (forallb (nonempty le) LEGAL && method_ok && nonempty kp "evidence" && nonempty kp "valid_from"
             && nonempty ev "evaluator" && nonempty ev "signature")
    (g le "ultimate_controller", g ev "operator_ultimate_controller").

(** [fn control_domain]. *)
Definition control_domain (vi : json) (trust : option json) : result string :=
  let ev := g vi "control_evidence" in
  decls ← iter_items (get vi "control_declarations");
  let admits := existsb (fun d => opt_json_eqb (get d "claims_overlap") (Some (JBool true))) decls
                || says ev "claimed_control_domain" "OVERLAPPING" in
  let grounded := if is_some_and (as_object ev) (fun m => negb (zlen m =? 0)) then grounded_controllers ev else None in
  let shared := is_some_and grounded (fun ab => json_eqb ab.1 ab.2) in
  let evaluator_ok := verified trust "evaluator_keys" (get_str ev "evaluator") "control-evidence" ev in
  Ok (tri (admits || shared) "OVERLAPPING" (is_some grounded && evaluator_ok) "INDEPENDENT" "UNKNOWN").

(** [fn scan_binds_batch]. *)
Definition before (a b : option string) : bool :=
  match a, b with Some a, Some b => str_ltb a b | _, _ => false end.
Definition scan_binds_batch (vi scan : json) : bool :=
  let_some declared := opt_filter (get_str scan "batch_digest") (fun d => negb (is_empty d)) else false;
  let_some batch := obj vi "batch" else false;
  reject_if negb (before (nts (g batch "period_start")) (nts (g batch "period_end"))) with false;
  let_some canon := canonical_integer_checked batch else false;
  String.eqb declared (hex (sha256 canon)).

(** [fn node_dims]: (observation, client attestation, integrity basis). *)
Definition node_observed (vi : json) (trust : option json) : bool :=
  let scan := g vi "scan" in
  flag scan "performed" && flag scan "authenticated_read" && scan_binds_batch vi scan
  && verified trust "node_keys" (get_str scan "node_id") "node-scan" scan.
Definition node_dims (vi : json) (trust : option json) : string * string * string :=
  let att := g vi "node_attestation" in
  let observed := node_observed vi trust in
  let att_ok := verified trust "node_roots" (get_str att "attestor") "node-attestation" att
    && says att "state" "ISSUED" && is_some_and (get_str att "method") (fun m => str_in m NODE_BASES)
    && is_some (nts (g att "valid_from")) && is_some (nts (g att "valid_to")) in
  let basis :=
    if says att "method" "HARDWARE_ATTESTED" && att_ok then "HARDWARE_ATTESTED"%string
    else if says att "method" "INDEPENDENTLY_ATTESTED" && att_ok then "INDEPENDENTLY_ATTESTED"%string
    else "LOG_WITNESSED_SOFTWARE"%string in
  let client := tri (flag vi "client_attestation_present" && observed) "ATTESTED" false EmptyString "NONE" in
  (tri observed "OBSERVED" false EmptyString "NOT_OBSERVED", client, basis).

(** ** Coverage *)

(** [fn full_scan]. *)
Definition full_scan (scan : json) (observed : bool) : bool :=
  flag scan "performed" && flag scan "complete" && flag scan "cursor_gap_free" && observed.

(** [fn has_open_finding]. *)
Definition finding_open (f : json) : bool :=
  negb (is_object f)
  || negb (str_in (to_ascii_uppercase (unwrap_or (get_str f "state") "OPEN"%string)) ["RESOLVED"; "CLOSED"; "DISMISSED"]).
Definition has_open_finding (vi : json) : bool :=
  let_some field := opt_filter (get vi "findings") (fun f => negb (is_null f)) else false;
  let_some items := as_array field else true;
  existsb finding_open items.

(** [fn coverage]: (coverage, basis). *)
Definition coverage (vi : json) (node_basis : string) (node_observed : bool) (trust : option json) : string * string :=
  let batch := g vi "batch" in
  let scan := g vi "scan" in
  let pp := g batch "population_proof" in
  let pp_ok := flag pp "source_scope_defined"
               && verified trust "population_keys" (get_str pp "source_id") "population-proof" pp in
  let basis :=
    if pp_ok then "SOURCE_PROVEN_POPULATION"%string
    else if full_scan scan node_observed && String.eqb node_basis "HARDWARE_ATTESTED" then "ATTESTED_NODE_FULL_SCAN"%string
    else "INSUFFICIENT"%string in
  let gapped := nonempty batch "gaps" || flag vi "fork_findings_open"
    || (flag scan "performed" && opt_json_eqb (get scan "cursor_gap_free") (Some (JBool false)))
    || has_open_finding vi in
  if gapped then ("GAPPED"%string, basis)
  else (tri (negb (String.eqb basis "INSUFFICIENT")) "CLOSED" false EmptyString "UNKNOWN", basis).

(** ** Linkage and outcome *)

(** [fn match_candidates]. *)
Definition match_candidates (vi : json) : result (list json) :=
  items ← iter_items (get vi "event_matches");
  Ok (List.filter (fun m => is_object m
        && existsb (flag m) ["echoed_action_id"; "immutable_ref_match"; "unique_field_match"]%string) items).

(** [fn material_fields]. *)
Definition material_name (f : json) : string := match as_str f with Some name => name | None => value_display f end.
Definition extend_fields (fields : list string) (f : json) : list string :=
  let name := material_name f in if str_in name fields then fields else fields ++ [name].
Definition material_fields (vi : json) : list string :=
  fold_left extend_fields (arr (g vi "source_manifest") "material_fields") MATERIAL_FLOOR.

(** [fn field_text]. *)
Definition field_text (v : json) (f : string) : option string :=
  match get v f with
  | None | Some JNull => None
  | Some (JString t) => Some (trim t)
  | Some other => Some (value_display other)
  end.

(** [fn declared_tally]: (agreements, any mismatch, any one-sided). *)
Definition tally_step (claim event : json) (acc : Z * bool * bool) (f : string) : Z * bool * bool :=
  let '(compared, mismatch, uncomparable) := acc in
  match field_text claim f, field_text event f with
  | None, None => acc
  | Some a, Some b => if String.eqb a b then (compared + 1, mismatch, uncomparable) else (compared, true, uncomparable)
  | _, _ => (compared, mismatch, true)
  end.
Definition declared_tally (claim event : json) (fields : list string) : Z * bool * bool :=
  fold_left (tally_step claim event) fields (0, false, false).

(** [fn undeclared_disagreement]. *)
Definition texts_differ (claim event : json) (f : string) : bool :=
  match field_text claim f, field_text event f with Some a, Some b => negb (String.eqb a b) | _, _ => false end.
Definition undeclared_disagreement (claim event : json) (fields : list string) : bool :=
  let_some members := as_object claim else false;
  existsb (fun kv => negb (str_in kv.1 STRUCTURAL_FIELDS) && negb (str_in kv.1 fields) && texts_differ claim event kv.1)
    members.

(** [fn material_agreement]. *)
Definition find_event (vi : json) (key : option string) : option json :=
  List.find (fun e => is_object e && opt_str_eqb (get_str e "event_key") key) (arr vi "events").
Definition material_agreement (vi cand : json) : string :=
  reject_if flag cand "material_mismatch" with "MISMATCH"%string;
  let claim := g vi "claim" in
  let_some event := find_event vi (get_str cand "event_key") else "UNCOMPARABLE"%string;
  let fields := material_fields vi in
  let '(compared, mismatch, uncomparable) := declared_tally claim event fields in
  reject_if mismatch with "MISMATCH"%string;
  reject_if uncomparable || (compared =? 0) || undeclared_disagreement claim event fields with "UNCOMPARABLE"%string;
  "AGREE"%string.

(** [fn linkage_outcome]. *)
Definition linkage_of (cands : list json) : string :=
  match cands with
  | [] => "NONE"
  | [c] => if flag c "echoed_action_id" then "DIRECT" else "DETERMINISTIC"
  | _ => "AMBIGUOUS"
  end%string.
Definition linkage_outcome (vi : json) : result (string * json) :=
  cands ← match_candidates vi;
  let linkage := linkage_of cands in
  Ok (if is_none (obj vi "claim") then
        (linkage, if truthy (get vi "events") then JString "ORPHAN" else JNull)
      else
        match cands with
        | [c] =>
            let agreement := material_agreement vi c in
            if String.eqb agreement "MISMATCH" then (linkage, JString "CONTRADICTED")
            else if String.eqb agreement "AGREE" && flag c "final" then (linkage, JString "MATCHED")
            else (linkage, JString "CLAIM_ONLY")
        | _ => (linkage, JString "CLAIM_ONLY")
        end).

(** ** Temporal binding *)

(** [fn temporal]. *)
Definition temporal (vi : json) (trust : option json) : string :=
  let_some t := obj vi "temporal" else "UNPROVEN"%string;
  let echo := g t "echo" in
  reject_if existsb (flag echo) ["echoed_intent_digest"; "echoed_action_id"; "echoed_nonce"]%string
    && verified trust "source_keys" (get_str echo "source_id") "temporal-echo" echo
  with "PROVEN_SOURCE_ECHO"%string;
  let ib := g t "intent_bounds" in
  let eb := g t "event_bounds" in
  reject_if verified trust "temporal_keys" (get_str ib "attester") "temporal-bounds" ib
    && verified trust "temporal_keys" (get_str eb "attester") "temporal-bounds" eb
    && before (nts (g ib "upper")) (nts (g eb "lower"))
  with "PROVEN_INDEPENDENT"%string;
  "UNPROVEN"%string.

(** ** Surfaces *)

(** [fn surface_row]. *)
Definition mechanism (e : json) : string :=
  match get_str e "mechanism_declaration" with
  | Some d =>
      if String.eqb d "ENFORCED" || String.eqb d "OBSERVED"
      then tri (nonempty e "evidence_source_ref") d true "DECLARED" EmptyString
      else if String.eqb d "DECLARED" then "DECLARED"%string else "UNKNOWN"%string
  | None => "UNKNOWN"%string
  end.
Definition surface_row (e : json) (trust : option json) : json :=
  let grounded := verified trust "evaluator_keys" (get_str e "controlling_party") "surface-entry" e in
  let overlap := flag e "controller_admits_overlap" in
  let independent := grounded && flag e "controller_grounded_independent" in
  let cd := tri overlap "OVERLAPPING" independent "INDEPENDENT" "UNKNOWN" in
  let closed := grounded && flag e "coverage_closed" in
  let cov := tri (flag e "coverage_gap") "GAPPED" closed "CLOSED" "UNKNOWN" in
  json_of_list [("surface_id", JString (py_str (get e "surface_id") EmptyString)); ("mechanism", JString (mechanism e));
                ("control_domain", JString cd); ("coverage", JString cov)]%string.

(** [fn surfaces]: (rows, out of scope, breaches); the two sets are iterated in order. *)
Fixpoint activity_loop (declared : list string) (activity : list json) (oos breaches : list string)
    : list string * list string :=
  match activity with
  | [] => (oos, breaches)
  | a :: t =>
      if negb (is_object a) then activity_loop declared t oos breaches else
      let cls := py_str (get a "surface_class") EmptyString in
      if negb (str_in cls declared) then activity_loop declared t (set_insert cls oos) breaches
      else if negb (opt_json_eqb (get a "explained") (Some (JBool true)))
      then activity_loop declared t oos (set_insert cls breaches)
      else activity_loop declared t oos breaches
  end.
Definition surfaces (vi : json) (trust : option json) : result (list json * list json * list json) :=
  let_some sur := obj vi "surfaces" else Ok ([], [], []);
  let manifest := g sur "manifest" in
  entries ← iter_items (if is_object manifest then get manifest "entries" else None);
  let decl := List.filter is_object entries in
  if existsb (fun e => is_some_and (get e "surface_class") (fun v => is_array v || is_object v)) decl then Raise else
  let declared := omap (fun e => get_str e "surface_class") decl in
  activity ← iter_items (get sur "activity");
  let '(oos, breaches) := activity_loop declared activity [] [] in
  Ok (map (fun e => surface_row e trust) decl, map JString oos, map JString breaches).

(** ** Accountability and assurance *)

(** [fn acc_basis]. *)
Definition acc_basis (kind : string) : option Z :=
  position (String.eqb kind) ["SPONSOR"; "PARENT"; "INSURER"; "BOND_ESCROW"]%string.

(** [fn accountability]; [ORDER] is its constant. *)
Definition ORDER : list string := ["SPONSOR_ASSERTED"; "PARENT_GUARANTEED"; "INSURER_CORROBORATED"; "BONDED_OR_ESCROWED"].
Definition binding_rank (trust : option json) (b : json) : option Z :=
  rank ← acc_basis (py_str (Some (g b "kind")) EmptyString);
  reject_if negb (forallb (flag b) ["signed"; "agent_specific"; "mandate_specific"; "value_bounded"; "time_bounded"]%string)
  with None;
  reject_if negb (verified trust "accountability_keys" (get_str b "party") "accountability-binding" b) with None;
  reject_if (2 <=? rank) && negb (flag b "externally_grounded") with None;
  Some rank.
Definition better (best rank : option Z) : option Z :=
  match rank with None => best | Some r => Some (match best with Some cur => Z.max cur r | None => r end) end.
Definition accountability (vi : json) (trust : option json) : result string :=
  let acc := g vi "accountability" in
  bindings ← iter_items (if is_object acc then get acc "bindings" else None);
  let best := fold_left (fun best b => better best (binding_rank trust b)) (List.filter is_object bindings) None in
  Ok (match best with Some r => nth (Z.to_nat r) ORDER EmptyString | None => "UNKNOWN"%string end).

(** [fn assurance]. *)
Definition candidate_count (a : json) : option Z :=
  match get_i64 a "candidates" with
  | Some n => Some n
  | None => match get a "candidates" with Some (JBool b) => Some (Z.b2z b) | _ => None end
  end.
Definition assurance (vi : json) (observed : bool) : string :=
  let a := g vi "assurance" in
  reject_if negb (nonempty a "intent_digest") with "NONE"%string;
  let cands := candidate_count a in
  reject_if is_some_and cands (fun c => 2 <=? c) with "AMBIGUOUS"%string;
  if nonempty a "presented_transcript_digest" then
    if negb (opt_json_eqb (get a "presented_transcript_digest") (get a "intent_digest")) then "AMBIGUOUS"%string
    else tri observed "DIRECT" true "DETERMINISTIC" EmptyString
  else tri (bool_decide (cands = Some 1) && flag a "challenge_nonce_match") "DETERMINISTIC" false EmptyString "NONE".

(** ** Scope, population, history, authority proof *)

(** [fn val_set]. *)
Fixpoint members_set (a : list json) : option (gset string) :=
  match a with
  | [] => Some ∅
  | x :: t =>
      e ← (match x with
           | JString s => Some s
           | JNumber _ | JBool _ | JNull => Some (value_display x)
           | _ => None
           end);
      rest ← members_set t; Some ({[ e ]} ∪ rest)
  end.
Definition val_set (v : json) : option (gset string) :=
  match v with
  | JNull | JBool false => Some ∅
  | JNumber n => if number_is_zero n then Some ∅ else None
  | JString x => Some (list_to_set (char_strings x))
  | JArray a => members_set a
  | JObject m => Some (list_to_set m.*1)
  | JBool true => None
  end.

(** [fn pred_map], [fn predicates_intersect]. *)
Definition pred_map (v : json) : list (string * json) := unwrap_or (get_object (g v "selector") "predicates") [].
Definition disjoint (a b : gset string) : bool := bool_decide (a ∩ b = ∅).
Fixpoint selectors_intersect (pp cp : list (string * json)) : option bool :=
  match pp with
  | [] => Some true
  | (k, va) :: t =>
      match obj_get cp k with
      | None => selectors_intersect t cp
      | Some vb =>
          a ← val_set va; b ← val_set vb;
          if disjoint a b then Some false else selectors_intersect t cp
      end
  end.
Definition predicates_intersect (p c : json) : option bool :=
  pc ← val_set (g p "action_classes");
  cc ← val_set (g c "action_classes");
  if disjoint pc cc then Some false else selectors_intersect (pred_map p) (pred_map c).

(** [fn scope_pair], [fn scope_relation]. *)
Definition scope_pair (p cand : json) : string :=
  let c := g cand "scope" in
  reject_if negb (is_object p) || flag cand "scope_digest_only" || negb (is_object c) with "UNKNOWN"%string;
  reject_if negb (json_eqb (g p "org") (g c "org")) with "UNKNOWN"%string;
  reject_if negb (json_eqb (g (g p "selector") "kind") (g (g c "selector") "kind")) with "UNKNOWN"%string;
  reject_if negb (json_eqb (g p "source_system") (g c "source_system")) || negb (json_eqb (g p "account") (g c "account"))
  with "UNRELATED"%string;
  match predicates_intersect p c with
  | Some true => "RELATED"%string
  | Some false => "UNRELATED"%string
  | None => "UNKNOWN"%string
  end.
Definition scope_relation (vi : json) : result json :=
  let_some m := obj vi "mandates" else Ok JNull;
  let p := g m "presented_scope" in
  cands ← iter_items (get m "candidates");
  let results := map (scope_pair p) (List.filter is_object cands) in
  if str_in "RELATED" results then Ok (JString "RELATED") else
  let unknown := str_in "UNKNOWN" results || (zlen results =? 0) in
  Ok (JString (tri unknown "UNKNOWN" false EmptyString "UNRELATED")).

(** [fn population]. *)
Definition population (vi : json) (trust : option json) : json :=
  let_some pi := obj vi "population_index" else JNull;
  let complete := forallb (fun f => is_some_and (get pi f) (fun v => negb (is_null v))) POP in
  let canonical_query := is_some_and (get pi "query_descriptor") is_object in
  let signed := verified trust "population_keys" (get_str pi "source_id") "population-index" pi in
  JString (tri (complete && canonical_query && signed) "PROVEN" false EmptyString "INDETERMINATE").

(** [fn history_manifest_surface_classes], [fn history]. *)
Definition history_manifest_surface_classes (vi : json) : option (list string) :=
  surfaces ← obj vi "surfaces"; manifest ← obj surfaces "manifest"; entries ← get_array manifest "entries";
  reject_if zlen entries =? 0 with None;
  Some (map (fun entry => py_str (get entry "surface_class") "None"%string) (List.filter is_object entries)).
Definition history (vi : json) : result json :=
  let_some h := obj vi "history" else Ok JNull;
  if flag h "evidenced_history_in_scope" then Ok JNull else
  items ← iter_items (get h "surfaces_closed_since_birth");
  let surfs := map (fun surface => py_str (Some surface) EmptyString) items in
  let surfs := match history_manifest_surface_classes vi with
    | Some declared => List.filter (fun surface => str_in surface declared) surfs
    | None => surfs
    end in
  if flag h "born_with_evidence" && negb (zlen surfs =? 0)
  then Ok (json_of_list [("state", JString "CLOSED_SINCE_BIRTH"); ("surfaces", JArray (map JString surfs))]%string)
  else Ok (json_of_list [("state", JString "NO_EVIDENCED_HISTORY_IN_PRESENTED_SCOPE"); ("surfaces", JArray [])]%string).

(** [fn authority_proof]. *)
Definition authority_proof (vi : json) : json :=
  let_some h := obj vi "handshake_authority" else JNull;
  JString
    (if says h "construction" "ACTION_SPECIFIC_AUTHORIZATION" && flag h "asa_bindings_complete"
     then "ACTION_SPECIFIC_AUTHORIZATION"%string
     else if says h "construction" "DISCLOSED_LIMIT" && flag h "disclosed_limit_covers"
     then "DISCLOSED_LIMIT"%string else "NONE"%string).

(** ** Eligibility, registration and mark *)

(** [fn eligibility]. *)
Definition eligibility_checks (vi v : json) : list bool :=
  let interval := g v "intent_interval" in
  [forallb (fun kw => says v kw.1 kw.2) ELIGIBLE_EXACT;
   negb (is_null (idx interval "lower")) && negb (is_null (idx interval "upper"));
   says v "linkage" "DIRECT" || says v "linkage" "DETERMINISTIC";
   negb (says v "coverage_basis" "INSUFFICIENT");
   negb (flag vi "fork_findings_open");
   negb (says v "temporal_binding" "UNPROVEN");
   flag (g vi "registration") "scitt_receipt_valid"].
Definition eligibility (vi v : json) : result string :=
  withheld ← withheld_items vi;
  if existsb (fun w => str_in (py_str (Some w) EmptyString) GATED) withheld then Ok "NOT_RECOMPUTED"%string
  else Ok (tri (forallb id (eligibility_checks vi v)) "ELIGIBLE" false EmptyString "INELIGIBLE").

(** [fn registration_status]. *)
Definition registration_status (vi : json) (trust : option json) : string :=
  let reg := g vi "registration" in
  let sr := g reg "scope_registration" in
  let covered := flag sr "covers_scope" && flag sr "term_valid" in
  let registered := covered && is_some_and (get sr "registration") is_object && flag reg "scitt_receipt_valid"
    && verified trust "scitt_ts_keys" (get_str sr "transparency_service") "scope-registration" sr in
  reject_if registered with "REGISTERED"%string;
  let signed_intent := is_some_and (get reg "intent") is_object in
  tri (signed_intent && truthy (get reg "attempts")) "PENDING" false EmptyString "UNREGISTERED".

(** [fn mark]. *)
Definition mark (te reg : string) (v : json) : string :=
  if String.eqb te "NOT_RECOMPUTED" then "NOT_RECOMPUTED"%string
  else if String.eqb reg "PENDING" then "PENDING_REGISTRATION"%string
  else if String.eqb reg "UNREGISTERED" then "UNMARKED_UNREGISTERED"%string
  else if String.eqb te "INELIGIBLE" then "UNMARKED_TECHNICAL"%string
  else
    let corroborated := says v "source_signature" "ASYMMETRIC" && says v "control_domain" "INDEPENDENT" in
    let observed := says v "node_observation" "OBSERVED" && says v "node_integrity_basis" "HARDWARE_ATTESTED" in
    tri corroborated "UNMARKED_ASSURANCE_WITHDRAWN" observed "UNMARKED_ASSURANCE_WITHDRAWN" "UNMARKED_TECHNICAL".

(** [fn derive_inner]. *)
Definition vector_rows (vi : json) (trust : option json) : result (list (string * json)) :=
  let '(_, derived) := authority_block vi in
  let '(observed, client, node_basis) := node_dims vi trust in
  let '(cov, basis) := coverage vi node_basis (String.eqb observed "OBSERVED") trust in
  '(linkage, outcome) ← linkage_outcome vi;
  '(rows, oos, breaches) ← surfaces vi trust;
  source ← source_signature vi trust;
  control ← control_domain vi trust;
  acc ← accountability vi trust;
  scope ← scope_relation vi;
  hist ← history vi;
  Ok [("schema", JString "evd/verdict-vector/v1");
      ("identity", idx derived "identity"); ("authority", idx derived "authority");
      ("intent", idx derived "intent"); ("outcome", outcome); ("linkage", JString linkage);
      ("coverage", JString cov); ("integrity", idx derived "integrity");
      ("source_signature", JString source); ("control_domain", JString control);
      ("node_observation", JString observed); ("client_attestation", JString client);
      ("coverage_basis", JString basis); ("node_integrity_basis", JString node_basis);
      ("temporal_binding", JString (temporal vi trust)); ("intent_interval", idx derived "intent_interval");
      ("surfaces", JArray rows); ("out_of_scope_surfaces", JArray oos); ("boundary_breaches", JArray breaches);
      ("accountability_basis", JString acc); ("assurance_linkage", JString (assurance vi (String.eqb observed "OBSERVED")));
      ("scope_relation", scope); ("population_status", population vi trust);
      ("history_state", hist); ("authority_proof", authority_proof vi)]%string.
Definition derive_inner (vi : json) (trust : option json) : result json :=
  let ablock := (authority_block vi).1 in
  rows ← vector_rows vi trust;
  let v := json_of_list rows in
  te ← eligibility vi v;
  let v := set_member v "technical_eligibility" (JString te) in
  let v := set_member v "registration_status" (JString (registration_status vi trust)) in
  let v := set_member v "mark" (JString (mark (unwrap_or (get_str v "technical_eligibility") EmptyString)
                                              (unwrap_or (get_str v "registration_status") EmptyString) v)) in
  Ok (match opt_filter (get ablock "subject_ids") is_object with
      | Some ids => set_member v "subject_ids" ids
      | None => v
      end).

(** [fn derive_vector_with_trust]: [None] is the panic of its [expect]. *)
Definition derive_vector_with_trust (verdict_input : json) (trust : option json) : option json :=
  match derive_inner verdict_input trust with
  | Ok v => Some v
  | Raise => match derive_inner (JObject []) None with Ok v => Some v | Raise => None end
  end.
Definition derive_vector (verdict_input : json) : option json := derive_vector_with_trust verdict_input None.

(** [fn derive_vector_json], as the value it prints. *)
Definition derive_vector_json (verdict_input_json trust_json : bytes) : option json :=
  let input := if zlen verdict_input_json <=? MAX_VERDICT_INPUT_BYTES then strict_json verdict_input_json else None in
  let trust := if (zlen trust_json =? 0) || (MAX_TRUST_CONTEXT_BYTES <? zlen trust_json) then None else strict_json trust_json in
  derive_vector_with_trust (unwrap_or input JNull) trust.
End Verdict.

(** ** The vector, member by member *)

Section Vector.
Context {H : Hash} {SD : Serde} {B : Base64} {ED : Ed25519} {D : Display}.

(** The members the engine adds to the dimensions. *)
Definition derived_member (k : string) : bool :=
  str_in k ["technical_eligibility"; "registration_status"; "mark"; "subject_ids"].

Lemma derive_inner_Ok vi trust v : derive_inner vi trust = Ok v ->
  exists rows te, vector_rows vi trust = Ok rows /\ eligibility vi (json_of_list rows) = Ok te /\
    (forall k, derived_member k = false -> get v k = obj_get (rev rows) k) /\
    get v "technical_eligibility" = Some (JString te) /\
    get v "registration_status" = Some (JString (registration_status vi trust)) /\
    get v "mark" = Some (JString (mark te (registration_status vi trust) v)).
Proof.
  unfold derive_inner. intros E. apply result_bind_Ok in E as (rows & Hrows & E).
  apply result_bind_Ok in E as (te & Hte & E).
  apply Ok_inj in E. subst v. exists rows, te. cbv zeta.
  set (v0 := json_of_list rows) in *. assert (is_object v0 = true) as H0 by done.
  set (v1 := set_member v0 _ _). assert (is_object v1 = true) as H1 by by apply set_member_object.
  set (v2 := set_member v1 _ _). assert (is_object v2 = true) as H2 by by apply set_member_object.
  assert (get_str v2 "technical_eligibility" = Some te) as ->.
  { unfold get_str, v2, v1. rewrite !get_set_member by done. done. }
  assert (get_str v2 "registration_status" = Some (registration_status vi trust)) as ->.
  { unfold get_str, v2. rewrite get_set_member by done. done. }
  cbn [unwrap_or]. set (mk := mark te _ v2). set (v3 := set_member v2 _ _).
  assert (is_object v3 = true) as H3 by by apply set_member_object.
  set (v := match opt_filter _ _ with Some ids => _ | None => _ end).
  assert (forall k, k <> "subject_ids"%string -> get v k = get v3 k) as Hv.
  { intros k Hk. unfold v. destruct (opt_filter _ _); [|done]. rewrite get_set_member by done.
    by destruct (String.eqb_spec k "subject_ids"). }
  assert (forall k, derived_member k = false -> get v k = get v2 k) as Hv2.
  { intros k Hk. rewrite Hv by (by intros ->). unfold v3. rewrite get_set_member by done.
    by destruct (String.eqb_spec k "mark") as [->|]. }
  split_and!; [done|done| | | |].
  - intros k Hk. rewrite Hv2 by done. unfold v2, v1. rewrite !get_set_member by done.
    destruct (String.eqb_spec k "registration_status") as [->|]; [done|].
    destruct (String.eqb_spec k "technical_eligibility") as [->|]; [done|]. apply get_json_of_list.
  - rewrite Hv by done. unfold v3, v2, v1. rewrite !get_set_member by done. done.
  - rewrite Hv by done. unfold v3, v2. rewrite !get_set_member by done. done.
  - rewrite Hv by done. unfold v3. rewrite get_set_member by done. cbn [String.eqb Ascii.eqb Bool.eqb].
    do 2 f_equal. subst mk. unfold mark, says, get_str. by rewrite !Hv2 by done.
Qed.

(** Eligibility reads the dimensions only. *)
Lemma eligibility_ext vi v v' : (forall k, derived_member k = false -> get v k = get v' k) ->
  eligibility vi v = eligibility vi v'.
Proof.
  intros Hext. unfold eligibility. destruct (withheld_items vi) as [w|]; [cbn [mbind result_bind]|done].
  do 4 f_equal. unfold eligibility_checks, says, get_str, g, ELIGIBLE_EXACT. cbn [forallb fst snd].
  by rewrite !Hext by reflexivity.
Qed.

(** Each dimension of the vector, by the function that derives it. *)
Lemma derive_inner_dims vi trust v : derive_inner vi trust = Ok v ->
  exists linkage outcome rows oos breaches source control acc scope hist te,
    let '(_, derived) := authority_block vi in
    let '(observed, client, node_basis) := node_dims vi trust in
    let '(cov, basis) := coverage vi node_basis (String.eqb observed "OBSERVED") trust in
    linkage_outcome vi = Ok (linkage, outcome) /\ surfaces vi trust = Ok (rows, oos, breaches) /\
    source_signature vi trust = Ok source /\ control_domain vi trust = Ok control /\
    accountability vi trust = Ok acc /\ scope_relation vi = Ok scope /\ history vi = Ok hist /\
    (forall k x, In (k, x)
      [("schema", JString "evd/verdict-vector/v1");
       ("identity", idx derived "identity"); ("authority", idx derived "authority");
       ("intent", idx derived "intent"); ("outcome", outcome); ("linkage", JString linkage);
       ("coverage", JString cov); ("integrity", idx derived "integrity");
       ("source_signature", JString source); ("control_domain", JString control);
       ("node_observation", JString observed); ("client_attestation", JString client);
       ("coverage_basis", JString basis); ("node_integrity_basis", JString node_basis);
       ("temporal_binding", JString (temporal vi trust)); ("intent_interval", idx derived "intent_interval");
       ("surfaces", JArray rows); ("out_of_scope_surfaces", JArray oos); ("boundary_breaches", JArray breaches);
       ("accountability_basis", JString acc); ("assurance_linkage", JString (assurance vi (String.eqb observed "OBSERVED")));
       ("scope_relation", scope); ("population_status", population vi trust);
       ("history_state", hist); ("authority_proof", authority_proof vi);
       ("technical_eligibility", JString te);
       ("registration_status", JString (registration_status vi trust));
       ("mark", JString (mark te (registration_status vi trust) v))]%string -> get v k = Some x) /\
    eligibility vi v = Ok te.
Proof.
  intros E. apply derive_inner_Ok in E as (rows & te & Hrows & Hte & Hget & Ht & Hr & Hm). revert Hrows.
  unfold vector_rows. destruct (authority_block vi) as [blk derived].
  destruct (node_dims vi trust) as [[observed client] node_basis].
  destruct (coverage vi node_basis _ trust) as [cov basis]. intros Hrows.
  apply result_bind_Ok in Hrows as ([linkage outcome] & Hl & Hrows).
  apply result_bind_Ok in Hrows as ([[rs oos] breaches] & Hs & Hrows).
  apply result_bind_Ok in Hrows as (source & Hso & Hrows). apply result_bind_Ok in Hrows as (control & Hc & Hrows).
  apply result_bind_Ok in Hrows as (acc & Ha & Hrows). apply result_bind_Ok in Hrows as (scope & Hsc & Hrows).
  apply result_bind_Ok in Hrows as (hist & Hh & Hrows). apply Ok_inj in Hrows. subst rows.
  exists linkage, outcome, rs, oos, breaches, source, control, acc, scope, hist, te.
  split_and!; try done.
  - intros k x Hin. repeat (destruct Hin as [[= <- <-]|Hin]; [by first [rewrite Hget by reflexivity|assumption]|]).
    destruct Hin.
  - rewrite <- Hte. apply eligibility_ext. intros k Hk. by rewrite Hget, get_json_of_list.
Qed.

(** ** Totality and the value domain of each member *)

(** What a member may hold: the values of each dimension, and whether null is one. *)
Definition VECTOR_VALUES : list (string * (bool * list string)) :=
  [("schema", (false, ["evd/verdict-vector/v1"]));
   ("identity", (false, ID_VALS)); ("authority", (false, ID_VALS)); ("intent", (false, INTENT_VALS));
   ("integrity", (false, ["VALID"; "INVALID"]));
   ("outcome", (true, ["ORPHAN"; "CONTRADICTED"; "MATCHED"; "CLAIM_ONLY"]));
   ("linkage", (false, ["NONE"; "DIRECT"; "DETERMINISTIC"; "AMBIGUOUS"]));
   ("coverage", (false, ["GAPPED"; "CLOSED"; "UNKNOWN"]));
   ("source_signature", (false, ["NOT_RECOMPUTED"; "ASYMMETRIC"; "SHARED_SECRET"; "NONE"]));
   ("control_domain", (false, ["OVERLAPPING"; "INDEPENDENT"; "UNKNOWN"]));
   ("node_observation", (false, ["OBSERVED"; "NOT_OBSERVED"]));
   ("client_attestation", (false, ["ATTESTED"; "NONE"]));
   ("coverage_basis", (false, ["SOURCE_PROVEN_POPULATION"; "ATTESTED_NODE_FULL_SCAN"; "INSUFFICIENT"]));
   ("node_integrity_basis", (false, NODE_BASES));
   ("temporal_binding", (false, ["PROVEN_SOURCE_ECHO"; "PROVEN_INDEPENDENT"; "UNPROVEN"]));
   ("accountability_basis", (false, "UNKNOWN" :: ORDER));
   ("assurance_linkage", (false, ["NONE"; "AMBIGUOUS"; "DIRECT"; "DETERMINISTIC"]));
   ("scope_relation", (true, ["RELATED"; "UNKNOWN"; "UNRELATED"]));
   ("population_status", (true, ["PROVEN"; "INDETERMINATE"]));
   ("authority_proof", (true, ["ACTION_SPECIFIC_AUTHORIZATION"; "DISCLOSED_LIMIT"; "NONE"]));
   ("technical_eligibility", (false, ["NOT_RECOMPUTED"; "ELIGIBLE"; "INELIGIBLE"]));
   ("registration_status", (false, ["REGISTERED"; "PENDING"; "UNREGISTERED"]));
   ("mark", (false, ["NOT_RECOMPUTED"; "PENDING_REGISTRATION"; "UNMARKED_UNREGISTERED"; "UNMARKED_TECHNICAL";
                     "UNMARKED_ASSURANCE_WITHDRAWN"]))]%string.
Definition value_in (nullable : bool) (values : list string) (x : json) : bool :=
  match x with JString s => str_in s values | JNull => nullable | _ => false end.
Definition vector_typed (v : json) : bool :=
  forallb (fun '(k, (nullable, values)) => is_some_and (get v k) (value_in nullable values)) VECTOR_VALUES
  && forallb (fun k => is_some (get_array v k)) ["surfaces"; "out_of_scope_surfaces"; "boundary_breaches"].

(** The fully weak vector, member by member. *)
Definition weak_vector : json :=
  json_of_list [("schema", JString "evd/verdict-vector/v1"); ("identity", JString "NOT_VERIFIED");
    ("authority", JString "NOT_VERIFIED"); ("intent", JString "NOT_RECORDED"); ("outcome", JNull);
    ("linkage", JString "NONE"); ("coverage", JString "UNKNOWN"); ("integrity", JString "INVALID");
    ("source_signature", JString "NONE"); ("control_domain", JString "UNKNOWN");
    ("node_observation", JString "NOT_OBSERVED"); ("client_attestation", JString "NONE");
    ("coverage_basis", JString "INSUFFICIENT"); ("node_integrity_basis", JString "LOG_WITNESSED_SOFTWARE");
    ("temporal_binding", JString "UNPROVEN"); ("intent_interval", json_of_list [("lower", JNull); ("upper", JNull)]);
    ("surfaces", JArray []); ("out_of_scope_surfaces", JArray []); ("boundary_breaches", JArray []);
    ("accountability_basis", JString "UNKNOWN"); ("assurance_linkage", JString "NONE"); ("scope_relation", JNull);
    ("population_status", JNull); ("history_state", JNull); ("authority_proof", JNull);
    ("technical_eligibility", JString "INELIGIBLE"); ("registration_status", JString "UNREGISTERED");
    ("mark", JString "UNMARKED_UNREGISTERED")]%string.

Lemma derive_inner_empty : derive_inner (JObject []) None = Ok weak_vector.
Proof. vm_compute. reflexivity. Qed.

Lemma derive_vector_with_trust_eq vi trust : derive_vector_with_trust vi trust =
  Some (match derive_inner vi trust with Ok v => v | Raise => weak_vector end).
Proof. unfold derive_vector_with_trust. destruct (derive_inner vi trust); [done|]. by rewrite derive_inner_empty. Qed.


(** The values each dimension's function returns. *)
Local Ltac by_branches := repeat match goal with |- context [if ?e then _ else _] => destruct e end; reflexivity.

Lemma pick_value a integ name allowed weak : str_in weak allowed = true ->
  str_in (pick a integ name allowed weak) allowed = true.
Proof.
  intros Hw. unfold pick. destruct (get_str a name); [|done].
  destruct (String.eqb integ "VALID"); cbn [andb]; [|done]. by destruct (str_in s allowed) eqn:E; rewrite ?E.
Qed.

Lemma source_proofs_loop_value proofs keys trust has_mac :
  str_in (source_proofs_loop proofs keys trust has_mac) ["NOT_RECOMPUTED"; "ASYMMETRIC"; "SHARED_SECRET"; "NONE"] = true.
Proof.
  revert has_mac. induction proofs as [|p t IH]; intros has_mac; cbn [source_proofs_loop]; [unfold tri; by_branches|].
  destruct (String.eqb _ _); [done|]. apply IH.
Qed.

Lemma source_signature_value vi trust x : source_signature vi trust = Ok x ->
  str_in x ["NOT_RECOMPUTED"; "ASYMMETRIC"; "SHARED_SECRET"; "NONE"] = true.
Proof.
  unfold source_signature. intros E. apply result_bind_Ok in E as (w & _ & E).
  destruct w; [apply Ok_inj in E; by subst x|]. apply result_bind_Ok in E as (keys & _ & E).
  apply Ok_inj in E. subst x. destruct (bounded_source_proofs vi); [|done]. apply source_proofs_loop_value.
Qed.

Lemma control_domain_value vi trust x : control_domain vi trust = Ok x ->
  str_in x ["OVERLAPPING"; "INDEPENDENT"; "UNKNOWN"] = true.
Proof.
  unfold control_domain. intros E. apply result_bind_Ok in E as (decls & _ & E). apply Ok_inj in E. subst x.
  unfold tri. by_branches.
Qed.

Lemma acc_basis_range kind r : acc_basis kind = Some r -> 0 <= r < 4.
Proof.
  unfold acc_basis, position. cbn [position_from].
  repeat (destruct (String.eqb kind _); [intros [= <-]; lia|]). done.
Qed.

Lemma binding_rank_range trust b r : binding_rank trust b = Some r -> 0 <= r < 4.
Proof.
  unfold binding_rank. intros E. apply bind_Some in E as (r' & Hr & E). case_all E. injection E as <-.
  by eapply acc_basis_range.
Qed.

Lemma best_rank_range trust bs best r :
  (forall r, best = Some r -> 0 <= r < 4) ->
  fold_left (fun best b => better best (binding_rank trust b)) bs best = Some r -> 0 <= r < 4.
Proof.
  revert best. induction bs as [|b bs IH]; intros best Hb; cbn [fold_left]; [apply Hb|].
  apply IH. intros r'. unfold better. destruct (binding_rank trust b) as [rb|] eqn:E; [|apply Hb].
  apply binding_rank_range in E. destruct best as [cur|]; intros [= <-]; [specialize (Hb cur eq_refl); lia|lia].
Qed.

Lemma accountability_value vi trust x : accountability vi trust = Ok x -> str_in x ("UNKNOWN"%string :: ORDER) = true.
Proof.
  unfold accountability. intros E. apply result_bind_Ok in E as (bs & _ & E). apply Ok_inj in E. subst x.
  destruct (fold_left _ _ _) as [r|] eqn:Er; [|done]. apply best_rank_range in Er; [|done].
  assert (r = 0 \/ r = 1 \/ r = 2 \/ r = 3) as Hr by lia. destruct Hr as [Hr|[Hr|[Hr|Hr]]]; by rewrite Hr.
Qed.

Lemma linkage_outcome_value vi l o : linkage_outcome vi = Ok (l, o) ->
  str_in l ["NONE"; "DIRECT"; "DETERMINISTIC"; "AMBIGUOUS"] = true /\
  value_in true ["ORPHAN"; "CONTRADICTED"; "MATCHED"; "CLAIM_ONLY"] o = true.
Proof.
  unfold linkage_outcome. intros E. apply result_bind_Ok in E as (cands & _ & E). apply Ok_inj in E.
  assert (str_in (linkage_of cands) ["NONE"; "DIRECT"; "DETERMINISTIC"; "AMBIGUOUS"] = true) as Hl.
  { unfold linkage_of. destruct cands as [|c [|]]; [done| |done]. cbn beta iota. by destruct (flag c "echoed_action_id"). }
  destruct (is_none (obj vi "claim")); [injection E as <- <-; split; [done|by destruct (truthy _)]|].
  destruct cands as [|c [|]]; [injection E as <- <-; done| |injection E as <- <-; done].
  case_all E; injection E as <- <-; done.
Qed.

Lemma scope_relation_value vi x : scope_relation vi = Ok x -> value_in true ["RELATED"; "UNKNOWN"; "UNRELATED"] x = true.
Proof.
  unfold scope_relation. destruct (obj vi "mandates"); [|intros E; apply Ok_inj in E; by subst x].
  intros E. apply result_bind_Ok in E as (cs & _ & E). case_step E; apply Ok_inj in E; subst x; [done|].
  cbn [value_in]. unfold tri. by_branches.
Qed.

Lemma eligibility_value vi v x : eligibility vi v = Ok x -> str_in x ["NOT_RECOMPUTED"; "ELIGIBLE"; "INELIGIBLE"] = true.
Proof.
  unfold eligibility. intros E. apply result_bind_Ok in E as (w & _ & E). case_step E; apply Ok_inj in E; subst x; [done|].
  unfold tri. by_branches.
Qed.

(** Where the reference engine raises: a truthy value that is not iterable, where an
    iteration is reached, or a container where a hashable value is needed. *)
Definition not_iterable (v : option json) : bool :=
  match v with Some (JBool true) => true | Some (JNumber n) => negb (number_is_zero n) | _ => false end.
Definition container (v : option json) : bool := is_some_and v (fun x => is_array x || is_object x).
Definition member_if_object (v : json) (k : string) : option json := if is_object v then get v k else None.
Definition iterated (v : option json) : list json := match iter_items v with Ok a => a | Raise => [] end.
Definition malformed_surfaces (vi : json) : bool :=
  let_some sur := obj vi "surfaces" else false;
  let entries := member_if_object (g sur "manifest") "entries" in
  not_iterable entries || existsb (fun e => is_object e && container (get e "surface_class")) (iterated entries)
  || not_iterable (get sur "activity").
Definition malformed_keys (vi : json) : bool :=
  let keys := member_if_object (g vi "source_identity") "keys" in
  not_iterable keys || existsb (fun k => is_object k && container (get k "kid")) (iterated keys).
Definition malformed_scope (vi : json) : bool := is_some_and (obj vi "mandates") (fun m => not_iterable (get m "candidates")).
Definition malformed_history (vi : json) : bool :=
  is_some_and (obj vi "history")
    (fun h => negb (flag h "evidenced_history_in_scope") && not_iterable (get h "surfaces_closed_since_birth")).
Definition malformed (vi : json) : bool :=
  let withheld := member_if_object (g vi "view") "withheld_fields" in
  not_iterable (get vi "event_matches") || malformed_surfaces vi || not_iterable withheld
  || (negb (existsb (fun w => String.eqb (py_str (Some w) EmptyString) "source_proofs") (iterated withheld))
      && malformed_keys vi)
  || not_iterable (get vi "control_declarations") || not_iterable (member_if_object (g vi "accountability") "bindings")
  || malformed_scope vi || malformed_history vi.

Lemma iter_items_eq v : iter_items v = if not_iterable v then Raise else Ok (iterated v).
Proof. unfold iterated. destruct v as [[|[]|n| | |]|]; cbn; try done. by destruct (number_is_zero n). Qed.

Definition raised {A} (r : result A) : bool := match r with Ok _ => false | Raise => true end.

Lemma linkage_outcome_raises vi : raised (linkage_outcome vi) = not_iterable (get vi "event_matches").
Proof.
  unfold linkage_outcome, match_candidates. rewrite iter_items_eq. by destruct (not_iterable _).
Qed.

Lemma existsb_ext_in {A} (f f' : A -> bool) l : (forall x, f x = f' x) -> existsb f l = existsb f' l.
Proof. intros Hf. induction l as [|x l IH]; cbn; [done|]. by rewrite Hf, IH. Qed.

Lemma existsb_filter {A} (f p : A -> bool) l : existsb f (List.filter p l) = existsb (fun x => p x && f x) l.
Proof. induction l as [|x l IH]; cbn; [done|]. destruct (p x); cbn; by rewrite IH. Qed.

Lemma surfaces_raises vi trust : raised (surfaces vi trust) = malformed_surfaces vi.
Proof.
  unfold surfaces, malformed_surfaces. destruct (obj vi "surfaces") as [sur|]; [|done]. cbv zeta.
  fold (member_if_object (g sur "manifest") "entries"). rewrite !iter_items_eq.
  destruct (not_iterable (member_if_object _ _)); [done|]. cbn [mbind result_bind]. rewrite existsb_filter.
  cbn [orb]. unfold container. destruct (existsb _ _); [done|].
  destruct (not_iterable (get sur "activity")); [done|]. cbn. by destruct (activity_loop _ _ _ _).
Qed.

Lemma withheld_items_eq vi : withheld_items vi =
  if not_iterable (member_if_object (g vi "view") "withheld_fields") then Raise
  else Ok (iterated (member_if_object (g vi "view") "withheld_fields")).
Proof. apply iter_items_eq. Qed.

Lemma bound_source_keys_raises vi : raised (bound_source_keys (g vi "source_identity")) = malformed_keys vi.
Proof.
  unfold bound_source_keys, malformed_keys. fold (member_if_object (g vi "source_identity") "keys").
  rewrite iter_items_eq. destruct (not_iterable _); [done|]. cbn [mbind result_bind orb].
  assert (forall l, existsb (fun k => is_object k && (is_array (g k "kid") || is_object (g k "kid"))) l
    = existsb (fun k => is_object k && container (get k "kid")) l) as ->; [|by destruct (existsb _ (iterated _))].
  intros l. apply existsb_ext_in. intros k. unfold g, container. by destruct (get k "kid").
Qed.

Lemma source_signature_raises vi trust : raised (source_signature vi trust) =
  not_iterable (member_if_object (g vi "view") "withheld_fields")
  || (negb (existsb (fun w => String.eqb (py_str (Some w) EmptyString) "source_proofs")
              (iterated (member_if_object (g vi "view") "withheld_fields")))
      && malformed_keys vi).
Proof.
  unfold source_signature, field_withheld. rewrite withheld_items_eq.
  destruct (not_iterable (member_if_object (g vi "view") "withheld_fields")); [done|]. cbn [mbind result_bind orb].
  destruct (existsb _ (iterated _)); [done|]. cbn [negb andb]. rewrite <- bound_source_keys_raises.
  by destruct (bound_source_keys _).
Qed.

Lemma control_domain_raises vi trust : raised (control_domain vi trust) = not_iterable (get vi "control_declarations").
Proof. unfold control_domain. rewrite iter_items_eq. by destruct (not_iterable _). Qed.

Lemma accountability_raises vi trust : raised (accountability vi trust) =
  not_iterable (member_if_object (g vi "accountability") "bindings").
Proof.
  unfold accountability. cbv zeta. fold (member_if_object (g vi "accountability") "bindings").
  rewrite iter_items_eq. by destruct (not_iterable _).
Qed.

Lemma scope_relation_raises vi : raised (scope_relation vi) = malformed_scope vi.
Proof.
  unfold scope_relation, malformed_scope. destruct (obj vi "mandates") as [m|]; [|done]. rewrite iter_items_eq.
  cbn [is_some_and]. destruct (not_iterable _); [done|]. cbn. by destruct (str_in _ _).
Qed.

Lemma history_raises vi : raised (history vi) = malformed_history vi.
Proof.
  unfold history, malformed_history. destruct (obj vi "history") as [h|]; [|done]. cbn [is_some_and].
  destruct (flag h "evidenced_history_in_scope"); [done|]. rewrite iter_items_eq. cbn [negb andb].
  destruct (not_iterable _); [done|]. cbn. by destruct (_ && _).
Qed.

Lemma eligibility_raises vi v : raised (eligibility vi v) =
  not_iterable (member_if_object (g vi "view") "withheld_fields").
Proof. unfold eligibility. rewrite withheld_items_eq. destruct (not_iterable _); [done|]. cbn. by destruct (existsb _ _). Qed.

Ltac next_result r := destruct r; cbn [mbind result_bind raised orb]; [|done].
Lemma vector_rows_raises vi trust : raised (vector_rows vi trust) = malformed vi.
Proof.
  unfold vector_rows. destruct (authority_block vi). destruct (node_dims vi trust) as [[ob cl] nb].
  destruct (coverage vi nb _ trust).
  assert (malformed vi = raised (linkage_outcome vi) || (raised (surfaces vi trust) || (raised (source_signature vi trust)
    || (raised (control_domain vi trust) || (raised (accountability vi trust) || (raised (scope_relation vi)
    || raised (history vi))))))) as ->.
  { rewrite linkage_outcome_raises, surfaces_raises, source_signature_raises, control_domain_raises,
      accountability_raises, scope_relation_raises, history_raises. unfold malformed. by rewrite !orb_assoc. }
  next_result (linkage_outcome vi). destruct a. next_result (surfaces vi trust). destruct a as [[? ?] ?].
  next_result (source_signature vi trust). next_result (control_domain vi trust). next_result (accountability vi trust).
  next_result (scope_relation vi). by next_result (history vi).
Qed.

Lemma derive_inner_raises vi trust : raised (derive_inner vi trust) = malformed vi.
Proof.
  unfold derive_inner. cbv zeta. rewrite <- (vector_rows_raises vi trust).
  destruct (vector_rows vi trust) as [rows|] eqn:E; [|done]. cbn [mbind result_bind raised].
  pose proof (eligibility_raises vi (json_of_list rows)) as He.
  assert (not_iterable (member_if_object (g vi "view") "withheld_fields") = false) as Hw.
  { pose proof (vector_rows_raises vi trust) as Hm. rewrite E in Hm. symmetry in Hm. unfold malformed in Hm.
    by bool_prop. }
  rewrite Hw in He. by destruct (eligibility vi (json_of_list rows)).
Qed.

Lemma derive_inner_cases vi trust :
  (malformed vi = true /\ derive_inner vi trust = Raise) \/
  (malformed vi = false /\ exists v, derive_inner vi trust = Ok v).
Proof.
  pose proof (derive_inner_raises vi trust) as E. destruct (derive_inner vi trust) as [v|]; cbn in E; [right|left]; eauto.
Qed.

Lemma node_dims_value vi trust o c b : node_dims vi trust = (o, c, b) ->
  o = (if node_observed vi trust then "OBSERVED" else "NOT_OBSERVED")%string /\
  c = (if flag vi "client_attestation_present" && node_observed vi trust then "ATTESTED" else "NONE")%string /\
  str_in b NODE_BASES = true.
Proof. unfold node_dims. cbv zeta. intros E. injection E as <- <- <-. split_and!; [done..|by_branches]. Qed.

Lemma coverage_value vi nb ob trust c b : coverage vi nb ob trust = (c, b) ->
  str_in c ["GAPPED"; "CLOSED"; "UNKNOWN"] = true /\
  str_in b ["SOURCE_PROVEN_POPULATION"; "ATTESTED_NODE_FULL_SCAN"; "INSUFFICIENT"] = true.
Proof.
  unfold coverage. cbv zeta.
  set (basis := if _ && verified _ _ _ _ _ then _ else _). intros E.
  assert (str_in basis ["SOURCE_PROVEN_POPULATION"; "ATTESTED_NODE_FULL_SCAN"; "INSUFFICIENT"] = true) as Hb
    by (unfold basis; by_branches).
  case_step E; injection E as <- <-; split; try done. unfold tri. by_branches.
Qed.

Lemma mark_value te reg v : str_in (mark te reg v)
  ["NOT_RECOMPUTED"; "PENDING_REGISTRATION"; "UNMARKED_UNREGISTERED"; "UNMARKED_TECHNICAL";
   "UNMARKED_ASSURANCE_WITHDRAWN"] = true.
Proof. unfold mark, tri. cbv zeta. by_branches. Qed.

Lemma derive_inner_typed vi trust v : derive_inner vi trust = Ok v -> vector_typed v = true.
Proof.
  intros E. destruct (derive_inner_dims _ _ _ E) as (l & o & rows & oos & br & so & co & ac & sc & hi & te & E').
  destruct (authority_block vi) as [blk derived] eqn:Ea. destruct (node_dims vi trust) as [[ob cl] nb] eqn:En.
  destruct (coverage vi nb _ trust) as [cov basis] eqn:Ec.
  destruct E' as (Hl & Hs & Hso & Hco & Hac & Hsc & Hhi & Hget & Hte).
  apply linkage_outcome_value in Hl as [Hl Ho]. apply node_dims_value in En as (Hob & Hcl & Hnb).
  apply coverage_value in Ec as [Hcov Hb]. apply source_signature_value in Hso. apply control_domain_value in Hco.
  apply accountability_value in Hac. apply scope_relation_value in Hsc. apply eligibility_value in Hte.
  unfold vector_typed. apply andb_true_iff. split.
  - unfold VECTOR_VALUES. cbn [forallb].
    repeat (apply andb_true_iff; split; [erewrite Hget by (cbn; tauto); cbn [is_some_and value_in]|]); try done.
    all: injection Ea as <- <-.
    all: try (apply pick_value; done).
    all: try (apply mark_value).
    + unfold tri. by_branches.
    + rewrite Hob. by destruct (node_observed vi trust).
    + rewrite Hcl. by destruct (_ && _).
    + unfold temporal. destruct (obj vi "temporal"); [|done]. by_branches.
    + unfold assurance, tri. cbv zeta. by_branches.
    + unfold population. destruct (obj vi "population_index"); [|done]. unfold tri. cbn [value_in]. by_branches.
    + unfold authority_proof. destruct (obj vi "handshake_authority"); [|done]. cbn [value_in]. by_branches.
    + unfold registration_status, tri. by_branches.
  - cbn [forallb]. unfold get_array.
    repeat (apply andb_true_iff; split; [erewrite Hget by (cbn; tauto); done|]). done.
Qed.


(** The engine's one error path: exactly when the document is malformed where it
    must be iterated (an explicit predicate of the document, anchors have no part in
    it) the vector is the fully weak one; otherwise every dimension is derived. *)
Theorem derive_vector_malformed (vi : json) (trust : option json) :
  (malformed vi = true -> derive_vector_with_trust vi trust = Some weak_vector) /\
  (malformed vi = false -> exists v, derive_inner vi trust = Ok v /\ derive_vector_with_trust vi trust = Some v).
Proof.
  rewrite derive_vector_with_trust_eq. destruct (derive_inner_cases vi trust) as [[-> ->]|[-> [v ->]]]; split; eauto; done.
Qed.

(** ** What the anchors are needed for *)

(** The values reachable when the relying party resolves no key. *)
Definition UNANCHORED_VALUES : list (string * (bool * list string)) :=
  [("source_signature", (false, ["NOT_RECOMPUTED"; "NONE"])); ("control_domain", (false, ["OVERLAPPING"; "UNKNOWN"]));
   ("node_observation", (false, ["NOT_OBSERVED"])); ("client_attestation", (false, ["NONE"]));
   ("coverage", (false, ["GAPPED"; "UNKNOWN"])); ("coverage_basis", (false, ["INSUFFICIENT"]));
   ("node_integrity_basis", (false, ["LOG_WITNESSED_SOFTWARE"])); ("temporal_binding", (false, ["UNPROVEN"]));
   ("accountability_basis", (false, ["UNKNOWN"]));
   ("assurance_linkage", (false, ["NONE"; "AMBIGUOUS"; "DETERMINISTIC"]));
   ("population_status", (true, ["INDETERMINATE"]));
   ("technical_eligibility", (false, ["NOT_RECOMPUTED"; "INELIGIBLE"]));
   ("registration_status", (false, ["PENDING"; "UNREGISTERED"]));
   ("mark", (false, ["NOT_RECOMPUTED"; "PENDING_REGISTRATION"; "UNMARKED_UNREGISTERED"]))]%string.
Definition surface_unanchored (row : json) : bool :=
  is_some_and (get row "control_domain") (value_in false ["OVERLAPPING"; "UNKNOWN"])
  && is_some_and (get row "coverage") (value_in false ["GAPPED"; "UNKNOWN"]).
Definition unanchored (v : json) : bool :=
  forallb (fun '(k, (nullable, values)) => is_some_and (get v k) (value_in nullable values)) UNANCHORED_VALUES
  && forallb surface_unanchored (arr v "surfaces").

Section Unanchored.
Variable trust : option json.
Hypothesis no_key : forall category name, key_for trust category name = None.

Lemma verified_unanchored category name domain payload : verified trust category name domain payload = false.
Proof. unfold verified. by rewrite no_key. Qed.
Lemma mac_unanchored name domain payload : mac_verified trust name domain payload = false.
Proof. unfold mac_verified. by rewrite no_key. Qed.
Lemma webhook_unanchored name family payload : source_webhook_verified trust name family payload = false.
Proof.
  unfold source_webhook_verified, source_webhook_ed25519, source_webhook_mac.
  destruct (source_webhook_statement name payload) as [[sg msg]|]; [|done]. rewrite !no_key.
  by repeat case_match.
Qed.

Lemma source_proof_kind_unanchored p keys : source_proof_kind p keys trust = "NOTHING"%string.
Proof.
  unfold source_proof_kind, full_source_proof_kind, legacy_source_proof_kind. destruct (is_object p); [|done].
  cbn [negb]. rewrite webhook_unanchored, verified_unanchored, mac_unanchored, orb_true_r, !andb_false_r.
  by destruct (_ || _).
Qed.

Lemma source_signature_unanchored vi x : source_signature vi trust = Ok x ->
  str_in x ["NOT_RECOMPUTED"; "NONE"] = true.
Proof.
  unfold source_signature. intros E. apply result_bind_Ok in E as (w & _ & E).
  destruct w; [apply Ok_inj in E; by subst x|]. apply result_bind_Ok in E as (keys & _ & E).
  apply Ok_inj in E. subst x. destruct (bounded_source_proofs vi) as [proofs|]; [|done].
  induction proofs as [|p t IH]; cbn [source_proofs_loop]; [done|]. by rewrite source_proof_kind_unanchored.
Qed.

Lemma accountability_unanchored vi x : accountability vi trust = Ok x -> x = "UNKNOWN"%string.
Proof.
  unfold accountability. intros E. apply result_bind_Ok in E as (bs & _ & E). apply Ok_inj in E. subst x.
  assert (forall b, binding_rank trust b = None) as Hb.
  { intros b. unfold binding_rank. destruct (acc_basis _); cbn [mbind option_bind]; [|done]. destruct (forallb (flag b) _); [|done].
    by rewrite verified_unanchored. }
  induction (List.filter is_object bs) as [|b t IH]; cbn [fold_left]; [done|]. by rewrite Hb.
Qed.

Lemma surface_row_unanchored e : surface_unanchored (surface_row e trust) = true.
Proof.
  unfold surface_row. rewrite verified_unanchored. cbn [andb]. unfold surface_unanchored.
  rewrite !get_json_of_list. cbn -[mechanism flag]. unfold tri.
  by destruct (flag e "controller_admits_overlap"), (flag e "coverage_gap").
Qed.

Lemma surfaces_unanchored vi rows oos br : surfaces vi trust = Ok (rows, oos, br) ->
  forallb surface_unanchored rows = true.
Proof.
  unfold surfaces. destruct (obj vi "surfaces") as [sur|]; [|intros E; apply Ok_inj in E; by injection E as <- <- <-].
  intros E. apply result_bind_Ok in E as (es & _ & E). case_step E. apply result_bind_Ok in E as (act & _ & E).
  destruct (activity_loop _ _ _ _). apply Ok_inj in E. injection E as <- <- <-.
  apply forallb_forall. intros row Hrow. apply in_map_iff in Hrow as (e & <- & _). apply surface_row_unanchored.
Qed.

Lemma node_dims_unanchored vi : node_dims vi trust = ("NOT_OBSERVED", "NONE", "LOG_WITNESSED_SOFTWARE")%string.
Proof.
  unfold node_dims, node_observed. cbv zeta. rewrite !verified_unanchored. cbn [andb]. by rewrite !andb_false_r.
Qed.

Lemma coverage_unanchored vi nb : exists c, coverage vi nb false trust = (c, "INSUFFICIENT"%string) /\
  str_in c ["GAPPED"; "UNKNOWN"] = true.
Proof.
  unfold coverage, full_scan. rewrite verified_unanchored, !andb_false_r. cbn [andb String.eqb].
  cbv zeta. case_match; eexists; split; try done.
Qed.

Lemma temporal_unanchored vi : temporal vi trust = "UNPROVEN"%string.
Proof. unfold temporal. destruct (obj vi "temporal"); [|done]. by rewrite !verified_unanchored, !andb_false_r. Qed.

Lemma registration_unanchored vi : str_in (registration_status vi trust) ["PENDING"; "UNREGISTERED"] = true.
Proof. unfold registration_status. rewrite verified_unanchored, andb_false_r. unfold tri. by_branches. Qed.

Lemma derive_inner_unanchored vi v : derive_inner vi trust = Ok v -> unanchored v = true.
Proof.
  intros E. destruct (derive_inner_dims _ _ _ E) as (l & o & rows & oos & br & so & co & ac & sc & hi & te & E').
  destruct (authority_block vi) as [blk derived]. rewrite node_dims_unanchored in E'.
  destruct (coverage_unanchored vi "LOG_WITNESSED_SOFTWARE") as (cov & Hcov & Hc). change (String.eqb "NOT_OBSERVED" "OBSERVED") with false in E'. rewrite Hcov in E'.
  destruct E' as (_ & Hs & Hso & Hco & Hac & _ & _ & Hget & Hte).
  apply source_signature_unanchored in Hso. apply accountability_unanchored in Hac. subst ac.
  pose proof (registration_unanchored vi) as Hreg.
  assert (str_in te ["NOT_RECOMPUTED"; "INELIGIBLE"] = true) as Hel.
  { unfold eligibility in Hte. apply result_bind_Ok in Hte as (w & _ & Hte). case_step Hte; apply Ok_inj in Hte;
      subst te; [done|]. unfold eligibility_checks, says, get_str. cbn [forallb id].
    rewrite (Hget "coverage_basis" (JString "INSUFFICIENT")) by (cbn; tauto). cbn.
    by rewrite !andb_false_r. }
  unfold unanchored. apply andb_true_iff. split.
  - unfold UNANCHORED_VALUES. cbn [forallb].
    repeat (apply andb_true_iff; split; [erewrite Hget by (cbn; tauto); cbn [is_some_and value_in]|]); try done.
    + unfold control_domain in Hco. apply result_bind_Ok in Hco as (ds & _ & Hco). apply Ok_inj in Hco. subst co.
      rewrite verified_unanchored, andb_false_r. unfold tri. by_branches.
    + by rewrite temporal_unanchored.
    + unfold assurance, tri. cbv zeta. cbn [String.eqb Ascii.eqb Bool.eqb]. by_branches.
    + unfold population. destruct (obj vi "population_index"); [|done].
      by rewrite verified_unanchored, andb_false_r.
    + unfold mark. apply str_in_elem in Hreg, Hel. set_unfold. destruct Hel as [->|[->|[]]]; [done|].
      by destruct Hreg as [->|[->|[]]].
  - unfold arr, get_array. erewrite Hget by (cbn; tauto). cbn. by eapply surfaces_unanchored.
Qed.
End Unanchored.

(** C4: evidence alone never earns a favourable verdict: when the relying party's trust
    context resolves no key, whatever the document declares, the vector holds only
    weak values in every externally grounded dimension (no ASYMMETRIC signature, no
    INDEPENDENT controller, no OBSERVED node, no CLOSED coverage, no PROVEN time or
    population, no accountable third party, no REGISTERED scope), it is never
    ELIGIBLE, its mark is one of the unmarked ones, and no surface row claims
    INDEPENDENT or CLOSED. *)
Theorem derive_vector_unanchored (vi : json) (trust : option json)
  (no_key : forall category name, key_for trust category name = None) :
  exists v, derive_vector_with_trust vi trust = Some v /\ unanchored v = true.
Proof.
  rewrite derive_vector_with_trust_eq. eexists. split; [done|].
  destruct (derive_inner vi trust) as [v|] eqn:E; [by eapply derive_inner_unanchored|done].
Qed.

(** ** Material agreement *)

(** The fields the two sides are compared on: the floor, then the names the producer adds. *)
Lemma fold_extend_in l fields f :
  f ∈ fold_left extend_fields l fields <-> f ∈ fields \/ exists x, x ∈ l /\ material_name x = f.
Proof.
  revert fields. induction l as [|x l IH]; intros fields; cbn [fold_left].
  - split; [auto|]. intros [?|(x & Hx & _)]; [done|]. by apply elem_of_nil in Hx.
  - rewrite IH. unfold extend_fields. setoid_rewrite elem_of_cons.
    assert (f ∈ (if str_in (material_name x) fields then fields else fields ++ [material_name x])
      <-> f ∈ fields \/ material_name x = f) as ->.
    { destruct (str_in _ _) eqn:E; [apply str_in_elem in E; split; [auto|by intros [?|<-]]|].
      rewrite elem_of_app, list_elem_of_singleton. split; (intros [?|?]; [by left|by right]). }
    split; [intros [[?|?]|(y & ? & ?)]; eauto|]. intros [?|(y & [->|?] & ?)]; eauto.
Qed.
Lemma material_fields_in vi f : f ∈ material_fields vi <->
  f ∈ MATERIAL_FLOOR \/ exists x, x ∈ arr (g vi "source_manifest") "material_fields" /\ material_name x = f.
Proof. apply fold_extend_in. Qed.

Definition same_text (claim event : json) (f : string) : Prop := field_text claim f = field_text event f.
Definition one_sided (claim event : json) (f : string) : bool :=
  xorb (is_some (field_text claim f)) (is_some (field_text event f)).
Definition agrees (claim event : json) (f : string) : bool :=
  match field_text claim f, field_text event f with Some a, Some b => String.eqb a b | _, _ => false end.

Lemma tally_spec claim event fields c0 m0 u0 : fold_left (tally_step claim event) fields (c0, m0, u0) =
  (c0 + zlen (List.filter (agrees claim event) fields),
   m0 || existsb (texts_differ claim event) fields, u0 || existsb (one_sided claim event) fields).
Proof.
  revert c0 m0 u0. induction fields as [|f t IH]; intros c0 m0 u0; cbn [fold_left].
  { cbn. by rewrite zlen_nil, Z.add_0_r, !orb_false_r. }
  unfold tally_step at 2. cbn [List.filter existsb]. unfold agrees at 1, texts_differ at 1, one_sided at 1.
  destruct (field_text claim f) as [a|], (field_text event f) as [b|]; cbn [is_some xorb].
  - destruct (String.eqb a b); rewrite IH; cbn [negb orb].
    + rewrite zlen_cons. do 2 f_equal. lia.
    + by rewrite orb_true_r.
  - rewrite IH. cbn. by rewrite orb_true_r.
  - rewrite IH. cbn. by rewrite orb_true_r.
  - by rewrite IH.
Qed.

Lemma material_agreement_eq vi cand : material_agreement vi cand =
  (if flag cand "material_mismatch" then "MISMATCH"
   else let claim := g vi "claim" in
     match find_event vi (get_str cand "event_key") with
     | None => "UNCOMPARABLE"
     | Some event =>
         if existsb (texts_differ claim event) (material_fields vi) then "MISMATCH"
         else if existsb (one_sided claim event) (material_fields vi)
              || negb (existsb (agrees claim event) (material_fields vi))
              || undeclared_disagreement claim event (material_fields vi)
         then "UNCOMPARABLE" else "AGREE"
     end)%string.
Proof.
  unfold material_agreement. destruct (flag cand _); [done|]. cbv zeta.
  destruct (find_event vi _) as [event|]; [|done]. unfold declared_tally. rewrite tally_spec. cbn [orb].
  destruct (existsb (texts_differ _ _) _); [done|].
  assert ((0 + zlen (List.filter (agrees (g vi "claim") event) (material_fields vi)) =? 0)
    = negb (existsb (agrees (g vi "claim") event) (material_fields vi))) as ->; [|done].
  induction (material_fields vi) as [|f t IH]; cbn; [done|]. destruct (agrees _ _ f); cbn; [|done].
  rewrite zlen_cons. pose proof (zlen_nonneg (List.filter (agrees (g vi "claim") event) t)). apply Z.eqb_neq. lia.
Qed.

Lemma linkage_outcome_one vi c claim : match_candidates vi = Ok [c] -> obj vi "claim" = Some claim ->
  linkage_outcome vi = Ok (linkage_of [c],
    JString (if String.eqb (material_agreement vi c) "MISMATCH" then "CONTRADICTED"
             else if String.eqb (material_agreement vi c) "AGREE" && flag c "final" then "MATCHED" else "CLAIM_ONLY")).
Proof.
  intros Hc Hclaim. unfold linkage_outcome. rewrite Hc. cbn [mbind result_bind]. rewrite Hclaim. cbn [is_none is_some negb].
  destruct (String.eqb _ "MISMATCH"); [done|]. by destruct (_ && _).
Qed.

(** MATCHED: what the one candidate and the event it names must satisfy. *)
Definition corroborated (vi cand : json) : Prop :=
  exists claim event,
    obj vi "claim" = Some claim /\ find_event vi (get_str cand "event_key") = Some event /\
    flag cand "final" = true /\ flag cand "material_mismatch" = false /\
    (forall f, f ∈ material_fields vi -> same_text claim event f) /\
    (exists f, f ∈ material_fields vi /\ field_text claim f <> None) /\
    undeclared_disagreement claim event (material_fields vi) = false.

Lemma same_text_spec claim event f :
  same_text claim event f <-> texts_differ claim event f = false /\ one_sided claim event f = false.
Proof.
  unfold same_text, texts_differ, one_sided.
  destruct (field_text claim f) as [a|], (field_text event f) as [b|]; cbn; split; try (by intros [? ?]); try done.
  - intros [= ->]. by rewrite String.eqb_refl.
  - intros [E _]. apply negb_false_iff, String.eqb_eq in E. by subst.
Qed.

Lemma matched_spec vi l : linkage_outcome vi = Ok (l, JString "MATCHED") <->
  exists c, match_candidates vi = Ok [c] /\ l = linkage_of [c] /\ corroborated vi c.
Proof.
  split.
  - intros E. pose proof E as E'. unfold linkage_outcome in E. apply result_bind_Ok in E as (cands & Hc & E).
    apply Ok_inj in E. destruct (obj vi "claim") as [claim|] eqn:Hclaim; cbn [is_none is_some negb] in E; [|by case_all E].
    destruct cands as [|c [|]]; [done| |done]. exists c. rewrite (linkage_outcome_one _ _ _ Hc Hclaim) in E'.
    apply Ok_inj in E'. injection E' as <- E'.
    assert (g vi "claim" = claim) as Hg by (apply opt_filter_Some in Hclaim as [Hg _]; unfold g; by rewrite Hg).
    split_and!; [done..|]. exists claim. rewrite material_agreement_eq, Hg in E'. cbv zeta in E'.
    destruct (flag c "material_mismatch"); [done|]. destruct (find_event vi _) as [event|]; [|done].
    exists event. destruct (existsb (texts_differ _ _) _) eqn:E1; [done|].
    destruct (existsb (one_sided _ _) _) eqn:E2; [done|]. destruct (existsb (agrees _ _) _) eqn:E3; [|done].
    destruct (undeclared_disagreement _ _ _); [done|]. cbn in E'. destruct (flag c "final"); [|done].
    split_and!; [done..| | |done].
    + intros f Hf. apply same_text_spec. split; [by eapply existsb_false in E1|by eapply existsb_false in E2].
    + apply existsb_exists in E3 as (f & Hf & Ha). exists f. split; [by apply list_elem_of_In|].
      unfold agrees in Ha. by destruct (field_text claim f).
  - intros (c & Hc & -> & claim & event & Hclaim & He & Hfin & Hmm & Hsame & (f & Hf & Hn) & Hund).
    rewrite (linkage_outcome_one _ _ _ Hc Hclaim), material_agreement_eq, Hmm.
    assert (g vi "claim" = claim) as -> by (apply opt_filter_Some in Hclaim as [Hg _]; unfold g; by rewrite Hg).
    cbv zeta. rewrite He, Hund, Hfin.
    assert (existsb (texts_differ claim event) (material_fields vi) = false) as ->.
    { apply existsb_false. intros f' Hf'. by apply same_text_spec, Hsame. }
    assert (existsb (one_sided claim event) (material_fields vi) = false) as ->.
    { apply existsb_false. intros f' Hf'. by apply same_text_spec, Hsame. }
    assert (existsb (agrees claim event) (material_fields vi) = true) as ->; [|done].
    apply existsb_exists. exists f. split; [by apply list_elem_of_In|]. unfold agrees. rewrite <- (Hsame f Hf).
    destruct (field_text claim f); [|done]. apply String.eqb_refl.
Qed.

(** ** The gates of eligibility, back to the document and the anchors *)

(** CLOSED coverage and a proven time, as evidence the anchors vouch for. *)
Definition covered (vi : json) (trust : option json) : Prop :=
  let pp := g (g vi "batch") "population_proof" in
  let att := g vi "node_attestation" in
  (flag pp "source_scope_defined" = true /\
   verified trust "population_keys" (get_str pp "source_id") "population-proof" pp = true) \/
  (full_scan (g vi "scan") (node_observed vi trust) = true /\ says att "method" "HARDWARE_ATTESTED" = true /\
   verified trust "node_roots" (get_str att "attestor") "node-attestation" att = true).
Definition no_gap (vi : json) : Prop :=
  nonempty (g vi "batch") "gaps" = false /\ flag vi "fork_findings_open" = false /\ has_open_finding vi = false.
Definition time_proven (vi : json) (trust : option json) : Prop :=
  exists t, obj vi "temporal" = Some t /\
    let echo := g t "echo" in let ib := g t "intent_bounds" in let eb := g t "event_bounds" in
    verified trust "source_keys" (get_str echo "source_id") "temporal-echo" echo = true \/
    (verified trust "temporal_keys" (get_str ib "attester") "temporal-bounds" ib = true /\
     verified trust "temporal_keys" (get_str eb "attester") "temporal-bounds" eb = true /\
     before (nts (g ib "upper")) (nts (g eb "lower")) = true).
Definition none_gated_withheld (vi : json) : Prop :=
  forall w, w ∈ iterated (member_if_object (g vi "view") "withheld_fields") -> py_str (Some w) EmptyString ∉ GATED.

Lemma coverage_closed vi trust ob cl nb b : node_dims vi trust = (ob, cl, nb) ->
  coverage vi nb (String.eqb ob "OBSERVED") trust = ("CLOSED"%string, b) -> no_gap vi /\ covered vi trust.
Proof.
  intros En Ec. assert (String.eqb ob "OBSERVED" = node_observed vi trust) as Hob.
  { apply node_dims_value in En as (-> & _). by destruct (node_observed vi trust). }
  rewrite Hob in Ec. unfold coverage in Ec. cbv zeta in Ec.
  destruct (nonempty _ _) eqn:E1; [done|]. destruct (flag vi "fork_findings_open") eqn:E2; [done|].
  cbn [orb] in Ec. destruct (flag _ "performed" && opt_json_eqb _ _); [done|].
  destruct (has_open_finding vi) eqn:E3; [done|]. cbn [orb] in Ec. split; [by split_and!|].
  unfold covered. cbv zeta. destruct (flag _ "source_scope_defined" && verified _ _ _ _ _) eqn:E4;
    [apply andb_true_iff in E4; by left|].
  destruct (full_scan _ _); cbn [andb] in Ec; [|done]. right. split; [done|].
  destruct (String.eqb_spec nb "HARDWARE_ATTESTED") as [->|]; [|done].
  unfold node_dims in En. injection En as _ _ En. case_step En; [by bool_prop|]. by case_step En.
Qed.

Lemma temporal_proven vi trust : temporal vi trust <> "UNPROVEN"%string -> time_proven vi trust.
Proof.
  unfold temporal. intros E. destruct (obj vi "temporal") as [t|] eqn:Et; [|done]. exists t. split; [done|]. cbv zeta in *.
  destruct (existsb _ _ && verified _ _ _ _ _) eqn:E1; [apply andb_true_iff in E1 as [_ E1]; by left|]. right.
  destruct (_ && before _ _) eqn:E2; [|done]. apply andb_true_iff in E2 as [E2 ?]. by apply andb_true_iff in E2 as [? ?].
Qed.

Lemma says_get v k x y : get v k = Some (JString y) -> says v k x = true -> y = x.
Proof. unfold says, get_str. intros ->. cbn. unfold opt_str_eqb. intros E. apply bool_decide_eq_true in E. congruence. Qed.

Lemma eligible_gates vi v : eligibility vi v = Ok "ELIGIBLE"%string ->
  none_gated_withheld vi /\ forallb id (eligibility_checks vi v) = true.
Proof.
  unfold eligibility. rewrite withheld_items_eq. destruct (not_iterable _); [done|]. cbn [mbind result_bind].
  destruct (existsb _ _) eqn:E; [done|]. intros Ht. apply Ok_inj in Ht. split.
  - intros w Hw Hin. eapply existsb_false in E; [|exact Hw]. apply str_in_elem in Hin. congruence.
  - by destruct (forallb _ _).
Qed.

Lemma pick_strong a integ name allowed weak x :
  pick a integ name allowed weak = x -> x <> weak -> get_str a name = Some x /\ integ = "VALID"%string.
Proof.
  unfold pick. destruct (get_str a name) as [y|]; [|done].
  destruct (String.eqb_spec integ "VALID"); cbn [andb]; [|done]. by destruct (str_in y allowed); [intros ->|].
Qed.

(** What an ELIGIBLE vector rests on. *)
Definition eligible_basis (vi : json) (trust : option json) : Prop :=
  let a := g vi "authority" in
  (get_str a "integrity" = Some "VALID" /\ get_str a "identity" = Some "VERIFIED" /\
   get_str a "authority" = Some "VERIFIED" /\ get_str a "intent" = Some "RECORDED")%string /\
  none_gated_withheld vi /\
  (exists c, match_candidates vi = Ok [c] /\ corroborated vi c) /\
  no_gap vi /\ covered vi trust /\ time_proven vi trust /\
  flag (g vi "registration") "scitt_receipt_valid" = true.

Lemma eligible_rests vi trust v : derive_vector_with_trust vi trust = Some v ->
  says v "technical_eligibility" "ELIGIBLE" = true -> eligible_basis vi trust.
Proof.
  intros Hv He.
  rewrite derive_vector_with_trust_eq in Hv. injection Hv as Hv.
  destruct (derive_inner vi trust) as [v'|] eqn:E; [subst v'|by subst v].
  destruct (derive_inner_dims _ _ _ E) as (l & o & rows & oos & br & so & co & ac & sc & hi & te & E').
  unfold authority_block in E'. destruct (node_dims vi trust) as [[ob cl] nb] eqn:En.
  destruct (coverage vi nb _ trust) as [cov basis] eqn:Ec. destruct E' as (Hl & _ & _ & _ & _ & _ & _ & Hget & Hte).
  eapply says_get in He; [|apply Hget; cbn; tauto]. subst te.
  apply eligible_gates in Hte as [Hw Hg]. unfold eligibility_checks, ELIGIBLE_EXACT in Hg. cbn [forallb id fst snd] in Hg.
  rewrite !andb_true_iff in Hg.
  destruct Hg as ((Hid & Hau & Hin & Hint & Hout & Hcov & _) & _ & _ & _ & _ & Ht & Hreg & _).
  eapply says_get in Hid, Hau, Hin, Hint, Hcov; [|apply Hget; cbn; tauto..].
  apply pick_strong in Hid as [Hid Hval]; [|done]. apply pick_strong in Hau as [Hau _]; [|done].
  apply pick_strong in Hin as [Hin _]; [|done].
  assert (o = JString "MATCHED") as ->.
  { unfold says, get_str in Hout. erewrite (Hget "outcome"%string o) in Hout by (cbn; tauto). cbn [mbind option_bind] in Hout.
    unfold opt_str_eqb in Hout. apply bool_decide_eq_true in Hout. destruct o; cbn in Hout; congruence. }
  apply matched_spec in Hl as (c & Hc & _ & Hcor). subst cov.
  apply (coverage_closed _ _ _ _ _ _ En) in Ec as [Hgap Hcovd].
  assert (get_str (g vi "authority") "integrity" = Some "VALID"%string) as Hi.
  { unfold says in Hint. destruct (opt_str_eqb _ _) eqn:Eq; [|done]. by apply bool_decide_eq_true in Eq. }
  cbv zeta. split_and!; try done; [eauto|apply Hgap..|].
  apply temporal_proven. intros Hun. unfold says, get_str in Ht.
  erewrite (Hget "temporal_binding"%string) in Ht by (cbn; tauto). by rewrite Hun in Ht.
Qed.

(** C5: ELIGIBLE is sound.  A vector says ELIGIBLE only when the replayed authority
    facts are VERIFIED under a VALID bundle, no gated input is withheld, exactly one
    candidate event matches and corroborates the claim on every material field, the
    batch has no gap, fork or open finding and its coverage and the order of intent
    and effect are proven under keys the relying party named, and the verifier's
    receipt flag is set. *)
Theorem eligible_sound (vi : json) (trust : option json) (v : json)
  (Hv : derive_vector_with_trust vi trust = Some v) (He : says v "technical_eligibility" "ELIGIBLE" = true) :
  eligible_basis vi trust.
Proof. by eapply eligible_rests. Qed.

(** A material disagreement is terminal and cannot be softened.  When the one
    candidate's event and the claim show different texts for a floor field, or for a
    field the producer's manifest names, then whatever else the document carries
    (extra material fields, one-sided fields, withheld members, anchors) the outcome is
    CONTRADICTED and the vector is not ELIGIBLE. *)
Theorem contradiction_terminal (vi : json) (trust : option json) (c claim event : json) (f a b : string)
  (Hc : match_candidates vi = Ok [c]) (Hclaim : obj vi "claim" = Some claim)
  (Hevent : find_event vi (get_str c "event_key") = Some event)
  (Hf : f ∈ MATERIAL_FLOOR \/ exists x, x ∈ arr (g vi "source_manifest") "material_fields" /\ material_name x = f)
  (Ha : field_text claim f = Some a) (Hb : field_text event f = Some b) (Hab : a <> b) :
  exists v, derive_vector_with_trust vi trust = Some v /\
    says v "technical_eligibility" "ELIGIBLE" = false /\
    (malformed vi = false -> get v "outcome" = Some (JString "CONTRADICTED")).
Proof.
  assert (linkage_outcome vi = Ok (linkage_of [c], JString "CONTRADICTED")) as Hl.
  { rewrite (linkage_outcome_one _ _ _ Hc Hclaim), material_agreement_eq.
    assert (g vi "claim" = claim) as -> by (apply opt_filter_Some in Hclaim as [Hg _]; unfold g; by rewrite Hg).
    destruct (flag c "material_mismatch"); [done|]. cbv zeta. rewrite Hevent.
    assert (existsb (texts_differ claim event) (material_fields vi) = true) as ->; [|done].
    apply existsb_exists. exists f. split; [by apply list_elem_of_In, material_fields_in|].
    unfold texts_differ. rewrite Ha, Hb. by apply negb_true_iff, String.eqb_neq. }
  rewrite derive_vector_with_trust_eq. eexists. split; [done|].
  destruct (derive_inner_cases vi trust) as [[-> ->]|[-> [v E]]]; [done|]. rewrite E.
  destruct (derive_inner_dims _ _ _ E) as (l & o & rows & oos & br & so & co & ac & sc & hi & te & E').
  destruct (authority_block vi) as [blk derived]. destruct (node_dims vi trust) as [[ob cl] nb].
  destruct (coverage vi nb _ trust) as [cov basis]. destruct E' as (Hl' & _ & _ & _ & _ & _ & _ & Hget & Hte).
  rewrite Hl in Hl'. apply Ok_inj in Hl'. injection Hl' as <- <-. split; [|intros _; apply Hget; cbn; tauto].
  destruct (says v _ _) eqn:Hs; [|done]. eapply says_get in Hs; [|apply Hget; cbn; tauto]. subst te.
  apply eligible_gates in Hte as [_ Hg]. unfold eligibility_checks, ELIGIBLE_EXACT in Hg. cbn [forallb id fst snd] in Hg.
  rewrite !andb_true_iff in Hg. destruct Hg as ((_ & _ & _ & _ & Hout & _) & _).
  apply (says_get _ _ _ "CONTRADICTED"%string) in Hout; [done|]. apply Hget; cbn; tauto.
Qed.

(** ** The favourable values, back to a signature *)

Lemma asymmetric_proof proofs keys trust hm : source_proofs_loop proofs keys trust hm = "ASYMMETRIC"%string ->
  exists p, p ∈ proofs /\ source_proof_kind p keys trust = "ASYMMETRIC"%string.
Proof.
  revert hm. induction proofs as [|p t IH]; intros hm; cbn [source_proofs_loop]; [unfold tri; by destruct hm|].
  destruct (String.eqb_spec (source_proof_kind p keys trust) "ASYMMETRIC") as [Ek|_]; [exists p; split; [apply elem_of_cons; by left|done]|].
  intros E. apply IH in E as (q & Hq & Ek). exists q. split; [apply elem_of_cons; by right|done].
Qed.

Lemma asymmetric_kind p keys trust : source_proof_kind p keys trust = "ASYMMETRIC"%string ->
  let kid := get_str p "key_identity" in
  says p "proof_type" "asymmetric_signature" = true /\
  (exists key, bound_source_key keys kid = Some key /\
    (source_webhook_verified trust kid (get_str key "algorithm_family") p = true \/
     verified trust "source_keys" kid "source-proof" p = true)).
Proof.
  unfold source_proof_kind. destruct (is_object p); [|done]. cbn [negb]. cbv zeta.
  destruct (_ || _); unfold full_source_proof_kind, legacy_source_proof_kind.
  - destruct (bound_source_key keys _) as [key|]; cbn [is_none is_some negb orb mbind option_bind]; [|done].
    destruct (source_webhook_verified _ _ _ _) eqn:E; [|done]. cbn [negb]. unfold tri.
    destruct (says p _ _); [|done]. eauto.
  - destruct (says p "proof_type" "asymmetric_signature"); cbn [andb];
      [|destruct (says p "proof_type" "mac" && _); done].
    destruct (bound_source_key keys _) as [key|]; cbn [is_some andb];
      [|destruct (says p "proof_type" "mac" && _); done].
    destruct (verified _ _ _ _ _) eqn:E; [eauto 6|]. destruct (says p "proof_type" "mac" && _); done.
Qed.

Lemma registered_rests vi trust v : derive_vector_with_trust vi trust = Some v ->
  says v "registration_status" "REGISTERED" = true ->
  let sr := g (g vi "registration") "scope_registration" in
  flag (g vi "registration") "scitt_receipt_valid" = true /\
  verified trust "scitt_ts_keys" (get_str sr "transparency_service") "scope-registration" sr = true.
Proof.
  rewrite derive_vector_with_trust_eq. intros [= Hv] Hs.
  destruct (derive_inner vi trust) as [v'|] eqn:E; [subst v'|by subst v].
  apply derive_inner_Ok in E as (_ & te & _ & _ & _ & _ & Hr & _).
  eapply says_get in Hs; [|exact Hr]. unfold registration_status in Hs. cbv zeta in *.
  destruct (_ && verified _ _ _ _ _) eqn:E1; [by rewrite !andb_true_iff in E1; destruct_and!|].
  unfold tri in Hs. by case_step Hs.
Qed.

(** The favourable provenance values are grounded.  ASYMMETRIC needs a proof of the
    document whose key the source identity binds exactly once and that verifies under
    a key the relying party named; INDEPENDENT needs complete evidence naming two
    different controllers, no admission of overlap, and the evaluator's signature;
    REGISTERED needs the verifier's receipt flag and the transparency service's
    signature over the scope registration. *)
Theorem favourable_grounded (vi : json) (trust : option json) (v : json)
  (Hv : derive_vector_with_trust vi trust = Some v) :
  (says v "source_signature" "ASYMMETRIC" = true ->
     exists p key, p ∈ arr vi "source_proofs" /\ says p "proof_type" "asymmetric_signature" = true /\
       bound_source_key (iterated (member_if_object (g vi "source_identity") "keys")) (get_str p "key_identity") = Some key /\
       (source_webhook_verified trust (get_str p "key_identity") (get_str key "algorithm_family") p = true \/
        verified trust "source_keys" (get_str p "key_identity") "source-proof" p = true)) /\
  (says v "control_domain" "INDEPENDENT" = true ->
     let ev := g vi "control_evidence" in
     exists a b, grounded_controllers ev = Some (a, b) /\ json_eqb a b = false /\
       says ev "claimed_control_domain" "OVERLAPPING" = false /\
       verified trust "evaluator_keys" (get_str ev "evaluator") "control-evidence" ev = true) /\
  (says v "registration_status" "REGISTERED" = true ->
     let sr := g (g vi "registration") "scope_registration" in
     flag (g vi "registration") "scitt_receipt_valid" = true /\
     verified trust "scitt_ts_keys" (get_str sr "transparency_service") "scope-registration" sr = true).
Proof.
  pose proof (registered_rests _ _ _ Hv) as Hreg. rewrite derive_vector_with_trust_eq in Hv. injection Hv as Hv.
  destruct (derive_inner vi trust) as [v'|] eqn:E; [subst v'|subst v; by split_and!].
  destruct (derive_inner_dims _ _ _ E) as (l & o & rows & oos & br & so & co & ac & sc & hi & te & E').
  destruct (authority_block vi) as [blk derived]. destruct (node_dims vi trust) as [[ob cl] nb].
  destruct (coverage vi nb _ trust) as [cov basis]. destruct E' as (_ & _ & Hso & Hco & _ & _ & _ & Hget & _).
  split_and!; [intros Hs; (eapply says_get in Hs; [|apply Hget; cbn; tauto]).. |exact Hreg].
  - subst so. unfold source_signature in Hso. apply result_bind_Ok in Hso as (w & _ & Hso). destruct w; [done|].
    apply result_bind_Ok in Hso as (keys & Hk & Hso). apply Ok_inj in Hso.
    assert (keys = iterated (member_if_object (g vi "source_identity") "keys")) as <-.
    { unfold bound_source_keys in Hk. apply result_bind_Ok in Hk as (ks & Hks & Hk). case_step Hk. apply Ok_inj in Hk.
      unfold iterated, member_if_object. rewrite Hks. congruence. }
    destruct (bounded_source_proofs vi) as [proofs|] eqn:Hp; [|done].
    apply asymmetric_proof in Hso as (p & Hin & Hkind). apply asymmetric_kind in Hkind as (Ht & key & Hkey & Hver).
    exists p, key. split_and!; try done. unfold bounded_source_proofs in Hp. unfold arr, get_array.
    destruct (get vi "source_proofs") as [value|]; [|injection Hp as <-; by apply elem_of_nil in Hin].
    apply bind_Some in Hp as (ps & Hps & Hp). case_step Hp. apply then_some_Some in Hp as [_ ->].
    cbn [mbind option_bind]. rewrite Hps. done.
  - clear Hreg. subst co. unfold control_domain in Hco. apply result_bind_Ok in Hco as (ds & _ & Hco). apply Ok_inj in Hco. cbv zeta in *.
    destruct (if is_some_and _ _ then _ else None) as [[a b]|] eqn:Eg; cbn [is_some_and is_some fst snd] in Hco.
    + unfold tri in Hco. destruct (_ || json_eqb a b) eqn:E1; [done|]. apply orb_false_iff in E1 as [E1 E2].
      apply orb_false_iff in E1 as [_ E1]. cbn [andb] in Hco. destruct (verified _ _ _ _ _) eqn:E3; [|done].
      exists a, b. split_and!; try done. by destruct (is_some_and _ _).
    + unfold tri in Hco. cbn [andb] in Hco. by case_step Hco.
Qed.

(** Without a VALID integrity the authority facts are weak and nothing is ELIGIBLE. *)
Definition authority_weak (v : json) : Prop :=
  (get_str v "integrity" = Some "INVALID" /\ get_str v "identity" = Some "NOT_VERIFIED" /\
   get_str v "authority" = Some "NOT_VERIFIED" /\ get_str v "intent" = Some "NOT_RECORDED")%string /\
  says v "technical_eligibility" "ELIGIBLE" = false.
Lemma derive_vector_invalid vi trust v : derive_vector_with_trust vi trust = Some v ->
  says (g vi "authority") "integrity" "VALID" = false -> authority_weak v.
Proof.
  rewrite derive_vector_with_trust_eq. intros [= <-] Hi.
  destruct (derive_inner vi trust) as [v|] eqn:E; [|done].
  destruct (derive_inner_dims _ _ _ E) as (l & o & rows & oos & br & so & co & ac & sc & hi & te & E').
  unfold authority_block in E'. rewrite Hi in E'. destruct (node_dims vi trust) as [[ob cl] nb].
  destruct (coverage vi nb _ trust) as [cov basis]. destruct E' as (_ & _ & _ & _ & _ & _ & _ & Hget & Hte).
  assert (forall name allowed weak, pick (g vi "authority") "INVALID" name allowed weak = weak) as Hpick.
  { intros. unfold pick. by destruct (get_str _ _). }
  cbn [tri] in Hget. rewrite !Hpick in Hget. unfold authority_weak, get_str.
  split; [by split_and!; erewrite Hget by (cbn; tauto)|].
  destruct (says v _ _) eqn:Hs; [|done]. eapply says_get in Hs; [|apply Hget; cbn; tauto]. subst te.
  apply eligible_gates in Hte as [_ Hg]. unfold eligibility_checks, ELIGIBLE_EXACT in Hg. cbn [forallb id fst snd] in Hg.
  rewrite !andb_true_iff in Hg. destruct Hg as ((Hid & _) & _).
  apply (says_get _ _ _ "NOT_VERIFIED"%string) in Hid; [done|]. apply Hget; cbn; tauto.
Qed.
End Vector.
