(* ===== verification/Authority.v ===== *)
(** * Authority: the authority replay of a bundle (action.rs, [authority_facts])

    The facts block of a verdict input, derived from the receipts of a verified bundle:
    the replay of the organisation's roots, the independent times of the checkpoints
    and the intent interval they leave, the evaluated intent, the agent's lineage, its
    principal binding (identity) and its grant (authority).  Definitions in the order
    of the source; then that intervals are never inverted, that the mandate walk ends,
    the invariant of the root timeline, and what VERIFIED identity and authority mean. *)
From S2P Require Import Prelude Hash Text Json Jcs Utc Dsse KeyLog Merkle Checkpoint Trust Entries Bundle PyValue.

Definition INTENT_CTX : list string :=
  ["action_id"; "action_class"; "grant_id"; "grant_version"; "binding_id"; "policy_version"].
Definition EST_TYPES : list string := ["lineage.born"; "lineage.adopted"].

(** [struct Rec]; the set of signer kids as the list it is built from. *)
Record Rec := {
  r_leaf : Z;
  r_agent : string;
  r_action : string;
  r_ctx : json;
  r_commitments : json;
  r_rh : string;
  r_signer_kids : list string;
}.

(** [type RootEntry]: (leaf, kid, pub, legal_entity). *)
Definition RootEntry : Type := Z * string * bytes * json.
Definition root_leaf (t : RootEntry) : Z := t.1.1.1.
Definition root_kid (t : RootEntry) : string := t.1.1.2.
Definition root_pub (t : RootEntry) : bytes := t.1.2.
Definition root_legal (t : RootEntry) : json := t.2.

(** [<=] on strings, and [a <= b] of two optional times as the [matches!] guards read it. *)
Definition str_leb (a b : string) : bool := bytes_leb (str_bytes a) (str_bytes b).
Definition opt_leb (a b : option string) : bool :=
  match a, b with Some a, Some b => str_leb a b | _, _ => false end.

Section Authority.
Context {H : Hash} {SD : Serde} {B : Base64} {ED : Ed25519} {T : Tsa} {D : Display}.

(** [fn entry_rows]. *)
Definition entry_row (e : json) : option Rec :=
  let env := g e "envelope" in
  body ← body_of env; rh ← receipt_hash_hex env;
  Some {| r_leaf := unwrap_or (get_i64 e "leaf_index") (-1);
          r_agent := unwrap_or (get_str body "agent_id") EmptyString;
          r_action := unwrap_or (get_str body "action_type") EmptyString;
          r_ctx := unwrap_or (obj body "context") (JObject []);
          r_commitments := unwrap_or (obj body "commitments") (JObject []);
          r_rh := rh;
          r_signer_kids := omap (fun sig => get_str sig "keyid") (arr env "signatures") |}.
Definition entry_rows (bundle : json) : list Rec :=
  sort_by (fun a b => r_leaf a <=? r_leaf b) (omap entry_row (arr bundle "entries")).

(** [fn dom]. *)
Definition dom (action_type : string) : bytes := str_bytes "evd/v1/authority/" ++ str_bytes action_type ++ [0].

(** [fn dsig_ok]. *)
Definition dsig_ok (pub : bytes) (domain : bytes) (doc : json) (sig : option json) : bool :=
  let_some sig_b64 := (x ← sig; as_str x) else false;
  let_some m := as_object doc else false;
  let stripped := JObject (List.filter (fun kv => negb (ends_with "_sig" kv.1)) m) in
  let_some canon := canonical_integer_checked stripped else false;
  let_some raw := b64_decode sig_b64 else false;
  ed25519_verify pub (domain ++ canon) raw.

(** ** Roots *)

(** [fn witnessed_keys]: (kids, materials). *)
Definition key_row (r : Rec) : bool := String.eqb (r_agent r) "_system" && starts_with "evd.key." (r_action r).
Definition witnessed_keys (rows : list Rec) : list string * list bytes :=
  let jwks := map (fun r => g (r_ctx r) "jwk") (List.filter key_row rows) in
  (omap (fun jwk => get_str jwk "kid") jwks, omap (fun jwk => fst <$> key_from_jwk jwk) jwks).

(** [fn valid_enrolment]. *)
Definition valid_enrolment (ctx : json) (kids : list string) (mats : list bytes) : option (string * bytes * json) :=
  '(pub, derived_kid) ← key_from_jwk (g ctx "root_jwk");
  kid ← get_str ctx "root_kid";
  reject_if negb (String.eqb kid derived_kid) || str_in kid kids || bool_decide (pub ∈ mats) with None;
  reject_if negb (dsig_ok pub (dom "authority.root.enrolled") ctx (get ctx "self_sig")) with None;
  Some (kid, pub, g ctx "legal_entity").

(** [fn replay_roots]: (org_id, timeline, conflict); one turn of its loop. *)
Definition roots_state : Type := option string * list RootEntry * bool.
Definition enrolment_row (r : Rec) : bool :=
  String.eqb (r_agent r) "_authority" && String.eqb (r_action r) "authority.root.enrolled".
Definition root_linked (r : Rec) (last : RootEntry) : bool :=
  opt_str_eqb (get_str (r_ctx r) "prev_root_kid") (Some (root_kid last))
  && dsig_ok (root_pub last) (dom "authority.root.enrolled") (r_ctx r) (get (r_ctx r) "prev_root_sig").
Definition replay_root (kids : list string) (mats : list bytes) (st : roots_state) (r : Rec) : roots_state :=
  let '(org_id, timeline, conflict) := st in
  reject_if negb (enrolment_row r) with st;
  let_some (kid, pub, legal) := valid_enrolment (r_ctx r) kids mats else st;
  let entry := (r_leaf r, kid, pub, legal) in
  match last timeline with
  | None => (Some (r_rh r), timeline ++ [entry], conflict)
  | Some last => if root_linked r last then (org_id, timeline ++ [entry], conflict) else (org_id, timeline, true)
  end.
Definition replay_roots (rows : list Rec) : roots_state :=
  let '(kids, mats) := witnessed_keys rows in fold_left (replay_root kids mats) rows (None, [], false).

(** [fn root_at], [fn root_valid_auth]. *)
Definition root_at (timeline : list RootEntry) (leaf : Z) : option RootEntry :=
  List.find (fun t => root_leaf t <=? leaf) (rev timeline).
Definition root_signed (timeline : list RootEntry) (action_type : string) (r : Rec) : bool :=
  is_some_and (root_at timeline (r_leaf r))
    (fun root => dsig_ok (root_pub root) (dom action_type) (r_ctx r) (get (r_ctx r) "root_sig")).
Definition root_valid_auth (rows : list Rec) (timeline : list RootEntry) (action_type : string) : list Rec :=
  List.filter (fun r => String.eqb (r_agent r) "_authority" && String.eqb (r_action r) action_type
                        && root_signed timeline action_type r) rows.

(** ** Times *)

(** [fn independent_ts_map]: checkpoint hash to (normalized, raw). *)
Definition time_map : Type := gmap string (string * string).
Definition ts_step (field : string) (times : time_map) (rec : json) : time_map :=
  reject_if negb (is_object rec) with times;
  let_some h := get_str rec "checkpoint_body_hash" else times;
  let_some norm := nts (g rec field) else times;
  let raw := unwrap_or (get_str rec field) EmptyString in
  if is_none_or (times !! h) (fun cur => str_ltb norm cur.1) then <[h := (norm, raw)]> times else times.
Definition independent_ts_map (bundle : json) : time_map :=
  fold_left (fun times lf => fold_left (ts_step lf.2) (arr bundle lf.1) times)
    [("anchor_records", "block_ts"); ("tst_records", "gen_time")]%string ∅.

(** [fn clamped_times]: (tree_size, normalized, raw). *)
Definition timed : Type := Z * (string * string).
Definition timed_row (times : time_map) (e : json) : option timed :=
  cp ← get e "checkpoint";
  t ← (h ← checkpoint_body_hash cp; times !! h);
  size ← (b ← get cp "body"; get_i64 b "tree_size");
  Some (size, t).
Definition clamp_step (row : timed) (acc : list timed * option (string * string)) : list timed * option (string * string) :=
  let '(rows, earliest) := acc in
  let t := match earliest with Some e => if str_ltb e.1 (row.2).1 then e else row.2 | None => row.2 end in
  ((row.1, t) :: rows, Some t).
Definition clamped_times (bundle : json) : list timed :=
  let times := independent_ts_map bundle in
  let rows := sort_by (fun a b => a.1 <=? b.1) (omap (timed_row times) (arr bundle "checkpoint_chain")) in
  (foldr clamp_step ([], None) rows).1.

(** [fn interval_for]. *)
Definition interval_step (leaf : Z) (acc : json * json) (row : timed) : json * json :=
  let '(lower, upper) := acc in
  if row.1 <=? leaf then (JString (row.2).2, upper)
  else if is_null upper then (lower, JString (row.2).2) else acc.
Definition interval_for (bundle : json) (leaf : Z) : json :=
  let '(lower, upper) := fold_left (interval_step leaf) (clamped_times bundle) (JNull, JNull) in
  json_of_list [("lower", lower); ("upper", upper)]%string.

(** ** The intent *)

(** [fn pick_intent]. *)
Definition pick_intent (rows : list Rec) (action_id : option string) : option (Rec * bool) :=
  let intents := List.filter (fun r => String.eqb (r_action r) "action.intent") rows in
  let intents := match action_id with
    | Some aid => List.filter (fun r => opt_str_eqb (get_str (r_ctx r) "action_id") (Some aid)) intents
    | None => intents
    end in
  chosen ← head intents;
  let aid := g (r_ctx chosen) "action_id" in
  Some (chosen, 1 <? distinct (map r_rh (List.filter (fun r => json_eqb (g (r_ctx r) "action_id") aid) intents))).

(** [fn signed_action_context], [fn has_signed_action_intent], [fn signed_action_intents]. *)
Definition context_entry (action_id : string) (contexts : list (string * json)) (row : Rec) : list (string * json) :=
  if String.eqb (r_action row) "action.intent" && opt_str_eqb (get_str (r_ctx row) "action_id") (Some action_id)
     && negb (contains_key contexts (r_rh row))
  then obj_insert contexts (r_rh row) (r_ctx row) else contexts.
Definition signed_action_context (bundle : json) (action_id : string) : option json :=
  match fold_left (context_entry action_id) (entry_rows bundle) [] with [(_, context)] => Some context | _ => None end.
Definition has_signed_action_intent (bundle : json) : bool :=
  existsb (fun row => String.eqb (r_action row) "action.intent") (entry_rows bundle).
Definition row_classes (action_id : string) (row : Rec) : list string :=
  if opt_str_eqb (get_str (r_ctx row) "action_id") (Some action_id) then
    (if starts_with "action." (r_action row) then [] else [r_action row])
    ++ option_list (opt_filter (get_str (r_ctx row) "action_class") (fun c => negb (is_empty c)))
    ++ (if String.eqb (r_action row) "authority.grant.issued"
        then map (fun c => match as_str c with Some t => t | None => value_display c end) (arr (r_ctx row) "action_classes")
        else [])
  else [].
Definition signed_action_intents (bundle : json) (action_id : string) : gset string * gset string :=
  let rows := entry_rows bundle in
  (list_to_set (omap (fun row => opt_filter (get_str (r_ctx row) "action_id") (fun a => negb (is_empty a))) rows),
   list_to_set (flat_map (row_classes action_id) rows)).

(** [fn intent_result]. *)
Definition min_leaf (l : list Z) : option Z :=
  match l with [] => None | x :: t => Some (fold_left Z.min t x) end.
Definition intent_result (rows : list Rec) (chosen : Rec) (dup : bool) : string :=
  reject_if dup with "CONFLICT"%string;
  reject_if existsb (fun k => is_none_or (get (r_ctx chosen) k) is_null) INTENT_CTX with "NOT_RECORDED"%string;
  reject_if is_none (get (r_commitments chosen) "inputs") || is_none (get (r_commitments chosen) "context_doc")
  with "NOT_RECORDED"%string;
  let aid := g (r_ctx chosen) "action_id" in
  let min_sub := min_leaf (map r_leaf (List.filter (fun r =>
    String.eqb (r_action r) "action.submitted" && json_eqb (g (r_ctx r) "action_id") aid) rows)) in
  tri (is_some_and min_sub (fun m => m <=? r_leaf chosen)) "NOT_RECORDED" false EmptyString "RECORDED".

(** ** Lineage and passport *)

(** [struct Lineage] and [fn agent_lineage]. *)
Record Lineage := { l_birthtag_id : string; l_revision_id : string; l_est_ctx : json }.
Definition agent_lineage (rows : list Rec) (agent_id : string) : option Lineage :=
  let mine := List.filter (fun r => String.eqb (r_agent r) agent_id) rows in
  match List.filter (fun r => str_in (r_action r) EST_TYPES) mine with
  | [est] =>
      let revision := match last (List.filter (fun r => String.eqb (r_action r) "lineage.revised") mine) with
        | Some r => r_rh r | None => r_rh est end in
      Some {| l_birthtag_id := r_rh est; l_revision_id := revision; l_est_ctx := r_ctx est |}
  | _ => None
  end.

(** [fn transfer_sig_ok]. *)
Definition transfer_sig_ok (passport_bundle transfer : json) : bool :=
  let pkl := replay_key_log (arr passport_bundle "entries") in
  reject_if negb (ok pkl) with false;
  let eff := g transfer "effective_ts" in
  let size := unwrap_or (cp ← get passport_bundle "target_checkpoint"; body ← get cp "body"; get_u64 body "tree_size") 0 in
  existsb (fun kp => key_active pkl kp.1 (unwrap_or (as_str eff) EmptyString) size
    && dsig_ok kp.2 (str_bytes "evd/v1/passport/transfer" ++ [0]) transfer (get transfer "transfer_sig"))
    (map_to_list (keys pkl)).

(** [fn passport_bundle_ok] and [fn passport_birthtag]. *)
Definition passport_bundle_ok (passport : json) (imported : string) (timeline : list RootEntry) : bool :=
  let_some pb := obj passport "bundle" else false;
  reject_if negb (verify_bundle_report pb None).1.1 with false;
  let est_ok := existsb (fun r => str_in (r_action r) EST_TYPES && String.eqb (r_rh r) imported) (entry_rows pb) in
  let transfer := g passport "transfer" in
  reject_if negb est_ok || negb (opt_str_eqb (get_str transfer "birthtag_id") (Some imported)) with false;
  is_some_and (last timeline) (fun t => opt_str_eqb (get_str transfer "successor_root_kid") (Some (root_kid t)))
  && transfer_sig_ok pb transfer.
Definition passport_birthtag (bundle est_ctx : json) (timeline : list RootEntry) : option string :=
  imported ← opt_filter (get_str est_ctx "imported_birthtag_id") (fun x => negb (is_empty x));
  passport ← obj bundle "passport";
  canon ← canonical_integer_checked passport;
  let digest := hex (sha256 canon) in
  reject_if negb (opt_str_eqb (get_str est_ctx "passport_digest") (Some digest)) with None;
  reject_if negb (opt_str_eqb (get_str passport "birthtag_id") (Some imported)) with None;
  then_some (passport_bundle_ok passport imported timeline) imported.

(** ** Identity *)

(** [fn windows_conflict] and [fn binding_conflict]. *)
Definition windows_conflict (a b : json) : bool :=
  reject_if negb (json_eqb (g a "runtime_kid") (g b "runtime_kid")) with false;
  opt_leb (nts (g a "valid_from")) (nts (g b "valid_to")) && opt_leb (nts (g b "valid_from")) (nts (g a "valid_to")).
Definition lists_concurrent (x : Rec) (other : string) : bool :=
  existsb (fun v => opt_str_eqb (as_str v) (Some other)) (arr (r_ctx x) "concurrent_with").
Fixpoint binding_conflict (bindings : list Rec) : bool :=
  match bindings with
  | [] => false
  | a :: t =>
      existsb (fun b => windows_conflict (r_ctx a) (r_ctx b)
                        && negb (lists_concurrent a (r_rh b) && lists_concurrent b (r_rh a))) t
      || binding_conflict t
  end.

(** [fn match_binding]. *)
Definition binding_hit (lineage : Lineage) (intent : Rec) (ctx : json) : bool :=
  opt_str_eqb (get_str ctx "birthtag_id") (Some (l_birthtag_id lineage))
  && opt_str_eqb (get_str ctx "revision_id") (Some (l_revision_id lineage))
  && is_some_and (get_str ctx "runtime_kid") (fun k => str_in k (r_signer_kids intent)).
Definition window_covers (doc : json) (lo up : string) : bool :=
  opt_leb (nts (g doc "valid_from")) (Some lo) && opt_leb (Some up) (nts (g doc "valid_to")).
Definition match_binding (bindings : list Rec) (lineage : Lineage) (intent : Rec) (interval : json) : option Rec :=
  lo ← nts (idx interval "lower"); up ← nts (idx interval "upper");
  List.find (fun b => binding_hit lineage intent (r_ctx b) && window_covers (r_ctx b) lo up) bindings.

(** [fn derive_identity]: (result, binding_id, birthtag_id). *)
Definition derive_identity (rows : list Rec) (bundle : json) (intent : Rec) (lineage : option Lineage)
    (timeline : list RootEntry) (root_conflict : bool) (interval : json) : string * option string * option string :=
  let bindings := root_valid_auth rows timeline "authority.principal.bound" in
  reject_if root_conflict || binding_conflict bindings with ("CONFLICT"%string, None, None);
  let_some lineage := lineage else ("NOT_VERIFIED"%string, None, None);
  let birthtag := if is_some (get (l_est_ctx lineage) "imported_birthtag_id")
    then passport_birthtag bundle (l_est_ctx lineage) timeline else Some (l_birthtag_id lineage) in
  let_some birthtag := birthtag else ("NOT_VERIFIED"%string, None, None);
  match match_binding bindings lineage intent interval with
  | Some b => ("VERIFIED"%string, Some (r_rh b), Some birthtag)
  | None => ("NOT_VERIFIED"%string, None, Some birthtag)
  end.

(** ** Authority *)

(** [f.trunc() as i64]: the cast saturates. *)
Definition f64_trunc (f : spec_float) : Z :=
  match f with
  | S754_finite s m e => (if s then -1 else 1) * (if 0 <=? e then Zpos m * 2 ^ e else Z.div (Zpos m) (2 ^ (- e)))
  | S754_infinity s => if s then I64_MIN else I64_MAX
  | _ => 0
  end.
Definition saturate_i64 (n : Z) : Z := Z.max I64_MIN (Z.min I64_MAX n).

(** [fn as_int]. *)
Definition as_int (v : json) : option Z :=
  match v with
  | JNumber n => match num_as_i64 n with
    | Some i => Some i
    | None => f ← num_as_f64 n; Some (saturate_i64 (f64_trunc f))
    end
  | JString x => parse_i64 (str_bytes (trim x))
  | JBool b => Some (Z.b2z b)
  | _ => None
  end.

(** [fn grant_versions]: a [BTreeMap] keyed by (version, prev, hash), as its sorted rows. *)
Definition grant_row : Type := Z * Z * string * json.
Definition gv_version (p : grant_row) : Z := p.1.1.1.
Definition gv_prev (p : grant_row) : Z := p.1.1.2.
Definition gv_hash (p : grant_row) : string := p.1.2.
Definition gv_ctx (p : grant_row) : json := p.2.
Definition gv_same (a b : grant_row) : bool :=
  (gv_version a =? gv_version b) && (gv_prev a =? gv_prev b) && String.eqb (gv_hash a) (gv_hash b).
Definition gv_before (a b : grant_row) : bool :=
  (gv_version a <? gv_version b)
  || ((gv_version a =? gv_version b)
      && ((gv_prev a <? gv_prev b) || ((gv_prev a =? gv_prev b) && str_ltb (gv_hash a) (gv_hash b)))).
Fixpoint gv_insert (x : grant_row) (rows : list grant_row) : list grant_row :=
  match rows with
  | [] => [x]
  | y :: t => if gv_same x y then x :: t else if gv_before x y then x :: rows else y :: gv_insert x t
  end.
Fixpoint grant_versions_loop (revs : list Rec) (rows : list grant_row) : option (list grant_row) :=
  match revs with
  | [] => Some rows
  | r :: t =>
      v ← (x ← get (r_ctx r) "grant_version"; as_int x);
      pv ← (x ← get (r_ctx r) "prev_grant_version"; as_int x);
      grant_versions_loop t (gv_insert (v, pv, r_rh r, r_ctx r) rows)
  end.
Definition grant_versions (revs : list Rec) : option (list grant_row) := grant_versions_loop revs [].

(** [fn mandate_id]: the loop has fuel, [None] is a loop out of fuel. *)
Definition by_hash (issued_all : list Rec) (h : string) : option Rec :=
  List.find (fun r => String.eqb (r_rh r) h) (rev issued_all).
Fixpoint mandate_loop (fuel : nat) (issued_all : list Rec) (cur : Rec) (seen : list string) : option (option string) :=
  match fuel with
  | O => None
  | S fuel =>
      let_some nxt := opt_filter (get (r_ctx cur) "transfers_grant_id") (fun v => negb (is_null v)) else Some (Some (r_rh cur));
      let_some key := as_str nxt else Some None;
      reject_if str_in key seen with Some None;
      let_some next := by_hash issued_all key else Some None;
      mandate_loop fuel issued_all next (key :: seen)
  end.
Definition mandate_id (issued : Rec) (issued_all : list Rec) : option string :=
  unwrap_or (mandate_loop (S (length issued_all)) issued_all issued []) None.

(** [fn doc_ok], [fn docs_cover]. *)
Definition limits_kind (doc : json) : option string := limits ← get doc "limits"; get_str limits "kind".
Definition doc_ok (doc action_class : json) (lo up : string) : bool :=
  window_covers doc lo up && existsb (fun c => json_eqb c action_class) (arr doc "action_classes")
  && is_some_and (limits_kind doc) (fun k => str_in k ["FLOW"; "STOCK"; "ONE_SHOT"]).
Fixpoint docs_loop (pairs : list grant_row) (lo up : string) (first : json) (rest : list json) : option (list json) :=
  match pairs with
  | [] => Some (first :: rest)
  | p :: t =>
      eff ← nts (g (gv_ctx p) "effective_ts");
      if str_leb eff lo then docs_loop t lo up (gv_ctx p) rest
      else if str_leb eff up then docs_loop t lo up first (rest ++ [gv_ctx p])
      else docs_loop t lo up first rest
  end.
Definition docs_cover (issued : Rec) (pairs : list grant_row) (action_class : json) (lo up : string) : bool :=
  is_some_and (docs_loop pairs lo up (r_ctx issued) []) (forallb (fun d => doc_ok d action_class lo up)).

(** [fn versions_dense], [fn revoked_in_interval]. *)
Definition versions_dense (pairs : list grant_row) : bool :=
  forallb (fun ip => (gv_version ip.2 =? ip.1 + 2) && (gv_prev ip.2 =? gv_version ip.2 - 1)) (enumerate pairs).
Definition revoked_in_interval (rows : list Rec) (timeline : list RootEntry) (gid : json) (up : string) : bool :=
  existsb (fun r => json_eqb (g (r_ctx r) "grant_id") gid
    && is_none_or (nts (g (r_ctx r) "effective_ts")) (fun eff => str_leb eff up))
    (root_valid_auth rows timeline "authority.grant.revoked").

(** [fn grant_chain_verified]. *)
Definition grant_chain_verified (rows : list Rec) (timeline : list RootEntry) (issued : Rec) (pairs : list grant_row)
    (intent : Rec) (interval : json) : bool :=
  let_some lo := nts (idx interval "lower") else false;
  let_some up := nts (idx interval "upper") else false;
  reject_if negb (versions_dense pairs) with false;
  reject_if revoked_in_interval rows timeline (JString (r_rh issued)) up with false;
  docs_cover issued pairs (g (r_ctx intent) "action_class") lo up.

(** [fn binding_substituted]. *)
Definition binding_substituted (issued : Rec) (revised : list Rec) (binding_id : option string) : bool :=
  let_some binding_id := binding_id else false;
  existsb (fun ctx => is_some_and (get_str ctx "binding_id")
    (fun named => negb (is_empty named) && negb (String.eqb named binding_id))) (r_ctx issued :: map r_ctx revised).

(** [fn derive_authority]: (result, ids). *)
Definition distinct_versions (p : list grant_row) : Z :=
  Z.of_nat (size (list_to_set (map gv_version p) : gset Z)).
Definition derive_authority (rows : list Rec) (timeline : list RootEntry) (intent : Rec) (interval : json)
    (birthtags : list string) (binding_id : option string) : string * list (string * json) :=
  let gid := g (r_ctx intent) "grant_id" in
  let issued_all := root_valid_auth rows timeline "authority.grant.issued" in
  let revised := List.filter (fun r => json_eqb (g (r_ctx r) "grant_id") gid)
    (root_valid_auth rows timeline "authority.grant.revised") in
  let pairs := grant_versions revised in
  reject_if is_some_and pairs (fun p => distinct_versions p <? zlen p) with ("CONFLICT"%string, []);
  let issued := List.find (fun r => json_eqb (JString (r_rh r)) gid) issued_all in
  let subject_ok := is_some_and issued (fun r => is_some_and (as_str (g (r_ctx r) "subject_birthtag_id")) (fun b => str_in b birthtags)) in
  let_some issued := opt_filter issued (fun _ => subject_ok) else ("NOT_VERIFIED"%string, []);
  let ids := [("grant_id"%string, gid)] in
  reject_if binding_substituted issued revised binding_id with ("NOT_VERIFIED"%string, ids);
  let ids := ids ++ match mandate_id issued issued_all with Some m => [("mandate_id"%string, JString m)] | None => [] end in
  let_some pairs := pairs else ("NOT_VERIFIED"%string, ids);
  let verified := grant_chain_verified rows timeline issued pairs intent interval in
  (tri verified "VERIFIED" false EmptyString "NOT_VERIFIED", ids).

(** ** The facts block *)

(** [fn weak_facts]. *)
Definition weak_facts (integrity : string) : json :=
  json_of_list [("identity", JString "NOT_VERIFIED"); ("authority", JString "NOT_VERIFIED");
    ("intent", JString "NOT_RECORDED"); ("integrity", JString integrity);
    ("intent_interval", json_of_list [("lower", JNull); ("upper", JNull)])]%string.

(** [fn facts]. *)
Definition optional_id (k : string) (o : option string) : list (string * json) :=
  match o with Some x => [(k, JString x)] | None => [] end.
Definition intent_facts (bundle : json) (rows : list Rec) (timeline : list RootEntry) (root_conflict : bool)
    (chosen : Rec) (dup : bool) (out : json) : json * list (string * json) :=
  let interval := interval_for bundle (r_leaf chosen) in
  let out := set_member out "intent_interval" interval in
  let out := set_member out "intent" (JString (intent_result rows chosen dup)) in
  let lineage := agent_lineage rows (r_agent chosen) in
  let '(identity, binding_id, birthtag) := derive_identity rows bundle chosen lineage timeline root_conflict interval in
  let out := set_member out "identity" (JString identity) in
  let birthtags := option_list birthtag ++ option_list (l_birthtag_id <$> lineage) in
  let '(authority, gids) := derive_authority rows timeline chosen interval birthtags binding_id in
  (set_member out "authority" (JString authority),
   (if dup then [] else [("intent_id"%string, JString (r_rh chosen))])
   ++ optional_id "binding_id" binding_id ++ optional_id "birthtag_id" birthtag ++ gids).
Definition facts (bundle : json) (action_id : option string) : json :=
  let rows := entry_rows bundle in
  let '(org_id, timeline, root_conflict) := replay_roots rows in
  let out := weak_facts "VALID" in
  let out := match opt_filter (last timeline) (fun t => negb (is_null (root_legal t))) with
    | Some last => set_member out "operator_entity" (root_legal last)
    | None => out
    end in
  let '(out, sids) := match pick_intent rows action_id with
    | Some (chosen, dup) => intent_facts bundle rows timeline root_conflict chosen dup out
    | None => (out, [])
    end in
  let sids := optional_id "org_id" org_id ++ sids in
  if zlen sids =? 0 then out else set_member out "subject_ids" (json_of_list sids).

(** [fn authority_facts]. *)
Definition authority_facts (bundle : json) (action_id : option string) : json :=
  reject_if negb (verify_bundle_report bundle None).1.1 with weak_facts "INVALID";
  facts bundle action_id.
End Authority.

(** ** Interval bounds *)

Lemma opt_leb_Some a b : opt_leb a b = true <-> exists x y, a = Some x /\ b = Some y /\ str_leb x y = true.
Proof. destruct a, b; cbn; split; [eauto|intros (? & ? & [= ->] & [= ->] & ?); done|..]; try done; by intros (? & ? & ? & ? & ?). Qed.
Lemma str_leb_refl a : str_leb a a = true.
Proof. unfold str_leb. apply bytes_leb_compare. by right. Qed.
Lemma str_leb_trans a b c : str_leb a b = true -> str_leb b c = true -> str_leb a c = true.
Proof.
  unfold str_leb. rewrite !bytes_leb_compare. intros [?|E] [?|E']; [left; by eapply bytes_compare_trans|left; congruence|left; congruence|right; congruence].
Qed.
Lemma str_leb_not_lt a b : str_ltb b a = false <-> str_leb a b = true.
Proof.
  unfold str_ltb, str_leb, bytes_ltb, bytes_leb. rewrite (bytes_compare_antisym (str_bytes a)).
  by destruct (bytes_compare (str_bytes a) (str_bytes b)).
Qed.
Lemma str_ltb_leb a b : str_ltb a b = true -> str_leb a b = true.
Proof. unfold str_ltb, str_leb, bytes_ltb, bytes_leb. by destruct (bytes_compare _ _). Qed.

Lemma strongly_sorted_pair {A} (R : A -> A -> Prop) l a b :
  StronglySorted R l -> a ∈ l -> b ∈ l -> a = b \/ R a b \/ R b a.
Proof.
  induction 1 as [|x l Hs IH Hx]; intros Ha Hb; [by apply elem_of_nil in Ha|]. rewrite Forall_forall in Hx.
  apply elem_of_cons in Ha as [->|Ha]; apply elem_of_cons in Hb as [->|Hb]; auto.
Qed.

Section Times.
Context {H : Hash} {SD : Serde} {B : Base64} {ED : Ed25519} {T : Tsa} {D : Display}.

(** Every recorded time is the normal form of the raw timestamp beside it. *)
Definition time_ok (t : string * string) : Prop := nts (JString t.2) = Some t.1.

Lemma ts_step_ok field times rec : map_Forall (fun _ t => time_ok t) times ->
  map_Forall (fun _ t => time_ok t) (ts_step field times rec).
Proof.
  intros Hok. unfold ts_step. destruct (is_object rec); cbn [negb]; [|done].
  destruct (get_str rec _) as [h|]; [|done]. destruct (nts (g rec field)) as [norm|] eqn:En; [|done].
  destruct (is_none_or _ _); [|done]. apply map_Forall_insert_2; [|done]. unfold time_ok. cbn [fst snd].
  unfold g, get_str in *. destruct (get rec field) as [[| | |x| |]|]; try done.
Qed.

Lemma independent_ts_map_ok bundle : map_Forall (fun _ t => time_ok t) (independent_ts_map bundle).
Proof.
  unfold independent_ts_map. generalize [("anchor_records", "block_ts"); ("tst_records", "gen_time")]%string.
  assert (forall f l m, map_Forall (fun _ t => time_ok t) m ->
    map_Forall (fun _ t => time_ok t) (fold_left (ts_step f) l m)) as Hin.
  { intros f l. induction l as [|x l IH]; intros m Hm; cbn [fold_left]; [done|]. by apply IH, ts_step_ok. }
  intros lists. assert (map_Forall (fun _ t => time_ok t) (∅ : time_map)) as H0 by apply map_Forall_empty.
  revert H0. generalize (∅ : time_map). induction lists as [|lf l IH]; intros m Hm; cbn [fold_left]; [done|].
  by apply IH, Hin.
Qed.

(** Size and time grow together. *)
Definition timed_le (a b : timed) : Prop := a.1 <= b.1 /\ str_leb (a.2).1 (b.2).1 = true.

Lemma clamp_spec rows : Sorted (fun a b : timed => (a.1 <=? b.1) = true) rows -> Forall (fun r : timed => time_ok r.2) rows ->
  let '(out, earliest) := foldr clamp_step ([], None) rows in
  map fst out = map fst rows /\ earliest = snd <$> head out /\
  Forall (fun r : timed => time_ok r.2) out /\ StronglySorted timed_le out.
Proof.
  induction rows as [|r t IH]; intros Hs Hok; cbn [foldr]; [repeat split; constructor|].
  apply Sorted_inv in Hs as [Hs Hhd]. apply Forall_cons in Hok as [Hr Hok]. specialize (IH Hs Hok).
  destruct (foldr clamp_step ([], None) t) as [out earliest]. destruct IH as (Hfst & -> & Hout & Hsort).
  unfold clamp_step. set (ts := match snd <$> head out with Some e => _ | None => _ end).
  assert (time_ok ts) as Hts.
  { unfold ts. destruct out as [|o out]; cbn; [done|]. apply Forall_cons in Hout as [Ho _]. by destruct (str_ltb _ _). }
  split_and!; [cbn; by rewrite Hfst|done|by constructor|]. constructor; [done|].
  destruct out as [|o out]; [constructor|]. destruct t as [|r' t]; [done|]. injection Hfst as Ho _.
  apply HdRel_inv, Z.leb_le in Hhd.
  assert (timed_le (r.1, ts) o) as Hro.
  { split; cbn [fst snd]; [lia|]. unfold ts. cbn. destruct (str_ltb (o.2).1 (r.2).1) eqn:E; [apply str_leb_refl|].
    by apply str_leb_not_lt. }
  constructor; [done|]. apply StronglySorted_inv in Hsort as [_ Hall]. eapply Forall_impl; [exact Hall|].
  intros x [? ?]. destruct Hro. split; [lia|by eapply str_leb_trans].
Qed.

Lemma clamped_times_spec bundle :
  Forall (fun r : timed => time_ok r.2) (clamped_times bundle) /\ StronglySorted timed_le (clamped_times bundle).
Proof.
  unfold clamped_times. cbv zeta. set (rows := sort_by _ _).
  assert (Sorted (fun a b : timed => (a.1 <=? b.1) = true) rows) as Hs.
  { apply sort_by_sorted. intros a b. destruct (Z.leb_spec a.1 b.1); [by left|right; apply Z.leb_le; lia]. }
  assert (Forall (fun r : timed => time_ok r.2) rows) as Hok.
  { unfold rows. rewrite sort_by_perm. apply Forall_forall. intros r Hr. apply list_elem_of_omap in Hr as (e & _ & Hr).
    unfold timed_row in Hr. apply bind_Some in Hr as (cp & _ & Hr). apply bind_Some in Hr as (t & Ht & Hr).
    apply bind_Some in Hr as (size & _ & Hr). injection Hr as <-. apply bind_Some in Ht as (h & _ & Ht).
    by apply (independent_ts_map_ok bundle) in Ht. }
  pose proof (clamp_spec rows Hs Hok) as Hc. destruct (foldr clamp_step ([], None) rows). tauto.
Qed.

(** The interval's members: null, or the raw time of a checkpoint on that side of the leaf. *)
Definition bound_from (rows : list timed) (side : Z -> Prop) (x : json) : Prop :=
  x = JNull \/ exists r, r ∈ rows /\ side r.1 /\ x = JString (r.2).2.

Lemma bound_from_cons rows r side x : bound_from rows side x -> bound_from (r :: rows) side x.
Proof. intros [->|(q & Hq & Hs & ->)]; [by left|]. right. exists q. split_and!; [apply elem_of_cons; by right|done..]. Qed.

Lemma interval_fold leaf rows seen acc :
  bound_from seen (fun n => n <= leaf) acc.1 -> bound_from seen (fun n => leaf < n) acc.2 ->
  let out := fold_left (interval_step leaf) rows acc in
  bound_from (rev rows ++ seen) (fun n => n <= leaf) out.1 /\ bound_from (rev rows ++ seen) (fun n => leaf < n) out.2.
Proof.
  revert seen acc. induction rows as [|r t IH]; intros seen [lo up] Hlo Hup; cbn [fold_left rev app]; [done|].
  rewrite <- app_assoc. cbn [app]. apply (IH (r :: seen)); cbn [fst snd] in *; unfold interval_step.
  - destruct (Z.leb_spec r.1 leaf); cbn [fst].
    + right. exists r. split_and!; [apply elem_of_cons; by left|done..].
    + destruct (is_null up); by apply bound_from_cons.
  - destruct (Z.leb_spec r.1 leaf); cbn [snd]; [by apply bound_from_cons|].
    destruct (is_null up); cbn [snd]; [|by apply bound_from_cons].
    right. exists r. split_and!; [apply elem_of_cons; by left|lia|done].
Qed.

Lemma interval_for_bounds bundle leaf :
  bound_from (clamped_times bundle) (fun n => n <= leaf) (idx (interval_for bundle leaf) "lower") /\
  bound_from (clamped_times bundle) (fun n => leaf < n) (idx (interval_for bundle leaf) "upper").
Proof.
  pose proof (interval_fold leaf (clamped_times bundle) [] (JNull, JNull) (or_introl eq_refl) (or_introl eq_refl)) as Hf.
  unfold interval_for. destruct (fold_left _ _ _) as [lo up]. cbn [fst snd] in Hf. rewrite app_nil_r in Hf.
  unfold idx. rewrite !get_json_of_list. cbn.
  assert (forall side x, bound_from (rev (clamped_times bundle)) side x -> bound_from (clamped_times bundle) side x) as Hrev.
  { intros side x [->|(r & Hr & ?)]; [by left|]. right. exists r. split; [|done]. apply list_elem_of_In, in_rev, list_elem_of_In, Hr. }
  destruct Hf. auto.
Qed.

(** C19: an intent interval is never inverted, and is what the log position allows.  Its
    lower bound is null or the time proven for a checkpoint that does not contain the
    intent's leaf, its upper bound null or the time of one that does, and when both
    are present they are canonical times with lower at most upper, however the times
    of the bundle's records were chosen. *)
Theorem interval_never_inverted (bundle : json) (leaf : Z) :
  let interval := interval_for bundle leaf in
  bound_from (clamped_times bundle) (fun n => n <= leaf) (idx interval "lower") /\
  bound_from (clamped_times bundle) (fun n => leaf < n) (idx interval "upper") /\
  forall l u, idx interval "lower" = JString l -> idx interval "upper" = JString u ->
    exists nl nu, nts (JString l) = Some nl /\ nts (JString u) = Some nu /\ str_leb nl nu = true.
Proof.
  cbv zeta. destruct (interval_for_bounds bundle leaf) as [Hlo Hup]. split_and!; [done..|]. intros l u El Eu.
  destruct Hlo as [Hlo|(a & Ha & Hal & Hlo)]; [congruence|]. destruct Hup as [Hup|(b & Hb & Hbl & Hup)]; [congruence|].
  rewrite El in Hlo. rewrite Eu in Hup. injection Hlo as ->. injection Hup as ->.
  destruct (clamped_times_spec bundle) as [Hok Hsort]. rewrite Forall_forall in Hok.
  exists (a.2).1, (b.2).1. split_and!; [by apply Hok..|].
  destruct (strongly_sorted_pair timed_le _ a b Hsort Ha Hb) as [->|[[? ?]|[? ?]]]; [lia|done|lia].
Qed.
End Times.

(** ** The mandate walk *)

(** A chain of transfers from a grant to its head, with its length. *)
Definition transfer_of (r : Rec) : option json :=
  opt_filter (get (r_ctx r) "transfers_grant_id") (fun v => negb (is_null v)).
Inductive mandate_path (issued_all : list Rec) : nat -> Rec -> Rec -> Prop :=
  | path_head r : transfer_of r = None -> mandate_path issued_all 0 r r
  | path_step n r key next h :
      transfer_of r = Some (JString key) -> by_hash issued_all key = Some next ->
      mandate_path issued_all n next h -> mandate_path issued_all (S n) r h.

Lemma mandate_path_det issued_all n r h n' h' :
  mandate_path issued_all n r h -> mandate_path issued_all n' r h' -> n = n' /\ h = h'.
Proof.
  intros Hp. revert n' h'. induction Hp as [r E|n r key next h E Eb _ IH]; intros n' h' Hp'; inversion Hp'; subst; try congruence; auto.
  assert (next0 = next) as -> by congruence. by apply IH in H1 as [-> ->].
Qed.

Lemma by_hash_in issued_all key r : by_hash issued_all key = Some r -> key ∈ map r_rh issued_all.
Proof.
  unfold by_hash. intros E. apply find_some in E as [Hr E]. apply String.eqb_eq in E. subst key.
  apply list_elem_of_In, in_map. by apply in_rev.
Qed.

(** Every turn of the loop sees a new hash of the bundle: the fuel is enough. *)
Lemma mandate_loop_fuel issued_all fuel : forall cur seen,
  NoDup seen -> (forall k, k ∈ seen -> k ∈ map r_rh issued_all) -> (length issued_all < fuel + length seen)%nat ->
  exists x, mandate_loop fuel issued_all cur seen = Some x.
Proof.
  induction fuel as [|fuel IH]; intros cur seen Hnd Hin Hlen; cbn [mandate_loop].
  - assert (length seen <= length (map r_rh issued_all))%nat as Hle; [|rewrite length_map in Hle; lia].
    apply NoDup_incl_length; [by apply NoDup_ListNoDup|]. intros k Hk. by apply list_elem_of_In, Hin, list_elem_of_In.
  - destruct (opt_filter _ _) as [nxt|]; [|by eexists]. destruct (as_str nxt) as [key|]; [|by eexists].
    destruct (str_in key seen) eqn:Es; [by eexists|]. destruct (by_hash issued_all key) as [next|] eqn:Eb; [|by eexists].
    apply IH; [|intros k; rewrite elem_of_cons; intros [->|?]; [by eapply by_hash_in|by apply Hin]|cbn [length]; lia].
    constructor; [|done]. intros Hk. apply str_in_elem in Hk. congruence.
Qed.

Lemma mandate_loop_more issued_all k fuel : forall cur seen x,
  mandate_loop fuel issued_all cur seen = Some x -> mandate_loop (fuel + k) issued_all cur seen = Some x.
Proof.
  induction fuel as [|fuel IH]; intros cur seen x; cbn [mandate_loop Nat.add]; [done|].
  destruct (opt_filter _ _) as [nxt|]; [|done]. destruct (as_str nxt) as [key|]; [|done].
  destruct (str_in key seen); [done|]. destruct (by_hash issued_all key); [apply IH|done].
Qed.

Lemma mandate_loop_sound issued_all fuel : forall cur seen m,
  mandate_loop fuel issued_all cur seen = Some (Some m) -> exists n h, mandate_path issued_all n cur h /\ r_rh h = m.
Proof.
  induction fuel as [|fuel IH]; intros cur seen m; cbn [mandate_loop]; [done|].
  destruct (opt_filter _ _) as [nxt|] eqn:En; [|intros [= <-]; exists 0%nat, cur; split; [by constructor|done]].
  destruct (as_str nxt) as [key|] eqn:Ek; [|done]. destruct (str_in key seen); [done|].
  destruct (by_hash issued_all key) as [next|] eqn:Eb; [|done]. intros E. apply IH in E as (n & h & Hp & Hm).
  exists (S n), h. split; [|done]. destruct nxt; try done. injection Ek as ->. by econstructor.
Qed.

Lemma mandate_loop_complete issued_all fuel : forall n cur h seen x,
  mandate_path issued_all n cur h ->
  (forall k r n' h', k ∈ seen -> by_hash issued_all k = Some r -> mandate_path issued_all n' r h' -> (n <= n')%nat) ->
  mandate_loop fuel issued_all cur seen = Some x -> x = Some (r_rh h).
Proof.
  induction fuel as [|fuel IH]; intros n cur h seen x Hp Hseen; cbn [mandate_loop]; [done|].
  fold (transfer_of cur). inversion Hp as [r E|n' r key next h' E Eb Hp' ]; subst; rewrite E; [by intros [= <-]|].
  cbn [as_str]. destruct (str_in key seen) eqn:Es.
  { apply str_in_elem in Es. specialize (Hseen _ _ _ _ Es Eb Hp'). lia. }
  rewrite Eb. apply (IH n'); [done|]. intros k r n2 h2 Hk Hr Hp2. apply elem_of_cons in Hk as [->|Hk].
  - assert (r = next) as -> by congruence. by destruct (mandate_path_det _ _ _ _ _ _ Hp' Hp2) as [-> _].
  - specialize (Hseen _ _ _ _ Hk Hr Hp2). lia.
Qed.

(** C28: following a mandate's transfers always ends: a loop turn per issued grant and one
    more is enough fuel whatever the grants say of each other (cycles, references out of
    the bundle), more fuel never changes the answer, and the answer is a mandate id
    exactly when a chain of transfers reaches a head, whose hash it is. *)
Theorem mandate_id_terminates (issued : Rec) (issued_all : list Rec) :
  (forall k, mandate_loop (S (length issued_all) + k) issued_all issued [] = Some (mandate_id issued issued_all)) /\
  (forall m, mandate_id issued issued_all = Some m <-> exists n h, mandate_path issued_all n issued h /\ r_rh h = m).
Proof.
  destruct (mandate_loop_fuel issued_all (S (length issued_all)) issued []) as [x Hx];
    [constructor|intros k Hk; by apply elem_of_nil in Hk|cbn [length]; lia|].
  assert (mandate_id issued issued_all = x) as -> by (unfold mandate_id; by rewrite Hx).
  split; [intros k; by apply mandate_loop_more|]. intros m. split.
  - intros ->. by eapply mandate_loop_sound.
  - intros (n & h & Hp & <-). eapply mandate_loop_complete; [exact Hp| |exact Hx]. intros k r n' h' Hk. by apply elem_of_nil in Hk.
Qed.

(** ** The root timeline *)
Section Roots.
Context {H : Hash} {SD : Serde} {B : Base64} {ED : Ed25519} {T : Tsa} {D : Display}.

(** A receipt that enrols a root: the entry it adds, with the key bound to its kid, not a
    key the log witnessed, and proven possessed. *)
Record enrolled (kids : list string) (mats : list bytes) (r : Rec) (t : RootEntry) : Prop := {
  en_row : enrolment_row r = true;
  en_leaf : root_leaf t = r_leaf r;
  en_key : key_from_jwk (g (r_ctx r) "root_jwk") = Some (root_pub t, root_kid t);
  en_separate : ~ (root_kid t ∈ kids) /\ ~ (root_pub t ∈ mats);
  en_possession : dsig_ok (root_pub t) (dom "authority.root.enrolled") (r_ctx r) (get (r_ctx r) "self_sig") = true;
  en_legal : root_legal t = g (r_ctx r) "legal_entity";
}.

Lemma valid_enrolment_enrolled kids mats r kid pub legal : enrolment_row r = true ->
  valid_enrolment (r_ctx r) kids mats = Some (kid, pub, legal) -> enrolled kids mats r (r_leaf r, kid, pub, legal).
Proof.
  intros Hr. unfold valid_enrolment. intros E. apply bind_Some in E as ([p dk] & Hk & E).
  apply bind_Some in E as (k & _ & E). destruct (_ || bool_decide _) eqn:E1; [done|]. destruct (dsig_ok p _ _ _) eqn:E2; [|done].
  injection E as <- <- <-. apply orb_false_iff in E1 as [E1 E3]. apply orb_false_iff in E1 as [E1 E4].
  apply negb_false_iff, String.eqb_eq in E1. subst dk. apply bool_decide_eq_false in E3.
  split; try done. split; [|done]. intros Hin. apply str_in_elem in Hin. cbn in Hin. congruence.
Qed.

(** The chain of enrolments: each later one names and is signed by the root before it. *)
Definition root_chain (kids : list string) (mats : list bytes) (rs : list Rec) (timeline : list RootEntry) : Prop :=
  Forall2 (enrolled kids mats) rs timeline /\
  forall i a r, timeline !! i = Some a -> rs !! S i = Some r -> root_linked r a = true.

Lemma root_chain_snoc kids mats rs timeline r t : root_chain kids mats rs timeline -> enrolled kids mats r t ->
  (forall l, last timeline = Some l -> root_linked r l = true) -> root_chain kids mats (rs ++ [r]) (timeline ++ [t]).
Proof.
  intros [Hf Hl] Ht Hlast. split; [by apply Forall2_app; [|constructor; [|constructor]]|].
  pose proof (Forall2_length _ _ _ Hf) as Hlen. intros i a r' Ha Hr'.
  destruct (Nat.lt_ge_cases (S i) (length rs)) as [Hi|Hi].
  - rewrite lookup_app_l in Hr' by done. rewrite lookup_app_l in Ha by lia. by eapply Hl.
  - apply lookup_lt_Some in Hr' as Hi'. rewrite length_app in Hi'. cbn in Hi'.
    rewrite lookup_app_r in Hr' by done. replace (S i - length rs)%nat with 0%nat in Hr' by lia. injection Hr' as <-.
    apply Hlast. rewrite last_lookup. rewrite lookup_app_l in Ha by lia. rewrite <- Ha. f_equal. lia.
Qed.

(** What a turn of the replay maintains. *)
Definition roots_inv (kids : list string) (mats : list bytes) (rows : list Rec) (st : roots_state) : Prop :=
  let '(org_id, timeline, conflict) := st in
  exists rs, sublist rs rows /\ root_chain kids mats rs timeline /\ org_id = r_rh <$> head rs /\
    (conflict = false -> forall r, r ∈ rows -> enrolment_row r = true ->
       is_some (valid_enrolment (r_ctx r) kids mats) = true -> r ∈ rs).

Lemma replay_root_inv kids mats rows st r : roots_inv kids mats rows st ->
  roots_inv kids mats (rows ++ [r]) (replay_root kids mats st r).
Proof.
  destruct st as [[org timeline] conflict]. intros (rs & Hsub & Hchain & Horg & Hall).
  assert (forall P : Prop, (conflict = false -> enrolment_row r = true ->
      is_some (valid_enrolment (r_ctx r) kids mats) = true -> False) -> roots_inv kids mats (rows ++ [r]) (org, timeline, conflict)) as Hskip.
  { intros _ Hno. exists rs. split_and!; try done; [by apply sublist_inserts_r|].
    intros Hc r' Hr' He Hv. apply elem_of_app in Hr' as [Hr'|Hr']; [by apply Hall|].
    apply list_elem_of_singleton in Hr'. subst r'. by destruct (Hno Hc He Hv). }
  unfold replay_root. destruct (enrolment_row r) eqn:He; cbn [negb]; [|apply (Hskip True); congruence].
  destruct (valid_enrolment _ _ _) as [[[kid pub] legal]|] eqn:Ev; [|by apply (Hskip True)].
  apply valid_enrolment_enrolled in Ev as Hen; [|done].
  assert (sublist (rs ++ [r]) (rows ++ [r])) as Hsub' by by apply sublist_app.
  assert (conflict = false -> forall r', r' ∈ rows ++ [r] -> enrolment_row r' = true ->
    is_some (valid_enrolment (r_ctx r') kids mats) = true -> r' ∈ rs ++ [r]) as Hall'.
  { intros Hc r' Hr' He' Hv'. apply elem_of_app in Hr' as [Hr'|Hr']; apply elem_of_app; auto. }
  destruct (last timeline) as [l|] eqn:El.
  - destruct (root_linked r l) eqn:Elink.
    + exists (rs ++ [r]). split_and!; try done; [apply root_chain_snoc; [done..|]; intros l' Hl'; congruence|].
      rewrite Horg. destruct rs; [|done]. destruct Hchain as [Hf _]. inversion Hf; subst; done.
    + exists rs. split_and!; try done. by apply sublist_inserts_r.
  - apply last_None in El. subst timeline. destruct Hchain as [Hf _]. inversion Hf; subst. exists [r]. split_and!; try done.
    apply (root_chain_snoc _ _ [] [] r); [by split|done|done].
Qed.

Lemma replay_roots_inv rows : let '(kids, mats) := witnessed_keys rows in roots_inv kids mats rows (replay_roots rows).
Proof.
  unfold replay_roots. destruct (witnessed_keys rows) as [kids mats].
  assert (forall done_ st, roots_inv kids mats done_ st ->
    roots_inv kids mats (done_ ++ rows) (fold_left (replay_root kids mats) rows st)) as Hfold.
  { induction rows as [|r t IH]; intros done_ st Hst; cbn [fold_left]; [by rewrite app_nil_r|].
    replace (done_ ++ r :: t) with ((done_ ++ [r]) ++ t) by by rewrite <- app_assoc.
    by apply IH, replay_root_inv. }
  apply (Hfold []). exists []. by split_and!.
Qed.

Lemma entry_rows_sorted bundle : StronglySorted (fun a b => r_leaf a <= r_leaf b) (entry_rows bundle).
Proof.
  apply sort_by_key_sorted.
Qed.

Lemma sublist_sorted {A} (R : A -> A -> Prop) l k : sublist l k -> StronglySorted R k -> StronglySorted R l.
Proof.
  induction 1 as [|x l k Hs IH|x l k Hs IH]; intros Hk; [done|..]; apply StronglySorted_inv in Hk as [Hk Hx]; [|auto].
  constructor; [auto|]. rewrite Forall_forall in Hx |- *. intros y Hy. apply Hx. by eapply elem_of_submseteq, sublist_submseteq.
Qed.

(** C18: the root timeline a bundle's receipts replay to.  Every root in it was enrolled by
    a receipt of the authority agent, in leaf order, under a key bound to its kid that
    the log itself never witnessed and whose possession the receipt proves; every root
    after the first is named and signed by the one before it; the organisation is the
    first enrolment; and without a conflict no valid enrolment is left out. *)
Theorem root_timeline_chain (bundle : json) :
  let rows := entry_rows bundle in
  let '(kids, mats) := witnessed_keys rows in
  let '(org_id, timeline, conflict) := replay_roots rows in
  exists rs, sublist rs rows /\ StronglySorted (fun a b => r_leaf a <= r_leaf b) rs /\
    Forall2 (enrolled kids mats) rs timeline /\
    (forall i a r, timeline !! i = Some a -> rs !! S i = Some r -> root_linked r a = true) /\
    org_id = r_rh <$> head rs /\
    (conflict = false -> forall r, r ∈ rows -> enrolment_row r = true ->
       is_some (valid_enrolment (r_ctx r) kids mats) = true -> r ∈ rs).
Proof.
  cbv zeta. pose proof (replay_roots_inv (entry_rows bundle)) as Hinv.
  destruct (witnessed_keys _) as [kids mats]. destruct (replay_roots _) as [[org timeline] conflict].
  destruct Hinv as (rs & Hsub & [Hf Hl] & Horg & Hall). exists rs. split_and!; try done.
  eapply sublist_sorted; [exact Hsub|]. apply entry_rows_sorted.
Qed.
End Roots.

(** ** What the facts say *)
Section Facts.
Context {H : Hash} {SD : Serde} {B : Base64} {ED : Ed25519} {T : Tsa} {D : Display}.

(** An authority receipt whose [root_sig] verifies under the root in force at its leaf. *)
Record authorised (timeline : list RootEntry) (action_type : string) (r : Rec) : Prop := {
  au_agent : r_agent r = "_authority"%string;
  au_action : r_action r = action_type;
  au_signed : exists root, root ∈ timeline /\ root_leaf root <= r_leaf r /\
    dsig_ok (root_pub root) (dom action_type) (r_ctx r) (get (r_ctx r) "root_sig") = true;
}.
Lemma root_valid_auth_in rows timeline action_type r : r ∈ root_valid_auth rows timeline action_type ->
  r ∈ rows /\ authorised timeline action_type r.
Proof.
  unfold root_valid_auth. intros Hr. apply list_elem_of_In, filter_In in Hr as [Hr Hc].
  apply andb_true_iff in Hc as [Hc Hs]. apply andb_true_iff in Hc as [Ha Ht].
  split; [by apply list_elem_of_In|]. apply String.eqb_eq in Ha, Ht. split; [done..|].
  unfold root_signed in Hs. apply is_some_and_true in Hs as (root & Hroot & Hs). exists root.
  apply find_some in Hroot as [Hin Hle]. apply in_rev in Hin. split_and!; [by apply list_elem_of_In|by apply Z.leb_le|done].
Qed.

(** The document in force at an instant: the last revision, in version order, effective by then. *)
Definition effective_doc (issued : json) (pairs : list grant_row) (t : string) : json :=
  fold_left (fun doc p => if opt_leb (nts (g (gv_ctx p) "effective_ts")) (Some t) then gv_ctx p else doc) pairs issued.

Lemma docs_loop_effective pairs lo up t : forall first rest docs cur,
  str_leb lo t = true -> str_leb t up = true ->
  docs_loop pairs lo up first rest = Some docs -> cur = first \/ cur ∈ rest ->
  effective_doc cur pairs t ∈ docs.
Proof.
  induction pairs as [|p l IH]; intros first rest docs cur Hlo Hup; cbn [docs_loop effective_doc fold_left].
  - intros [= <-] Hc. apply elem_of_cons. naive_solver.
  - destruct (nts (g (gv_ctx p) "effective_ts")) as [eff|]; [|done]. cbn [mbind option_bind opt_leb].
    fold (effective_doc (if str_leb eff t then gv_ctx p else cur) l t).
    destruct (str_leb eff lo) eqn:E1; [|destruct (str_leb eff up) eqn:E2].
    + rewrite (str_leb_trans _ _ _ E1 Hlo). intros Hd Hc. eapply IH; [done..|exact Hd|by left].
    + intros Hd Hc. eapply IH; [done..|exact Hd|]. rewrite elem_of_app, list_elem_of_singleton.
      destruct (str_leb eff t); naive_solver.
    + intros Hd Hc. eapply IH; [done..|exact Hd|].
      destruct (str_leb eff t) eqn:E3; [|done]. rewrite (str_leb_trans _ _ _ E3 Hup) in E2. done.
Qed.

Lemma docs_cover_instants issued pairs cls lo up t : docs_cover issued pairs cls lo up = true ->
  str_leb lo t = true -> str_leb t up = true -> doc_ok (effective_doc (r_ctx issued) pairs t) cls lo up = true.
Proof.
  unfold docs_cover. intros Hd Hlo Hup. apply is_some_and_true in Hd as (docs & Hdocs & Hall).
  rewrite forallb_forall in Hall. apply Hall, list_elem_of_In.
  eapply docs_loop_effective; [done..|exact Hdocs|by left].
Qed.

(** The members of a facts block that [intent_facts] sets. *)
Lemma weak_facts_object x : is_object (weak_facts x) = true.
Proof. done. Qed.

Lemma facts_members bundle action_id k : k <> "subject_ids"%string -> k <> "operator_entity"%string ->
  get (facts bundle action_id) k =
    (let rows := entry_rows bundle in
     let '(_, timeline, root_conflict) := replay_roots rows in
     match pick_intent rows action_id with
     | Some (chosen, dup) => get (intent_facts bundle rows timeline root_conflict chosen dup (weak_facts "VALID")).1 k
     | None => get (weak_facts "VALID") k
     end).
Proof.
  intros Hk Ho. unfold facts. cbv zeta. destruct (replay_roots _) as [[org timeline] conflict].
  set (out := match opt_filter _ _ with Some _ => _ | None => _ end).
  assert (is_object out = true) as Hobj by (unfold out; by case_match).
  assert (forall k', k' <> "operator_entity"%string -> get out k' = get (weak_facts "VALID") k') as Hout.
  { intros k' Hk'. unfold out. case_match; [|done]. rewrite get_set_member by done.
    by destruct (String.eqb_spec k' "operator_entity"). }
  clearbody out. destruct (pick_intent _ action_id) as [[chosen dup]|].
  - unfold intent_facts. cbv zeta. destruct (derive_identity _ _ _ _ _ _ _) as [[identity binding] birthtag].
    destruct (derive_authority _ _ _ _ _ _) as [authority gids]. cbn [fst].
    destruct (zlen _ =? 0); [|rewrite get_set_member by (by repeat apply set_member_object);
      destruct (String.eqb_spec k "subject_ids"); [done|]];
    rewrite !get_set_member by (by repeat apply set_member_object); by rewrite Hout.
  - destruct (zlen _ =? 0); [|rewrite get_set_member by done; destruct (String.eqb_spec k "subject_ids"); [done|]];
    by apply Hout.
Qed.

(** The three results, given the intent evaluated. *)
Definition evaluated (bundle : json) (action_id : option string) (chosen : Rec) (dup : bool)
    (timeline : list RootEntry) (root_conflict : bool) : Prop :=
  exists org, replay_roots (entry_rows bundle) = (org, timeline, root_conflict) /\
    pick_intent (entry_rows bundle) action_id = Some (chosen, dup).
Definition identity_of (bundle : json) (chosen : Rec) (timeline : list RootEntry) (root_conflict : bool) :=
  let rows := entry_rows bundle in
  derive_identity rows bundle chosen (agent_lineage rows (r_agent chosen)) timeline root_conflict
    (interval_for bundle (r_leaf chosen)).
Definition authority_of (bundle : json) (chosen : Rec) (timeline : list RootEntry) (root_conflict : bool) :=
  let rows := entry_rows bundle in
  let '(_, binding_id, birthtag) := identity_of bundle chosen timeline root_conflict in
  derive_authority rows timeline chosen (interval_for bundle (r_leaf chosen))
    (option_list birthtag ++ option_list (l_birthtag_id <$> agent_lineage rows (r_agent chosen))) binding_id.

Lemma authority_facts_cases bundle action_id :
  let f := authority_facts bundle action_id in
  (f_ok (verify_bundle_facts bundle None) = false /\ f = weak_facts "INVALID") \/
  (f_ok (verify_bundle_facts bundle None) = true /\ get f "integrity" = Some (JString "VALID") /\
   ((pick_intent (entry_rows bundle) action_id = None /\ get f "identity" = Some (JString "NOT_VERIFIED") /\
     get f "authority" = Some (JString "NOT_VERIFIED") /\ get f "intent" = Some (JString "NOT_RECORDED")) \/
    (exists chosen dup timeline conflict, evaluated bundle action_id chosen dup timeline conflict /\
     get f "identity" = Some (JString (identity_of bundle chosen timeline conflict).1.1) /\
     get f "authority" = Some (JString (authority_of bundle chosen timeline conflict).1) /\
     get f "intent" = Some (JString (intent_result (entry_rows bundle) chosen dup)) /\
     get f "intent_interval" = Some (interval_for bundle (r_leaf chosen))))).
Proof.
  cbv zeta. unfold authority_facts. cbn [verify_bundle_report fst].
  destruct (f_ok (verify_bundle_facts bundle None)) eqn:Eok; cbn [negb]; [right|by left]. split; [done|].
  rewrite !facts_members by done. cbv zeta. unfold evaluated.
  destruct (replay_roots _) as [[org timeline] conflict]. destruct (pick_intent _ action_id) as [[chosen dup]|].
  - unfold authority_of, identity_of, intent_facts. cbv zeta.
    destruct (derive_identity _ _ _ _ _ _ _) as [[identity binding] birthtag] eqn:Ei.
    destruct (derive_authority _ _ _ _ _ _) as [authority gids] eqn:Ea. cbn [fst].
    split; [by rewrite !get_set_member by (by repeat apply set_member_object)|]. right.
    exists chosen, dup, timeline, conflict. rewrite Ei, Ea.
    split_and!; [eauto|by rewrite !get_set_member by (by repeat apply set_member_object)..].
  - split; [done|]. left. split_and!; done.
Qed.

(** ** The value domain *)

Definition facts_typed (f : json) : Prop :=
  exists identity authority intent integrity,
    get_str f "identity" = Some identity /\ str_in identity ["VERIFIED"; "NOT_VERIFIED"; "CONFLICT"] = true /\
    get_str f "authority" = Some authority /\ str_in authority ["VERIFIED"; "NOT_VERIFIED"; "CONFLICT"] = true /\
    get_str f "intent" = Some intent /\ str_in intent ["RECORDED"; "NOT_RECORDED"; "CONFLICT"] = true /\
    get_str f "integrity" = Some integrity /\ str_in integrity ["VALID"; "INVALID"] = true.

Lemma derive_identity_value rows bundle intent lineage timeline conflict interval :
  str_in (derive_identity rows bundle intent lineage timeline conflict interval).1.1 ["VERIFIED"; "NOT_VERIFIED"; "CONFLICT"] = true.
Proof. unfold derive_identity. cbv zeta. by repeat case_match. Qed.
Lemma derive_authority_value rows timeline intent interval birthtags binding_id :
  str_in (derive_authority rows timeline intent interval birthtags binding_id).1 ["VERIFIED"; "NOT_VERIFIED"; "CONFLICT"] = true.
Proof.
  unfold derive_authority. cbv zeta. destruct (is_some_and (grant_versions _) _); [done|].
  destruct (opt_filter _ _); [|done]. destruct (binding_substituted _ _ _); [done|]. destruct (grant_versions _); [|done].
  cbn [fst]. unfold tri. by case_match.
Qed.
Lemma intent_result_value rows chosen dup :
  str_in (intent_result rows chosen dup) ["RECORDED"; "NOT_RECORDED"; "CONFLICT"] = true.
Proof. unfold intent_result, tri. cbv zeta. by repeat case_match. Qed.

(** The authority facts are total and well typed, and their integrity is the bundle's
    verdict: for any JSON value and any action identity the block carries an identity,
    an authority, an intent and an integrity of their value domains; integrity is VALID
    exactly when the bundle verifies, and when it does not the block is exactly the
    fully weak one. *)
Theorem authority_facts_typed (bundle : json) (action_id : option string) :
  let f := authority_facts bundle action_id in
  facts_typed f /\
  (get_str f "integrity" = Some "VALID"%string <-> (verify_bundle_report bundle None).1.1 = true) /\
  ((verify_bundle_report bundle None).1.1 = false -> f = weak_facts "INVALID").
Proof.
  cbv zeta. change (verify_bundle_report bundle None).1.1 with (f_ok (verify_bundle_facts bundle None)).
  destruct (authority_facts_cases bundle action_id) as [[Hok ->]|(Hok & Hint & Hcase)]; rewrite Hok.
  { split; [|split; [split; done|done]]. exists "NOT_VERIFIED"%string, "NOT_VERIFIED"%string, "NOT_RECORDED"%string, "INVALID"%string.
    split_and!; done. }
  split; [|unfold get_str; rewrite Hint; split; [split; done|done]]. unfold facts_typed, get_str. rewrite Hint.
  destruct Hcase as [(_ & -> & -> & ->)|(chosen & dup & timeline & conflict & _ & -> & -> & -> & _)]; cbn [mbind option_bind as_str].
  - do 4 eexists. split_and!; done.
  - do 4 eexists. split_and!; try done; [apply derive_identity_value| |apply intent_result_value].
    unfold authority_of. destruct (identity_of _ _ _ _) as [[? binding] birthtag]. apply derive_authority_value.
Qed.

(** ** Identity *)

Lemma match_binding_Some bindings lineage intent interval b : match_binding bindings lineage intent interval = Some b ->
  exists lo up, nts (idx interval "lower") = Some lo /\ nts (idx interval "upper") = Some up /\ b ∈ bindings /\
    binding_hit lineage intent (r_ctx b) = true /\ window_covers (r_ctx b) lo up = true.
Proof.
  unfold match_binding. intros E. apply bind_Some in E as (lo & Hlo & E). apply bind_Some in E as (up & Hup & E).
  apply find_some in E as [Hin E]. apply andb_true_iff in E as [? ?]. exists lo, up.
  split_and!; try done. by apply list_elem_of_In.
Qed.

(** The key that signed the intent is the runtime key of a binding of the agent's one
    establishment and current revision, whose window covers the interval. *)
Definition bound_runtime (rows : list Rec) (timeline : list RootEntry) (chosen : Rec) (interval : json) : Prop :=
  exists lineage b kid lo up,
    agent_lineage rows (r_agent chosen) = Some lineage /\
    b ∈ rows /\ authorised timeline "authority.principal.bound" b /\
    get_str (r_ctx b) "birthtag_id" = Some (l_birthtag_id lineage) /\
    get_str (r_ctx b) "revision_id" = Some (l_revision_id lineage) /\
    get_str (r_ctx b) "runtime_kid" = Some kid /\ kid ∈ r_signer_kids chosen /\
    nts (idx interval "lower") = Some lo /\ nts (idx interval "upper") = Some up /\
    window_covers (r_ctx b) lo up = true.

(** C10: VERIFIED identity is sound.  It is said only of a bundle that verifies, whose root
    history has no conflict, where no two bindings of one runtime key overlap without
    declaring each other, and where the key that signed the evaluated intent is bound,
    by a receipt signed under the root in force at its leaf, to the agent's single
    establishment and current revision for the whole intent interval, both of whose
    bounds are known. *)
Theorem identity_verified_sound (bundle : json) (action_id : option string)
  (Hv : get_str (authority_facts bundle action_id) "identity" = Some "VERIFIED"%string) :
  (verify_bundle_report bundle None).1.1 = true /\
  exists chosen dup timeline conflict,
    evaluated bundle action_id chosen dup timeline conflict /\ conflict = false /\
    binding_conflict (root_valid_auth (entry_rows bundle) timeline "authority.principal.bound") = false /\
    bound_runtime (entry_rows bundle) timeline chosen (interval_for bundle (r_leaf chosen)).
Proof.
  change (verify_bundle_report bundle None).1.1 with (f_ok (verify_bundle_facts bundle None)). unfold get_str in Hv.
  destruct (authority_facts_cases bundle action_id) as [[_ Hf]|(Hok & _ & Hcase)]; [by rewrite Hf in Hv|]. split; [done|].
  destruct Hcase as [(_ & Hi & _)|(chosen & dup & timeline & conflict & Hev & Hi & _)]; [by rewrite Hi in Hv|].
  rewrite Hi in Hv. injection Hv as Hv. exists chosen, dup, timeline, conflict. split; [done|].
  unfold identity_of, derive_identity in Hv. cbv zeta in Hv.
  destruct (conflict || _) eqn:Ec; [done|]. apply orb_false_iff in Ec as [-> Ec]. split_and!; [done..|].
  destruct (agent_lineage _ _) as [lineage|] eqn:El; [|done]. case_step Hv.
  destruct (match_binding _ _ _ _) as [b|] eqn:Eb; [|done].
  apply match_binding_Some in Eb as (lo & up & Hlo & Hup & Hin & Hhit & Hcov).
  apply root_valid_auth_in in Hin as [Hin Hau]. unfold binding_hit in Hhit.
  apply andb_true_iff in Hhit as [Hhit Hk]. apply andb_true_iff in Hhit as [Hb Hr].
  apply is_some_and_true in Hk as (kid & Hkid & Hk). apply bool_decide_eq_true in Hb, Hr. apply str_in_elem in Hk.
  exists lineage, b, kid, lo, up. split_and!; done.
Qed.

(** ** Authority *)

(** The grant of the evaluated intent, good for its whole interval. *)
Record grant_good (bundle : json) (timeline : list RootEntry) (chosen issued : Rec) (pairs : list grant_row)
    (lo up : string) : Prop := {
  gg_issued : issued ∈ entry_rows bundle /\ authorised timeline "authority.grant.issued" issued;
  gg_named : g (r_ctx chosen) "grant_id" = JString (r_rh issued);
  gg_bounds : nts (idx (interval_for bundle (r_leaf chosen)) "lower") = Some lo /\
    nts (idx (interval_for bundle (r_leaf chosen)) "upper") = Some up;
  gg_versions : grant_versions (List.filter (fun r => json_eqb (g (r_ctx r) "grant_id") (JString (r_rh issued)))
      (root_valid_auth (entry_rows bundle) timeline "authority.grant.revised")) = Some pairs /\
    versions_dense pairs = true;
  gg_unrevoked : forall r, r ∈ root_valid_auth (entry_rows bundle) timeline "authority.grant.revoked" ->
    g (r_ctx r) "grant_id" = JString (r_rh issued) ->
    exists eff, nts (g (r_ctx r) "effective_ts") = Some eff /\ str_leb eff up = false;
  gg_covered : forall t, str_leb lo t = true -> str_leb t up = true ->
    doc_ok (effective_doc (r_ctx issued) pairs t) (g (r_ctx chosen) "action_class") lo up = true;
}.

Lemma json_eqb_string s v : json_eqb (JString s) v = true -> v = JString s.
Proof. destruct v; try done. cbn. intros E. apply String.eqb_eq in E. by subst. Qed.

(** C11: VERIFIED authority is sound.  It is said only of a bundle that verifies and whose
    evaluated intent names a grant that was issued under the root in force, to a subject
    that is the agent's birthtag; whose revisions run densely from version 2; of which
    every revocation takes effect after the interval; and whose document in force at
    every instant of the interval admits the action's class, has a window covering the
    whole interval and a known limit kind. *)
Theorem authority_verified_sound (bundle : json) (action_id : option string)
  (Hv : get_str (authority_facts bundle action_id) "authority" = Some "VERIFIED"%string) :
  (verify_bundle_report bundle None).1.1 = true /\
  exists chosen dup timeline conflict issued pairs lo up,
    evaluated bundle action_id chosen dup timeline conflict /\
    grant_good bundle timeline chosen issued pairs lo up /\
    (exists subject, g (r_ctx issued) "subject_birthtag_id" = JString subject /\
       (Some subject = (identity_of bundle chosen timeline conflict).2 \/
        Some subject = l_birthtag_id <$> agent_lineage (entry_rows bundle) (r_agent chosen))).
Proof.
  change (verify_bundle_report bundle None).1.1 with (f_ok (verify_bundle_facts bundle None)). unfold get_str in Hv.
  destruct (authority_facts_cases bundle action_id) as [[_ Hf]|(Hok & _ & Hcase)]; [by rewrite Hf in Hv|]. split; [done|].
  destruct Hcase as [(_ & _ & Ha & _)|(chosen & dup & timeline & conflict & Hev & _ & Ha & _)]; [by rewrite Ha in Hv|].
  rewrite Ha in Hv. injection Hv as Hv. unfold authority_of in Hv. cbv zeta in Hv.
  destruct (identity_of _ _ _ _) as [[res binding] birthtag] eqn:Ei. unfold derive_authority in Hv. cbv zeta in Hv.
  destruct (is_some_and (grant_versions _) _); [done|].
  destruct (opt_filter _ _) as [issued|] eqn:Eis; [|done]. destruct (binding_substituted _ _ _); [done|].
  destruct (grant_versions _) as [pairs|] eqn:Ep; [|done]. cbn [fst] in Hv.
  destruct (grant_chain_verified _ _ _ _ _ _) eqn:Eg; [|done].
  apply opt_filter_Some in Eis as [Eis Hsub]. rewrite Eis in Hsub. cbn [is_some_and] in Hsub.
  apply find_some in Eis as [Hin Hgid]. apply json_eqb_string in Hgid. rewrite Hgid in Ep.
  apply list_elem_of_In, root_valid_auth_in in Hin. unfold grant_chain_verified in Eg.
  destruct (nts (idx _ "lower")) as [lo|] eqn:Elo; [|done]. destruct (nts (idx _ "upper")) as [up|] eqn:Eup; [|done].
  destruct (versions_dense pairs) eqn:Ed; [|done]. destruct (revoked_in_interval _ _ _ _) eqn:Er; [done|]. cbn [negb] in Eg.
  exists chosen, dup, timeline, conflict, issued, pairs, lo, up. split; [done|]. split.
  - split; try done.
    + intros r Hr Hg. unfold revoked_in_interval in Er. eapply existsb_false in Er; [|exact Hr]. rewrite Hg in Er.
      cbn [json_eqb] in Er. rewrite String.eqb_refl in Er. cbn [andb] in Er.
      destruct (nts (g (r_ctx r) "effective_ts")) as [eff|]; [|done]. eauto.
    + intros t. by apply docs_cover_instants.
  - apply is_some_and_true in Hsub as (subject & Hs & Hin'). exists subject. apply str_in_elem in Hin'.
    destruct (g (r_ctx issued) "subject_birthtag_id"); try done. injection Hs as ->. split; [done|]. rewrite Ei. cbn [snd].
    apply elem_of_app in Hin' as [Hin'|Hin']; [left|right].
    + destruct birthtag; cbn in Hin'; [apply list_elem_of_singleton in Hin'; by subst|by apply elem_of_nil in Hin'].
    + destruct (l_birthtag_id <$> _); cbn in Hin'; [apply list_elem_of_singleton in Hin'; by subst|by apply elem_of_nil in Hin'].
Qed.
End Facts.
