(* ===== verification/Certificate.v ===== *)
(** * Certificate: verification of a certificate (certificate.rs)

    The bytes are a bare core or a view that carries one.  The core is read into JSON,
    gated, cross-checked against the bundle it embeds (fifteen checks in a pinned
    order), and only then handed to the verdict engine, with its integrity forced to
    INVALID when a check failed and its receipt flag derived here.  Definitions in the
    order of the source; then what the result says of the bytes. *)
From S2P Require Import Prelude Hash Text Json Jcs Utc Dsse KeyLog Merkle Checkpoint Trust Entries Bundle CborWire Cose Scitt PyValue Verdict Authority.

Definition CORE_SCHEMA : string := "evd/certificate/v1".
Definition VIEW_SCHEMA : string := "evd/certificate-view/v1".
Definition VIEW_DOMAIN : bytes := str_bytes "evd/v1/certificate/view" ++ [0].
Definition MAX_CORE_BYTES : Z := 1024 * 1024.
Definition MAX_LIST : Z := 10000.
Definition MAX_ATTACHMENTS : Z := 1000.
Definition MAX_DISCLOSURES : Z := 256.
Definition CORE_KEYS : list string :=
  ["schema"; "subject"; "bundle"; "claim"; "events"; "event_matches"; "source_identity"; "control_evidence"; "batch";
   "scan"; "coverage_doc"; "node_attestation"; "open_findings"; "proof_digests"; "assurance_transcript_digest";
   "challenge_envelope_hash"; "presentation_envelope_hash"; "asa_envelope_hash"; "presentation_digest";
   "agent_context_digest"; "verdict_input"; "limitations"; "current_through"; "policy_version"; "attachments"].
Definition SUBJECT_KEYS : list string := ["action_id"; "action_class"; "origin"; "subject_ids"].
Definition LIMITATION_CODES : list string :=
  ["AGENT_CONTEXT_UNBOUND"; "ACCEPTED_SOURCE_COLLUSION_OUT_OF_MODEL"; "COVERAGE_CONVENTIONS_UNBOUND"].
Definition ZERO_DIGEST : string := "0000000000000000000000000000000000000000000000000000000000000000".

(** ** CBOR values *)

(** [fn cget], [fn ctext], [fn cbytes]. *)
Definition cget (v : cbor) (key : string) : option cbor :=
  match v with
  | CMap m => snd <$> List.find (fun kx => match kx.1 with CText t => String.eqb t key | _ => false end) m
  | _ => None
  end.
Definition ctext (v : cbor) (key : string) : option string := x ← cget v key; match x with CText t => Some t | _ => None end.
Definition cbytes (v : cbor) (key : string) : option bytes := x ← cget v key; match x with CBytes b => Some b | _ => None end.

(** [fn cbor_to_json]. *)
Fixpoint cbor_to_json (v : cbor) (limit : Z) : option json :=
  if limit <? 0 then None else
  match v with
  | CNull => Some JNull
  | CBool b => Some (JBool b)
  | CInteger i => then_some ((I64_MIN <=? i) && (i <=? I64_MAX)) (JNumber (num_of_int i))
  | CText s => Some (JString s)
  | CArray a =>
      JArray <$> (fix go a := match a with
        | [] => Some []
        | x :: t => y ← cbor_to_json x (limit - 1); l ← go t; Some (y :: l)
        end) a
  | CMap m =>
      JObject <$> (fix go m o := match m with
        | [] => Some o
        | (CText key, x) :: t => y ← cbor_to_json x (limit - 1); go t (obj_insert o key y)
        | _ :: _ => None
        end) m []
  | _ => None
  end.

Section Certificate.
Context {H : Hash} {SD : Serde} {B : Base64} {ED : Ed25519} {T : Tsa} {D : Display} {C : Ciborium}.

(** [fn pystr], [fn text_or_empty]. *)
Definition pystr (v : option json) : string :=
  match v with
  | None => EmptyString
  | Some JNull => "None"
  | Some (JBool b) => if b then "True" else "False"
  | Some (JString s) => s
  | Some (JNumber n) => number_display n
  | Some other => value_display other
  end.
Definition text_or_empty (v : json) (key : string) : string :=
  match get v key with None | Some JNull => EmptyString | other => pystr other end.

(** [struct Report] and its [json]; [held] is the [..Default::default()] of the early returns. *)
Record Report := {
  parse_ok : bool;
  layers : list string;
  certificate_id : option string;
  core_present : bool;
  cross_checks_ok : bool;
  vector : json;
  r_mark : json;
  errors : list string;
  export_complete : option bool;
  report_origin_attested : option bool;
}.
Definition opt_bool (o : option bool) : json := match o with Some b => JBool b | None => JNull end.
Definition report_json (r : Report) : json :=
  json_of_list [("parse_ok", JBool (parse_ok r)); ("layers", JArray (map JString (layers r)));
    ("certificate_id", json_of_opt (certificate_id r)); ("core_present", JBool (core_present r));
    ("cross_checks_ok", JBool (cross_checks_ok r)); ("vector", vector r); ("mark", r_mark r);
    ("errors", JArray (map JString (errors r))); ("export_complete", opt_bool (export_complete r));
    ("origin_attested", opt_bool (report_origin_attested r))]%string.
Definition held (parsed : bool) (ls : list string) (id : option string) (present : bool) (errs : list string) : Report :=
  {| parse_ok := parsed; layers := ls; certificate_id := id; core_present := present; cross_checks_ok := false;
     vector := JNull; r_mark := JNull; errors := errs; export_complete := None; report_origin_attested := None |}.

(** ** Cross-checks *)

(** [fn check_authority]. *)
Definition check_authority (core bundle : json) : bool :=
  let aid := opt_filter (get_str (idx core "subject") "action_id") (fun a => negb (is_empty a)) in
  opt_json_eqb (get (idx core "verdict_input") "authority") (Some (authority_facts bundle aid)).

(** [fn subject_origin_matches_bundle]. *)
Definition subject_origin_matches_bundle (core bundle : json) : bool :=
  match get_str (idx core "subject") "origin", get_str bundle "origin" with
  | Some subject, Some origin => String.eqb subject origin
  | _, _ => false
  end.

(** [fn subject_action_id_matches_input], [fn subject_action_class_matches_input]. *)
Definition subject_matches_input (field : string) (core bundle : json) : bool :=
  match get_str (idx core "subject") field, (action ← get (idx core "verdict_input") "action"; get_str action field) with
  | Some subject, Some input =>
      String.eqb subject input && (negb (is_empty subject) || negb (has_signed_action_intent bundle))
  | _, _ => false
  end.
Definition subject_action_id_matches_input : json -> json -> bool := subject_matches_input "action_id".
Definition subject_action_class_matches_input : json -> json -> bool := subject_matches_input "action_class".

(** [fn input_action_matches_signed_intent]. *)
Definition input_action_matches_signed_intent (core bundle : json) : bool :=
  let action := g (idx core "verdict_input") "action" in
  match get_str action "action_id", get_str action "action_class" with
  | Some action_id, Some action_class =>
      if has_signed_action_intent bundle then
        is_some_and (signed_action_context bundle action_id) (fun context =>
          opt_str_eqb (get_str context "action_id") (Some action_id)
          && opt_str_eqb (get_str context "action_class") (Some action_class))
      else
        let '(ids, classes) := signed_action_intents bundle action_id in
        (is_empty action_class || bool_decide (action_class ∈ classes))
        && (is_empty action_id || bool_decide (action_id ∈ ids))
  | _, _ => false
  end.

(** [fn claim_matches_subject]. *)
Definition core_claim (core : json) : option json := opt_filter (get core "claim") is_object.
Definition claim_matches_subject (core : json) : bool :=
  let_some claim := core_claim core else true;
  forallb (fun k => String.eqb (pystr (get claim k)) (pystr (get (idx core "subject") k))) ["action_id"; "action_class"]%string.

(** [fn signed_coverage_digests], [fn coverage_conventions_bound], [fn coverage_doc_bound]. *)
Definition signed_coverage_digests (bundle : json) : list string :=
  omap (fun r => get_str (r_ctx r) "coverage_doc_digest")
    (List.filter (fun r => String.eqb (r_action r) "evd.coverage.recorded") (entry_rows bundle)).
Definition coverage_conventions_bound (core bundle : json) : bool :=
  let signed := signed_coverage_digests bundle in
  negb (zlen signed =? 0)
  && is_some_and (canonical_checked (idx core "coverage_doc")) (fun body => str_in (hex (sha256 body)) signed).
Definition coverage_doc_bound (core bundle : json) : bool :=
  coverage_conventions_bound core bundle || (zlen (signed_coverage_digests bundle) =? 0).

(** [fn limitations_consistent]. *)
Definition limitations_consistent (core bundle : json) : bool :=
  let lims := unwrap_or (as_array (idx core "limitations")) [] in
  let codes := List.filter (fun c => str_in c LIMITATION_CODES) (omap as_str lims) in
  reject_if negb (distinct codes =? zlen lims) with false;
  reject_if negb (Bool.eqb (str_in "AGENT_CONTEXT_UNBOUND" codes)
                           (opt_str_eqb (get_str core "agent_context_digest") (Some ZERO_DIGEST))) with false;
  negb (Bool.eqb (str_in "COVERAGE_CONVENTIONS_UNBOUND" codes) (coverage_conventions_bound core bundle)).

(** [fn subject_ids_match_authority]. *)
Definition subject_ids_match_authority (core bundle : json) : bool :=
  let_some action_id := get_str (idx core "subject") "action_id" else false;
  let subject_ids := get (idx core "subject") "subject_ids" in
  match opt_filter (get_object (authority_facts bundle (Some action_id)) "subject_ids") (fun m => negb (zlen m =? 0)) with
  | Some expected =>
      is_some_and (ids ← subject_ids; as_object ids)
        (fun ids => negb (zlen ids =? 0) && json_eqb (JObject ids) (JObject expected))
  | None => is_none_or subject_ids is_null
  end.

(** [fn check_input_echo]. *)
Definition present (v : json) (k : string) : option json := opt_filter (get v k) (fun x => negb (is_null x)).
Definition listed (vi : json) (k : string) : json := unwrap_or (opt_filter (get vi k) (fun v => truthy (Some v))) (JArray []).
Definition check_input_echo (core : json) : bool :=
  let vi := idx core "verdict_input" in
  reject_if negb (json_eqb (idx core "events") (listed vi "events"))
         || negb (json_eqb (idx core "event_matches") (listed vi "event_matches")) with false;
  forallb (fun k => opt_json_eqb (present core k) (present vi k))
    ["claim"; "source_identity"; "control_evidence"; "batch"; "scan"]%string.

(** [fn check_findings_carried]. *)
Definition check_findings_carried (core : json) : bool :=
  let carried := unwrap_or (as_array (idx core "open_findings")) [] in
  reject_if zlen carried =? 0 with true;
  let_some consumed := get_array (idx core "verdict_input") "findings" else false;
  forallb (fun f => existsb (fun c => json_eqb c f) consumed) carried.

(** [fn deduped_events]. *)
Definition dedup_step (acc : list string * list (string * json)) (e : json) : list string * list (string * json) :=
  let '(seen, out) := acc in
  let k := pystr (get e "event_key") in
  if is_object e && negb (str_in k seen) then (k :: seen, out ++ [(k, e)]) else acc.
Definition deduped_events (core : json) : list (string * json) :=
  (fold_left dedup_step (unwrap_or (as_array (idx core "events")) []) ([], [])).2.

(** [fn unique_field_match], [fn link_flags]. *)
Definition unique_field_match (claim ev man : json) : bool :=
  existsb (fun f => match present claim f, present ev f with
      | Some l, Some r => negb (is_empty (pystr (Some l))) && String.eqb (pystr (Some l)) (pystr (Some r))
      | _, _ => false
      end) (omap as_str (arr man "unique_fields")).
Definition link_flags (claim ev man : json) : bool * bool * bool :=
  let token := text_or_empty claim "action_id" in
  let reference := pystr (get ev "reference") in
  let corr := unwrap_or (get_str man "correlation_field") EmptyString in
  let echo := negb (is_empty token)
    && ((negb (is_empty corr) && String.eqb (pystr (get ev corr)) token) || String.eqb reference token) in
  let external := text_or_empty claim "external_ref" in
  (echo, negb (is_empty external) && String.eqb reference external, unique_field_match claim ev man).

(** [fn is_final]. *)
Definition is_final (ev : json) (rule : option json) : bool :=
  let fin := pystr (get ev "finality") in
  match rule with
  | Some (JString s) => String.eqb fin s
  | Some (JObject m) =>
      existsb (fun k => existsb (fun v => String.eqb (pystr (Some v)) fin) (arr (JObject m) k)) ["final"; "correction"]%string
  | _ => false
  end.

(** [fn material_mismatch]. *)
Definition add_field (fields : list string) (f : string) : list string := if str_in f fields then fields else fields ++ [f].
Definition mismatch_fields (claim man : json) : list string :=
  let class := pystr (get claim "action_class") in
  let named := unwrap_or (m ← get man "material_fields"; get_array m class) [] in
  List.filter (fun f => negb (String.eqb f "source_effect_time")) (fold_left add_field (omap as_str named) MATERIAL_FLOOR).
Definition material_mismatch (claim ev man : json) : bool :=
  existsb (fun f => match present claim f, present ev f with
      | Some l, Some r => negb (String.eqb (pystr (Some l)) (pystr (Some r)))
      | _, _ => false
      end) (mismatch_fields claim man).

(** [fn flags_equal], [fn check_matches]. *)
Definition FLAG_NAMES : list string :=
  ["echoed_action_id"; "immutable_ref_match"; "unique_field_match"; "final"; "material_mismatch"].
Definition flags_equal (m : json) (want : list bool) : bool :=
  forallb (fun kw => opt_json_eqb (get m kw.1) (Some (JBool kw.2))) (zip FLAG_NAMES want).
Definition find_deduped (events : list (string * json)) (key : string) : option json :=
  snd <$> List.find (fun ke => String.eqb ke.1 key) events.
Definition match_recomputes (claim man : json) (events : list (string * json)) (unique : bool) (m : json) : bool :=
  let_some ev := find_deduped events (pystr (get m "event_key")) else false;
  let '(e, i, u) := link_flags claim ev man in
  flags_equal m [e; i; u; is_final ev (get man "finality_rule"); unique && material_mismatch claim ev man].
Definition linked (claim man ev : json) : bool := let '(e, i, u) := link_flags claim ev man in e || i || u.
Definition check_matches (core : json) : bool :=
  let man := idx core "coverage_doc" in
  let claim := unwrap_or (core_claim core) (JObject []) in
  let events := deduped_events core in
  let matches := unwrap_or (as_array (idx core "event_matches")) [] in
  let unique := zlen matches =? 1 in
  reject_if negb (forallb (match_recomputes claim man events unique) matches) with false;
  let named := map (fun m => pystr (get m "event_key")) matches in
  forallb (fun ke => negb (linked claim man ke.2) || str_in ke.1 named) events.

(** [fn count_pair_ok], [fn batch_consistent], [fn check_coverage]. *)
Definition count_pair_ok (cov : json) (list_ count : string) : bool :=
  match get_array cov list_, get_i64 cov count with
  | Some a, Some n => n =? zlen a
  | _, _ => is_none (get cov list_) && is_none (get cov count)
  end.
Definition frame_disagrees (batch cov : json) (f : string) : bool :=
  match get batch f, get cov f with Some b, Some c => negb (String.eqb (pystr (Some b)) (pystr (Some c))) | _, _ => false end.
Definition FRAME : list string :=
  ["cursor_start"; "cursor_end"; "filter_digest"; "mapping_version"; "event_key_root"; "finality_watermark"].
Definition batch_consistent (batch : option json) (cov : json) : bool :=
  let_some batch := opt_filter batch is_object else true;
  reject_if existsb (frame_disagrees batch cov) FRAME with false;
  forallb (fun l =>
    let doc := map (fun x => pystr (Some x)) (arr cov l) in
    forallb (fun g => str_in (pystr (Some g)) doc) (arr batch l)) ["gaps"; "exclusions"]%string.
Definition check_coverage (core : json) : bool :=
  let cov := idx core "coverage_doc" in
  let keys := map (fun ke => JString ke.1) (deduped_events core) in
  reject_if negb (bool_decide (get_i64 cov "event_count" = Some (zlen keys))) with false;
  let_some root := canonical_checked (JArray keys) else false;
  reject_if negb (opt_json_eqb (get cov "event_key_root") (Some (JString (hex (sha256 root))))) with false;
  reject_if negb (count_pair_ok cov "claim_refs" "claim_count") || negb (count_pair_ok cov "orphans" "orphan_count") with false;
  let population_ok := match core_claim core with
    | Some claim =>
        is_some_and (get_array cov "claim_refs")
          (existsb (fun r => String.eqb (pystr (Some r)) (pystr (get claim "action_id"))))
    | None => true
    end in
  reject_if negb population_ok with false;
  batch_consistent (get core "batch") cov.

(** ** The view and the receipt *)

(** [fn authorized_keys]. *)
Definition key_held (kl : KeyLog) (scitt_ : bool) (kid : string) : bool :=
  is_some_and (state kl !! kid) (fun st => is_none (revoked_at st) && (if scitt_ then scitt st else negb (non_issuer st))).
Definition authorized_keys (bundle : json) (scitt_ : bool) : gmap string bytes :=
  let kl := replay_key_log (arr bundle "entries") in
  reject_if negb (ok kl) with ∅;
  filter (fun kv => key_held kl scitt_ kv.1 = true) (keys kl).

(** [fn view_sig_ok]. *)
Definition signature_member (k : cbor) : bool :=
  match k with CText t => String.eqb t "signature" || ends_with "_sig" t | _ => false end.
Definition view_sig_ok (view : cbor) (bundle : json) : bool :=
  match view with
  | CMap members =>
      let_some sig := (s ← ctext view "signature"; b64_decode s) else false;
      let kept := List.filter (fun kx => negb (signature_member kx.1)) members in
      let_some body := canonical_cbor (CMap kept) else false;
      existsb (fun kv => ed25519_verify kv.2 (VIEW_DOMAIN ++ body) sig) (map_to_list (authorized_keys bundle false))
  | _ => false
  end.

(** [fn withheld_fields]. *)
Definition withheld_fields (view : cbor) : json :=
  unwrap_or (opt_filter (m ← cget view "manifest"; w ← cget m "withheld_field_set"; cbor_to_json w CborWire.MAX_DEPTH) is_array)
    (JArray []).

(** [fn view_checks]: the errors it pushes. *)
Definition view_checks (view : cbor) (id : string) (bundle mark_ : json) : list string :=
  let man := cget view "manifest" in
  (if negb (view_sig_ok view bundle) then ["VIEW_SIGNATURE_INVALID"%string] else [])
  ++ (if negb (opt_str_eqb (m ← man; ctext m "certificate_id") (Some id)) then ["MANIFEST_MISMATCH"%string] else [])
  ++ (if negb (opt_str_eqb (m ← man; ctext m "mark_result") (as_str mark_)) then ["MARK_MISMATCH"%string] else []).

(** [fn scitt_pack_valid], [fn apply_scitt_override]. *)
Definition scitt_pack_valid (pack : json) (id : string) (bundle : json) (root : option bytes) : bool :=
  let_some root := root else false;
  let_some ss := (s ← get_str pack "signed_statement"; hex_to_bytes s) else false;
  let_some rc := (s ← get_str pack "receipt"; hex_to_bytes s) else false;
  let_some checkpoint_ := get pack "checkpoint" else false;
  let_some ts_keys := verified_scitt_pack_keys pack {[ EmptyString := root ]} ss else false;
  opt_str_eqb (get_str pack "certificate_id") (Some id)
  && verify_scitt_receipt_with_checkpoint ss rc ts_keys (authorized_keys bundle true) id checkpoint_.
Definition registration_receipt (registration : json) (id : string) (bundle : json) (trust : option json) : bool :=
  let service := (scope ← get registration "scope_registration"; get_str scope "transparency_service") in
  let root := (raw ← key_for trust "scitt_ts_keys" service; array32 raw) in
  is_some_and (opt_filter (get registration "scitt_pack") is_object) (fun pack => scitt_pack_valid pack id bundle root).
Definition apply_scitt_override (vi : json) (id : string) (bundle : json) (trust : option json) : json :=
  match opt_filter (get vi "registration") is_object with
  | None => vi
  | Some registration =>
      set_member vi "registration"
        (set_member registration "scitt_receipt_valid" (JBool (registration_receipt registration id bundle trust)))
  end.

(** ** Pipeline *)

(** [fn core_shape_ok], [fn core_keys_ok], [fn b28_bindings_ok], [fn core_caps_ok]. *)
Definition core_shape_ok (j : json) : bool :=
  forallb (fun k => is_some_and (get j k) is_object) ["subject"; "bundle"; "coverage_doc"; "verdict_input"]%string
  && forallb (fun k => is_some_and (get j k) is_array)
       ["events"; "event_matches"; "open_findings"; "proof_digests"; "limitations"]%string.
Definition closed_keys (v : json) (allowed : list string) : bool :=
  is_some_and (as_object v) (forallb (fun kx => str_in kx.1 allowed)).
Definition core_keys_ok (j : json) : bool := closed_keys j CORE_KEYS && closed_keys (idx j "subject") SUBJECT_KEYS.
Definition lower_hex (b : u8) : bool := is_ascii_digit b || ((#"a" <=? b) && (b <=? #"f")).
Definition B28_NAMES : list string :=
  ["assurance_transcript_digest"; "challenge_envelope_hash"; "presentation_envelope_hash"; "asa_envelope_hash"].
Definition b28_bindings_ok (j : json) : bool :=
  let carried := omap (get j) B28_NAMES in
  (zlen carried =? 0)
  || ((zlen carried =? zlen B28_NAMES)
      && forallb (fun value => is_some_and (as_str value)
           (fun text => (slen text =? 64) && forallb lower_hex (str_bytes text))) carried).
Definition core_caps_ok (j : json) : bool :=
  let len := fun k => zlen (arr j k) in
  (len "events"%string <=? MAX_LIST) && (len "event_matches"%string <=? MAX_LIST)
  && (len "open_findings"%string <=? MAX_LIST) && (len "limitations"%string <=? MAX_LIST)
  && (len "attachments"%string <=? MAX_ATTACHMENTS).

(** [fn cross_check_errors]: (errors, complete, attested). *)
Definition cross_checks (j bundle : json) (trust : option json) : list (bool * string) :=
  let '(bundle_ok, _, attested) := verify_bundle_report bundle trust in
  [(bundle_ok, "BUNDLE_INVALID");
   (subject_origin_matches_bundle j bundle, "SUBJECT_ORIGIN_MISMATCH");
   (negb (bool_decide (attested = Some false)), "ORIGIN_NOT_ATTESTED");
   (subject_action_id_matches_input j bundle, "SUBJECT_ACTION_ID_MISMATCH");
   (subject_action_class_matches_input j bundle, "SUBJECT_ACTION_CLASS_MISMATCH");
   (input_action_matches_signed_intent j bundle, "ACTION_CONTEXT_MISMATCH");
   (claim_matches_subject j, "CLAIM_IDENTITY_MISMATCH");
   (subject_ids_match_authority j bundle, "SUBJECT_IDS_MISMATCH");
   (check_authority j bundle, "AUTHORITY_MISMATCH");
   (check_input_echo j, "VERDICT_INPUT_MISMATCH");
   (check_findings_carried j, "FINDINGS_NOT_CONSUMED");
   (check_matches j, "EVENT_MATCHES_MISMATCH");
   (check_coverage j, "COVERAGE_INCONSISTENT");
   (coverage_doc_bound j bundle, "COVERAGE_DOC_MISMATCH");
   (limitations_consistent j bundle, "LIMITATIONS_INCONSISTENT")]%string.
Definition cross_check_errors (j bundle : json) (trust : option json) : list string * option bool * option bool :=
  let '(_, complete_, attested) := verify_bundle_report bundle trust in
  (map snd (List.filter (fun c => negb c.1) (cross_checks j bundle trust)), complete_, attested).

(** [fn verify_core]; [verdict_of] is the verdict input it derives from, and [None] a panic
    of the verdict engine. *)
Definition invalidate (vi : json) : json :=
  let vi := if is_object (idx vi "authority") then vi else set_member vi "authority" (JObject []) in
  set_member vi "authority" (set_member (idx vi "authority") "integrity" (JString "INVALID")).
Definition verdict_input_of (j : json) (id : string) (view : option cbor) (errs : list string) (trust : option json) : json :=
  let bundle := idx j "bundle" in
  let vi := idx j "verdict_input" in
  let vi := match view with
    | Some vw => set_member vi "view" (json_of_list [("withheld_fields"%string, withheld_fields vw)])
    | None => vi
    end in
  let vi := if zlen errs =? 0 then vi else invalidate vi in
  apply_scitt_override vi id bundle trust.
Definition derived_report (id : string) (j : json) (view : option cbor) (trust : option json) : option Report :=
  let bundle := idx j "bundle" in
  let '(errs, complete_, attested) := cross_check_errors j bundle trust in
  let vi := verdict_input_of j id view errs trust in
  vector_ ← derive_vector_with_trust vi trust;
  baseline ← (if is_some trust then derive_vector_with_trust vi None else Some vector_);
  let errs := errs ++ match view with Some vw => view_checks vw id bundle (idx baseline "mark") | None => [] end in
  Some {| parse_ok := true; layers := if is_some view then ["core"; "view"]%string else ["core"%string];
          certificate_id := Some id; core_present := true; cross_checks_ok := zlen errs =? 0; vector := vector_;
          r_mark := idx vector_ "mark"; errors := errs; export_complete := complete_; report_origin_attested := attested |}.
Definition verify_core (id : string) (core : cbor) (view : option cbor) (trust : option json) : option Report :=
  let ls := if is_some view then ["core"; "view"]%string else ["core"%string] in
  let held_ errs := Some (held true ls (Some id) true errs) in
  let_some j := opt_filter (cbor_to_json core CborWire.MAX_DEPTH) core_shape_ok else held_ ["CORE_MALFORMED"%string];
  reject_if negb (core_keys_ok j) with held_ ["CORE_UNDECLARED_FIELD"%string];
  reject_if negb (b28_bindings_ok j) with held_ ["CORE_MALFORMED"%string];
  reject_if negb (core_caps_ok j) with held_ ["OVER_CAP"%string];
  derived_report id j view trust.

(** [fn run_view]. *)
Definition run_view (view : cbor) (trust : option json) : option Report :=
  let held_ id errs := Some (held true ["view"%string] id false errs) in
  let id := ctext view "certificate_id" in
  reject_if (match cget view "disclosures" with Some (CArray a) => MAX_DISCLOSURES <? zlen a | _ => false end)
  with held_ id ["OVER_CAP"%string];
  let_some id := id else held_ None ["VIEW_MALFORMED"%string];
  let_some core_b := cbytes view "core" else held_ (Some id) ["VIEW_SIGNATURE_UNVERIFIED"%string];
  reject_if negb (zlen (unwrap_or (as_array (withheld_fields view)) []) =? 0)
  with Some (held true ["core"; "view"]%string (Some id) true ["WITHHELD_CORE_PRESENT"%string]);
  reject_if MAX_CORE_BYTES <? zlen core_b with held_ (Some id) ["OVER_CAP"%string];
  let_some core := decode_cbor core_b CborWire.MAX_DEPTH MAX_CORE_BYTES else held_ (Some id) ["PARSE"%string];
  let both errs := Some (held true ["core"; "view"]%string (Some id) true errs) in
  reject_if negb (String.eqb (hex (sha256 core_b)) id) with both ["CERTIFICATE_ID_MISMATCH"%string];
  reject_if negb (opt_str_eqb (ctext core "schema") (Some CORE_SCHEMA)) with both ["CORE_MALFORMED"%string];
  verify_core id core (Some view) trust.

(** [fn run]. *)
Definition run (bytes_ : bytes) (trust : option json) : option Report :=
  let_some top := decode_cbor bytes_ CborWire.MAX_DEPTH CborWire.MAX_BYTES
  else Some (held false [] None false ["PARSE"%string]);
  match ctext top "schema" with
  | Some schema =>
      if String.eqb schema CORE_SCHEMA then
        if MAX_CORE_BYTES <? zlen bytes_ then Some (held true ["core"%string] None true ["OVER_CAP"%string])
        else verify_core (hex (sha256 bytes_)) top None trust
      else if String.eqb schema VIEW_SCHEMA then run_view top trust
      else Some (held true [] None false ["SCHEMA"%string])
  | None => Some (held true [] None false ["SCHEMA"%string])
  end.

(** [fn verify_certificate_cbor_with_trust] and [fn verify_certificate_cbor], as the value they print. *)
Definition verify_certificate_cbor_with_trust (bytes_ : bytes) (trust : option json) : option json :=
  report_json <$> run bytes_ trust.
Definition verify_certificate_cbor (bytes_ : bytes) : option json := verify_certificate_cbor_with_trust bytes_ None.
End Certificate.

(** ** The reports *)

Section CertificateFacts.
Context {H : Hash} {SD : Serde} {B : Base64} {ED : Ed25519} {T : Tsa} {D : Display} {C : Ciborium}.

Lemma derive_with_trust_Some vi trust : exists v, derive_vector_with_trust vi trust = Some v.
Proof. rewrite derive_vector_with_trust_eq. eauto. Qed.

(** The report of a core that passes the gates. *)
Lemma derived_report_Some id j view trust : exists r, derived_report id j view trust = Some r /\
  let '(errs, complete_, attested) := cross_check_errors j (idx j "bundle") trust in
  let vi := verdict_input_of j id view errs trust in
  derive_vector_with_trust vi trust = Some (vector r) /\ r_mark r = idx (vector r) "mark" /\
  (exists baseline, derive_vector_with_trust vi None = Some baseline /\
    errors r = errs ++ match view with Some vw => view_checks vw id (idx j "bundle") (idx baseline "mark") | None => [] end) /\
  parse_ok r = true /\ core_present r = true /\ certificate_id r = Some id /\
  cross_checks_ok r = (zlen (errors r) =? 0) /\ export_complete r = complete_ /\ report_origin_attested r = attested.
Proof.
  unfold derived_report. cbv zeta. destruct (cross_check_errors _ _ _) as [[errs complete_] attested].
  destruct (derive_with_trust_Some (verdict_input_of j id view errs trust) trust) as [v Hv]. rewrite Hv. cbn [mbind option_bind].
  destruct (derive_with_trust_Some (verdict_input_of j id view errs trust) None) as [b Hb].
  assert ((if is_some trust then derive_vector_with_trust (verdict_input_of j id view errs trust) None else Some v) = Some b) as ->.
  { destruct trust; [done|]. cbn [is_some]. by rewrite <- Hv, <- Hb. }
  cbn [mbind option_bind]. eexists. split; [reflexivity|]. cbn. split_and!; try done. eauto.
Qed.

(** Every report is an early one, with an error, or the derived one of a core whose bytes
    hash to the identity. *)
Definition core_of (bytes_ : bytes) (id : string) (core : cbor) (view : option cbor) : Prop :=
  match view with
  | None => decode_cbor bytes_ CborWire.MAX_DEPTH CborWire.MAX_BYTES = Some core /\
      ctext core "schema" = Some CORE_SCHEMA /\ zlen bytes_ <= MAX_CORE_BYTES /\ id = hex (sha256 bytes_)
  | Some vw => decode_cbor bytes_ CborWire.MAX_DEPTH CborWire.MAX_BYTES = Some vw /\ ctext vw "schema" = Some VIEW_SCHEMA /\
      exists core_b, cbytes vw "core" = Some core_b /\ zlen core_b <= MAX_CORE_BYTES /\
        decode_cbor core_b CborWire.MAX_DEPTH MAX_CORE_BYTES = Some core /\ id = hex (sha256 core_b) /\
        ctext vw "certificate_id" = Some id /\ withheld_fields vw = JArray []
  end.
Definition core_accepted (core : cbor) (j : json) : Prop :=
  cbor_to_json core CborWire.MAX_DEPTH = Some j /\ ctext core "schema" = Some CORE_SCHEMA /\ core_shape_ok j = true /\
  core_keys_ok j = true /\ b28_bindings_ok j = true /\ core_caps_ok j = true.
Definition early (r : Report) : Prop :=
  errors r <> [] /\ cross_checks_ok r = false /\ vector r = JNull /\ r_mark r = JNull.

Lemma early_held parsed ls id present_ e errs : early (held parsed ls id present_ (e :: errs)).
Proof. done. Qed.

Lemma verify_core_cases id core view trust : ctext core "schema" = Some CORE_SCHEMA ->
  exists r, verify_core id core view trust = Some r /\
    (early r \/ exists j, core_accepted core j /\ derived_report id j view trust = Some r).
Proof.
  intros Hs. unfold verify_core. cbv zeta.
  destruct (opt_filter _ _) as [j|] eqn:Ej; [|eexists; split; [done|left; apply early_held]].
  apply opt_filter_Some in Ej as [Ej Hshape].
  destruct (core_keys_ok j) eqn:Ek; [|eexists; split; [done|left; apply early_held]].
  destruct (b28_bindings_ok j) eqn:Eb; [|eexists; split; [done|left; apply early_held]].
  destruct (core_caps_ok j) eqn:Ec; [|eexists; split; [done|left; apply early_held]]. cbn [negb].
  destruct (derived_report_Some id j view trust) as (r & Hr & _). exists r. split; [done|]. right. by exists j.
Qed.

Lemma withheld_array view : exists l, withheld_fields view = JArray l.
Proof.
  unfold withheld_fields. destruct (opt_filter _ _) as [w|] eqn:E; [|by exists []]. apply opt_filter_Some in E as [_ E].
  destruct w; try done. eauto.
Qed.

Lemma run_cases bytes_ trust : exists r, run bytes_ trust = Some r /\
  (early r \/ exists id core view j, core_of bytes_ id core view /\ core_accepted core j /\
     derived_report id j view trust = Some r).
Proof.
  unfold run. destruct (decode_cbor bytes_ _ _) as [top|] eqn:Et; [|eexists; split; [done|left; apply early_held]].
  destruct (ctext top "schema") as [schema|] eqn:Es; [|eexists; split; [done|left; apply early_held]].
  destruct (String.eqb_spec schema CORE_SCHEMA) as [->|].
  - destruct (Z.ltb_spec MAX_CORE_BYTES (zlen bytes_)); [eexists; split; [done|left; apply early_held]|].
    destruct (verify_core_cases (hex (sha256 bytes_)) top None trust Es) as (r & Hr & [?|(j & Hj & Hd)]); exists r; [auto|].
    split; [done|]. right. exists (hex (sha256 bytes_)), top, None, j. by split_and!.
  - destruct (String.eqb_spec schema VIEW_SCHEMA) as [Eschema|]; [subst schema|eexists; split; [done|left; apply early_held]].
    unfold run_view. cbv zeta. destruct (match cget top "disclosures" with Some _ => _ | None => _ end);
      [eexists; split; [done|left; apply early_held]|].
    destruct (ctext top "certificate_id") as [id|] eqn:Eid; [|eexists; split; [done|left; apply early_held]].
    destruct (cbytes top "core") as [core_b|] eqn:Eb; [|eexists; split; [done|left; apply early_held]].
    destruct (withheld_array top) as [w Hw]. rewrite Hw. cbn [as_array unwrap_or].
    destruct w as [|x w]; cbn [negb]; [|eexists; split; [|left; apply early_held]; rewrite zlen_cons;
      pose proof (zlen_nonneg w); by rewrite (proj2 (Z.eqb_neq (1 + zlen w) 0)) by lia].
    destruct (Z.ltb_spec MAX_CORE_BYTES (zlen core_b)); [eexists; split; [done|left; apply early_held]|].
    destruct (decode_cbor core_b _ _) as [core|] eqn:Ec; [|eexists; split; [done|left; apply early_held]].
    destruct (String.eqb_spec (hex (sha256 core_b)) id) as [Hid|]; cbn [negb]; [|eexists; split; [done|left; apply early_held]].
    destruct (opt_str_eqb (ctext core "schema") _) eqn:Esc; cbn [negb]; [|eexists; split; [done|left; apply early_held]].
    apply bool_decide_eq_true in Esc.
    destruct (verify_core_cases id core (Some top) trust Esc) as (r & Hr & [?|(j & Hj & Hd)]); exists r; [auto|].
    split; [done|]. right. exists id, core, (Some top), j.
    split; [|by split]. split; [done|]. split; [done|]. exists core_b. by split_and!.
Qed.

(** Certificate verification is total and its verdict bit is the error list: whatever
    the bytes and the anchors, a report comes back (the verdict engine's [expect] is
    never reached), and cross_checks_ok is set exactly when no error is reported,
    which only a parsed report with its core present can be. *)
Theorem certificate_total (bytes_ : bytes) (trust : option json) :
  exists r, run bytes_ trust = Some r /\ verify_certificate_cbor_with_trust bytes_ trust = Some (report_json r) /\
    (cross_checks_ok r = true <-> errors r = []) /\
    (cross_checks_ok r = true -> parse_ok r = true /\ core_present r = true).
Proof.
  destruct (run_cases bytes_ trust) as (r & Hr & Hcase). exists r. unfold verify_certificate_cbor_with_trust. rewrite Hr.
  split; [done|]. split; [done|]. destruct Hcase as [(He & Hc & _)|(id & core & view & j & _ & _ & Hd)]; [by rewrite Hc|].
  destruct (derived_report_Some id j view trust) as (r' & Hr' & Hspec). rewrite Hd in Hr'. injection Hr' as <-.
  destruct (cross_check_errors _ _ _) as [[errs complete_] attested]. destruct Hspec as (_ & _ & _ & Hp & Hpr & _ & Hx & _).
  rewrite Hx. destruct (errors r) as [|e l]; [split; [done|auto]|]. rewrite zlen_cons. pose proof (zlen_nonneg l).
  split; [split; [intros E; apply Z.eqb_eq in E; lia|done]|intros E; apply Z.eqb_eq in E; lia].
Qed.

(** ** Accepted certificates *)

Lemma zlen_zero {A} (l : list A) : (zlen l =? 0) = true <-> l = [].
Proof.
  destruct l as [|x l]; [done|]. rewrite zlen_cons. pose proof (zlen_nonneg l). split; [|done].
  intros E. apply Z.eqb_eq in E. lia.
Qed.

Lemma cross_errors_nil j bundle trust :
  (cross_check_errors j bundle trust).1.1 = [] <-> forall c, c ∈ cross_checks j bundle trust -> c.1 = true.
Proof.
  unfold cross_check_errors. destruct (verify_bundle_report bundle trust) as [[b c] a]. cbn [fst].
  induction (cross_checks j bundle trust) as [|x l IH]; [split; [intros _ ? Hx; by apply elem_of_nil in Hx|done]|].
  cbn [List.filter map]. destruct x as [[] code]; cbn [fst negb].
  - rewrite IH. setoid_rewrite elem_of_cons. split; [intros Hl ? [->|?]; auto|auto].
  - split; [done|]. intros Hl. by specialize (Hl (false, code) ltac:(apply elem_of_cons; by left)).
Qed.

(** The fifteen checks, by what they say of the core and its bundle. *)
Record core_consistent (j bundle : json) (trust : option json) : Prop := {
  cc_bundle : (verify_bundle_report bundle trust).1.1 = true;
  cc_origin : exists o, get_str (idx j "subject") "origin" = Some o /\ get_str bundle "origin" = Some o;
  cc_attested : (verify_bundle_report bundle trust).2 <> Some false;
  cc_action : input_action_matches_signed_intent j bundle = true /\
    get_str (idx j "subject") "action_id" = (a ← get (idx j "verdict_input") "action"; get_str a "action_id") /\
    get_str (idx j "subject") "action_class" = (a ← get (idx j "verdict_input") "action"; get_str a "action_class");
  cc_authority : check_authority j bundle = true;
  cc_claim : claim_matches_subject j = true;
  cc_ids : subject_ids_match_authority j bundle = true;
  cc_echo : check_input_echo j = true;
  cc_findings : check_findings_carried j = true;
  cc_matches : check_matches j = true;
  cc_coverage : check_coverage j = true /\ coverage_doc_bound j bundle = true;
  cc_limitations : limitations_consistent j bundle = true;
}.

Lemma subject_matches_input_eq field j bundle : subject_matches_input field j bundle = true ->
  get_str (idx j "subject") field = (a ← get (idx j "verdict_input") "action"; get_str a field).
Proof.
  unfold subject_matches_input. destruct (get_str (idx j "subject") field) as [x|]; [|done].
  destruct (_ ← _; _) as [y|]; [|done]. intros E. apply andb_true_iff in E as [E _]. apply String.eqb_eq in E. by subst.
Qed.

Lemma consistent_of_checks j bundle trust : (forall c, c ∈ cross_checks j bundle trust -> c.1 = true) ->
  core_consistent j bundle trust.
Proof.
  intros Hall. unfold cross_checks in Hall. destruct (verify_bundle_report bundle trust) as [[b c] a] eqn:Er.
  apply Forall_forall in Hall. repeat (apply Forall_cons in Hall as [? Hall]). cbn [fst] in *. clear Hall.
  split; rewrite ?Er; cbn [fst snd]; try done.
  - unfold subject_origin_matches_bundle in *. destruct (get_str (idx j "subject") "origin") as [x|]; [|done].
    destruct (get_str bundle "origin") as [y|]; [|done]. match goal with Hx : String.eqb x y = true |- _ => apply String.eqb_eq in Hx; subst end. eauto.
  - match goal with Hx : negb (bool_decide _) = true |- _ => by apply negb_true_iff, bool_decide_eq_false in Hx end.
  - split; [done|]. split; by eapply subject_matches_input_eq.
Qed.


(** ** Failed checks *)

Definition VIEW_CODES : list string := ["VIEW_SIGNATURE_INVALID"; "MANIFEST_MISMATCH"; "MARK_MISMATCH"].

Lemma invalidate_integrity vi : is_object vi = true -> says (g (invalidate vi) "authority") "integrity" "VALID" = false.
Proof.
  intros Hobj. unfold invalidate. cbv zeta. set (vi' := if is_object _ then vi else _).
  assert (is_object vi' = true /\ is_object (idx vi' "authority") = true) as [H1 H2].
  { unfold vi'. destruct (is_object (idx vi "authority")) eqn:E; [done|]. split; [by apply set_member_object|].
    unfold idx. by rewrite get_set_member by done. }
  unfold g. rewrite get_set_member by done. cbn [String.eqb Ascii.eqb Bool.eqb unwrap_or].
  unfold says, get_str. by rewrite get_set_member by done.
Qed.

Lemma override_get vi id bundle trust k : k <> "registration"%string ->
  get (apply_scitt_override vi id bundle trust) k = get vi k.
Proof.
  intros Hk. unfold apply_scitt_override. destruct (opt_filter _ _) as [reg|] eqn:E; [|done].
  assert (is_object vi = true) as Hobj by (destruct vi; done). rewrite get_set_member by done.
  by destruct (String.eqb_spec k "registration").
Qed.

Lemma accepted_input core j : core_accepted core j -> is_object (idx j "verdict_input") = true.
Proof.
  intros (_ & _ & Hshape & _). unfold core_shape_ok in Hshape. apply andb_true_iff in Hshape as [Hs _].
  rewrite forallb_forall in Hs. specialize (Hs "verdict_input"%string ltac:(cbn; tauto)).
  unfold idx. by destruct (get j "verdict_input").
Qed.

(** C9: an error is never a partial pass.  Whenever a report carries an error other than the
    three about the view itself, it has no vector at all, or a vector whose integrity is
    INVALID, whose identity, authority and intent are weak, and which is not ELIGIBLE,
    whatever the certificate's own verdict input says and whatever the anchors. *)
Theorem certificate_never_partial (bytes_ : bytes) (trust : option json) (r : Report) (e : string)
  (Hr : run bytes_ trust = Some r) (He : e ∈ errors r) (Hview : str_in e VIEW_CODES = false) :
  vector r = JNull \/ authority_weak (vector r).
Proof.
  destruct (run_cases bytes_ trust) as (r' & Hr' & Hcase). rewrite Hr in Hr'. injection Hr' as <-.
  destruct Hcase as [(_ & _ & Hv & _)|(id & core & view & j & Hcore & Hacc & Hd)]; [by left|right].
  destruct (derived_report_Some id j view trust) as (r' & Hr' & Hspec). rewrite Hd in Hr'. injection Hr' as <-.
  destruct (cross_check_errors _ _ _) as [[errs complete_] attested].
  destruct Hspec as (Hv & _ & (baseline & _ & Herr) & _). eapply derive_vector_invalid; [exact Hv|].
  assert (errs <> []) as Hne.
  { intros ->. rewrite Herr in He. cbn [app] in He. destruct view as [vw|]; [|by apply elem_of_nil in He].
    unfold view_checks in He. rewrite !elem_of_app in He.
    destruct He as [He|[He|He]]; case_match; try (by apply elem_of_nil in He);
      apply list_elem_of_singleton in He; by subst e. }
  unfold verdict_input_of. cbv zeta. unfold g. rewrite override_get by done.
  destruct (zlen errs =? 0) eqn:Ez; [by apply zlen_zero in Ez|]. apply invalidate_integrity.
  apply accepted_input in Hacc. destruct view; [by apply set_member_object|done].
Qed.

(** ** The receipt flag *)

Lemma obj_insert_twice {A} (m : list (string * A)) k x y : obj_insert (obj_insert m k x) k y = obj_insert m k y.
Proof.
  induction m as [|[i v] m IH]; cbn; [by rewrite String.eqb_refl|].
  destruct (String.eqb k i) eqn:E; cbn; [by rewrite String.eqb_refl|].
  destruct (str_ltb k i) eqn:E2; cbn; [by rewrite String.eqb_refl|]. by rewrite E, E2, IH.
Qed.
Lemma set_member_twice v k x y : set_member (set_member v k x) k y = set_member v k y.
Proof. destruct v; try done. cbn. by rewrite obj_insert_twice. Qed.

(** The receipt flag is derived, never believed.  Whatever a producer writes as
    scitt_receipt_valid into a registration, the verdict input handed to the engine is
    the same; and the flag in it is true exactly when the registration carries a pack
    whose policy, checkpoint, statement and receipt verify for this certificate's id
    under the transparency service's key the relying party named and an unrevoked
    scitt-issuer key of the embedded log. *)
Theorem receipt_flag_derived (vi registration flag_ : json) (id : string) (bundle : json) (trust : option json)
  (Hreg : get vi "registration" = Some registration) (Hobj : is_object registration = true) :
  apply_scitt_override (set_member vi "registration" (set_member registration "scitt_receipt_valid" flag_)) id bundle trust
    = apply_scitt_override vi id bundle trust /\
  (flag (g (apply_scitt_override vi id bundle trust) "registration") "scitt_receipt_valid" = true <->
   exists pack root,
     get registration "scitt_pack" = Some pack /\
     key_for trust "scitt_ts_keys" (scope ← get registration "scope_registration"; get_str scope "transparency_service") = Some root /\
     zlen root = 32 /\ scitt_pack_valid pack id bundle (Some root) = true).
Proof.
  assert (is_object vi = true) as Hvi by (destruct vi; done). split.
  - unfold apply_scitt_override. rewrite get_set_member by done. cbn [String.eqb Ascii.eqb Bool.eqb].
    rewrite Hreg. cbn [opt_filter mbind option_bind]. rewrite set_member_object by done. cbn [then_some].
    rewrite Hobj. cbn [then_some]. rewrite !set_member_twice. unfold registration_receipt. by rewrite !get_set_member by done.
  - unfold apply_scitt_override. rewrite Hreg. cbn [opt_filter mbind option_bind]. rewrite Hobj. cbn [then_some].
    unfold g, flag. rewrite get_set_member by done. cbn [String.eqb Ascii.eqb Bool.eqb unwrap_or].
    rewrite get_set_member by done. cbn [String.eqb Ascii.eqb Bool.eqb mbind option_bind as_bool unwrap_or].
    unfold registration_receipt. cbv zeta. rewrite is_some_and_true. split.
    + intros (pack & Hp & Hv). apply opt_filter_Some in Hp as [Hp _].
      destruct (key_for _ _ _) as [raw|] eqn:Ek; [|done]. cbn [mbind option_bind] in Hv. unfold array32, then_some in Hv.
      destruct (zlen raw =? 32) eqn:El; [|done]. apply Z.eqb_eq in El. by exists pack, raw.
    + intros (pack & root & Hp & Hk & Hl & Hv). exists pack. rewrite Hk. cbn [mbind option_bind]. unfold array32.
      rewrite (proj2 (Z.eqb_eq _ _) Hl). split; [|done]. apply opt_filter_Some. split; [done|]. by destruct pack.
Qed.

(** The flag the engine reads is set only by a pack of the carried input. *)
Lemma receipt_flag_pack j id view errs trust : is_object (idx j "verdict_input") = true ->
  flag (g (verdict_input_of j id view errs trust) "registration") "scitt_receipt_valid" = true ->
  exists registration pack root, get (idx j "verdict_input") "registration" = Some registration /\
    get registration "scitt_pack" = Some pack /\
    key_for trust "scitt_ts_keys" (scope ← get registration "scope_registration"; get_str scope "transparency_service") = Some root /\
    scitt_pack_valid pack id (idx j "bundle") (Some root) = true.
Proof.
  intros Hobj Hflag. unfold verdict_input_of in Hflag. cbv zeta in Hflag.
  set (vi0 := match view with Some _ => _ | None => _ end) in *.
  set (vi1 := if zlen errs =? 0 then vi0 else invalidate vi0) in *.
  assert (is_object vi0 = true /\ get vi0 "registration" = get (idx j "verdict_input") "registration") as [Hobj0 Hreg0].
  { unfold vi0. destruct view; [|done]. split; [by apply set_member_object|]. by rewrite get_set_member by done. }
  assert (is_object vi1 = true /\ get vi1 "registration" = get (idx j "verdict_input") "registration") as [Hobj1 Hreg1].
  { unfold vi1, invalidate. destruct (zlen errs =? 0); [done|]. cbv zeta.
    destruct (is_object (idx vi0 "authority")); (split; [by repeat apply set_member_object|]);
      rewrite !get_set_member by first [done|by apply set_member_object]; done. }
  clearbody vi0 vi1. unfold apply_scitt_override in Hflag. rewrite Hreg1 in Hflag.
  destruct (get (idx j "verdict_input") "registration") as [reg|] eqn:Ereg;
    [|cbn [opt_filter mbind option_bind] in Hflag; unfold g, flag in Hflag; rewrite Hreg1 in Hflag; done].
  cbn [opt_filter mbind option_bind] in Hflag.
  destruct (is_object reg) eqn:Eobj; cbn [then_some] in Hflag.
  - unfold g, flag in Hflag. rewrite get_set_member in Hflag by done. cbn [String.eqb Ascii.eqb Bool.eqb unwrap_or] in Hflag.
    rewrite get_set_member in Hflag by done. cbn [String.eqb Ascii.eqb Bool.eqb mbind option_bind as_bool unwrap_or] in Hflag.
    unfold registration_receipt in Hflag. cbv zeta in Hflag. apply is_some_and_true in Hflag as (pack & Hp & Hval).
    apply opt_filter_Some in Hp as [Hp _]. destruct (key_for _ _ _) as [raw|] eqn:Ek; [|done].
    cbn [mbind option_bind] in Hval. unfold array32, then_some in Hval. destruct (zlen raw =? 32); [|done]. by exists reg, pack, raw.
  - unfold g, flag in Hflag. rewrite Hreg1 in Hflag. cbn [unwrap_or] in Hflag. by destruct reg.
Qed.

Lemma scitt_pack_id pack id bundle root : scitt_pack_valid pack id bundle (Some root) = true ->
  get_str pack "certificate_id" = Some id.
Proof.
  unfold scitt_pack_valid. intros Hv. case_step Hv. case_step Hv. case_step Hv. case_step Hv.
  apply andb_true_iff in Hv as [Hv _]. by apply bool_decide_eq_true in Hv.
Qed.

Lemma core_of_det bytes_ id core view id' core' view' :
  core_of bytes_ id core view -> core_of bytes_ id' core' view' -> id = id' /\ core = core'.
Proof.
  unfold core_of. destruct view as [vw|], view' as [vw'|].
  - intros (Hd & _ & b & Hb & _ & Hc & -> & _) (Hd' & _ & b' & Hb' & _ & Hc' & -> & _). simplify_eq. split; congruence.
  - intros (Hd & Hs & _) (Hd' & Hs' & _). rewrite Hd in Hd'. injection Hd' as ->. by rewrite Hs in Hs'.
  - intros (Hd & Hs & _) (Hd' & Hs' & _). rewrite Hd in Hd'. injection Hd' as ->. by rewrite Hs in Hs'.
  - intros (Hd & _ & _ & ->) (Hd' & _ & _ & ->). split; congruence.
Qed.

(** The identity named by the pack a core carries in its own verdict input. *)
Definition carried_pack_id (j : json) : option string :=
  registration ← get (idx j "verdict_input") "registration"; pack ← get registration "scitt_pack"; get_str pack "certificate_id".

Lemma derived_receipt_id id j view trust r core : core_accepted core j -> derived_report id j view trust = Some r ->
  says (vector r) "technical_eligibility" "ELIGIBLE" = true \/ says (vector r) "registration_status" "REGISTERED" = true ->
  carried_pack_id j = Some id.
Proof.
  intros Hacc Hd Hfav. destruct (derived_report_Some id j view trust) as (r' & Hr' & Hspec). rewrite Hd in Hr'. injection Hr' as <-.
  destruct (cross_check_errors _ _ _) as [[errs complete_] attested]. destruct Hspec as (Hv & _).
  assert (flag (g (verdict_input_of j id view errs trust) "registration") "scitt_receipt_valid" = true) as Hflag.
  { destruct Hfav as [He|He].
    - pose proof (eligible_rests _ _ _ Hv He) as (_ & _ & _ & _ & _ & _ & Hflag). done.
    - by destruct (registered_rests _ _ _ Hv He). }
  apply receipt_flag_pack in Hflag as (reg & pack & root & Hreg & Hpack & _ & Hval); [|by eapply accepted_input].
  unfold carried_pack_id. rewrite Hreg. cbn [mbind option_bind]. rewrite Hpack. cbn [mbind option_bind].
  by eapply scitt_pack_id.
Qed.

(** C21: a registration pack is worth nothing to another certificate.  Unless the pack a core
    carries names the SHA-256 of that very core's bytes, the certificate, bare or in a
    view, is neither ELIGIBLE nor REGISTERED, whoever signed the pack and whatever flag
    the core claims; nor is a certificate that carries no pack. *)
Theorem foreign_pack_worthless (bytes_ : bytes) (trust : option json) (r : Report) (id : string) (core : cbor)
    (view : option cbor) (j : json)
  (Hr : run bytes_ trust = Some r) (Hcore : core_of bytes_ id core view) (Hj : cbor_to_json core CborWire.MAX_DEPTH = Some j)
  (Hid : carried_pack_id j <> Some id) :
  says (vector r) "technical_eligibility" "ELIGIBLE" = false /\ says (vector r) "registration_status" "REGISTERED" = false.
Proof.
  destruct (run_cases bytes_ trust) as (r' & Hr' & Hcase). rewrite Hr in Hr'. injection Hr' as <-.
  destruct Hcase as [(_ & _ & Hv & _)|(id' & core' & view' & j' & Hcore' & Hacc & Hd)]; [by rewrite Hv|].
  destruct (core_of_det _ _ _ _ _ _ _ Hcore Hcore') as [<- <-]. destruct Hacc as [Hj' Hrest].
  rewrite Hj in Hj'. injection Hj' as <-.
  pose proof (derived_receipt_id _ _ _ _ _ core (conj Hj Hrest) Hd) as Hfav.
  split; apply not_true_iff_false; intros E; apply Hid; auto.
Qed.

(** ** ELIGIBLE certificates *)

Lemma json_eqb_member a b k : json_eqb a b = true -> get_str a k = get_str b k.
Proof.
  destruct a as [| | | | |m]; destruct b as [| | | | |m2]; try done. cbn [json_eqb]. unfold get_str, get. cbn [as_object mbind option_bind].
  revert m2. induction m as [|[i x] m IH]; intros [|[i' y] m2]; try done. intros E.
  apply andb_true_iff in E as [E Hmn]. apply andb_true_iff in E as [Hi Hxy]. apply String.eqb_eq in Hi. subst i'. cbn [obj_get].
  destruct (String.eqb k i); [|by apply IH]. destruct x, y; try done. cbn [as_str].
  cbn in Hxy. apply String.eqb_eq in Hxy. by subst.
Qed.

(** The verdict input of a core without cross-check errors differs from the carried one in
    its view and its registration only. *)
Lemma verdict_input_get j id view trust k : is_object (idx j "verdict_input") = true ->
  k <> "view"%string -> k <> "registration"%string -> get (verdict_input_of j id view [] trust) k = get (idx j "verdict_input") k.
Proof.
  intros Hobj Hv Hr. unfold verdict_input_of. cbv zeta. rewrite override_get by done. change (zlen (@nil string) =? 0) with true. cbn iota.
  destruct view; [|done]. rewrite get_set_member by done. by destruct (String.eqb_spec k "view").
Qed.

Lemma corroborated_ext vi vi' c : (forall k, k <> "view"%string -> k <> "registration"%string -> get vi' k = get vi k) ->
  corroborated vi' c -> corroborated vi c.
Proof.
  intros Hext. unfold corroborated, find_event, material_fields, obj, arr, get_array, g.
  by rewrite !Hext by done.
Qed.

(** An ELIGIBLE certificate is grounded end to end.  If the vector of a report says
    ELIGIBLE, then the certificate's core was read from bytes hashing to its id, every
    cross-check holds and the embedded bundle verifies; the authority replay of that
    very bundle says VERIFIED identity, VERIFIED authority and a RECORDED intent; the
    one matched event corroborates the claim on every material field and its flags
    recompute from the events; coverage and time are proven under the relying party's
    keys; and a registration pack verifies for this id under the transparency service
    they named. *)
Theorem eligible_certificate_sound (bytes_ : bytes) (trust : option json) (r : Report)
  (Hr : run bytes_ trust = Some r) (He : says (vector r) "technical_eligibility" "ELIGIBLE" = true) :
  exists id core view j,
    core_of bytes_ id core view /\ core_accepted core j /\ core_consistent j (idx j "bundle") trust /\
    let vi := idx j "verdict_input" in
    (exists aid, let facts := authority_facts (idx j "bundle") aid in
       get_str facts "identity" = Some "VERIFIED" /\ get_str facts "authority" = Some "VERIFIED" /\
       get_str facts "intent" = Some "RECORDED")%string /\
    (exists c, match_candidates vi = Ok [c] /\ corroborated vi c) /\ no_gap vi /\ time_proven vi trust /\
    (exists registration pack root, get vi "registration" = Some registration /\
       get registration "scitt_pack" = Some pack /\
       key_for trust "scitt_ts_keys" (scope ← get registration "scope_registration"; get_str scope "transparency_service") = Some root /\
       scitt_pack_valid pack id (idx j "bundle") (Some root) = true).
Proof.
  destruct (run_cases bytes_ trust) as (r' & Hr' & Hcase). rewrite Hr in Hr'. injection Hr' as <-.
  destruct Hcase as [(_ & _ & Hv & _)|(id & core & view & j & Hcore & Hacc & Hd)]; [by rewrite Hv in He|].
  destruct (derived_report_Some id j view trust) as (r' & Hr' & Hspec). rewrite Hd in Hr'. injection Hr' as <-.
  pose proof (cross_errors_nil j (idx j "bundle") trust) as Hnil.
  destruct (cross_check_errors _ _ _) as [[errs complete_] attested]. cbn [fst] in Hnil. destruct Hspec as (Hv & _).
  pose proof (accepted_input _ _ Hacc) as Hobj.
  destruct errs as [|e errs].
  2:{ eapply derive_vector_invalid in Hv as [_ Hno]; [congruence|]. unfold verdict_input_of. cbv zeta. unfold g.
      rewrite override_get by done. destruct (zlen (e :: errs) =? 0) eqn:Ez; [by apply zlen_zero in Ez|].
      apply invalidate_integrity. destruct view; [by apply set_member_object|done]. }
  pose proof (consistent_of_checks _ _ _ (proj1 Hnil eq_refl)) as Hcons.
  pose proof (eligible_rests _ _ _ Hv He) as (Hauth & _ & Hmatch & Hgap & _ & Htime & Hflag).
  assert (forall k, k <> "view"%string -> k <> "registration"%string ->
    get (verdict_input_of j id view [] trust) k = get (idx j "verdict_input") k) as Hext by (intros; by apply verdict_input_get).
  exists id, core, view, j. split; [done|]. split; [done|]. split; [done|]. cbv zeta. split_and!.
  - pose proof (cc_authority _ _ _ Hcons) as Ha. unfold check_authority in Ha. cbv zeta in Ha.
    unfold g in Hauth. rewrite Hext in Hauth by done. destruct (get (idx j "verdict_input") "authority") as [a|]; [|done].
    cbn [unwrap_or opt_json_eqb] in *. pose proof (fun k => json_eqb_member _ _ k Ha) as Hk.
    exists (opt_filter (get_str (idx j "subject") "action_id") (fun a => negb (is_empty a))). cbv zeta. rewrite <- !Hk. tauto.
  - destruct Hmatch as (c & Hc & Hcor). exists c. split; [|by eapply corroborated_ext].
    unfold match_candidates in *. by rewrite Hext in Hc by done.
  - unfold no_gap, has_open_finding, g, flag in *. by rewrite !Hext in Hgap by done.
  - unfold time_proven, obj in *. by rewrite Hext in Htime by done.
  - by eapply receipt_flag_pack.
Qed.
End CertificateFacts.
