(* ===== verification/Dispute.v ===== *)
(** * Dispute: the two-party reconciliation (dispute.rs)

    A dispute package carries two parties' bundles, the contested claims and a
    reconciliation; the reconciliation is recomputed from the bundles and compared by a
    canonical text.  Definitions in the order of the source; then what an accepted
    package says, that the outcome favours neither party, and that the counts add up. *)
From S2P Require Import Prelude Hash Text Json Jcs Utc Dsse KeyLog Merkle Checkpoint Trust Entries Bundle PyValue.

Definition FIELDS : list string :=
  ["action_type"; "external_ref"; "value"; "amount"; "amount_band"; "currency"; "counterparty"; "counterparty_class";
   "recipient"; "status"; "result"; "mandate_present"].
Definition SCOPE : string := "This reconciliation reports what each party's independently verified bundle can support. It does not determine fault, intent, liability, or which party's record reflects what actually happened. Absence of a receipt from a presented export is absence of support, not proof that no event occurred.".
Definition CONFLICT : string := "Both parties' verified bundles carry receipts for this claim; the named material fields do not carry the same values. This reconciliation reports the disagreement; it does not determine which record is accurate.".
Definition ONE_SIDED : string := "Both parties' verified bundles carry receipts for this claim, but one or more named material fields are carried by only one side. The presented evidence therefore cannot establish material agreement.".
Definition AGREEMENT : string := "Both parties' verified bundles carry receipts for this claim and every material field carried by both sides matches.".

(** [type Claims], [struct Party]. *)
Definition Claims : Type := list (string * list json).
Record Party := { claims : Claims; party_facts : json }.

Section Dispute.
Context {H : Hash} {SD : Serde} {B : Base64} {ED : Ed25519} {T : Tsa} {D : Display}.

(** ** Inputs *)

(** [fn nonempty]. *)
Definition nonempty_str (value : json) : option string := opt_filter (as_str value) (fun t => negb (is_empty t)).

(** [fn header]. *)
Definition header (package : json) : option unit :=
  object ← as_object package;
  let fields := ["schema"; "case_ref"; "party_labels"; "contested_claims"; "bundles"; "reconciliation"]%string in
  reject_if negb (zlen object =? zlen fields) || negb (forallb (contains_key object) fields)
         || negb (is_str (idx package "schema") "evd/dispute-artifact/v1") with None;
  _ ← nonempty_str (idx package "case_ref");
  _ ← as_object (idx package "reconciliation");
  Some tt.

(** [fn labels]. *)
Definition labels (package : json) : option (string * string) :=
  ls ← as_array (idx package "party_labels");
  match ls with
  | [l0; l1] =>
      l0 ← nonempty_str l0; l1 ← nonempty_str l1;
      bundles ← as_object (idx package "bundles");
      if String.eqb l0 l1 || negb (zlen bundles =? 2)
         || negb (forallb (fun label => is_some_and (obj_get bundles label) is_object) [l0; l1])
      then None else Some (l0, l1)
  | _ => None
  end.

(** [fn inputs]. *)
Fixpoint all_nonempty (l : list json) : option (list string) :=
  match l with [] => Some [] | x :: t => s ← nonempty_str x; rest ← all_nonempty t; Some (s :: rest) end.
Definition inputs (package : json) : option ((string * string) * list (string * json) * list string) :=
  _ ← header package;
  ls ← labels package;
  contested ← as_array (idx package "contested_claims");
  claims ← all_nonempty contested;
  reject_if negb (forallb (fun p => str_ltb p.1 p.2) (windows2 claims)) with None;
  bundles ← as_object (idx package "bundles");
  Some (ls, bundles, claims).

(** ** A party's receipts *)

(** The loop of [fn party]: (claims, uncorrelated). *)
Definition receipt_view (body env : json) : option json :=
  hash ← receipt_hash_hex env;
  let view := obj_insert [] "action_type" (idx body "action_type") in
  let view := fold_left (fun view field => match get (idx body "context") field with
    | Some value => obj_insert view field value | None => view end) (drop 1 FIELDS) view in
  Some (JObject (obj_insert view "_receipt_hash" (JString hash))).
Definition push_claim (cs : Claims) (id : string) (view : json) : Claims :=
  obj_insert cs id (unwrap_or (obj_get cs id) [] ++ [view]).
Fixpoint party_loop (entries : list json) (cs : Claims) (uncorrelated : Z) : option (Claims * Z) :=
  match entries with
  | [] => Some (cs, uncorrelated)
  | entry :: t =>
      body ← body_of (idx entry "envelope");
      agent ← as_str (idx body "agent_id");
      if starts_with "_" agent then party_loop t cs uncorrelated else
      match nonempty_str (idx (idx body "context") "action_id") with
      | None => party_loop t cs (uncorrelated + 1)
      | Some id => view ← receipt_view body (idx entry "envelope"); party_loop t (push_claim cs id view) uncorrelated
      end
  end.

(** [fn party]. *)
Definition party (bundle : json) : option Party :=
  let verified := verify_bundle_facts bundle None in
  reject_if negb (f_ok verified) with None;
  entries ← as_array (idx bundle "entries");
  first ← head (collect_key_entries entries);
  root ← receipt_hash_hex (ke_env first);
  '(cs, uncorrelated) ← party_loop entries [] 0;
  Some {| claims := cs;
          party_facts := json_of_list [("origin", idx bundle "origin"); ("trust_root", JString root);
            ("export_complete", match complete verified with Some b => JBool b | None => JNull end);
            ("claims", JNumber (PosInt (zlen cs))); ("uncorrelated_receipts", JNumber (PosInt uncorrelated))]%string |}.

(** ** The canonical text *)

(** [fn ascii_string]: characters outside printable ASCII as UTF-16 escapes. *)
Definition hex4 (unit : Z) : bytes := hex_bytes [Z.shiftr unit 8; Z.land unit 255].
Definition ascii_char (c : Z) : bytes :=
  if (c <? 128) && negb (c =? 127) then [c]
  else flat_map (fun unit => [ #"\" ; #"u" ] ++ hex4 unit) (encode_utf16_char c).
Definition ascii_string (text : string) : string :=
  bytes_str (flat_map ascii_char (utf8_chars (write_string text))).

(** [fn float_text], on the bytes of the number's decimal text. *)
Fixpoint drop_byte (c : u8) (b : bytes) : bytes :=
  match b with x :: t => if x =? c then drop_byte c t else b | [] => [] end.
Definition trim_end_byte (c : u8) (b : bytes) : bytes := rev (drop_byte c (rev b)).
Definition parse_i32 (b : bytes) : option Z := opt_filter (parse_i64 b) (in_range (-2147483648) 2147483647).
Definition signed_exponent (power : Z) : bytes :=
  let digits := str_bytes (int_to_string (Z.abs power)) in
  (if power <? 0 then #"-" else #"+") :: replicate (2 - length digits) #"0" ++ digits.
Definition positional (digits : bytes) (point : Z) : bytes :=
  if point <=? 0 then [ #"0"; #"." ] ++ replicate (Z.to_nat (- point)) #"0" ++ digits
  else if zlen digits <=? point then digits ++ replicate (Z.to_nat point - length digits) #"0" ++ [ #"."; #"0" ]
  else take (Z.to_nat point) digits ++ [ #"." ] ++ drop (Z.to_nat point) digits.
Definition float_text (n : number) : option string :=
  let raw := str_bytes (number_display n) in
  let '(mantissa, exponent) := unwrap_or (split_once #"e" raw) (raw, [ #"0" ]) in
  exponent ← parse_i32 exponent;
  let negative := bool_decide (head mantissa = Some #"-") in
  let mantissa := drop_byte #"-" mantissa in
  let point := unwrap_or (position (fun b => b =? #".") mantissa) (zlen mantissa) in
  let digits := List.filter (fun b => negb (b =? #".")) mantissa in
  let zeros := zlen digits - zlen (drop_byte #"0" digits) in
  reject_if zeros =? zlen digits with Some (if negative then "-0.0"%string else "0.0"%string);
  let power := point + exponent - zeros - 1 in
  let digits := trim_end_byte #"0" (drop_byte #"0" digits) in
  let sign := if negative then [ #"-" ] else [] in
  if (power <? -4) || (16 <=? power) then
    let fraction := if 1 <? zlen digits then #"." :: drop 1 digits else [] in
    Some (bytes_str (sign ++ take 1 digits ++ fraction ++ [ #"e" ] ++ signed_exponent power))
  else Some (bytes_str (sign ++ positional digits (power + 1))).

(** [fn value_key]. *)
Fixpoint value_key (value : json) : option string :=
  match value with
  | JString text => Some (ascii_string text)
  | JNumber n => if is_f64 n then float_text n else Some (value_display value)
  | JArray items =>
      parts ← (fix go l := match l with [] => Some [] | x :: t => k ← value_key x; ks ← go t; Some (k :: ks) end) items;
      Some ("[" +:+ join_str ", " parts +:+ "]")%string
  | JObject items =>
      pairs ← (fix go l := match l with
        | [] => Some []
        | (key, x) :: t => k ← value_key x; ks ← go t; Some ((ascii_string key +:+ ": " +:+ k)%string :: ks)
        end) items;
      Some ("{" +:+ join_str ", " pairs +:+ "}")%string
  | _ => Some (value_display value)
  end.

(** ** Comparison *)

(** [fn values]: the distinct values of a field, in the order of their keys. *)
Fixpoint values_loop (views : list json) (field : string) (unique : list (string * json)) : option (list (string * json)) :=
  match views with
  | [] => Some unique
  | view :: t =>
      match get view field with
      | Some value => k ← value_key value; values_loop t field (obj_insert unique k value)
      | None => values_loop t field unique
      end
  end.
Definition values (views : list json) (field : string) : option (list json) :=
  unique ← values_loop views field []; Some unique.*2.

(** The keys of the values, as the comparison collects them. *)
Fixpoint value_keys (l : list json) : option (list string) :=
  match l with [] => Some [] | x :: t => k ← value_key x; ks ← value_keys t; Some (k :: ks) end.

(** [fn compare]: one field, then (agreed, conflicts, one-sided), then the outcome. *)
Definition diff : Type := list string * list (string * json) * list (string * json).
Definition compare_field (a b : list json) (ls : string * string) (acc : diff) (field : string) : option diff :=
  let '(agreed, conflicts, one_sided) := acc in
  va ← values a field; vb ← values b field;
  match va, vb with
  | [], [] => Some acc
  | _ :: _, _ :: _ =>
      ka ← value_keys va; kb ← value_keys vb;
      Some (if bool_decide (ka = kb) then (agreed ++ [field], conflicts, one_sided)
            else (agreed, obj_insert conflicts field (json_of_list [(ls.1, JArray va); (ls.2, JArray vb)]), one_sided))
  | [], _ => Some (agreed, conflicts, obj_insert one_sided field (JString ls.2))
  | _, [] => Some (agreed, conflicts, obj_insert one_sided field (JString ls.1))
  end.
Fixpoint compare_fields (a b : list json) (ls : string * string) (fields : list string) (acc : diff) : option diff :=
  match fields with [] => Some acc | f :: t => acc ← compare_field a b ls acc f; compare_fields a b ls t acc end.
Definition compare_outcome (d : diff) : string * string :=
  let '(agreed, conflicts, one_sided) := d in
  if negb (zlen conflicts =? 0) then ("CONFLICT"%string, CONFLICT)
  else if negb (zlen one_sided =? 0) then ("UNSUPPORTED"%string, ONE_SIDED)
  else ("AGREEMENT"%string, AGREEMENT).
Definition compare_ (a b : list json) (ls : string * string) : option (list (string * json) * string * string) :=
  d ← compare_fields a b ls FIELDS ([], [], []);
  let '(outcome, statement) := compare_outcome d in
  let '(agreed, conflicts, one_sided) := d in
  Some ([("agreed_fields", JArray (map JString agreed)); ("conflicting_fields", JObject conflicts);
         ("one_sided_fields", JObject one_sided)]%string, outcome, statement).

(** [fn statement]. *)
Definition views_of (p : Party) (id : string) : list json := unwrap_or (obj_get (claims p) id) [].
Definition lacking_text (holder lacking : string) (lacking_facts : json) : string :=
  let note := if is_null (idx lacking_facts "export_complete") then "its export makes no completeness claim"%string
    else "its signed export manifest proves the presented set intact, not that the party's log holds nothing else"%string in
  (holder +:+ "'s verified bundle carries a receipt for this claim; " +:+ lacking
   +:+ "'s verified bundle contains none, and " +:+ note
   +:+ ". Absence of support is not proof that no event occurred.")%string.
Definition statement_result (id : string) (a b : Party) (ls : string * string)
    : option (list (string * json) * string * string) :=
  match views_of a id, views_of b id with
  | (_ :: _) as va, (_ :: _) as vb => compare_ va vb ls
  | _ :: _, [] => Some ([], "UNSUPPORTED"%string, lacking_text ls.1 ls.2 (party_facts b))
  | [], _ :: _ => Some ([], "UNSUPPORTED"%string, lacking_text ls.2 ls.1 (party_facts a))
  | [], [] => Some ([], "UNSUPPORTED"%string, "Neither party's verified bundle carries a receipt supporting this claim."%string)
  end.
Definition label_if (c : bool) (l : string) : list json := if c then [JString l] else [].
Definition statement (id : string) (a b : Party) (ls : string * string) : option json :=
  let va := views_of a id in let vb := views_of b id in
  let has := fun v : list json => negb (zlen v =? 0) in
  let hashes := fun v => JArray (map (fun x => idx x "_receipt_hash") v) in
  '(comparison, outcome, text) ← statement_result id a b ls;
  Some (json_of_list ([("claim_id", JString id);
      ("supported_by", JArray (label_if (has va) ls.1 ++ label_if (has vb) ls.2));
      ("unsupported_by", JArray (label_if (negb (has va)) ls.1 ++ label_if (negb (has vb)) ls.2));
      ("receipt_hashes", json_of_list [(ls.1, hashes va); (ls.2, hashes vb)])]%string
    ++ comparison
    ++ [("outcome", JString outcome); ("statement", JString text);
        ("contested", JBool (negb (String.eqb outcome "AGREEMENT")))]%string)).

(** ** The package *)

(** [fn reverify]. *)
Fixpoint statements (ids : list string) (a b : Party) (ls : string * string) : option (list json) :=
  match ids with [] => Some [] | id :: t => s ← statement id a b ls; rest ← statements t a b ls; Some (s :: rest) end.
Definition OUTCOMES : list string := ["AGREEMENT"; "CONFLICT"; "UNSUPPORTED"].
Definition count_json (p : json -> bool) (l : list json) : json := JNumber (PosInt (zlen (List.filter p l))).
Definition summary (cs : list json) : json :=
  json_of_list (map (fun o => (o, count_json (fun c => is_str (idx c "outcome") o) cs)) OUTCOMES
    ++ [("contested"%string, count_json (fun c => json_eqb (idx c "contested") (JBool true)) cs)]).
Definition population_ids (a b : Party) (contested : list string) : list string :=
  fold_left (fun acc id => set_insert id acc) ((claims a).*1 ++ (claims b).*1 ++ contested) [].
Definition recomputed (ls : string * string) (a b : Party) (cs : list json) : json :=
  json_of_list [("schema", JString "evd/two-party-reconciliation/v1"); ("scope", JString SCOPE);
    ("parties", json_of_list [(ls.1, party_facts a); (ls.2, party_facts b)]); ("claims", JArray cs);
    ("summary", summary cs)]%string.
Definition reverify (package : json) : option json :=
  '(ls, bundles, contested) ← inputs package;
  a ← (x ← obj_get bundles ls.1; party x); b ← (x ← obj_get bundles ls.2; party x);
  reject_if json_eqb (idx (party_facts a) "origin") (idx (party_facts b) "origin")
         || json_eqb (idx (party_facts a) "trust_root") (idx (party_facts b) "trust_root") with None;
  cs ← statements (population_ids a b contested) a b ls;
  let r := recomputed ls a b cs in
  k ← value_key r; k' ← value_key (idx package "reconciliation");
  then_some (String.eqb k k') r.

(** [fn verify_json]. *)
Definition verify_json (raw : bytes) : option (json * string) :=
  reject_if 2 * MAX_BUNDLE_BYTES <? zlen raw with None;
  package ← strict_json raw;
  reconciliation ← reverify package;
  canon ← canonical_checked package;
  Some (reconciliation, hex (sha256 canon)).

(** [fn verify_dispute_json] of lib.rs, as the value it prints. *)
Definition verify_dispute_json (package_json : bytes) : json :=
  let '(verdict, reconciliation, package_digest) :=
    match verify_json package_json with
    | Some (facts, digest) => ("VERIFIED"%string, facts, Some digest)
    | None => ("NOT_VERIFIED"%string, JNull, None)
    end in
  json_of_list [("schema", JString "evd/dispute-verification-result/v1"); ("verdict", JString verdict);
    ("reconciliation", reconciliation); ("package_digest", json_of_opt package_digest)]%string.
End Dispute.

(** ** The outcome of a claim *)

Section DisputeFacts.
Context {H : Hash} {SD : Serde} {B : Base64} {ED : Ed25519} {T : Tsa} {D : Display}.

(** How the two sides stand on one field. *)
Inductive standing := Absent | Agreed | Differs | OneSided.
Definition standing_of (a b : list json) (field : string) : option standing :=
  va ← values a field; vb ← values b field;
  match va, vb with
  | [], [] => Some Absent
  | _ :: _, _ :: _ => ka ← value_keys va; kb ← value_keys vb; Some (if bool_decide (ka = kb) then Agreed else Differs)
  | _, _ => Some OneSided
  end.

Lemma obj_insert_nonempty {A} (m : list (string * A)) k v : obj_insert m k v <> [].
Proof. destruct m as [|[i x] m]; cbn; [done|]. destruct (String.eqb k i); [done|]. by destruct (str_ltb k i). Qed.

Lemma compare_field_standing a b ls acc field :
  match standing_of a b field with
  | None => compare_field a b ls acc field = None
  | Some st => exists d, compare_field a b ls acc field = Some d /\
      d.1.1 = acc.1.1 ++ (match st with Agreed => [field] | _ => [] end) /\
      (d.1.2 = [] <-> acc.1.2 = [] /\ st <> Differs) /\ (d.2 = [] <-> acc.2 = [] /\ st <> OneSided)
  end.
Proof.
  unfold standing_of, compare_field. destruct acc as [[agreed conflicts] one_sided].
  destruct (values a field) as [va|]; [|done]. destruct (values b field) as [vb|]; [|done]. cbn [mbind option_bind].
  destruct va as [|x va], vb as [|y vb].
  - eexists. split; [done|]. cbn. rewrite app_nil_r. naive_solver.
  - eexists. split; [done|]. cbn. rewrite app_nil_r. pose proof (obj_insert_nonempty one_sided field (JString ls.2)). naive_solver.
  - eexists. split; [done|]. cbn. rewrite app_nil_r. pose proof (obj_insert_nonempty one_sided field (JString ls.1)). naive_solver.
  - destruct (value_keys (x :: va)) as [ka|]; [|done]. destruct (value_keys (y :: vb)) as [kb|]; [|done]. cbn [mbind option_bind].
    destruct (bool_decide (ka = kb)); eexists; (split; [done|]); cbn; rewrite ?app_nil_r; [naive_solver|].
    pose proof (obj_insert_nonempty conflicts field (json_of_list [(ls.1, JArray (x :: va)); (ls.2, JArray (y :: vb))])). naive_solver.
Qed.

(** The standings of all the fields, when every value has a text. *)
Fixpoint standings (a b : list json) (fields : list string) : option (list standing) :=
  match fields with [] => Some [] | f :: t => s ← standing_of a b f; rest ← standings a b t; Some (s :: rest) end.

Lemma compare_fields_standings a b ls fields : forall acc,
  match standings a b fields with
  | None => compare_fields a b ls fields acc = None
  | Some sts => exists d, compare_fields a b ls fields acc = Some d /\
      (d.1.2 = [] <-> acc.1.2 = [] /\ Differs ∉ sts) /\ (d.2 = [] <-> acc.2 = [] /\ OneSided ∉ sts)
  end.
Proof.
  induction fields as [|f t IH]; intros acc; cbn [standings compare_fields].
  { exists acc. split; [done|]. setoid_rewrite elem_of_nil. naive_solver. }
  pose proof (compare_field_standing a b ls acc f) as Hf. destruct (standing_of a b f) as [st|]; cbn [mbind option_bind].
  2:{ by rewrite Hf. }
  destruct Hf as (d & -> & _ & Hc & Ho). cbn [mbind option_bind]. specialize (IH d).
  destruct (standings a b t) as [sts|]; cbn [mbind option_bind]; [|done].
  destruct IH as (d' & Hd' & Hc' & Ho'). exists d'. split; [done|]. rewrite !not_elem_of_cons. naive_solver.
Qed.

#[export] Instance standing_eq_dec : EqDecision standing.
Proof. solve_decision. Defined.

(** The outcome of two non-empty sides. *)
Definition outcome_of (sts : list standing) : string :=
  if decide (Differs ∈ sts) then "CONFLICT" else if decide (OneSided ∈ sts) then "UNSUPPORTED" else "AGREEMENT".

Lemma compare_outcome_of a b ls :
  (compare_ a b ls) ≫= (fun r => Some r.1.2) = (sts ← standings a b FIELDS; Some (outcome_of sts)).
Proof.
  unfold compare_. pose proof (compare_fields_standings a b ls FIELDS ([], [], [])) as Hf.
  destruct (standings a b FIELDS) as [sts|]; [|by rewrite Hf]. destruct Hf as ([[agreed conflicts] one_sided] & -> & Hc & Ho).
  cbn [mbind option_bind fst snd] in *. unfold compare_outcome, outcome_of.
  destruct conflicts as [|c conflicts]; cbn -[zlen].
  - rewrite decide_False by naive_solver. destruct one_sided as [|o one_sided].
    + by rewrite decide_False by naive_solver.
    + rewrite decide_True; [|destruct (decide (OneSided ∈ sts)); [done|naive_solver]].
      change (zlen (@nil (string * json)) =? 0) with true. cbn [negb]. rewrite zlen_cons. pose proof (zlen_nonneg one_sided).
      by rewrite (proj2 (Z.eqb_neq (1 + zlen one_sided) 0)) by lia.
  - rewrite decide_True; [|destruct (decide (Differs ∈ sts)); [done|naive_solver]].
    rewrite zlen_cons. pose proof (zlen_nonneg conflicts). by rewrite (proj2 (Z.eqb_neq (1 + zlen conflicts) 0)) by lia.
Qed.

Lemma standing_of_comm a b field : standing_of a b field = standing_of b a field.
Proof.
  unfold standing_of. destruct (values a field) as [va|], (values b field) as [vb|]; cbn [mbind option_bind]; try done.
  destruct va as [|x va], vb as [|y vb]; try done.
  destruct (value_keys (x :: va)) as [ka|], (value_keys (y :: vb)) as [kb|]; cbn [mbind option_bind]; try done.
  by rewrite (bool_decide_ext (ka = kb) (kb = ka)) by (split; congruence).
Qed.
Lemma standings_comm a b fields : standings a b fields = standings b a fields.
Proof. induction fields as [|f t IH]; cbn; [done|]. by rewrite standing_of_comm, IH. Qed.

(** The outcome of a claim, from the two parties' receipts for it. *)
Definition claim_outcome (a b : Party) (id : string) : option string :=
  match views_of a id, views_of b id with
  | (_ :: _) as va, (_ :: _) as vb => sts ← standings va vb FIELDS; Some (outcome_of sts)
  | _, _ => Some "UNSUPPORTED"%string
  end.

Lemma statement_result_outcome id a b ls :
  (statement_result id a b ls ≫= fun r => Some r.1.2) = claim_outcome a b id.
Proof.
  unfold statement_result, claim_outcome. destruct (views_of a id) as [|x va], (views_of b id) as [|y vb]; try done.
  apply compare_outcome_of.
Qed.

Lemma statement_members id a b ls s : statement id a b ls = Some s ->
  exists outcome, claim_outcome a b id = Some outcome /\ get_str s "claim_id" = Some id /\
    get_str s "outcome" = Some outcome /\ get s "contested" = Some (JBool (negb (String.eqb outcome "AGREEMENT"))).
Proof.
  unfold statement. cbv zeta. intros E. apply bind_Some in E as ([[comparison outcome] text] & Hr & E). apply (inj Some) in E. subst s.
  pose proof (statement_result_outcome id a b ls) as Ho. rewrite Hr in Ho. cbn [mbind option_bind fst snd] in Ho.
  exists outcome. split; [done|]. unfold get_str. rewrite !get_json_of_list, !rev_app_distr, !obj_get_app. cbn [rev app obj_get].
  cbn [String.eqb Ascii.eqb Bool.eqb].
  assert (obj_get (rev comparison) "claim_id" = None) as ->; [|done].
  unfold statement_result in Hr. destruct (views_of a id) as [|x va], (views_of b id) as [|y vb]; try (injection Hr as <- _ _; done).
  unfold compare_ in Hr. apply bind_Some in Hr as ([[agreed conflicts] one_sided] & _ & Hr).
  destruct (compare_outcome _) as [o st]. injection Hr as <- _ _. done.
Qed.

Lemma claim_outcome_value a b id o : claim_outcome a b id = Some o -> o ∈ OUTCOMES.
Proof.
  unfold claim_outcome, OUTCOMES. intros E. rewrite !elem_of_cons. destruct (views_of a id), (views_of b id); try (injection E as <-; tauto).
  apply bind_Some in E as (sts & _ & E). injection E as <-. unfold outcome_of. repeat case_decide; tauto.
Qed.

Lemma statements_spec ids a b ls cs : statements ids a b ls = Some cs ->
  Forall2 (fun id c => statement id a b ls = Some c) ids cs.
Proof.
  revert cs. induction ids as [|id t IH]; intros cs; cbn [statements]; [by intros [= <-]|].
  intros E. apply bind_Some in E as (s & Hs & E). apply bind_Some in E as (rest & Hr & E). injection E as <-.
  constructor; auto.
Qed.

(** ** The population, in order *)

Lemma set_insert_in x y l : y ∈ set_insert x l <-> y = x \/ y ∈ l.
Proof.
  induction l as [|z l IH]; cbn; [rewrite list_elem_of_singleton, elem_of_nil; tauto|].
  destruct (String.eqb_spec x z) as [->|]; [rewrite elem_of_cons; tauto|].
  destruct (str_ltb x z); rewrite !elem_of_cons; [tauto|]. rewrite IH. tauto.
Qed.
Lemma set_insert_sorted x l : StronglySorted (fun a b => str_ltb a b = true) l ->
  StronglySorted (fun a b => str_ltb a b = true) (set_insert x l).
Proof.
  induction 1 as [|z l Hs IH Hz]; cbn; [repeat constructor|].
  destruct (String.eqb_spec x z) as [->|Hne]; [by constructor|]. destruct (str_ltb x z) eqn:E.
  - constructor; [by constructor|]. constructor; [done|]. eapply Forall_impl; [exact Hz|]. intros y Hy. exact (str_ltb_trans _ _ _ E Hy).
  - constructor; [done|]. apply Forall_forall. intros y Hy. apply set_insert_in in Hy as [->|Hy].
    + by apply str_ltb_total.
    + rewrite Forall_forall in Hz. auto.
Qed.
Lemma population_spec a b contested :
  StronglySorted (fun x y => str_ltb x y = true) (population_ids a b contested) /\
  forall id, id ∈ population_ids a b contested <-> id ∈ (claims a).*1 \/ id ∈ (claims b).*1 \/ id ∈ contested.
Proof.
  unfold population_ids.
  assert (forall l acc, StronglySorted (fun x y => str_ltb x y = true) acc ->
    StronglySorted (fun x y => str_ltb x y = true) (fold_left (fun acc id => set_insert id acc) l acc) /\
    forall id, id ∈ fold_left (fun acc id => set_insert id acc) l acc <-> id ∈ acc \/ id ∈ l) as Hf.
  { induction l as [|x l IH]; intros acc Hacc; cbn [fold_left].
    { split; [done|]. intros id. rewrite elem_of_nil. tauto. }
    destruct (IH (set_insert x acc)) as [Hs Hin]; [by apply set_insert_sorted|]. split; [done|].
    intros id. rewrite Hin, set_insert_in, elem_of_cons. tauto. }
  destruct (Hf ((claims a).*1 ++ (claims b).*1 ++ contested) []) as [Hs Hin]; [constructor|]. split; [done|].
  intros id. rewrite Hin, !elem_of_app, elem_of_nil. tauto.
Qed.

(** ** The counts *)

Definition count (p : json -> bool) (l : list json) : Z := zlen (List.filter p l).
Lemma outcome_counts a b ls ids cs : statements ids a b ls = Some cs ->
  count (fun c => is_str (idx c "outcome") "AGREEMENT") cs + count (fun c => is_str (idx c "outcome") "CONFLICT") cs
    + count (fun c => is_str (idx c "outcome") "UNSUPPORTED") cs = zlen cs /\
  count (fun c => json_eqb (idx c "contested") (JBool true)) cs
    = count (fun c => is_str (idx c "outcome") "CONFLICT") cs + count (fun c => is_str (idx c "outcome") "UNSUPPORTED") cs.
Proof.
  intros E. apply statements_spec in E. induction E as [|id c ids cs Hc _ IH]; [done|].
  apply statement_members in Hc as (o & Ho & _ & Hout & Hcon). apply claim_outcome_value in Ho.
  unfold get_str in Hout. apply bind_Some in Hout as (x & Hx & Hout). destruct x; try done. injection Hout as ->.
  unfold count in *. cbn [List.filter]. unfold idx in *. rewrite Hx, Hcon. cbn [unwrap_or is_str json_eqb].
  unfold OUTCOMES in Ho. set_unfold in Ho. destruct Ho as [->|[->|[->|[]]]]; cbn; rewrite !zlen_cons; lia.
Qed.

Lemma standings_elem va vb fields sts : standings va vb fields = Some sts ->
  forall st, st ∈ sts <-> exists f, f ∈ fields /\ standing_of va vb f = Some st.
Proof.
  revert sts. induction fields as [|f t IH]; intros sts; cbn [standings].
  { intros [= <-] st. setoid_rewrite elem_of_nil. naive_solver. }
  intros E. apply bind_Some in E as (s & Hs & E). apply bind_Some in E as (rest & Hr & E). injection E as <-.
  intros st. specialize (IH _ Hr st). setoid_rewrite elem_of_cons. rewrite IH. split.
  - intros [->|(f' & Hf & Hst)]; eauto.
  - intros (f' & [->|Hf] & Hst); [left; congruence|eauto].
Qed.

Lemma standings_Some va vb fields :
  is_Some (standings va vb fields) <-> forall f, f ∈ fields -> standing_of va vb f <> None.
Proof.
  induction fields as [|f t IH]; cbn [standings]; [split; [intros _ f Hf; by apply elem_of_nil in Hf|by eexists]|].
  setoid_rewrite elem_of_cons. destruct (standing_of va vb f) as [st|] eqn:E; cbn [mbind option_bind].
  - destruct (standings va vb t) as [sts|]; cbn [mbind option_bind].
    + split; [|by eexists]. intros _ f' [->|Hf]; [congruence|]. by apply IH; [eexists|].
    + split; [by intros [? ?]|]. intros Hall. destruct IH as [_ IH]. apply IH. auto.
  - split; [by intros [? ?]|]. intros Hall. by destruct (Hall f (or_introl eq_refl)).
Qed.

Lemma outcome_of_spec sts :
  (outcome_of sts = "CONFLICT"%string <-> Differs ∈ sts) /\
  (outcome_of sts = "AGREEMENT"%string <-> (Differs ∉ sts) /\ (OneSided ∉ sts)).
Proof. unfold outcome_of. repeat case_decide; split; naive_solver. Qed.

Lemma claim_outcome_views a b id o : o <> "UNSUPPORTED"%string -> claim_outcome a b id = Some o <->
  views_of a id <> [] /\ views_of b id <> [] /\
  exists sts, standings (views_of a id) (views_of b id) FIELDS = Some sts /\ outcome_of sts = o.
Proof.
  intros Ho. unfold claim_outcome. destruct (views_of a id) as [|x va]; [naive_solver congruence|].
  destruct (views_of b id) as [|y vb]; [naive_solver congruence|].
  destruct (standings (x :: va) (y :: vb) FIELDS) as [sts|]; cbn [mbind option_bind]; naive_solver.
Qed.

Lemma statement_outcome a b ls id : (s ← statement id a b ls; get_str s "outcome") = claim_outcome a b id.
Proof.
  destruct (statement id a b ls) as [s|] eqn:E.
  - apply statement_members in E as (o & Ho & _ & Hout & _). cbn [mbind option_bind]. congruence.
  - rewrite <- (statement_result_outcome id a b ls). unfold statement in E. cbv zeta in E.
    by destruct (statement_result id a b ls) as [[[? ?] ?]|].
Qed.

Lemma claim_outcome_comm a b id : claim_outcome a b id = claim_outcome b a id.
Proof.
  unfold claim_outcome. destruct (views_of a id) as [|x va], (views_of b id) as [|y vb]; try done. by rewrite standings_comm.
Qed.

(** What an outcome says of a claim, and that it favours neither party.  A statement's
    outcome is CONFLICT exactly when both parties carry receipts for the claim and some
    compared field is carried by both with different sets of values; it is AGREEMENT
    exactly when both carry receipts and on every compared field both are silent or
    carry the same set of values; and the parties exchanged, with their labels, get
    the same outcome. *)
Theorem dispute_outcome (a b : Party) (ls : string * string) (id : string) :
  let outcome_of_statement := s ← statement id a b ls; get_str s "outcome" in
  let comparable := views_of a id <> [] /\ views_of b id <> [] /\
    forall f, f ∈ FIELDS -> standing_of (views_of a id) (views_of b id) f <> None in
  (outcome_of_statement = Some "CONFLICT"%string <-> comparable /\
     exists f, f ∈ FIELDS /\ standing_of (views_of a id) (views_of b id) f = Some Differs) /\
  (outcome_of_statement = Some "AGREEMENT"%string <-> comparable /\
     forall f, f ∈ FIELDS -> standing_of (views_of a id) (views_of b id) f = Some Absent \/
       standing_of (views_of a id) (views_of b id) f = Some Agreed) /\
  outcome_of_statement = (s ← statement id b a (ls.2, ls.1); get_str s "outcome").
Proof.
  cbv zeta. rewrite !statement_outcome. split_and!; [| |apply claim_outcome_comm];
    rewrite claim_outcome_views by done; setoid_rewrite <- standings_Some.
  - split.
    + intros (Ha & Hb & sts & Hs & Ho). apply outcome_of_spec in Ho. split; [by split_and!; [..|eexists]|].
      by apply (standings_elem _ _ _ _ Hs).
    + intros ((Ha & Hb & sts & Hs) & Hf). split_and!; [done..|]. exists sts. split; [done|].
      apply outcome_of_spec. by apply (standings_elem _ _ _ _ Hs).
  - split.
    + intros (Ha & Hb & sts & Hs & Ho). apply outcome_of_spec in Ho as [Hd Hone].
      assert (is_Some (standings (views_of a id) (views_of b id) FIELDS)) as Hsome by by eexists.
      split; [by split_and!|]. intros f Hf. pose proof (proj1 (standings_Some _ _ _) Hsome f Hf) as Hn.
      pose proof (standings_elem _ _ _ _ Hs) as Hel.
      destruct (standing_of _ _ f) as [[]|] eqn:E; [by left|by right| |..|done];
        exfalso; [apply Hd|apply Hone]; apply Hel; eauto.
    + intros ((Ha & Hb & sts & Hs) & Hf). split_and!; [done..|]. exists sts. split; [done|].
      apply outcome_of_spec. split; intros Hin; apply (standings_elem _ _ _ _ Hs) in Hin as (f & Hff & Hst);
        destruct (Hf f Hff); congruence.
Qed.

End DisputeFacts.
