(* ===== verification/DisputeText.v ===== *)
(** * DisputeText: the texts a dispute compares (dispute.rs)

    [value_key] prints a value so that equal texts can stand for equal values.  Here: on
    values without binary floats and with well-formed strings the text names the value, so
    the outcome of a claim is decided by the values the two parties' receipts carry. *)
From S2P Require Import Prelude Hash Text Unicode Json Jcs Utc Dsse Checkpoint Trust Bundle PyValue Verdict Dispute.

(** ** What serde_json prints *)

(** The escapes of a JSON string: printable ASCII and every byte of a longer character stand
    for themselves, a quote, a backslash and some controls are two bytes, the other controls
    their number in four digits. *)
Record Escapes (escape : u8 -> bytes) : Prop := {
  escape_plain : forall b, 32 <= b < 256 -> b <> 34 -> b <> 92 -> escape b = [b];
  escape_special : forall b, 0 <= b < 32 \/ b = 34 \/ b = 92 ->
    (exists x, 32 <= x < 127 /\ x <> 117 /\ escape b = [92; x]) \/ (b < 32 /\ escape b = 92 :: 117 :: hex4 b);
  escape_inj : forall b b', 0 <= b < 128 -> 0 <= b' < 128 -> escape b = escape b' -> b = b';
}.
Class SerdeText {SD : Serde} {D : Display} : Prop := {
  string_text : exists escape, Escapes escape /\ forall s, write_string s = 34 :: flat_map escape (str_bytes s) ++ [34];
  null_text : value_display JNull = "null";
  bool_text : forall b, value_display (JBool b) = if b then "true" else "false";
  integer_text : forall n, value_display (JNumber (PosInt n)) = int_to_string n /\ value_display (JNumber (NegInt n)) = int_to_string n;
}.

(** Values whose text names them: no binary float, and strings that are UTF-8. *)
Definition text_ok (s : string) : bool := utf8_valid (str_bytes s).
Fixpoint nameable (v : json) : bool :=
  match v with
  | JNumber (Float _) => false
  | JString s => text_ok s
  | JArray l => forallb nameable l
  | JObject m => forallb (fun kv => text_ok kv.1 && nameable kv.2) m
  | _ => true
  end.

(** ** Strings *)

(** What one character becomes. *)
Inductive CharText (escape : u8 -> bytes) : Z -> bytes -> Prop :=
| char_plain c : 32 <= c < 127 -> c <> 34 -> c <> 92 -> CharText escape c [c]
| char_short c x : 0 <= c < 128 -> x <> 117 -> escape c = [92; x] -> CharText escape c [92; x]
| char_unit c : 0 <= c < 65536 -> scalar c -> CharText escape c (92 :: 117 :: hex4 c)
| char_pair c h l : 55296 <= h < 56320 -> 56320 <= l < 57344 -> c = 65536 + (h - 55296) * 1024 + (l - 56320) ->
    CharText escape c ((92 :: 117 :: hex4 h) ++ 92 :: 117 :: hex4 l).

Lemma hex_digit_ascii n : 0 <= n < 16 -> 48 <= hex_digit n < 103.
Proof. intros Hn. unfold hex_digit. change #"0" with 48. change #"a" with 97. destruct (Z.ltb_spec n 10); lia. Qed.
Lemma hex_digit_inj n m : 0 <= n < 16 -> 0 <= m < 16 -> hex_digit n = hex_digit m -> n = m.
Proof. intros Hn Hm E. pose proof (nibble_digit n Hn) as H1. rewrite E, (nibble_digit m Hm) in H1. congruence. Qed.

Lemma hex4_digits u : 0 <= u < 65536 ->
  hex4 u = [hex_digit (u / 4096); hex_digit (u / 256 mod 16); hex_digit (u / 16 mod 16); hex_digit (u mod 16)].
Proof.
  intros Hu. unfold hex4, hex_bytes. cbn [flat_map app]. change 255 with (2 ^ 8 - 1). change 15 with (2 ^ 4 - 1).
  rewrite !land_ones_mod, !Z.shiftr_div_pow2 by lia. change (2 ^ 8) with 256. change (2 ^ 4) with 16.
  replace (u / 256 / 16) with (u / 4096) by (Z.to_euclidean_division_equations; lia).
  replace (u mod 256 / 16) with (u / 16 mod 16) by (Z.to_euclidean_division_equations; lia).
  by replace (u mod 256 mod 16) with (u mod 16) by (Z.to_euclidean_division_equations; lia).
Qed.
Lemma hex4_range u : 0 <= u < 65536 -> Forall (fun b => 48 <= b < 103) (hex4 u).
Proof.
  intros Hu. rewrite hex4_digits by done.
  repeat constructor; apply hex_digit_ascii; Z.to_euclidean_division_equations; lia.
Qed.
Lemma hex4_prefix u v r r' : 0 <= u < 65536 -> 0 <= v < 65536 -> hex4 u ++ r = hex4 v ++ r' -> u = v /\ r = r'.
Proof.
  intros Hu Hv. rewrite !hex4_digits by done. cbn [app]. intros E. injection E as E1 E2 E3 E4 ->.
  apply hex_digit_inj in E1; [|Z.to_euclidean_division_equations; lia..].
  apply hex_digit_inj in E2; [|Z.to_euclidean_division_equations; lia..].
  apply hex_digit_inj in E3; [|Z.to_euclidean_division_equations; lia..].
  apply hex_digit_inj in E4; [|Z.to_euclidean_division_equations; lia..].
  split; [|done]. Z.to_euclidean_division_equations; lia.
Qed.

Lemma two_more (a b : u8) l l' : a :: b :: l = a :: b :: l' -> l = l'.
Proof. by intros [= ->]. Qed.

(** A character's text says which character it is, and where it ends. *)
Lemma char_text_prefix escape c c' t t' r r' : Escapes escape -> CharText escape c t -> CharText escape c' t' ->
  t ++ r = t' ++ r' -> c = c' /\ r = r'.
Proof.
  intros [_ _ Hinj] Hc Hc' E.
  destruct Hc as [c Hc Hq Hb|c x Hc Hx Ex|c Hc Hs|c h l Hh Hl ->], Hc' as [c' Hc' Hq' Hb'|c' x' Hc' Hx' Ex'|c' Hc' Hs'|c' h' l' Hh' Hl' ->];
    rewrite <- ?app_assoc in E; cbn [app] in E; try (injection E; congruence).
  - by injection E as -> ->.
  - injection E as -> ->. split; [|done]. apply Hinj; [done..|congruence].
  - apply two_more in E. by apply hex4_prefix in E.
  - apply two_more in E. apply hex4_prefix in E as [-> _]; unfold scalar in *; lia.
  - apply two_more in E. apply hex4_prefix in E as [-> _]; unfold scalar in *; lia.
  - apply two_more, hex4_prefix in E as [-> E]; [|lia..]. apply two_more, hex4_prefix in E as [-> ->]; [done|lia..].
Qed.
Lemma char_text_head escape c t : CharText escape c t -> exists b u, t = b :: u /\ b <> 34.
Proof. intros [c' H1 H2 H3|c' x H1 H2 H3|c' H1 H2|c' h l H1 H2 H3]; cbn; eauto; eexists _, _; split; done. Qed.
Lemma char_text_ascii escape c t : Escapes escape -> CharText escape c t -> Forall is_byte t.
Proof.
  unfold is_byte. intros [He Hsp _] [c' H1 H2 H3|c' x H1 H2 H3|c' H1 H2|c' h l H1 H2 H3].
  - repeat constructor; lia.
  - destruct (decide (32 <= c' /\ c' <> 34 /\ c' <> 92)).
    + rewrite He in H3 by lia. done.
    + destruct (Hsp c') as [(y & Hy & _ & E)|[_ E]]; [lia| |]; rewrite E in H3; [|done]. injection H3 as <-. repeat constructor; lia.
  - repeat (constructor; [lia|]). eapply Forall_impl; [by apply hex4_range|]. cbn. lia.
  - apply Forall_app; split; repeat (constructor; [lia|]); (eapply Forall_impl; [apply hex4_range; lia|]); cbn; lia.
Qed.

Definition char_code (escape : u8 -> bytes) (c : Z) : bytes := flat_map ascii_char (if c <? 128 then escape c else [c]).

Lemma ascii_char_self b : 0 <= b < 127 -> ascii_char b = [b].
Proof. intros Hb. unfold ascii_char. rewrite (proj2 (Z.ltb_lt b 128)), (proj2 (Z.eqb_neq b 127)) by lia. done. Qed.
Lemma ascii_chars_self t : Forall (fun b => 0 <= b < 127) t -> flat_map ascii_char t = t.
Proof. induction 1 as [|b t Hb _ IH]; [done|]. cbn [flat_map]. by rewrite ascii_char_self, IH. Qed.

Lemma char_code_text escape c : Escapes escape -> scalar c -> CharText escape c (char_code escape c).
Proof.
  intros [Hp Hsp _] Hc. unfold char_code. destruct (Z.ltb_spec c 128) as [Hl|Hl].
  - destruct (decide (c = 127)) as [->|].
    { rewrite Hp by lia. apply (char_unit _ 127); [lia|done]. }
    destruct (decide (32 <= c /\ c <> 34 /\ c <> 92)).
    { rewrite Hp, ascii_chars_self by (try (repeat constructor); lia). apply char_plain; lia. }
    destruct (Hsp c) as [(x & Hx & Hne & E)|[Hlt E]]; [unfold scalar in Hc; lia| |]; rewrite E.
    + rewrite ascii_chars_self by (repeat constructor; lia). apply char_short; [unfold scalar in Hc; lia|done|done].
    + rewrite ascii_chars_self; [apply char_unit; [unfold scalar in Hc; lia|done]|].
      repeat (constructor; [lia|]). eapply Forall_impl; [apply hex4_range; unfold scalar in Hc; lia|]. cbn. lia.
  - cbn [flat_map]. rewrite app_nil_r. unfold ascii_char. rewrite (proj2 (Z.ltb_ge c 128)) by lia. cbn [andb].
    unfold encode_utf16_char. destruct (Z.ltb_spec c 65536); cbn [flat_map app]; rewrite ?app_nil_r.
    + apply (char_unit _ c); [lia|done].
    + unfold scalar in Hc. rewrite Z.shiftr_div_pow2 by lia. change 1023 with (2 ^ 10 - 1). rewrite land_ones_mod by lia.
      change (2 ^ 10) with 1024. apply (char_pair escape c (55296 + _) (56320 + _)); Z.to_euclidean_division_equations; lia.
Qed.

Lemma char_codes_prefix escape cs cs' r r' : Escapes escape -> Forall scalar cs -> Forall scalar cs' ->
  flat_map (char_code escape) cs ++ 34 :: r = flat_map (char_code escape) cs' ++ 34 :: r' -> cs = cs' /\ r = r'.
Proof.
  intros He Hcs. revert cs'. induction Hcs as [|c cs Hc _ IH]; intros [|c' cs'] Hcs'; cbn [flat_map].
  - by intros [= ->].
  - apply Forall_cons in Hcs' as [Hc' _]. destruct (char_text_head _ _ _ (char_code_text escape c' He Hc')) as (b & u & -> & Hb).
    intros [= Hq]. congruence.
  - destruct (char_text_head _ _ _ (char_code_text escape c He Hc)) as (b & u & -> & Hb). intros [= Hq]. congruence.
  - apply Forall_cons in Hcs' as [Hc' Hcs']. rewrite <- !app_assoc. intros E.
    apply (char_text_prefix escape c c' _ _ _ _ He (char_code_text _ _ He Hc) (char_code_text _ _ He Hc')) in E as [-> E].
    by destruct (IH cs' Hcs' E) as [-> ->].
Qed.

Section Strings.
Context {SD : Serde} {D : Display} {ST : SerdeText}.

(** The characters of the JSON text of a string. *)
Lemma escaped_chars escape cs : Escapes escape -> Forall scalar cs -> forall r,
  utf8_chars (flat_map escape (flat_map utf8_encode cs) ++ r) = flat_map (fun c => if c <? 128 then escape c else [c]) cs ++ utf8_chars r.
Proof.
  intros [Hp Hsp _] Hcs r. induction Hcs as [|c cs Hc _ IH]; [done|]. cbn [flat_map]. rewrite flat_map_app, <- !app_assoc.
  destruct (Z.ltb_spec c 128) as [Hl|Hl].
  - assert (utf8_encode c = [c]) as -> by (unfold utf8_encode; by rewrite (proj2 (Z.ltb_lt c 128)) by lia).
    cbn [flat_map]. rewrite app_nil_r, utf8_chars_ascii; [by rewrite IH|].
    destruct (decide (32 <= c /\ c <> 34 /\ c <> 92)); [rewrite Hp by lia; repeat constructor; lia|].
    destruct (Hsp c) as [(x & Hx & _ & ->)|[Hlt ->]]; [unfold scalar in Hc; lia|repeat constructor; lia|].
    repeat (constructor; [lia|]). eapply Forall_impl; [apply hex4_range; unfold scalar in Hc; lia|]. cbn. lia.
  - assert (flat_map escape (utf8_encode c) = utf8_encode c) as ->.
    { assert (forall l, Forall (fun b => 128 <= b < 256) l -> flat_map escape l = l) as Hself.
      { induction 1 as [|b l Hb _ IHl]; [done|]. cbn [flat_map]. by rewrite Hp, IHl by lia. }
      apply Hself. unfold utf8_encode, scalar in *. rewrite (proj2 (Z.ltb_ge c 128)) by lia.
      destruct (Z.ltb_spec c 2048); [|destruct (Z.ltb_spec c 65536)]; repeat constructor;
        Z.to_euclidean_division_equations; lia. }
    rewrite utf8_chars_app by done. cbn [app]. by rewrite IH.
Qed.

Lemma ascii_string_text : exists escape, Escapes escape /\ forall s, text_ok s = true ->
  str_bytes (ascii_string s) = 34 :: flat_map (char_code escape) (chars s) ++ [34] /\ Forall scalar (chars s).
Proof.
  destruct string_text as (escape & He & Hw). exists escape. split; [done|]. intros s Hs.
  destruct (utf8_chars_encode (str_bytes s) Hs (str_bytes_range s)) as [Es Hsc]. fold (chars s) in Es, Hsc. split; [|done].
  unfold ascii_string. rewrite Hw, Es. change (34 :: ?l ++ [34]) with ([34] ++ (l ++ [34])).
  rewrite utf8_chars_ascii by (repeat constructor; lia). rewrite (escaped_chars escape (chars s) He Hsc [34]).
  cbn [utf8_chars Z.ltb Z.compare]. rewrite !flat_map_app.
  assert (forall cs, flat_map ascii_char (flat_map (fun c => if c <? 128 then escape c else [c]) cs) = flat_map (char_code escape) cs) as ->.
  { induction cs as [|c cs IH]; [done|]. cbn [flat_map]. by rewrite flat_map_app, IH. }
  change (flat_map ascii_char [34]) with [34]. cbn [app]. apply str_bytes_str. constructor; [unfold is_byte; lia|].
  apply Forall_app. split; [|repeat constructor; lia]. clear Es. induction Hsc as [|c cs Hc _ IH]; [done|]. cbn [flat_map].
  apply Forall_app. split; [|done]. eapply char_text_ascii; [done|]. by apply char_code_text.
Qed.

Lemma ascii_string_prefix s t r r' : text_ok s = true -> text_ok t = true ->
  str_bytes (ascii_string s) ++ r = str_bytes (ascii_string t) ++ r' -> s = t /\ r = r'.
Proof.
  destruct ascii_string_text as (escape & He & Ht). intros Hs Htk. destruct (Ht s Hs) as [-> Hc], (Ht t Htk) as [-> Hc'].
  cbn [app]. rewrite <- !app_assoc. intros E%tail_eq. eapply char_codes_prefix in E as [E ->]; [|done..].
  split; [|done]. by apply chars_inj.
Qed.
Lemma ascii_string_head s : text_ok s = true -> exists t, str_bytes (ascii_string s) = 34 :: t.
Proof. destruct ascii_string_text as (escape & He & Ht). intros Hs. destruct (Ht s Hs) as [-> _]. eauto. Qed.
End Strings.

(** ** Values *)
Section Values.
Context {SD : Serde} {D : Display} {ST : SerdeText}.

Lemma value_key_array l :
  value_key (JArray l) = (parts ← mapM value_key l; Some ("[" +:+ join_str ", " parts +:+ "]")%string).
Proof.
  cbn [value_key]. match goal with |- (?go l ≫= _) = _ => assert (go l = mapM value_key l) as -> end; [|done].
  induction l as [|x l IH]; [done|]. cbn [mapM]. by rewrite <- IH.
Qed.
Definition member_key (kv : string * json) : option string :=
  k ← value_key kv.2; Some (ascii_string kv.1 +:+ ": " +:+ k)%string.
Lemma value_key_object m :
  value_key (JObject m) = (pairs ← mapM member_key m; Some ("{" +:+ join_str ", " pairs +:+ "}")%string).
Proof.
  cbn [value_key]. match goal with |- (?go m ≫= _) = _ => assert (go m = mapM member_key m) as -> end; [|done].
  induction m as [|[key x] m IH]; [done|]. cbn [mapM]. rewrite <- IH. unfold member_key. cbn [fst snd].
  by destruct (value_key x).
Qed.

Lemma join_text p ps close r :
  str_bytes (join_str ", " (p :: ps)) ++ close :: r =
    str_bytes p ++ match ps with [] => close :: r | _ => 44 :: 32 :: str_bytes (join_str ", " ps) ++ close :: r end.
Proof.
  unfold join_str. destruct ps as [|q ps]; [done|]. change (String.concat ", " (p :: q :: ps)) with (p +:+ ", " +:+ String.concat ", " (q :: ps)).
  rewrite !string_bytes_app, <- !app_assoc. done.
Qed.

Lemma value_key_head v k : nameable v = true -> value_key v = Some k -> exists c t, str_bytes k = c :: t /\ head_of v c.
Proof.
  destruct v as [|b|[n|n|f]|s|l|m]; intros Hn E; try discriminate Hn.
  - injection E as <-. change (value_display JNull) with (value_display JNull). rewrite null_text. by eexists _, _.
  - injection E as <-. rewrite bool_text. destruct b; by eexists _, _.
  - injection E as <-. destruct (integer_text n) as [-> _]. destruct (int_text n) as (c & t & -> & Hc & _). eauto.
  - injection E as <-. destruct (integer_text n) as [_ ->]. destruct (int_text n) as (c & t & -> & Hc & _). eauto.
  - injection E as <-. destruct (ascii_string_head s Hn) as [t ->]. by eexists _, _.
  - rewrite value_key_array in E. apply bind_Some in E as (parts & _ & [= <-]). rewrite string_bytes_app. by eexists _, _.
  - rewrite value_key_object in E. apply bind_Some in E as (parts & _ & [= <-]). rewrite string_bytes_app. by eexists _, _.
Qed.

(** A value's text says which value it is, and where it ends. *)
Definition named (v : json) : Prop := forall w k k' r r', json_wf v = true -> json_wf w = true ->
  nameable v = true -> nameable w = true -> value_key v = Some k -> value_key w = Some k' ->
  delimited r -> delimited r' -> str_bytes k ++ r = str_bytes k' ++ r' -> v = w /\ r = r'.

Lemma array_named l : Forall named l -> forallb json_wf l = true -> forallb nameable l = true ->
  forall l' ps qs r r', forallb json_wf l' = true -> forallb nameable l' = true ->
  mapM value_key l = Some ps -> mapM value_key l' = Some qs ->
  str_bytes (join_str ", " ps) ++ 93 :: r = str_bytes (join_str ", " qs) ++ 93 :: r' -> l = l' /\ r = r'.
Proof.
  induction 1 as [|x l Hx _ IH]; intros Hw Hn l' ps qs r r' Hw' Hn' Hp Hq E.
  - injection Hp as <-. destruct l' as [|y l']; [injection Hq as <-; by injection E as ->|]. exfalso.
    apply mapM_Some in Hq. inversion Hq as [|? q ? qs' Hy _]; subst. cbn in Hn'. apply andb_true_iff in Hn' as [Hny _].
    rewrite join_text in E. destruct (value_key_head y q Hny Hy) as (c & t & Ec & Hc). rewrite Ec in E. injection E as <- _.
    by apply head_not_close in Hc as [? _].
  - apply mapM_Some in Hp. inversion Hp as [|? p ? ps' Hpx Hps]; subst. cbn in Hw, Hn.
    apply andb_true_iff in Hw as [Hwx Hw], Hn as [Hnx Hn]. destruct l' as [|y l'].
    { exfalso. injection Hq as <-. rewrite join_text in E. destruct (value_key_head x p Hnx Hpx) as (c & t & Ec & Hc).
      rewrite Ec in E. injection E as -> _. by apply head_not_close in Hc as [? _]. }
    apply mapM_Some in Hq. inversion Hq as [|? q ? qs' Hqy Hqs]; subst. cbn in Hw', Hn'.
    apply andb_true_iff in Hw' as [Hwy Hw'], Hn' as [Hny Hn']. rewrite !join_text in E.
    eapply (Hx y) in E as [-> E]; try done; [|by destruct ps'|by destruct qs'].
    destruct ps' as [|p' ps'], qs' as [|q' qs']; try done.
    + injection E as ->. inversion Hps; inversion Hqs; by subst.
    + apply two_more in E. apply (IH Hw Hn l') in E as [-> ->]; try done; by apply mapM_Some.
Qed.

Lemma members_named m : Forall (fun kv => named kv.2) m -> forallb (fun kv => json_wf kv.2) m = true ->
  forallb (fun kv => text_ok kv.1 && nameable kv.2) m = true ->
  forall m' ps qs r r', forallb (fun kv => json_wf kv.2) m' = true ->
  forallb (fun kv => text_ok kv.1 && nameable kv.2) m' = true ->
  mapM member_key m = Some ps -> mapM member_key m' = Some qs ->
  str_bytes (join_str ", " ps) ++ 125 :: r = str_bytes (join_str ", " qs) ++ 125 :: r' -> m = m' /\ r = r'.
Proof.
  assert (forall kv p t, text_ok kv.1 = true -> member_key kv = Some p ->
    exists k, value_key kv.2 = Some k /\ str_bytes p ++ t = str_bytes (ascii_string kv.1) ++ 58 :: 32 :: str_bytes k ++ t) as Hmem.
  { intros [key x] p t _ E. apply bind_Some in E as (k & Hk & [= <-]). exists k. split; [done|].
    rewrite !string_bytes_app, <- !app_assoc. done. }
  induction 1 as [|[key x] m Hx _ IH]; intros Hw Hn m' ps qs r r' Hw' Hn' Hp Hq E.
  - injection Hp as <-. destruct m' as [|[key' y] m']; [injection Hq as <-; by injection E as ->|]. exfalso.
    apply mapM_Some in Hq. inversion Hq as [|? q ? qs' Hy _]; subst. cbn in Hn'. apply andb_true_iff in Hn' as [[Hky _]%andb_true_iff _].
    rewrite join_text in E. destruct (Hmem (key', y) q (match qs' with [] => 125 :: r' | _ => 44 :: 32 :: str_bytes (join_str ", " qs') ++ 125 :: r' end) Hky Hy) as (k & _ & Ek).
    rewrite Ek in E. cbn [fst] in E. destruct (ascii_string_head key' Hky) as [t Et]. by rewrite Et in E.
  - apply mapM_Some in Hp. inversion Hp as [|? p ? ps' Hpx Hps]; subst. cbn in Hw, Hn, Hx.
    apply andb_true_iff in Hw as [Hwx Hw], Hn as [[Hkx Hnx]%andb_true_iff Hn]. destruct m' as [|[key' y] m'].
    { exfalso. injection Hq as <-. rewrite join_text in E. edestruct (Hmem (key, x) p) as (k & _ & Ek); [done..|].
      rewrite Ek in E. cbn [fst] in E. destruct (ascii_string_head key Hkx) as [t Et]. by rewrite Et in E. }
    apply mapM_Some in Hq. inversion Hq as [|? q ? qs' Hqy Hqs]; subst. cbn in Hw', Hn'.
    apply andb_true_iff in Hw' as [Hwy Hw'], Hn' as [[Hky Hny]%andb_true_iff Hn']. rewrite !join_text in E.
    edestruct (Hmem (key, x) p) as (k & Hk & Ek); [done..|]. edestruct (Hmem (key', y) q) as (k' & Hk' & Ek'); [done..|].
    rewrite Ek, Ek' in E. cbn [fst snd] in *. apply ascii_string_prefix in E as [<- E]; [|done..]. apply two_more in E.
    eapply (Hx y) in E as [-> E]; try done; [|by destruct ps'|by destruct qs'].
    destruct ps' as [|p' ps'], qs' as [|q' qs']; try done.
    + injection E as ->. inversion Hps; inversion Hqs; by subst.
    + apply two_more in E. apply (IH Hw Hn m') in E as [-> ->]; try done; by apply mapM_Some.
Qed.

Lemma integer_shown n k : nameable (JNumber n) = true -> value_key (JNumber n) = Some k ->
  exists z, (n = PosInt z \/ n = NegInt z) /\ k = int_to_string z.
Proof.
  destruct n as [z|z|f]; [| |done]; intros _ [= <-]; destruct (integer_text z) as [Hp Hn]; exists z; auto.
Qed.

Lemma all_named v : named v.
Proof.
  induction v as [|a|n|s|l IH|m IH] using json_ind'; intros w k k' r r' Hv Hw Hnv Hnw Hk Hk' Hr Hr' E;
    destruct (value_key_head _ _ Hnv Hk) as (h & t & Ek & Hh); destruct (value_key_head _ _ Hnw Hk') as (h' & t' & Ek' & Hh');
    (assert (h = h') as <- by (rewrite Ek, Ek' in E; by injection E)); pose proof (head_shape _ _ _ Hh Hh') as Hs;
    destruct w as [|a'|n'|s'|l'|m']; try done.
  - rewrite Hk in Hk'. injection Hk' as <-. by apply app_inv_head in E.
  - cbn in Hs. subst a'. rewrite Hk in Hk'. injection Hk' as <-. by apply app_inv_head in E.
  - destruct (integer_shown _ _ Hnv Hk) as (z & Hz & ->), (integer_shown _ _ Hnw Hk') as (z' & Hz' & ->).
    destruct (int_text z) as (c & u & Ez & Hc & Hu), (int_text z') as (c' & u' & Ez' & Hc' & Hu').
    apply (split_run number_byte) in E as [E ->].
    + apply str_bytes_inj, int_to_string_inj in E as ->. split; [|done]. f_equal.
      destruct Hz as [->| ->], Hz' as [->| ->]; cbn in Hv, Hw; bool_prop; try done; lia.
    + rewrite Ez. cbn. by rewrite Hc.
    + rewrite Ez'. cbn. by rewrite Hc'.
    + destruct r; [done|]. by apply delimiter_not_number.
    + destruct r'; [done|]. by apply delimiter_not_number.
  - injection Hk as <-. injection Hk' as <-. by apply ascii_string_prefix in E as [-> ->].
  - rewrite value_key_array in Hk, Hk'. apply bind_Some in Hk as (ps & Hp & [= <-]), Hk' as (qs & Hq & [= <-]).
    rewrite !string_bytes_app, <- !app_assoc in E. apply tail_eq in E. cbn [app] in E.
    eapply (array_named l) in E as [-> ->]; done.
  - rewrite value_key_object in Hk, Hk'. apply bind_Some in Hk as (ps & Hp & [= <-]), Hk' as (qs & Hq & [= <-]).
    rewrite !string_bytes_app, <- !app_assoc in E. apply tail_eq in E. cbn [app] in E.
    cbn in Hv, Hw. apply andb_true_iff in Hv as [_ Hv], Hw as [_ Hw]. eapply (members_named m) in E as [-> ->]; done.
Qed.

Lemma value_key_inj v w k : json_wf v = true -> json_wf w = true -> nameable v = true -> nameable w = true ->
  value_key v = Some k -> value_key w = Some k -> v = w.
Proof. intros Hv Hw Hnv Hnw Hk Hk'. by apply (all_named v w k k [] []). Qed.
End Values.

(** ** The outcome of a claim, by the values carried *)
Section Outcome.
Context {H : Hash} {SD : Serde} {B : Base64} {ED : Ed25519} {T : Tsa} {D : Display} {ST : SerdeText}.

Definition carries (views : list json) (field : string) (v : json) : Prop := exists view, view ∈ views /\ get view field = Some v.
Definition same_values (a b : list json) (field : string) : Prop := forall v, carries a field v <-> carries b field v.
Definition comparable (views : list json) : Prop :=
  forall field v, field ∈ FIELDS -> carries views field v -> json_wf v = true /\ nameable v = true.

(** The texts collected: sorted, one per distinct text, each with a value it is the text of. *)
Record collected (views : list json) (field : string) (m : list (string * json)) : Prop := {
  col_sorted : keys_sorted m = true;
  col_texts : forall k v, (k, v) ∈ m -> value_key v = Some k /\ carries views field v;
  col_all : forall v, carries views field v -> exists k, value_key v = Some k /\ k ∈ m.*1;
}.

Lemma obj_insert_in {A} (m : list (string * A)) k v i x : (i, x) ∈ obj_insert m k v -> (i, x) = (k, v) \/ (i, x) ∈ m.
Proof.
  induction m as [|[j y] m IH]; cbn [obj_insert].
  - intros ?%list_elem_of_singleton. by left.
  - destruct (String.eqb k j); [|destruct (str_ltb k j)]; rewrite ?elem_of_cons; naive_solver.
Qed.
Lemma obj_insert_keys {A} (m : list (string * A)) k v i : i ∈ (obj_insert m k v).*1 <-> i = k \/ i ∈ m.*1.
Proof.
  induction m as [|[j y] m IH]; cbn [obj_insert fmap list_fmap fst].
  - rewrite list_elem_of_singleton, elem_of_nil. tauto.
  - destruct (String.eqb_spec k j) as [->|]; [|destruct (str_ltb k j)]; cbn [fmap list_fmap fst]; rewrite !elem_of_cons, ?IH; tauto.
Qed.

Lemma values_loop_collects field views : forall seen u m, collected seen field u ->
  values_loop views field u = Some m -> collected (seen ++ views) field m.
Proof.
  induction views as [|view views IH]; intros seen u m [Hs Ht Ha] E; cbn [values_loop] in E.
  { injection E as <-. by rewrite app_nil_r. }
  change (view :: views) with ([view] ++ views). rewrite app_assoc.
  assert (forall v, carries (seen ++ [view]) field v <-> carries seen field v \/ get view field = Some v) as Hc.
  { intros v. unfold carries. setoid_rewrite elem_of_app. setoid_rewrite list_elem_of_singleton. naive_solver. }
  destruct (get view field) as [v|] eqn:Ev.
  - apply bind_Some in E as (k & Hk & E). eapply IH; [|exact E]. split.
    + by apply obj_insert_sorted.
    + intros k' v' [[= -> ->]|Hin]%obj_insert_in; rewrite Hc; [by auto|]. destruct (Ht _ _ Hin). auto.
    + intros v' [Hold|[= <-]]%Hc; [|exists k; rewrite obj_insert_keys; auto].
      destruct (Ha v' Hold) as (k' & ? & ?). exists k'. rewrite obj_insert_keys. auto.
  - eapply IH; [|exact E]. split; [done| |].
    + intros k' v' Hin. rewrite Hc. destruct (Ht _ _ Hin). auto.
    + intros v' [Hold|[=]]%Hc. auto.
Qed.
Lemma values_collected views field l : values views field = Some l -> exists m, collected views field m /\ l = m.*2.
Proof.
  intros (m & Hm & [= <-])%bind_Some. exists m. split; [|done]. apply (values_loop_collects field views [] [] m); [|done].
  split; [done|by intros k v ?%elem_of_nil|]. intros v (view & ?%elem_of_nil & _). done.
Qed.
Lemma value_keys_collected views field m : collected views field m -> value_keys m.*2 = Some m.*1.
Proof.
  intros [_ Ht _]. induction m as [|[k v] m IH]; [done|]. cbn [fmap list_fmap value_keys fst snd].
  destruct (Ht k v) as [-> _]; [by left|]. cbn. fold (@fmap list _ _ _ (@snd string json) m).
  rewrite IH; [done|]. intros k' v' Hin. apply Ht. by right.
Qed.

Lemma collected_some views field m : collected views field m -> m <> [] <-> exists v, carries views field v.
Proof.
  intros [_ Ht Ha]. split.
  - destruct m as [|[k v] m]; [done|]. intros _. exists v. apply (Ht k). by left.
  - intros [v Hv] ->. destruct (Ha v Hv) as (k & _ & Hk). by apply elem_of_nil in Hk.
Qed.

(** Equal texts in order are equal values in any order. *)
Lemma collected_agree a b field m n : field ∈ FIELDS -> comparable a -> comparable b ->
  collected a field m -> collected b field n -> m.*1 = n.*1 <-> same_values a b field.
Proof.
  assert (forall a b m n, field ∈ FIELDS -> comparable a -> comparable b -> collected a field m -> collected b field n ->
    m.*1 = n.*1 -> forall v, carries a field v -> carries b field v) as Hsub.
  { intros a0 b0 m0 n0 Hf Ha Hb [_ _ Hm] [_ Hn _] E v Hv. destruct (Hm v Hv) as (k & Hk & Hin). rewrite E in Hin.
    apply list_elem_of_fmap in Hin as ([k' w] & -> & Hin). destruct (Hn _ _ Hin) as [Hkw Hw].
    destruct (Ha field v Hf Hv), (Hb field w Hf Hw). by rewrite (value_key_inj v w k'). }
  intros Hf Ha Hb Hm Hn. split.
  - intros E v. split; [by apply (Hsub a b m n)|by apply (Hsub b a n m)].
  - intros Hs. apply (StronglySorted_unique (fun x y => str_ltb x y = true)).
    + apply (Sorted_StronglySorted _), keys_sorted_Sorted, Hm.
    + apply (Sorted_StronglySorted _), keys_sorted_Sorted, Hn.
    + apply NoDup_Permutation; [apply keys_sorted_NoDup, Hm|apply keys_sorted_NoDup, Hn|].
      assert (forall a b m n, collected a field m -> collected b field n -> (forall v, carries a field v -> carries b field v) ->
        forall k, k ∈ m.*1 -> k ∈ n.*1) as Hk.
      { intros a0 b0 m0 n0 [_ Ht _] [_ _ Hall] Hincl k ([k' v] & -> & Hin)%list_elem_of_fmap. destruct (Ht _ _ Hin) as [Hkv Hv].
        destruct (Hall v (Hincl v Hv)) as (k & Hk & Hin'). cbn. congruence. }
      intros k. split; [apply (Hk a b m n)|apply (Hk b a n m)]; try done; intros v; apply Hs.
Qed.

(** The standing of the two sides on a field, by values. *)
Lemma standing_values a b field st : field ∈ FIELDS -> comparable a -> comparable b -> standing_of a b field = Some st ->
  match st with
  | Absent | Agreed => same_values a b field
  | Differs => (exists v, carries a field v) /\ (exists v, carries b field v) /\ ~ same_values a b field
  | OneSided => ~ same_values a b field /\ ((forall v, ~ carries a field v) \/ forall v, ~ carries b field v)
  end.
Proof.
  intros Hf Ha Hb. unfold standing_of. intros (va & Hva & (vb & Hvb & E)%bind_Some)%bind_Some.
  apply values_collected in Hva as (m & Hm & ->), Hvb as (n & Hn & ->).
  pose proof (collected_some _ _ _ Hm) as Hm0. pose proof (collected_some _ _ _ Hn) as Hn0.
  destruct m as [|x m], n as [|y n].
  - injection E as <-. intros v. split; intros Hv; exfalso; [by apply Hm0; [eauto|]|by apply Hn0; [eauto|]].
  - injection E as <-. destruct (proj1 Hn0) as [v Hv]; [done|].
    assert (forall v, ~ carries a field v) as Hno by (intros w Hw; apply Hm0; eauto). split; [|by left].
    intros Hs. by apply (Hno v), Hs.
  - injection E as <-. destruct (proj1 Hm0) as [v Hv]; [done|].
    assert (forall v, ~ carries b field v) as Hno by (intros w Hw; apply Hn0; eauto). split; [|by right].
    intros Hs. by apply (Hno v), Hs.
  - change ((x :: m).*2) with (x.2 :: m.*2) in E. change ((y :: n).*2) with (y.2 :: n.*2) in E. cbn iota in E.
    change (x.2 :: m.*2) with ((x :: m).*2) in E. change (y.2 :: n.*2) with ((y :: n).*2) in E.
    rewrite (value_keys_collected _ _ _ Hm), (value_keys_collected _ _ _ Hn) in E. cbn [mbind option_bind] in E.
    injection E as <-. case_bool_decide as Eq; [by apply (collected_agree _ _ _ _ _ Hf Ha Hb Hm Hn)|].
    split_and!; [by apply Hm0|by apply Hn0|]. intros Hs. apply Eq. by apply (collected_agree _ _ _ _ _ Hf Ha Hb Hm Hn).
Qed.

Lemma standings_each a b fields sts : standings a b fields = Some sts ->
  forall field, field ∈ fields -> is_Some (standing_of a b field).
Proof.
  revert sts. induction fields as [|g fields IH]; intros sts E f; [by intros ?%elem_of_nil|]. cbn [standings] in E.
  apply bind_Some in E as (st & Hst & (rest & Hr & _)%bind_Some). intros [->|Hf]%elem_of_cons; eauto.
Qed.

(** The two sides' sets differ, both being inhabited. *)
Definition conflicting (a b : list json) (field : string) : Prop :=
  (exists v, carries a field v) /\ (exists v, carries b field v) /\ ~ same_values a b field.

Lemma standings_values a b sts : comparable a -> comparable b -> standings a b FIELDS = Some sts ->
  (Differs ∈ sts <-> exists field, field ∈ FIELDS /\ conflicting a b field) /\
  ((Differs ∉ sts) /\ (OneSided ∉ sts) <-> forall field, field ∈ FIELDS -> same_values a b field).
Proof.
  intros Ha Hb E. pose proof (standings_elem _ _ _ _ E) as Hin. pose proof (standings_each _ _ _ _ E) as Hall. clear E.
  assert (forall f st, f ∈ FIELDS -> standing_of a b f = Some st -> (st = Differs <-> conflicting a b f) /\
    (st = Differs \/ st = OneSided <-> ~ same_values a b f)) as Hst.
  { intros f st Hf Est. pose proof (standing_values a b f st Hf Ha Hb Est) as Hv. unfold conflicting.
    destruct st; naive_solver. }
  split.
  - rewrite Hin. split; intros (f & Hf & Hc); exists f; (split; [done|]).
    + by apply (Hst f Differs).
    + destruct (Hall f Hf) as [st Est]. rewrite Est. f_equal. by apply (Hst f st).
  - split.
    + intros [Hd Ho] f Hf. destruct (Hall f Hf) as [st Est]. pose proof (standing_values a b f st Hf Ha Hb Est) as Hv.
      destruct st; try done; [destruct Hd|destruct Ho]; apply Hin; eauto.
    + intros Hs. split; intros (f & Hf & Est)%Hin; destruct (Hst f _ Hf Est) as [_ [Hn _]]; (apply Hn; [auto|by apply Hs]).
Qed.

End Outcome.
