(* ===== verification/Exec.v ===== *)
(** * Exec: computations that may panic (b28.rs)

    b28.rs indexes its maps with [doc["name"]], unwraps options it has validated and
    marks impossible branches [unreachable!()].  Each of these panics when the value is
    not there, so the functions that do it return an [exec]: a value or [Panic].  [wp e Q]
    says that [e] does not panic and its value satisfies [Q]; a function is verified by
    composing the rules below along its body. *)
From S2P Require Import Prelude.

Inductive exec (A : Type) : Type :=
  | Done (a : A)
  | Panic.
Arguments Done {A} a.
Arguments Panic {A}.

#[export] Instance exec_ret : MRet exec := @Done.
#[export] Instance exec_bind : MBind exec := fun A B f e => match e with Done a => f a | Panic => Panic end.

(** [let_do p := e else d; k] is [let Some(p) = e else { return d }; k] for an [e] that may
    panic; with [None] for [d] it is the [?] operator. *)
Notation "'let_do' p := e 'else' d ; k" :=
  (mbind (fun o => match o with Some p => k | None => d end) e)
  (at level 10, p pattern, e at level 100, d at level 100, k at level 200,
   format "'[v' 'let_do'  p  :=  e  'else'  d ; '/' k ']'") : rust_scope.

(** [x && y]: the second operand is not evaluated after a false one. *)
Definition exec_and (x y : exec bool) : exec bool := b ← x; if (b : bool) then y else Done false.
Infix "&&&" := exec_and (at level 40, left associativity) : rust_scope.

(** [Option::unwrap], and [unreachable!()] as its [None] case. *)
Definition unwrap {A} (o : option A) : exec A := match o with Some a => Done a | None => Panic end.

(** [[a, b, ...].into_iter().all(|held| held)]: every element is evaluated. *)
Fixpoint all_held (checks : list (exec bool)) : exec bool :=
  match checks with
  | [] => Done true
  | e :: checks => b ← e; rest ← all_held checks; Done (b && rest)
  end.

(** [iter().all(f)]: stops at the first failure. *)
Fixpoint exec_all {A} (f : A -> exec bool) (l : list A) : exec bool :=
  match l with [] => Done true | x :: l => f x &&& exec_all f l end.
(** [iter().any(f)]: stops at the first success. *)
Fixpoint exec_any {A} (f : A -> exec bool) (l : list A) : exec bool :=
  match l with [] => Done false | x :: l => b ← f x; if (b : bool) then Done true else exec_any f l end.

(** [iter().map(f).collect()] for an [f] that may panic. *)
Fixpoint exec_map {A B} (f : A -> exec B) (l : list A) : exec (list B) :=
  match l with [] => Done [] | x :: l => y ← f x; ys ← exec_map f l; Done (y :: ys) end.

(** [a - b] on [u64]: overflow panics (and wraps where overflow checks are off). *)
Definition u64_sub (a b : Z) : exec Z := if b <=? a then Done (a - b) else Panic.
(** [<[u8; 32]>::try_from(b).unwrap()]. *)
Definition array32 (b : bytes) : exec bytes := if zlen b =? 32 then Done b else Panic.

(** ** Weakest preconditions *)

Definition wp {A} (e : exec A) (Q : A -> Prop) : Prop :=
  match e with Done a => Q a | Panic => False end.

Lemma wp_done {A} (a : A) (Q : A -> Prop) : Q a -> wp (Done a) Q.
Proof. done. Qed.
Lemma wp_bind {A B} (e : exec A) (k : A -> exec B) Q : wp e (fun a => wp (k a) Q) -> wp (e ≫= k) Q.
Proof. by destruct e. Qed.
Lemma wp_mono {A} (e : exec A) (P Q : A -> Prop) : wp e P -> (forall a, P a -> Q a) -> wp e Q.
Proof. destruct e; cbn; auto. Qed.
Lemma wp_unwrap {A} (o : option A) (Q : A -> Prop) : (exists a, o = Some a /\ Q a) -> wp (unwrap o) Q.
Proof. by intros (a & -> & Hq). Qed.
Lemma wp_result {A} (e : exec A) Q a : wp e Q -> e = Done a -> Q a.
Proof. by intros H ->. Qed.
Lemma wp_total {A} (e : exec A) Q : wp e Q -> exists a, e = Done a /\ Q a.
Proof. destruct e; cbn; [eauto|done]. Qed.
Lemma wp_conj {A} (e : exec A) (P Q : A -> Prop) : wp e P -> wp e Q -> wp e (fun a => P a /\ Q a).
Proof. destruct e; cbn; auto. Qed.

(** A computation that evaluates to a known boolean; [holds e P]: it does not panic, and
    when it is true [P] holds. *)
Definition holds (e : exec bool) (P : Prop) : Prop := wp e (fun b => b = true -> P).

Lemma holds_done b (P : Prop) : (b = true -> P) -> holds (Done b) P.
Proof. done. Qed.
Lemma holds_and x y (P Q : Prop) : holds x P -> (P -> holds y Q) -> holds (x &&& y) (P /\ Q).
Proof.
  unfold holds. destruct x as [[]|]; cbn; [|done|done]. intros H1 H2.
  eapply wp_mono; [by apply H2, H1|]. cbn. auto.
Qed.
Lemma holds_mono x (P Q : Prop) : holds x P -> (P -> Q) -> holds x Q.
Proof. intros H HPQ. eapply wp_mono; [exact H|]. cbn. auto. Qed.
Lemma holds_all_nil : holds (all_held []) True.
Proof. done. Qed.
Lemma holds_all_cons e l (P Q : Prop) : holds e P -> holds (all_held l) Q -> holds (all_held (e :: l)) (P /\ Q).
Proof.
  unfold holds. intros H1 H2. apply wp_bind. eapply wp_mono; [exact H1|]. intros b Hb. apply wp_bind.
  eapply wp_mono; [exact H2|]. cbn. intros r Hr [??]%andb_true_iff. auto.
Qed.
Lemma holds_exec_all {A} (f : A -> exec bool) (P : A -> Prop) l :
  (forall x, x ∈ l -> holds (f x) (P x)) -> holds (exec_all f l) (Forall P l).
Proof.
  induction l as [|x l IH]; intros H; [by intros ?; constructor|]. cbn [exec_all].
  eapply holds_mono; [apply holds_and; [apply H; left|intros _; apply IH; intros y Hy; apply H; by right]|].
  intros [??]. by constructor.
Qed.
Lemma exec_any_wp {A} (f : A -> exec bool) (P : A -> Prop) l :
  (forall x, x ∈ l -> wp (f x) (fun b => b = false -> P x)) ->
  wp (exec_any f l) (fun b => b = false -> Forall P l).
Proof.
  induction l as [|x l IH]; intros H; [by intros ?; constructor|]. cbn [exec_any]. apply wp_bind.
  eapply wp_mono; [apply H; left|]. intros [] Hb; [done|].
  eapply wp_mono; [apply IH; intros y Hy; apply H; by right|]. cbn. intros b Ht Hf. constructor; auto.
Qed.
