(* ===== verification/Cwt.v ===== *)
(** * Cwt: signed counterparty statements (b28.rs)

    The CWT envelope of the counterparty profile, from bytes to a validated core: the
    canonical decoder, the field readers, a validator per schema, the inspection of an
    envelope and its signature.  The theorems about them are in [CwtTypes]. *)
From S2P Require Import Prelude Hash Text Json Dsse CborWire Exec.

(** ** Outside the repository *)

(** [ciborium::de::from_reader_with_recursion_limit] on a [Cursor]: the value and the position
    of the cursor after it. *)
Class CiboriumAt := from_reader_with_recursion_limit : bytes -> Z -> option (cbor * Z).

(** ** Constants *)

Definition PROFILE : string := "https://swarrm.ai/spec/eat/b28/cwt/v1".
Definition PROFILE_V2 : string := "https://swarrm.ai/spec/eat/action/cwt/v2".
Definition V1_NS : string := "swarrm-b28/".
Definition V2_NS : string := "swarrm/".
Definition MEDIA : string := "application/eat+cwt".
Definition LOCAL_CONTEXT : string := "swarrm-b28/local-verifier-context/v1".
Definition LOCAL_REFUSAL_CONTEXT : string := "swarrm-b28/local-refusal-context/v1".
Definition TRUST_PACK : string := "swarrm-b28/trust-pack/v1".
Definition ACTION : string := "swarrm-b28/action-core/v1".
Definition AGENT_REF : string := "swarrm-b28/agent-ref/v1".
Definition RESOURCE_REF : string := "swarrm-b28/resource-ref/v1".
Definition PARTY_REF : string := "swarrm-b28/party-ref/v1".
Definition CHALLENGE : string := "swarrm-b28/challenge-core/v1".
Definition ASA : string := "swarrm-b28/asa-core/v1".
Definition PRESENTATION : string := "swarrm-b28/presentation-core/v1".
Definition ACKNOWLEDGEMENT : string := "swarrm-b28/acknowledgement-core/v1".
Definition REFUSAL : string := "swarrm-b28/refusal-core/v1".
Definition ROOT_DELEGATION : string := "swarrm-b28/root-delegation/v1".
Definition TEMPLATE : string := "swarrm-b28/registration-template/v1".
Definition ADMIN_BINDING : string := "swarrm-b28/admin-binding/v1".
Definition ADMIN_SELECTION : string := "swarrm-b28/admin-selection/v1".
Definition ADMIN_CHALLENGE : string := "swarrm-b28/admin-challenge/v1".
Definition ADMIN_CONSUMPTION : string := "swarrm-b28/admin-consumption/v1".
Definition AGENT_POP : string := "swarrm-b28/agent-pop/v1".
Definition CREDENTIAL : string := "swarrm-b28/agent-credential/v1".
Definition AGENT_SUCCESSOR : string := "swarrm-b28/agent-successor/v1".
Definition GRANT : string := "swarrm-b28/limit-grant/v1".
Definition CHECKPOINT : string := "swarrm-b28/authority-checkpoint/v1".
Definition SNAPSHOT : string := "swarrm-b28/status-snapshot/v1".
Definition MEMBERSHIP : string := "swarrm-b28/authority-membership-proof/v1".
Definition NON_ASSERTION : string := "This proves identity, current proof-bearing authority and durable replay at a bounded checkpoint. It does not evaluate Node, source, coverage, history or post-action evidence readiness in v1, predict behaviour, certify an outcome, establish later evidence, or express a Swarrm opinion.".
Definition MAX_CWT : Z := 65536.
Definition MAX_INPUT : Z := 2 * 1024 * 1024.
Definition MAX_LOCAL_CONTEXT : Z := 65536.
Definition MAX_LOCAL_ITEMS : Z := 64.
Definition MAX_CBOR_DEPTH : Z := 64.
Definition MAX_CBOR_ITEMS : Z := 100000.
Definition CWT_PROFILE_CLAIM : Z := 265.
Definition B28_CORE_CLAIM : Z := -65537.

(** ** Values *)

(** [==] on [f64], from the bits of its operands. *)
Definition f64_is_nan (bits : Z) : bool := 9218868437227405312 <? Z.land bits 9223372036854775807.
Definition f64_eqb (a b : Z) : bool :=
  negb (f64_is_nan a) && negb (f64_is_nan b)
  && ((a =? b) || ((Z.land a 9223372036854775807 =? 0) && (Z.land b 9223372036854775807 =? 0))).

(** [PartialEq] of [ciborium::Value]: structural, a map being the list of its entries. *)
Fixpoint cbor_eqb (a b : cbor) {struct a} : bool :=
  match a, b with
  | CInteger x, CInteger y => x =? y
  | CBytes x, CBytes y => bytes_eqb x y
  | CFloat x, CFloat y => f64_eqb x y
  | CText x, CText y => String.eqb x y
  | CBool x, CBool y => Bool.eqb x y
  | CNull, CNull => true
  | CTag t x, CTag u y => (t =? u) && cbor_eqb x y
  | CArray l, CArray m =>
      let fix items (l m : list cbor) : bool :=
        match l, m with
        | [], [] => true
        | x :: l, y :: m => cbor_eqb x y && items l m
        | _, _ => false
        end in items l m
  | CMap l, CMap m =>
      let fix entries (l m : list (cbor * cbor)) : bool :=
        match l, m with
        | [], [] => true
        | (k, x) :: l, (j, y) :: m => cbor_eqb k j && cbor_eqb x y && entries l m
        | _, _ => false
        end in entries l m
  | _, _ => false
  end.

(** [Doc]: a [BTreeMap<String, Value>].  [doc[name]] panics when the name is missing. *)
Abbreviation Doc := (gmap string cbor) (only parsing).
Definition at_ {A} (doc : gmap string A) (name : string) : exec A := unwrap (doc !! name).
(** A test of [doc[name]], and the comparison of two members. *)
Definition on (doc : Doc) (name : string) (test : cbor -> bool) : exec bool :=
  value ← at_ doc name; Done (test value).
Definition same (a : Doc) (x : string) (b : Doc) (y : string) : exec bool :=
  left ← at_ a x; right ← at_ b y; Done (cbor_eqb left right).
(** [reader(value).is_some()]. *)
Definition has {A} (reader : cbor -> option A) (value : cbor) : bool := is_some (reader value).
(** [reader(value) == Some(expected)] on byte strings and on text. *)
Definition is_bytes (o : option bytes) (expected : bytes) : bool := bool_decide (o = Some expected).
Definition is_text (o : option string) (expected : string) : bool := bool_decide (o = Some expected).

(** [str.replacen(from, to, 1)], [str.split_whitespace()] of an ASCII literal, and
    [slice.windows(needle.len()).any(|window| window == needle)]. *)
Definition is_prefix (p b : bytes) : bool := bytes_eqb p (take (length p) b).
Fixpoint replace_first (from to b : bytes) : bytes :=
  if is_prefix from b then to ++ drop (length from) b
  else match b with [] => [] | x :: t => x :: replace_first from to t end.
Definition replacen_one (value from to : string) : string :=
  bytes_str (replace_first (str_bytes from) (str_bytes to) (str_bytes value)).
Definition split_whitespace (s : string) : list string :=
  map bytes_str (List.filter (fun w => negb (zlen w =? 0)) (split_on (fun b => b =? #" ") [] (str_bytes s))).
Fixpoint has_window (needle b : bytes) : bool :=
  is_prefix needle b || match b with [] => false | _ :: t => has_window needle t end.

(** ** Canonical bytes *)

(** [const CWT_PROFILE]. *)
Definition CWT_PROFILE : Profile := {| int_keys := true; bools := true |}.
Definition canonical (value : cbor) : option bytes := canonical_bytes value MAX_CBOR_DEPTH CWT_PROFILE.

(** [fn profile_matches], [fn accepted_name], [fn mixed_generation]. *)
Definition profile_matches (observed : option string) : bool := is_text observed PROFILE || is_text observed PROFILE_V2.
Definition accepted_name (observed : option string) (expected : string) : bool :=
  is_some_and observed (fun value => String.eqb (replacen_one value V2_NS V1_NS) expected).
Definition mixed_generation (envelopes : list bytes) : bool :=
  let has_ needle := existsb (has_window (str_bytes needle)) envelopes in
  has_ V1_NS && has_ V2_NS.

(** ** Readers *)

(** [fn array], [fn text], [fn bytes]. *)
Definition array (value : cbor) (cap : Z) : option (list cbor) :=
  match value with CArray values => then_some (zlen values <=? cap) values | _ => None end.
Definition text (value : cbor) : option string := match value with CText s => Some s | _ => None end.
Definition bytes_ (value : cbor) : option bytes := match value with CBytes b => Some b | _ => None end.

(** [fn map_doc]: the fold stops at a key that is not text or is there already. *)
Fixpoint fold_doc (entries : list (cbor * cbor)) (out : Doc) : option Doc :=
  match entries with
  | [] => Some out
  | (CText key, value) :: entries =>
      if is_none (out !! key) then fold_doc entries (<[key := value]> out) else None
  | _ => None
  end.
Definition map_doc (value : cbor) : option Doc :=
  match value with CMap entries => fold_doc entries ∅ | _ => None end.
(** [fn plain]. *)
Definition plain (value : cbor) : option Doc := map_doc value.

(** [fn map_value]. *)
Definition map_value (items : list (string * cbor)) : cbor := CMap (map (fun item => (CText item.1, item.2)) items).

(** [fn document]. *)
Definition document (value : cbor) (schema : option string) (fields : string) : option Doc :=
  out ← map_doc value;
  let names := split_whitespace fields in
  let expected := zlen names + (if is_some schema then 1 else 0) in
  then_some ((Z.of_nat (size out) =? expected)
             && forallb (fun field => is_some (out !! field)) names
             && is_none_or schema (fun schema => accepted_name (v ← out !! "schema"%string; text v) schema)) out.

(** [fn bounded], [fn fixed], [fn opaque]. *)
Definition bounded (maximum : Z) (value : cbor) : option string :=
  s ← text value;
  then_some (negb (is_empty s) && (slen s <=? maximum) && negb (existsb (Z.eqb 0) (str_bytes s))) s.
Definition fixed (size : Z) (value : cbor) : option bytes :=
  b ← bytes_ value; then_some (zlen b =? size) b.
Definition opaque (value : cbor) : option bytes :=
  b ← fixed 32 value; then_some (existsb (fun byte => negb (byte =? 0)) b) b.

(** [fn uint], [fn positive], [fn decimal]. *)
Definition uint (value : cbor) : option Z :=
  match value with CInteger i => then_some ((0 <=? i) && (i <=? I64_MAX)) i | _ => None end.
Definition positive_ (value : cbor) : option Z := i ← uint value; then_some (0 <? i) i.
Definition decimal_text (s : string) : bool :=
  String.eqb s "0"
  || match str_bytes s with
     | [] => false
     | b :: rest => (slen s <=? 78) && in_range #"1" #"9" b && forallb is_ascii_digit rest
     end.
Definition decimal (value : cbor) : option string := s ← text value; then_some (decimal_text s) s.

(** [matches!((a, b), (Some(a), Some(b)) if a < b)], and the same with [a <= now && now < b]. *)
Definition before (a b : option Z) : bool :=
  match a, b with Some a, Some b => a <? b | _, _ => false end.
Definition current (a b : option Z) (now : Z) : bool :=
  match a, b with Some a, Some b => (a <=? now) && (now <? b) | _, _ => false end.

(** [fn window]. *)
Definition window (doc : Doc) (start end_ : string) : exec bool :=
  a ← at_ doc start; b ← at_ doc end_; Done (before (uint a) (uint b)).

(** [fn decimal_at_most]: by length, then bytewise. *)
Definition decimal_at_most (left right : cbor) : bool :=
  match decimal left, decimal right with
  | Some a, Some b => (slen a <? slen b) || ((slen a =? slen b) && bytes_leb (str_bytes a) (str_bytes b))
  | _, _ => false
  end.

Section Cwt.
Context {H : Hash} {B : Base64} {ED : Ed25519} {CA : CiboriumAt}.

(** [fn sha]: the parts are hashed one after another. *)
Definition sha (parts : list bytes) : bytes := sha256 (concat parts).

(** [fn decode]. *)
Definition decode (data : bytes) (cap : Z) : option cbor :=
  reject_if cap <? zlen data with None;
  n ← structural_scan data MAX_CBOR_DEPTH MAX_CBOR_ITEMS;
  reject_if negb (n =? zlen data) with None;
  '(value, position) ← from_reader_with_recursion_limit data 64;
  canon ← (if position =? zlen data then canonical value else None);
  then_some (bytes_eqb canon data) value.

(** [fn key_id]. *)
Definition key_id (public : bytes) : string := take_chars 16 (url_encode (sha [public])).

(** ** Validators

    Members are read through [doc[name]], which panics on a missing name. *)

(** [names.iter().all(|name| opaque(&doc[*name]).is_some())] and the like. *)
Definition all_on (doc : Doc) (names : list string) (test : cbor -> bool) : exec bool :=
  exec_all (fun name => on doc name test) names.

(** [fn agent], [fn resource], [fn party]. *)
Definition agent (value : cbor) : exec (option Doc) :=
  let_some doc := document value (Some AGENT_REF) "organisation_root birthtag revision agent_kid" else Done None;
  valid ← on doc "organisation_root" (has opaque) &&& on doc "birthtag" (has opaque)
    &&& on doc "revision" (has positive_) &&& on doc "agent_kid" (has (bounded 128));
  Done (then_some valid doc).
Definition resource (value : cbor) : exec (option Doc) :=
  let_some doc := document value (Some RESOURCE_REF) "namespace identifier_digest" else Done None;
  valid ← on doc "namespace" (has (bounded 128)) &&& on doc "identifier_digest" (has opaque);
  Done (then_some valid doc).
Definition party (value : cbor) : exec (option Doc) :=
  let_some doc := document value (Some PARTY_REF) "party_id organisation_root" else Done None;
  valid ← on doc "party_id" (has (bounded 256)) &&& on doc "organisation_root" (has opaque);
  Done (then_some valid doc).

(** The unit of [fn action]: [iso4217:XXX:minor-d], or a [ucum:] or [count:] name. *)
Definition strip_prefix (p s : string) : option bytes :=
  then_some (starts_with p s) (drop (String.length p) (str_bytes s)).
Definition unit_grammar (unit_ : string) : bool :=
  let iso := is_some_and (strip_prefix "iso4217:" unit_) (fun tail =>
    (zlen tail =? 11) && forallb is_ascii_uppercase (take 3 tail)
    && bytes_eqb (take 7 (drop 3 tail)) (str_bytes ":minor-")
    && is_some_and (tail !! 10%nat) is_ascii_digit) in
  let name := match strip_prefix "ucum:" unit_ with Some n => Some n | None => strip_prefix "count:" unit_ end in
  let named := is_some_and name (fun name =>
    negb (zlen name =? 0) && (zlen name <=? 48) && forallb is_ascii_graphic name) in
  iso || named.

(** [fn action]. *)
Definition action (value : cbor) : exec (option Doc) :=
  let_some doc := document value (Some ACTION) "action_id asa_id actor operation parameter_schema parameter_digest value unit source destination counterparty recipient grant_id grant_version policy_version policy_digest nonce expires_at" else Done None;
  counterparty_value ← at_ doc "counterparty";
  let_do counterparty := party counterparty_value else Done None;
  recipient_value ← at_ doc "recipient";
  let_do recipient := agent recipient_value else Done None;
  valid ←
    all_on doc ["action_id"; "asa_id"; "parameter_digest"; "grant_id"; "policy_digest"; "nonce"]%string (has opaque)
    &&& (actor ← at_ doc "actor"; a ← agent actor; Done (is_some a))
    &&& (source ← at_ doc "source"; r ← resource source; Done (is_some r))
    &&& (destination ← at_ doc "destination"; r ← resource destination; Done (is_some r))
    &&& on doc "operation" (has (bounded 256)) &&& on doc "parameter_schema" (has (bounded 512))
    &&& on doc "value" (has decimal)
    &&& on doc "unit" (fun v => is_some_and (bounded 64 v) unit_grammar)
    &&& on doc "grant_version" (has positive_) &&& on doc "policy_version" (has (bounded 128))
    &&& on doc "expires_at" (has positive_)
    &&& same counterparty "organisation_root" recipient "organisation_root";
  Done (then_some valid doc).

(** [fn known_dimension]. *)
Definition known_dimension (name : string) : bool :=
  str_in name ["passport_identity"; "live_key_control"; "root_chain"; "template_admin_pop"; "fresh_status"; "binding";
    "grant"; "delegation"; "exact_action"; "asa_reservation"; "challenge"; "transcript"; "replay"; "node_basis";
    "source_basis"; "coverage_basis"; "history"; "post_action_evidence_readiness"]%string.

(** [fn validate_challenge]. *)
Definition validate_challenge (value : cbor) : exec bool :=
  let_some doc := document value (Some CHALLENGE) "profile challenger action accepted_encodings required_dimensions max_checkpoint_age issued_at" else Done false;
  accepted ← at_ doc "accepted_encodings"; dimensions ← at_ doc "required_dimensions";
  let_some encodings := array accepted 1 else Done false;
  let_some required := array dimensions MAX_LOCAL_ITEMS else Done false;
  let_some names := mapM (bounded 64) required else Done false;
  let ordered := forallb (fun pair => str_ltb pair.1 pair.2) (windows2 names) in
  action_value ← at_ doc "action"; action_ ← action action_value;
  on doc "profile" (fun v => profile_matches (text v))
  &&& (challenger ← at_ doc "challenger"; a ← agent challenger; Done (is_some a))
  &&& (match action_ with
       | Some action_ =>
           same doc "challenger" action_ "recipient"
           &&& (issued ← at_ doc "issued_at"; expires ← at_ action_ "expires_at";
                Done (before (positive_ issued) (positive_ expires)))
       | None => Done false
       end)
  &&& Done (match encodings with [CText value] => String.eqb value MEDIA | _ => false end)
  &&& Done ordered &&& Done (forallb known_dimension names) &&& on doc "max_checkpoint_age" (has positive_).

(** [fn validate_asa]. *)
Definition validate_asa (value : cbor) : exec bool :=
  let_some doc := document value (Some ASA) "tenant organisation_root authority_delegation_id asa_id action_digest challenge_digest grant_id grant_version reservation_state issued_at expires_at" else Done false;
  on doc "tenant" (has (bounded 128))
  &&& all_on doc ["organisation_root"; "authority_delegation_id"; "asa_id"; "action_digest"; "challenge_digest"; "grant_id"]%string (has opaque)
  &&& on doc "grant_version" (has positive_) &&& on doc "reservation_state" (fun v => is_text (text v) "ISSUED_HELD")
  &&& window doc "issued_at" "expires_at".

(** [matches!(bytes(v), Some(raw) if lo <= raw.len() && raw.len() <= hi)]. *)
Definition sized (lo hi : Z) (v : cbor) : bool := is_some_and (bytes_ v) (fun raw => in_range lo hi (zlen raw)).
Definition cbor_is_null (v : cbor) : bool := cbor_eqb v CNull.
Definition is_map (v : cbor) : bool := match v with CMap _ => true | _ => false end.

(** [fn validate_presentation]. *)
Definition inline : list string := ["root_delegation"; "registration_template"; "admin_binding"; "admin_challenge"; "admin_consumption"; "agent_pop"; "passport"; "passport_holder_proof"; "limit_grant"; "authority_checkpoint"; "status_snapshot"; "asa"]%string.
Definition STATE_PROOFS : string := "root_delegation registration_template mandate agent_config admin_binding admin_selection admin_challenge admin_consumption admin_counter agent_pop passport agent_head agent_successor predecessor_head limit_grant grant_head".
Definition validate_presentation (value : cbor) : exec bool :=
  let_some doc := document value (Some PRESENTATION) "profile challenge_envelope_hash challenge_digest action_digest root_delegation registration_template admin_binding admin_selection admin_challenge admin_consumption agent_pop agent_successor passport passport_holder_proof limit_grant authority_checkpoint issuance_consistency_proof status_snapshot state_proofs asa transcript_digest non_assertion created_at" else Done false;
  state_proofs ← at_ doc "state_proofs";
  let_some proofs := document state_proofs None STATE_PROOFS else Done false;
  on doc "profile" (fun v => profile_matches (text v))
  &&& on doc "non_assertion" (fun v => is_text (text v) NON_ASSERTION)
  &&& all_on doc ["challenge_envelope_hash"; "challenge_digest"; "action_digest"; "transcript_digest"]%string (has (fixed 32))
  &&& all_on doc inline (sized 1 MAX_CWT)
  &&& on doc "agent_successor" (fun v => cbor_is_null v || sized 1 MAX_CWT v)
  &&& on doc "admin_selection" (sized 0 16384)
  &&& on doc "issuance_consistency_proof" (fun v => is_some_and (array v 64) (forallb (has (fixed 32))))
  &&& Done (forallb (fun p => is_map p.2 || str_in p.1 ["agent_successor"; "predecessor_head"]%string && cbor_is_null p.2) (map_to_list proofs))
  &&& on doc "created_at" (has uint).

(** [fn validate_refusal]. *)
Definition validate_refusal (value : cbor) : exec bool :=
  let_some doc := document value (Some REFUSAL) "profile challenge_envelope_hash challenge_digest reason_code created_at" else Done false;
  on doc "profile" (fun v => profile_matches (text v)) &&& on doc "challenge_envelope_hash" (has (fixed 32))
  &&& on doc "challenge_digest" (has (fixed 32)) &&& on doc "reason_code" (has (bounded 128))
  &&& on doc "created_at" (has uint).

(** [fn tenant_root]. *)
Definition tenant_root (doc : Doc) : exec bool :=
  on doc "tenant" (has (bounded 128)) &&& on doc "organisation_root" (has opaque).

(** [fn validate_delegation]. *)
Definition validate_delegation (value : cbor) : exec bool :=
  let_some doc := document value (Some ROOT_DELEGATION) "tenant organisation_root delegation_id passport_authority_kid passport_authority_key action_authority_kid action_authority_key valid_from valid_to" else Done false;
  root_value ← at_ doc "organisation_root"; psa_value ← at_ doc "passport_authority_key";
  action_value ← at_ doc "action_authority_key";
  let_some root := fixed 32 root_value else Done false;
  let_some psa := fixed 32 psa_value else Done false;
  let_some action := fixed 32 action_value else Done false;
  tenant_root doc &&& on doc "delegation_id" (has opaque)
  &&& Done (negb (bytes_eqb psa action) && negb (bytes_eqb (sha [psa]) root) && negb (bytes_eqb (sha [action]) root)
            && negb (String.eqb (key_id psa) (key_id action)))
  &&& on doc "passport_authority_kid" (fun v => is_text (bounded 128 v) (key_id psa))
  &&& on doc "action_authority_kid" (fun v => is_text (bounded 128 v) (key_id action))
  &&& window doc "valid_from" "valid_to".

(** [fn validate_template]. *)
Definition validate_template (value : cbor) : exec bool :=
  let_some doc := document value (Some TEMPLATE) "tenant organisation_root template_id template_version owner purpose mandate_digest config_digest valid_from valid_to" else Done false;
  tenant_root doc &&& on doc "template_id" (has opaque) &&& on doc "template_version" (has positive_)
  &&& on doc "owner" (has (bounded 1024)) &&& on doc "purpose" (has (bounded 1024))
  &&& on doc "mandate_digest" (has (fixed 32)) &&& on doc "config_digest" (has (fixed 32))
  &&& window doc "valid_from" "valid_to".

(** [fn validate_admin_binding]. *)
Definition validate_admin_binding (value : cbor) : exec bool :=
  let_some doc := document value (Some ADMIN_BINDING) "tenant organisation_root binding_id credential_id cose_public_key rp_id role valid_from valid_to initial_state" else Done false;
  tenant_root doc &&& on doc "binding_id" (has opaque) &&& on doc "credential_id" (sized 16 1024)
  &&& on doc "cose_public_key" (sized 16 256) &&& on doc "rp_id" (has (bounded 253))
  &&& on doc "role" (fun v => is_some_and (text v) (fun role => str_in role ["agent-registrar"; "security-admin"; "governance-admin"]%string))
  &&& on doc "initial_state" (fun v => is_text (text v) "ACTIVE") &&& window doc "valid_from" "valid_to".

(** [fn validate_selection]. *)
Definition validate_selection (value : cbor) : exec bool :=
  let_some doc := document value (Some ADMIN_SELECTION) "tenant binding_id template_id template_version proposed_agent_digest credential_id challenge_id challenge client_data_json authenticator_data signature selected_at" else Done false;
  on doc "tenant" (has (bounded 128)) &&& on doc "binding_id" (has opaque) &&& on doc "template_id" (has opaque)
  &&& on doc "template_version" (has positive_) &&& on doc "proposed_agent_digest" (has opaque)
  &&& on doc "credential_id" (sized 0 1024) &&& on doc "challenge_id" (has opaque) &&& on doc "challenge" (has opaque)
  &&& on doc "client_data_json" (sized 0 4096) &&& on doc "authenticator_data" (sized 37 1024)
  &&& on doc "signature" (sized 64 80) &&& on doc "selected_at" (has uint).

(** [fn validate_admin_challenge]. *)
Definition validate_admin_challenge (value : cbor) : exec bool :=
  let_some doc := document value (Some ADMIN_CHALLENGE) "tenant organisation_root challenge_id binding_id template_id template_version proposed_agent_digest challenge issued_at expires_at" else Done false;
  tenant_root doc
  &&& all_on doc ["challenge_id"; "binding_id"; "template_id"; "proposed_agent_digest"; "challenge"]%string (has opaque)
  &&& on doc "template_version" (has positive_) &&& window doc "issued_at" "expires_at".

(** [matches!((uint(before), uint(after), eligible, state), (Some(before), Some(after), Bool(eligible), Bool(state)) if ...)]. *)
Definition consumption_counter (before after eligible state : cbor) : bool :=
  match uint before, uint after, eligible, state with
  | Some before, Some after, CBool eligible, CBool state =>
      ((before =? 0) && (after =? 0) || (before <? after)) && (negb state || eligible)
  | _, _, _, _ => false
  end.

(** [fn validate_admin_consumption]. *)
Definition validate_admin_consumption (value : cbor) : exec bool :=
  let_some doc := document value (Some ADMIN_CONSUMPTION) "tenant organisation_root binding_id challenge_id challenge_digest selection_digest credential_digest counter_version sign_count_before sign_count_after backup_eligible backup_state consumed_at" else Done false;
  (before ← at_ doc "sign_count_before"; after ← at_ doc "sign_count_after";
   eligible ← at_ doc "backup_eligible"; state ← at_ doc "backup_state";
   Done (consumption_counter before after eligible state))
  &&& tenant_root doc
  &&& all_on doc ["binding_id"; "challenge_id"; "challenge_digest"; "selection_digest"; "credential_digest"]%string (has opaque)
  &&& on doc "counter_version" (has positive_) &&& on doc "consumed_at" (has uint).

(** [fn validate_pop]. *)
Definition validate_pop (value : cbor) : exec bool :=
  let_some doc := document value (Some AGENT_POP) "tenant birthtag revision agent_kid proposed_agent_digest challenge" else Done false;
  on doc "tenant" (has (bounded 128)) &&& on doc "birthtag" (has opaque) &&& on doc "revision" (has positive_)
  &&& on doc "agent_kid" (has (bounded 128)) &&& on doc "proposed_agent_digest" (has opaque)
  &&& on doc "challenge" (has opaque).

(** [fn validate_credential]. *)
Definition validate_credential (value : cbor) : exec bool :=
  let_some doc := document value (Some CREDENTIAL) "tenant organisation_root authority_delegation_id birthtag revision agent_kid agent_key owner purpose mandate_digest config_digest template_id template_version principal_binding_id admin_selection_digest agent_pop_digest agent_successor_digest issuance_checkpoint valid_from valid_to" else Done false;
  root_value ← at_ doc "organisation_root"; key_value ← at_ doc "agent_key";
  let_some root := fixed 32 root_value else Done false;
  let_some agent_key := fixed 32 key_value else Done false;
  tenant_root doc
  &&& all_on doc ["authority_delegation_id"; "birthtag"; "agent_key"; "mandate_digest"; "config_digest"; "template_id"; "principal_binding_id"; "admin_selection_digest"; "agent_pop_digest"; "issuance_checkpoint"]%string (has opaque)
  &&& Done (negb (bytes_eqb (sha [agent_key]) root))
  &&& on doc "revision" (has positive_) &&& on doc "template_version" (has positive_)
  &&& on doc "agent_kid" (fun v => is_text (bounded 128 v) (key_id agent_key))
  &&& on doc "agent_successor_digest" (fun v => cbor_is_null v || has opaque v)
  &&& on doc "owner" (has (bounded 1024)) &&& on doc "purpose" (has (bounded 1024))
  &&& window doc "valid_from" "valid_to".

(** [fn validate_successor]. *)
Definition validate_successor (value : cbor) : exec bool :=
  let_some doc := document value (Some AGENT_SUCCESSOR) "tenant organisation_root predecessor_birthtag predecessor_revision predecessor_credential_digest successor_birthtag successor_revision successor_proposal_digest effective_at" else Done false;
  tenant_root doc
  &&& all_on doc ["predecessor_birthtag"; "predecessor_credential_digest"; "successor_birthtag"; "successor_proposal_digest"]%string (has opaque)
  &&& on doc "predecessor_revision" (has positive_)
  &&& on doc "successor_revision" (fun v => bool_decide (positive_ v = Some 1))
  &&& (b ← same doc "predecessor_birthtag" doc "successor_birthtag"; Done (negb b))
  &&& on doc "effective_at" (has uint).

(** [fn validate_grant]. *)
Definition validate_grant (value : cbor) : exec bool :=
  let_some doc := document value (Some GRANT) "tenant organisation_root grant_id grant_version authority_delegation_id actor_birthtag recipient_organisation_root operation unit action_scope_digest kind ceiling window_start window_end valid_from valid_to max_unresolved_exposure" else Done false;
  tenant_root doc
  &&& all_on doc ["grant_id"; "authority_delegation_id"; "actor_birthtag"; "recipient_organisation_root"]%string (has opaque)
  &&& on doc "grant_version" (has positive_) &&& on doc "operation" (has (bounded 1024)) &&& on doc "unit" (has (bounded 64))
  &&& on doc "action_scope_digest" (has opaque)
  &&& on doc "kind" (fun v => is_some_and (text v) (fun kind => str_in kind ["ONE_SHOT"; "FLOW"; "STOCK"]%string))
  &&& on doc "ceiling" (has decimal) &&& on doc "max_unresolved_exposure" (has decimal)
  &&& (exposure ← at_ doc "max_unresolved_exposure"; ceiling ← at_ doc "ceiling"; Done (decimal_at_most exposure ceiling))
  &&& window doc "window_start" "window_end" &&& window doc "valid_from" "valid_to".

(** [fn validate_checkpoint]. *)
Definition validate_checkpoint (value : cbor) : exec bool :=
  let_some doc := document value (Some CHECKPOINT) "tenant organisation_root sequence authority_root log_root log_size issued_at" else Done false;
  tenant_root doc &&& on doc "authority_root" (has (fixed 32)) &&& on doc "log_root" (has (fixed 32))
  &&& on doc "sequence" (has uint) &&& on doc "log_size" (has uint) &&& on doc "issued_at" (has uint).

(** [fn validate_snapshot]. *)
Definition validate_snapshot (value : cbor) : exec bool :=
  let_some doc := document value (Some SNAPSHOT) "tenant organisation_root authority_delegation_id checkpoint_digest proofs_digest status_as_of expires_at" else Done false;
  tenant_root doc &&& on doc "authority_delegation_id" (has opaque) &&& on doc "checkpoint_digest" (has (fixed 32))
  &&& on doc "proofs_digest" (has (fixed 32)) &&& window doc "status_as_of" "expires_at".

(** The [ACKNOWLEDGEMENT] arm of [fn validate_core]. *)
Definition validate_acknowledgement (value : cbor) : exec bool :=
  let_some doc := document value (Some ACKNOWLEDGEMENT) "profile counterparty origin from_hash to_hash issued_at" else Done false;
  on doc "schema" (fun v => is_text (text v) ACKNOWLEDGEMENT)
  &&& on doc "profile" (fun v => profile_matches (text v))
  &&& all_on doc ["counterparty"; "origin"; "from_hash"; "to_hash"]%string (has (bounded 1024))
  &&& on doc "issued_at" (has uint).

(** [fn validate_core]: the arms in their order. *)
Definition validators : list (string * (cbor -> exec bool)) := [
  (ACTION, fun value => a ← action value; Done (is_some a)); (CHALLENGE, validate_challenge); (ASA, validate_asa);
  (PRESENTATION, validate_presentation); (ACKNOWLEDGEMENT, validate_acknowledgement); (REFUSAL, validate_refusal);
  (ROOT_DELEGATION, validate_delegation); (TEMPLATE, validate_template); (ADMIN_BINDING, validate_admin_binding);
  (ADMIN_SELECTION, validate_selection); (ADMIN_CHALLENGE, validate_admin_challenge);
  (ADMIN_CONSUMPTION, validate_admin_consumption); (AGENT_POP, validate_pop); (CREDENTIAL, validate_credential);
  (AGENT_SUCCESSOR, validate_successor); (GRANT, validate_grant); (CHECKPOINT, validate_checkpoint);
  (SNAPSHOT, validate_snapshot)].
Definition validate_core (value : cbor) (schema : string) : exec bool :=
  match List.find (fun arm => String.eqb schema arm.1) validators with
  | Some (_, validate) => validate value
  | None => Done false
  end.

(** ** Envelopes *)

(** [fn integer]. *)
Fixpoint integer (map_ : list (cbor * cbor)) (key : Z) : option cbor :=
  match map_ with
  | [] => None
  | (CInteger n, value) :: rest => if n =? key then Some value else integer rest key
  | _ :: rest => integer rest key
  end.
(** [matches!(integer(map, key), Some(C::Integer(n)) if n == expected)]. *)
Definition integer_is (map_ : list (cbor * cbor)) (key expected : Z) : bool :=
  match integer map_ key with Some (CInteger n) => n =? expected | _ => false end.

(** [struct Cwt]. *)
Record Cwt := {
  core : cbor;
  core_bytes : bytes;
  payload : bytes;
  protected : bytes;
  signature : bytes;
  kid : string;
}.

Definition CWT_TAG : u8 := 210.

(** The tests of [fn inspect_cwt] on the protected header, up to the kid, and on the claims, up to
    the core. *)
Definition header_kid (protected : bytes) : option string :=
  header_value ← decode protected 4096;
  header ← (match header_value with CMap header => Some header | _ => None end);
  reject_if negb (zlen header =? 3) || negb (integer_is header 1 (-8)) with None;
  media ← integer header 3;
  reject_if negb (is_text (text media) MEDIA) with None;
  kid_value ← integer header 4;
  kid_raw ← bytes_ kid_value;
  kid ← from_utf8 kid_raw;
  then_some (negb (is_empty kid) && (slen kid <=? 128) && forallb (fun byte => byte <? 128) (str_bytes kid)) kid.
Definition claims_core (payload : bytes) : option cbor :=
  claims_value ← decode payload MAX_CWT;
  claims ← (match claims_value with CMap claims => Some claims | _ => None end);
  reject_if negb (zlen claims =? 2)
    || negb (forallb (fun claim => match claim.1 with CInteger n => (n =? 265) || (n =? -65537) | _ => false end) claims)
  with None;
  profile ← integer claims CWT_PROFILE_CLAIM;
  reject_if negb (profile_matches (text profile)) with None;
  integer claims B28_CORE_CLAIM.

(** The four parts of an envelope. *)
Definition cwt_parts (raw : bytes) : option (bytes * bytes * bytes) :=
  reject_if (MAX_CWT <? zlen raw) || negb (bool_decide (byte_get raw 0 = Some CWT_TAG)) with None;
  items ← decode (drop 1 raw) MAX_CWT;
  match items with
  | CArray [CBytes protected; CMap unprotected; CBytes payload; CBytes signature] =>
      then_some ((zlen unprotected =? 0) && (zlen signature =? 64)) (protected, payload, signature)
  | _ => None
  end.

(** [fn inspect_cwt]. *)
Definition inspect_cwt (raw : bytes) (schema : string) : exec (option Cwt) :=
  let_some (protected, payload, signature) := cwt_parts raw else Done None;
  let_some kid := header_kid protected else Done None;
  let_some core := claims_core payload else Done None;
  let_some core_bytes := canonical core else Done None;
  valid ← validate_core core schema;
  Done (then_some valid {| core := core; core_bytes := core_bytes; payload := payload; protected := protected;
                           signature := signature; kid := kid |}).

(** [fn verify_ed25519]. *)
Definition verify_ed25519 (key message signature : bytes) : bool :=
  reject_if negb (zlen key =? 32) || negb (zlen signature =? 64) with false;
  let_some key := vk_from_bytes key else false;
  vk_verify key message signature.

(** The COSE Sig_structure of [fn cwt_signature_valid]. *)
Definition sig_message (protected payload : bytes) : option bytes :=
  canonical (CArray [CText "Signature1"; CBytes protected; CBytes []; CBytes payload]).

(** [fn cwt_signature_valid]. *)
Definition cwt_signature_valid (cwt : Cwt) (key : bytes) : bool :=
  is_some_and (sig_message (protected cwt) (payload cwt)) (fun message =>
    String.eqb (kid cwt) (key_id key) && verify_ed25519 key message (signature cwt)).

(** [fn signed_cwt]. *)
Definition signed_cwt (raw : bytes) (schema : string) (keys : gmap string bytes) : exec (option Cwt) :=
  let_do cwt := inspect_cwt raw schema else Done None;
  let_some key := keys !! kid cwt else Done None;
  Done (then_some (cwt_signature_valid cwt key) cwt).
End Cwt.
