(* ===== verification/CwtTypes.v ===== *)
(** * CwtTypes: what a validated statement contains

    The theorems about [Cwt]: no validator panics on any value and a valid core has every
    member its schema asks for, with its type ([schema_fields]); a name has exactly two
    accepted spellings; an envelope is accepted only if it is the canonical encoding of
    its parts with a valid core, and signed by the key its kid names. *)
From S2P Require Import Prelude Hash Text Json Jcs Dsse CborWire Exec Cwt.

(** ** Names and members *)

Lemma document_Some v s fs doc : document v s fs = Some doc ->
  map_doc v = Some doc /\ Z.of_nat (size doc) = zlen (split_whitespace fs) + (if is_some s then 1 else 0)
  /\ (forall k, k ∈ split_whitespace fs -> is_Some (doc !! k))
  /\ (forall n, s = Some n -> exists x, doc !! "schema"%string = Some (CText x) /\ accepted_name (Some x) n = true).
Proof.
  unfold document. intros H. apply bind_Some in H as (d & Hm & H).
  apply then_some_Some in H as [H ->]. apply andb_true_iff in H as [H Hs]. apply andb_true_iff in H as [Hn Hf].
  split_and!; [done|by apply Z.eqb_eq| |].
  - intros k Hk. rewrite forallb_forall in Hf. specialize (Hf k ltac:(by apply list_elem_of_In)).
    destruct (doc !! k); [by eexists|done].
  - intros n ->. cbn in Hs. destruct (doc !! _) as [[]|]; try done. eauto.
Qed.
Lemma document_plain v s fs doc : document v s fs = Some doc -> plain v = Some doc.
Proof. intros H. apply (document_Some _ _ _ _ H). Qed.
Lemma document_has v s fs doc k : document v s fs = Some doc ->
  str_in k (split_whitespace fs) = true -> is_Some (doc !! k).
Proof. intros H Hk. apply (document_Some _ _ _ _ H). by apply str_in_elem. Qed.
Lemma document_schema v n fs doc : document v (Some n) fs = Some doc -> is_Some (doc !! "schema"%string).
Proof. intros H. apply document_Some in H as (_ & _ & _ & Hs). destruct (Hs n eq_refl) as (x & -> & _). by eexists. Qed.

(** [typed doc name test]: the member is there and passes the test. *)
Definition typed (doc : Doc) (name : string) (test : cbor -> bool) : Prop :=
  exists v, doc !! name = Some v /\ test v = true.
Definition fields_typed (doc : Doc) (table : list (string * (cbor -> bool))) : Prop :=
  Forall (fun f => typed doc f.1 f.2) table.

Lemma typed_weaken doc name (test test' : cbor -> bool) :
  typed doc name test -> (forall v, test v = true -> test' v = true) -> typed doc name test'.
Proof. intros (v & Hv & Ht) Hw. exists v; auto. Qed.

(** The entry of a table for a name. *)
Definition field_test (table : list (string * (cbor -> bool))) (k : string) : option (cbor -> bool) :=
  snd <$> List.find (fun f => String.eqb k f.1) table.
Lemma field_typed (doc : Doc) table k test : fields_typed doc table -> field_test table k = Some test -> typed doc k test.
Proof.
  unfold fields_typed, field_test. rewrite Forall_forall. intros Hf He.
  destruct (List.find _ table) as [[k' t]|] eqn:Hl; [|done]. apply find_some in Hl as [Hin Hk].
  apply String.eqb_eq in Hk. cbn in Hk, He. injection He as <-. subst k'. by apply (Hf (k, t)), list_elem_of_In.
Qed.
Lemma typed_present (doc : Doc) k test : typed doc k test -> is_Some (doc !! k).
Proof. intros (v & Hv & _). by eexists. Qed.
Lemma field_present (doc : Doc) table k : fields_typed doc table -> is_some (field_test table k) = true -> is_Some (doc !! k).
Proof.
  intros Hf Hk. destruct (field_test table k) as [test|] eqn:Ht; [|done].
  eapply typed_present, field_typed; eauto.
Qed.

Lemma wp_at {A} (doc : gmap string A) k (Q : A -> Prop) :
  is_Some (doc !! k) -> (forall v, doc !! k = Some v -> Q v) -> wp (at_ doc k) Q.
Proof. intros [v Hv] Hq. unfold at_. rewrite Hv. cbn. auto. Qed.
Lemma holds_at {A} (doc : gmap string A) k rest P :
  is_Some (doc !! k) -> (forall v, doc !! k = Some v -> holds (rest v) P) -> holds (v ← at_ doc k; rest v) P.
Proof. intros Hs Hr. apply wp_bind, wp_at; [done|]. intros v Hv. by apply Hr. Qed.
Lemma holds_on doc k test : is_Some (doc !! k) -> holds (on doc k test) (typed doc k test).
Proof. intros Hs. apply holds_at; [done|]. intros v Hv. apply holds_done. by exists v. Qed.
Lemma holds_all_on (doc : Doc) names test : (forall k, k ∈ names -> is_Some (doc !! k)) ->
  holds (all_on doc names test) (fields_typed doc (map (fun k => (k, test)) names)).
Proof.
  intros Hs. eapply holds_mono; [apply holds_exec_all; intros k Hk; apply holds_on, Hs, Hk|].
  unfold fields_typed. rewrite Forall_map. auto.
Qed.
Lemma holds_same a x b y : is_Some (a !! x) -> is_Some (b !! y) ->
  holds (same a x b y) (exists v w, a !! x = Some v /\ b !! y = Some w /\ cbor_eqb v w = true).
Proof.
  intros Ha Hb. apply holds_at; [done|]. intros v Hv. apply holds_at; [done|]. intros w Hw.
  apply holds_done. eauto.
Qed.
Lemma before_true a b : before a b = true -> exists x y, a = Some x /\ b = Some y /\ x < y.
Proof. destruct a as [x|], b as [y|]; try done. cbn. intros Hl%Z.ltb_lt. eauto. Qed.
Lemma holds_window (doc : Doc) a b : is_Some (doc !! a) -> is_Some (doc !! b) ->
  holds (window doc a b) (typed doc a (has uint) /\ typed doc b (has uint)).
Proof.
  intros Ha Hb. apply holds_at; [done|]. intros v Hv. apply holds_at; [done|]. intros w Hw.
  apply holds_done. intros (x & y & Hx & Hy & _)%before_true. unfold typed, has.
  split; [exists v|exists w]; by rewrite ?Hx, ?Hy.
Qed.
Lemma holds_tenant_root (doc : Doc) : is_Some (doc !! "tenant"%string) -> is_Some (doc !! "organisation_root"%string) ->
  holds (tenant_root doc) (typed doc "tenant" (has (bounded 128)) /\ typed doc "organisation_root" (has opaque)).
Proof. intros Ht Ho. apply holds_and; [|intros _]; by apply holds_on. Qed.
Lemma holds_id b : holds (Done b) (b = true).
Proof. by apply holds_done. Qed.
Lemma holds_true e : wp e (fun _ => True) -> holds e True.
Proof. intros He. eapply wp_mono; [exact He|done]. Qed.

Lemma has_bounded_text n v : has (bounded n) v = true -> exists s, text v = Some s /\ bounded n v = Some s.
Proof.
  unfold has, bounded. destruct (text v) as [s|]; [|done]. cbn. unfold then_some. case_match; [eauto|done].
Qed.
Lemma has_fixed_bytes n v : has (fixed n) v = true -> exists b, v = CBytes b /\ zlen b = n /\ fixed n v = Some b.
Proof.
  unfold has, fixed. destruct v as [|b| | | | | | |]; try done. cbn. unfold then_some.
  destruct (zlen b =? n) eqn:El; [|done]. apply Z.eqb_eq in El. eauto.
Qed.
Lemma opaque_fixed v b : opaque v = Some b -> fixed 32 v = Some b.
Proof. unfold opaque. intros Ho. apply bind_Some in Ho as (c & Hc & Ho). by apply then_some_Some in Ho as [_ ->]. Qed.
Lemma has_opaque_fixed v : has opaque v = true -> has (fixed 32) v = true.
Proof. unfold has. destruct (opaque v) eqn:E; [|done]. by rewrite (opaque_fixed _ _ E). Qed.
Lemma is_text_has n v s : is_text (bounded n v) s = true -> has (bounded n) v = true.
Proof. unfold is_text, has. intros ->%bool_decide_eq_true. done. Qed.
Lemma has_positive_uint v : has positive_ v = true -> has uint v = true.
Proof. unfold has. change (positive_ v) with (i ← uint v; then_some (0 <? i) i). by destruct (uint v). Qed.

(** Discharge of presence, and one step of a validator. *)
Ltac present :=
  match goal with
  | Hd : document _ _ _ = Some ?doc |- is_Some (?doc !! _) =>
      solve [ apply (document_has _ _ _ _ _ Hd); vm_compute; reflexivity | apply (document_schema _ _ _ _ Hd) ]
  | Ht : fields_typed ?doc _ |- is_Some (?doc !! _) => apply (field_present _ _ _ Ht); vm_compute; reflexivity
  end.
Ltac present_all := let k := fresh "k" in let Hk := fresh "Hk" in
  intros k Hk; repeat (apply elem_of_cons in Hk as [->|Hk]; [present|]); by apply elem_of_nil in Hk.
Ltac hold :=
  lazymatch goal with
  | |- holds (_ &&& _) _ => apply holds_and; [hold|intros ?; hold]
  | |- holds (on _ _ _) _ => apply holds_on; present
  | |- holds (all_on _ _ _) _ => apply holds_all_on; present_all
  | |- holds (window _ _ _) _ => apply holds_window; present
  | |- holds (tenant_root _) _ => apply holds_tenant_root; present
  | |- holds (same _ _ _ _) _ => apply holds_same; present
  | |- holds (Done _) _ => apply holds_id
  | |- holds _ _ => idtac
  end.

(** ** What a valid core contains *)

Section Tables.
Context {H : Hash} {B : Base64} {ED : Ed25519} {CA : CiboriumAt}.

Definition is_agent (v : cbor) : bool := match agent v with Done (Some _) => true | _ => false end.
Definition is_resource (v : cbor) : bool := match resource v with Done (Some _) => true | _ => false end.
Definition is_party (v : cbor) : bool := match party v with Done (Some _) => true | _ => false end.
Definition is_action (v : cbor) : bool := match action v with Done (Some _) => true | _ => false end.
Definition cbor_is_bool (v : cbor) : bool := match v with CBool _ => true | _ => false end.
Definition has_array (cap : Z) (v : cbor) : bool := is_some (array v cap).

Definition rooted_fields : list (string * (cbor -> bool)) :=
  [("tenant", has (bounded 128)); ("organisation_root", has opaque)]%string.
Definition agent_fields : list (string * (cbor -> bool)) :=
  [("organisation_root", has opaque); ("birthtag", has opaque); ("revision", has positive_); ("agent_kid", has (bounded 128))]%string.
Definition party_fields : list (string * (cbor -> bool)) :=
  [("party_id", has (bounded 256)); ("organisation_root", has opaque)]%string.
Definition action_fields : list (string * (cbor -> bool)) :=
  [("action_id", has opaque); ("asa_id", has opaque); ("actor", is_agent); ("operation", has (bounded 256));
   ("parameter_schema", has (bounded 512)); ("parameter_digest", has opaque); ("value", has decimal);
   ("unit", fun v => is_some_and (bounded 64 v) unit_grammar); ("source", is_resource); ("destination", is_resource);
   ("counterparty", is_party); ("recipient", is_agent); ("grant_id", has opaque); ("grant_version", has positive_);
   ("policy_version", has (bounded 128)); ("policy_digest", has opaque); ("nonce", has opaque); ("expires_at", has positive_)]%string.

(** The members a core of each schema must have, and their types. *)
Definition schema_fields (schema : string) : list (string * (cbor -> bool)) :=
  (if String.eqb schema ACTION then action_fields
   else if String.eqb schema CHALLENGE then
     [("profile", fun v => profile_matches (text v)); ("challenger", is_agent); ("action", is_action);
      ("accepted_encodings", has_array 1); ("required_dimensions", has_array MAX_LOCAL_ITEMS);
      ("max_checkpoint_age", has positive_); ("issued_at", has positive_)]
   else if String.eqb schema ASA then
     [("tenant", has (bounded 128)); ("organisation_root", has opaque); ("authority_delegation_id", has opaque);
      ("asa_id", has opaque); ("action_digest", has opaque); ("challenge_digest", has opaque); ("grant_id", has opaque);
      ("grant_version", has positive_); ("reservation_state", fun v => is_text (text v) "ISSUED_HELD");
      ("issued_at", has uint); ("expires_at", has uint)]
   else if String.eqb schema PRESENTATION then
     [("profile", fun v => profile_matches (text v)); ("challenge_envelope_hash", has (fixed 32));
      ("challenge_digest", has (fixed 32)); ("action_digest", has (fixed 32)); ("root_delegation", sized 1 MAX_CWT);
      ("registration_template", sized 1 MAX_CWT); ("admin_binding", sized 1 MAX_CWT);
      ("admin_selection", sized 0 16384); ("admin_challenge", sized 1 MAX_CWT); ("admin_consumption", sized 1 MAX_CWT);
      ("agent_pop", sized 1 MAX_CWT); ("agent_successor", fun v => cbor_is_null v || sized 1 MAX_CWT v);
      ("passport", sized 1 MAX_CWT); ("passport_holder_proof", sized 1 MAX_CWT); ("limit_grant", sized 1 MAX_CWT);
      ("authority_checkpoint", sized 1 MAX_CWT);
      ("issuance_consistency_proof", fun v => is_some_and (array v 64) (forallb (has (fixed 32))));
      ("status_snapshot", sized 1 MAX_CWT);
      ("state_proofs", has (fun v => document v None STATE_PROOFS)); ("asa", sized 1 MAX_CWT); ("transcript_digest", has (fixed 32));
      ("non_assertion", fun v => is_text (text v) NON_ASSERTION); ("created_at", has uint)]
   else if String.eqb schema ACKNOWLEDGEMENT then
     [("schema", fun v => is_text (text v) ACKNOWLEDGEMENT); ("profile", fun v => profile_matches (text v));
      ("counterparty", has (bounded 1024)); ("origin", has (bounded 1024)); ("from_hash", has (bounded 1024));
      ("to_hash", has (bounded 1024)); ("issued_at", has uint)]
   else if String.eqb schema REFUSAL then
     [("profile", fun v => profile_matches (text v)); ("challenge_envelope_hash", has (fixed 32));
      ("challenge_digest", has (fixed 32)); ("reason_code", has (bounded 128)); ("created_at", has uint)]
   else if String.eqb schema ROOT_DELEGATION then
     (rooted_fields ++ [("delegation_id", has opaque); ("passport_authority_kid", has (bounded 128));
      ("passport_authority_key", has (fixed 32)); ("action_authority_kid", has (bounded 128));
      ("action_authority_key", has (fixed 32)); ("valid_from", has uint); ("valid_to", has uint)])%list
   else if String.eqb schema TEMPLATE then
     (rooted_fields ++ [("template_id", has opaque); ("template_version", has positive_); ("owner", has (bounded 1024));
      ("purpose", has (bounded 1024)); ("mandate_digest", has (fixed 32)); ("config_digest", has (fixed 32));
      ("valid_from", has uint); ("valid_to", has uint)])%list
   else if String.eqb schema ADMIN_BINDING then
     (rooted_fields ++ [("binding_id", has opaque); ("credential_id", sized 16 1024); ("cose_public_key", sized 16 256);
      ("rp_id", has (bounded 253));
      ("role", fun v => is_some_and (text v) (fun role => str_in role ["agent-registrar"; "security-admin"; "governance-admin"]));
      ("valid_from", has uint); ("valid_to", has uint); ("initial_state", fun v => is_text (text v) "ACTIVE")])%list
   else if String.eqb schema ADMIN_SELECTION then
     [("tenant", has (bounded 128)); ("binding_id", has opaque); ("template_id", has opaque); ("template_version", has positive_);
      ("proposed_agent_digest", has opaque); ("credential_id", sized 0 1024); ("challenge_id", has opaque);
      ("challenge", has opaque); ("client_data_json", sized 0 4096); ("authenticator_data", sized 37 1024);
      ("signature", sized 64 80); ("selected_at", has uint)]
   else if String.eqb schema ADMIN_CHALLENGE then
     (rooted_fields ++ [("challenge_id", has opaque); ("binding_id", has opaque); ("template_id", has opaque);
      ("template_version", has positive_); ("proposed_agent_digest", has opaque); ("challenge", has opaque);
      ("issued_at", has uint); ("expires_at", has uint)])%list
   else if String.eqb schema ADMIN_CONSUMPTION then
     (rooted_fields ++ [("binding_id", has opaque); ("challenge_id", has opaque); ("challenge_digest", has opaque);
      ("selection_digest", has opaque); ("credential_digest", has opaque); ("counter_version", has positive_);
      ("sign_count_before", has uint); ("sign_count_after", has uint);
      ("backup_eligible", cbor_is_bool); ("backup_state", cbor_is_bool); ("consumed_at", has uint)])%list
   else if String.eqb schema AGENT_POP then
     [("tenant", has (bounded 128)); ("birthtag", has opaque); ("revision", has positive_); ("agent_kid", has (bounded 128));
      ("proposed_agent_digest", has opaque); ("challenge", has opaque)]
   else if String.eqb schema CREDENTIAL then
     (rooted_fields ++ [("authority_delegation_id", has opaque); ("birthtag", has opaque); ("revision", has positive_);
      ("agent_kid", has (bounded 128)); ("agent_key", has opaque); ("owner", has (bounded 1024)); ("purpose", has (bounded 1024));
      ("mandate_digest", has opaque); ("config_digest", has opaque); ("template_id", has opaque);
      ("template_version", has positive_); ("principal_binding_id", has opaque); ("admin_selection_digest", has opaque);
      ("agent_pop_digest", has opaque); ("agent_successor_digest", fun v => cbor_is_null v || has opaque v);
      ("issuance_checkpoint", has opaque); ("valid_from", has uint); ("valid_to", has uint)])%list
   else if String.eqb schema AGENT_SUCCESSOR then
     (rooted_fields ++ [("predecessor_birthtag", has opaque); ("predecessor_revision", has positive_);
      ("predecessor_credential_digest", has opaque); ("successor_birthtag", has opaque);
      ("successor_revision", fun v => bool_decide (positive_ v = Some 1)); ("successor_proposal_digest", has opaque);
      ("effective_at", has uint)])%list
   else if String.eqb schema GRANT then
     (rooted_fields ++ [("grant_id", has opaque); ("grant_version", has positive_); ("authority_delegation_id", has opaque);
      ("actor_birthtag", has opaque); ("recipient_organisation_root", has opaque); ("operation", has (bounded 1024));
      ("unit", has (bounded 64)); ("action_scope_digest", has opaque);
      ("kind", fun v => is_some_and (text v) (fun kind => str_in kind ["ONE_SHOT"; "FLOW"; "STOCK"]));
      ("ceiling", has decimal); ("window_start", has uint); ("window_end", has uint); ("valid_from", has uint);
      ("valid_to", has uint); ("max_unresolved_exposure", has decimal)])%list
   else if String.eqb schema CHECKPOINT then
     (rooted_fields ++ [("sequence", has uint); ("authority_root", has (fixed 32)); ("log_root", has (fixed 32));
      ("log_size", has uint); ("issued_at", has uint)])%list
   else if String.eqb schema SNAPSHOT then
     (rooted_fields ++ [("authority_delegation_id", has opaque); ("checkpoint_digest", has (fixed 32));
      ("proofs_digest", has (fixed 32)); ("status_as_of", has uint); ("expires_at", has uint)])%list
   else [])%string.

(** A core of the schema's shape. *)
Definition shaped (schema : string) (v : cbor) : Prop :=
  exists doc, plain v = Some doc /\ fields_typed doc (schema_fields schema).
End Tables.

(** A validator's body, once its document is read, and the table from what it held. *)
Ltac document_read doc Hd :=
  lazymatch goal with
  | |- holds (match document ?v ?s ?fs with _ => _ end) _ =>
      destruct (document v s fs) as [doc|] eqn:Hd; [|by apply holds_done]
  end.
Ltac tables :=
  unfold fields_typed in *; cbn [map] in *; unfold inline in *; cbn [map] in *;
  repeat match goal with
    | Ht : Forall _ (_ :: _) |- _ => apply Forall_cons in Ht as [? Ht]
    | Ht : _ /\ _ |- _ => destruct Ht
    end; cbn [fst snd] in *.
Ltac shape Hd :=
  eexists; split; [exact (document_plain _ _ _ _ Hd)|]; tables;
  lazymatch goal with |- Forall _ (schema_fields ?s) => let t := eval cbv [schema_fields rooted_fields agent_fields action_fields party_fields app ACTION CHALLENGE ASA PRESENTATION ACKNOWLEDGEMENT REFUSAL ROOT_DELEGATION TEMPLATE ADMIN_BINDING ADMIN_SELECTION ADMIN_CHALLENGE ADMIN_CONSUMPTION AGENT_POP CREDENTIAL AGENT_SUCCESSOR GRANT CHECKPOINT SNAPSHOT String.eqb Ascii.eqb Bool.eqb] in (schema_fields s) in change (schema_fields s) with t | _ => idtac end;
  repeat (apply List.Forall_cons; [cbn [fst snd]; try assumption|]); try apply List.Forall_nil.

Section Validators.
Context {H : Hash} {B : Base64} {ED : Ed25519} {CA : CiboriumAt}.

(** The bodies that only read typed members. *)
Ltac simple_validator f :=
  let doc := fresh "doc" in let Hd := fresh "Hd" in
  unfold f; document_read doc Hd; eapply holds_mono; [hold|intros ?; shape Hd].

Lemma validate_template_ok v : holds (validate_template v) (shaped TEMPLATE v).
Proof. simple_validator @validate_template. Qed.
Lemma validate_asa_ok v : holds (validate_asa v) (shaped ASA v).
Proof. simple_validator @validate_asa. Qed.
Lemma validate_refusal_ok v : holds (validate_refusal v) (shaped REFUSAL v).
Proof. simple_validator @validate_refusal. Qed.
Lemma validate_acknowledgement_ok v : holds (validate_acknowledgement v) (shaped ACKNOWLEDGEMENT v).
Proof. simple_validator @validate_acknowledgement. Qed.
Lemma validate_admin_binding_ok v : holds (validate_admin_binding v) (shaped ADMIN_BINDING v).
Proof. simple_validator @validate_admin_binding. Qed.
Lemma validate_selection_ok v : holds (validate_selection v) (shaped ADMIN_SELECTION v).
Proof. simple_validator @validate_selection. Qed.
Lemma validate_admin_challenge_ok v : holds (validate_admin_challenge v) (shaped ADMIN_CHALLENGE v).
Proof. simple_validator @validate_admin_challenge. Qed.
Lemma validate_pop_ok v : holds (validate_pop v) (shaped AGENT_POP v).
Proof. simple_validator @validate_pop. Qed.
Lemma validate_checkpoint_ok v : holds (validate_checkpoint v) (shaped CHECKPOINT v).
Proof. simple_validator @validate_checkpoint. Qed.
Lemma validate_snapshot_ok v : holds (validate_snapshot v) (shaped SNAPSHOT v).
Proof. simple_validator @validate_snapshot. Qed.
(** The bodies with a step of their own: [hold] leaves it. *)
Ltac own_step :=
  lazymatch goal with
  | |- holds (mbind _ (at_ _ _)) _ => apply (holds_at _ _ _ True); [present|intros; own_step]
  | |- holds (mbind _ (same _ _ _ _)) True =>
      apply holds_true, wp_bind; eapply wp_mono; [apply holds_same; present|intros; apply wp_done; exact I]
  | |- holds (Done _) True => by apply holds_done
  | |- _ => idtac
  end.

Lemma validate_grant_ok v : holds (validate_grant v) (shaped GRANT v).
Proof.
  unfold validate_grant. document_read doc Hd. eapply holds_mono; [hold; own_step|intros ?; shape Hd].
Qed.
Lemma validate_successor_ok v : holds (validate_successor v) (shaped AGENT_SUCCESSOR v).
Proof.
  unfold validate_successor. document_read doc Hd. eapply holds_mono; [hold|intros ?; shape Hd].
  instantiate (1 := True). own_step.
Qed.

Lemma typed_has {A} (doc : Doc) k v (reader : cbor -> option A) x :
  doc !! k = Some v -> reader v = Some x -> typed doc k (has reader).
Proof. intros Hv Hx. exists v. split; [done|]. unfold has. by rewrite Hx. Qed.
Lemma typed_is_text (doc : Doc) k n s : typed doc k (fun v => is_text (bounded n v) s) -> typed doc k (has (bounded n)).
Proof. intros Ht. eapply typed_weaken; [exact Ht|]. intros v. apply is_text_has. Qed.

Lemma validate_delegation_ok v : holds (validate_delegation v) (shaped ROOT_DELEGATION v).
Proof.
  unfold validate_delegation. document_read doc Hd.
  apply holds_at; [present|]; intros root_value Hroot. apply holds_at; [present|]; intros psa_value Hpsa.
  apply holds_at; [present|]; intros action_value Haction.
  destruct (fixed 32 root_value) as [root|] eqn:Er; [|by apply holds_done].
  destruct (fixed 32 psa_value) as [psa|] eqn:Ep; [|by apply holds_done].
  destruct (fixed 32 action_value) as [act|] eqn:Ea; [|by apply holds_done].
  eapply holds_mono; [hold|intros ?; shape Hd]; eauto using typed_is_text, typed_has.
Qed.

Lemma validate_credential_ok v : holds (validate_credential v) (shaped CREDENTIAL v).
Proof.
  unfold validate_credential. document_read doc Hd.
  apply holds_at; [present|]; intros root_value Hroot. apply holds_at; [present|]; intros key_value Hkey.
  destruct (fixed 32 root_value) as [root|] eqn:Er; [|by apply holds_done].
  destruct (fixed 32 key_value) as [key|] eqn:Ek; [|by apply holds_done].
  eapply holds_mono; [hold|intros ?; shape Hd]; eauto using typed_is_text.
Qed.

Lemma consumption_counter_true before after eligible state : consumption_counter before after eligible state = true ->
  has uint before = true /\ has uint after = true /\ cbor_is_bool eligible = true /\ cbor_is_bool state = true.
Proof.
  unfold consumption_counter, has. destruct (uint before), (uint after), eligible, state; try done.
Qed.
Lemma holds_counter (doc : Doc) : is_Some (doc !! "sign_count_before"%string) -> is_Some (doc !! "sign_count_after"%string) ->
  is_Some (doc !! "backup_eligible"%string) -> is_Some (doc !! "backup_state"%string) ->
  holds (before ← at_ doc "sign_count_before"; after ← at_ doc "sign_count_after";
         eligible ← at_ doc "backup_eligible"; state ← at_ doc "backup_state";
         Done (consumption_counter before after eligible state))
    (typed doc "sign_count_before" (has uint) /\ typed doc "sign_count_after" (has uint)
     /\ typed doc "backup_eligible" cbor_is_bool /\ typed doc "backup_state" cbor_is_bool).
Proof.
  intros. do 4 (apply holds_at; [done|]; intros ? ?). apply holds_done.
  intros (?&?&?&?)%consumption_counter_true. split_and!; eexists; eauto.
Qed.
Lemma validate_admin_consumption_ok v : holds (validate_admin_consumption v) (shaped ADMIN_CONSUMPTION v).
Proof.
  unfold validate_admin_consumption. document_read doc Hd.
  eapply holds_mono; [hold; apply holds_counter; present|intros ?; shape Hd].
Qed.

(** Nested references: a document of the given table, as a result of its reader. *)
Definition reads (e : exec (option (gmap string cbor))) (v : cbor) (table : list (string * (cbor -> bool))) : Prop :=
  wp e (fun o => forall doc, o = Some doc -> plain v = Some doc /\ fields_typed doc table).
Lemma reads_holds e v table : reads e v table ->
  holds (o ← e; Done (is_some o)) (exists doc, e = Done (Some doc)).
Proof. destruct e as [[doc|]|]; cbn; try done; eauto. Qed.

Lemma reads_body (e : exec bool) v doc table (P : Prop) : plain v = Some doc -> holds e P ->
  (P -> fields_typed doc table) -> reads (valid ← e; Done (then_some valid doc)) v table.
Proof.
  intros Hv He Ht. apply wp_bind. eapply wp_mono; [exact He|]. intros b Hb. apply wp_done.
  intros d [-> ->]%then_some_Some. auto.
Qed.

Lemma agent_reads v : reads (agent v) v agent_fields.
Proof.
  unfold agent. destruct (document v _ _) as [doc|] eqn:Hd; [|by apply wp_done].
  eapply reads_body; [exact (document_plain _ _ _ _ Hd)|hold|intros ?; tables].
  repeat (apply List.Forall_cons; [assumption|]). apply List.Forall_nil.
Qed.
Lemma resource_reads v : reads (resource v) v [].
Proof.
  unfold resource. destruct (document v _ _) as [doc|] eqn:Hd; [|by apply wp_done].
  eapply reads_body; [exact (document_plain _ _ _ _ Hd)|hold|intros _; apply List.Forall_nil].
Qed.
Lemma party_reads v : reads (party v) v party_fields.
Proof.
  unfold party. destruct (document v _ _) as [doc|] eqn:Hd; [|by apply wp_done].
  eapply reads_body; [exact (document_plain _ _ _ _ Hd)|hold|intros ?; tables].
  repeat (apply List.Forall_cons; [assumption|]). apply List.Forall_nil.
Qed.

Lemma is_agent_doc v : is_agent v = true -> exists doc, plain v = Some doc /\ fields_typed doc agent_fields.
Proof.
  unfold is_agent. pose proof (agent_reads v) as Hr. destruct (agent v) as [[doc|]|]; try done. eauto.
Qed.

(** A nested reader in a chain of tests. *)
Lemma holds_reader (doc : Doc) k read test table : is_Some (doc !! k) ->
  (forall v, reads (read v) v table) ->
  (forall v, test v = match read v with Done (Some _) => true | _ => false end) ->
  holds (v ← at_ doc k; o ← read v; Done (is_some o)) (typed doc k test).
Proof.
  intros Hk Hr Ht. apply holds_at; [done|]. intros v Hv. eapply holds_mono; [eapply reads_holds, Hr|].
  intros [d Hd]. exists v. split; [done|]. by rewrite Ht, Hd.
Qed.
Lemma reads_case e v table : reads e v table ->
  e = Done None \/ exists doc, e = Done (Some doc) /\ plain v = Some doc /\ fields_typed doc table.
Proof. destruct e as [[doc|]|]; [right|by left|done]. exists doc. split; [done|]. by apply H0. Qed.
Lemma typed_intro (doc : Doc) k v test : doc !! k = Some v -> test v = true -> typed doc k test.
Proof. intros. by exists v. Qed.

Lemma action_reads v : reads (action v) v action_fields.
Proof.
  unfold action. destruct (document v _ _) as [doc|] eqn:Hd; [|by apply wp_done].
  apply wp_bind, wp_at; [present|]. intros cv Hcv.
  destruct (reads_case _ _ _ (party_reads cv)) as [E|(counterparty & Ec & _ & Hct)]; [by rewrite E; apply wp_done|].
  rewrite Ec. apply wp_bind, wp_done, wp_bind, wp_at; [present|]. intros rv Hrv.
  destruct (reads_case _ _ _ (agent_reads rv)) as [E|(recipient & Er & _ & Hrt)]; [by rewrite E; apply wp_done|].
  rewrite Er. apply wp_bind, wp_done. assert (is_party cv = true) as Hcp by (unfold is_party; by rewrite Ec).
  assert (is_agent rv = true) as Hra by (unfold is_agent; by rewrite Er).
  eapply reads_body; [exact (document_plain _ _ _ _ Hd)| |].
  - hold.
    + apply (holds_reader _ _ agent is_agent agent_fields); [present|apply agent_reads|done].
    + apply (holds_reader _ _ resource is_resource []); [present|apply resource_reads|done].
    + apply (holds_reader _ _ resource is_resource []); [present|apply resource_reads|done].
  - intros ?; tables. repeat (apply List.Forall_cons; [first [assumption|eapply typed_intro; eassumption]|]). apply List.Forall_nil.
Qed.
Lemma is_action_doc v : is_action v = true -> exists doc, action v = Done (Some doc) /\ plain v = Some doc /\ fields_typed doc action_fields.
Proof.
  unfold is_action. intros Hi. destruct (reads_case _ _ _ (action_reads v)) as [E|(doc & E & ?)]; [by rewrite E in Hi|eauto].
Qed.

Lemma validate_presentation_ok v : holds (validate_presentation v) (shaped PRESENTATION v).
Proof.
  unfold validate_presentation. document_read doc Hd. apply holds_at; [present|]; intros sp Hsp.
  document_read proofs Hp. pose proof (typed_has _ _ _ (fun v => document v None STATE_PROOFS) _ Hsp Hp). clear Hp.
  eapply holds_mono; [hold|intros ?; shape Hd].
Qed.

Lemma holds_bind_done {A} (a : A) k P : holds (k a) P -> holds (Done a ≫= k) P.
Proof. done. Qed.
(** The test of the opening and the expiry. *)
Lemma before_positive x y : before (positive_ x) (positive_ y) = true -> has positive_ x = true.
Proof. unfold has. by destruct (positive_ x). Qed.
Lemma holds_opening (doc a : Doc) : is_Some (doc !! "issued_at"%string) -> is_Some (a !! "expires_at"%string) ->
  holds (issued ← at_ doc "issued_at"; expires ← at_ a "expires_at"; Done (before (positive_ issued) (positive_ expires)))
    (typed doc "issued_at" (has positive_)).
Proof.
  intros. apply holds_at; [done|]; intros x Hx. apply holds_at; [done|]; intros y Hy. apply holds_done.
  intros Hb%before_positive. by exists x.
Qed.

Lemma validate_challenge_ok v : holds (validate_challenge v) (shaped CHALLENGE v).
Proof.
  unfold validate_challenge. document_read doc Hd.
  apply holds_at; [present|]; intros accepted Hacc. apply holds_at; [present|]; intros dims Hdims.
  destruct (array accepted 1) as [enc|] eqn:Eenc; [|by apply holds_done].
  destruct (array dims MAX_LOCAL_ITEMS) as [req|] eqn:Ereq; [|by apply holds_done].
  destruct (mapM (bounded 64) req) as [names|] eqn:Enames; [|by apply holds_done].
  apply holds_at; [present|]; intros av Hav.
  destruct (reads_case _ _ _ (action_reads av)) as [E|(a & Ea & Hap & Hat)].
  { rewrite E. apply holds_bind_done. eapply holds_mono; [hold|by intros ([[[[? ?] ?] ?] ?] & ?)].
    apply (holds_reader _ _ agent is_agent agent_fields); [present|apply agent_reads|done]. }
  rewrite Ea. apply holds_bind_done. eapply holds_mono.
  { hold; [apply (holds_reader _ _ agent is_agent agent_fields); [present|apply agent_reads|done]|].
    apply holds_opening; present. }
  assert (is_action av = true) as Ha by (unfold is_action; by rewrite Ea).
  pose proof (typed_has _ _ _ (fun v => array v 1) _ Hacc Eenc).
  pose proof (typed_has _ _ _ (fun v => array v MAX_LOCAL_ITEMS) _ Hdims Ereq).
  pose proof (typed_intro _ _ _ is_action Hav Ha).
  intros ?. shape Hd.
Qed.
End Validators.

(** ** The arms of the core validator *)

Section Core.
Context {H : Hash} {B : Base64} {ED : Ed25519} {CA : CiboriumAt}.

Lemma validate_action_ok v : holds (a ← action v; Done (is_some a)) (shaped ACTION v).
Proof.
  destruct (reads_case _ _ _ (action_reads v)) as [E|(doc & E & Hp & Ht)]; rewrite E; apply holds_bind_done, holds_done;
    [done|]. intros _. by exists doc.
Qed.
Lemma validate_core_ok v schema : holds (validate_core v schema) (shaped schema v).
Proof.
  unfold validate_core, validators. cbn [List.find fst].
  repeat match goal with |- context [String.eqb schema ?s] => destruct (String.eqb_spec schema s) as [->|?] end;
    cbn beta iota; [apply validate_action_ok|apply validate_challenge_ok|..|by apply holds_done].
  - apply validate_asa_ok.
  - apply validate_presentation_ok.
  - apply validate_acknowledgement_ok.
  - apply validate_refusal_ok.
  - apply validate_delegation_ok.
  - apply validate_template_ok.
  - apply validate_admin_binding_ok.
  - apply validate_selection_ok.
  - apply validate_admin_challenge_ok.
  - apply validate_admin_consumption_ok.
  - apply validate_pop_ok.
  - apply validate_credential_ok.
  - apply validate_successor_ok.
  - apply validate_grant_ok.
  - apply validate_checkpoint_ok.
  - apply validate_snapshot_ok.
Qed.

(** ** Names *)

Lemma is_prefix_spec p b : is_prefix p b = true <-> exists t, b = p ++ t.
Proof.
  unfold is_prefix. rewrite bytes_eqb_true. split.
  - intros E. exists (drop (length p) b). rewrite E at 1. by rewrite take_drop.
  - intros [t ->]. by rewrite take_app_length.
Qed.
Lemma has_window_spec n b : has_window n b = true <-> exists pre post, b = pre ++ n ++ post.
Proof.
  induction b as [|x b IH]; cbn [has_window]; rewrite orb_true_iff, is_prefix_spec.
  - split; [intros [[t E]|]; [by exists [], t|done]|]. intros (pre & post & E). left.
    destruct pre; [by exists post|done].
  - rewrite IH. split.
    + intros [[t E]|(pre & post & ->)]; [by exists [], t|by exists (x :: pre), post].
    + intros ([|y pre] & post & E); [left; by exists post|right]. injection E as -> ->. eauto.
Qed.
Lemma replace_first_spec from to b : from <> [] ->
  (has_window from b = false /\ replace_first from to b = b)
  \/ exists pre post, b = pre ++ from ++ post /\ replace_first from to b = pre ++ to ++ post.
Proof.
  intros Hn. induction b as [|x b IH]; cbn [replace_first has_window].
  - destruct (is_prefix from []) eqn:E; [|by left]. apply is_prefix_spec in E as [t E].
    symmetry in E. by apply app_eq_nil in E as [-> _].
  - destruct (is_prefix from (x :: b)) eqn:E; cbn [orb].
    + right. apply is_prefix_spec in E as [t E]. exists [], t. rewrite E, drop_app_length. done.
    + destruct IH as [[Hw Hr]|(pre & post & -> & Hr)]; [left; by rewrite Hr|right].
      exists (x :: pre), post. by rewrite Hr.
Qed.
Lemma replace_first_range from to b : Forall is_byte to -> Forall is_byte b -> Forall is_byte (replace_first from to b).
Proof.
  intros Ht. induction b as [|x b IH]; intros Hb; cbn [replace_first].
  - destruct (is_prefix from []); [|done]. apply Forall_app. split; [done|]. by apply Forall_drop.
  - destruct (is_prefix from (x :: b)); [apply Forall_app; split; [done|by apply Forall_drop]|].
    inversion Hb; subst. constructor; auto.
Qed.

(** A name in which the v1 namespace occurs only as its prefix, and the v2 namespace not at all. *)
Definition one_namespace (n : string) : bool :=
  negb (has_window (str_bytes V1_NS) (tail (str_bytes n))) && negb (has_window (str_bytes V2_NS) (str_bytes n)).

Lemma accepted_name_cases s v : one_namespace (V1_NS +:+ s) = true ->
  accepted_name (Some v) (V1_NS +:+ s) = true <-> v = V1_NS +:+ s \/ v = V2_NS +:+ s.
Proof.
  intros [H1%negb_true_iff H2%negb_true_iff]%andb_true_iff. unfold accepted_name, replacen_one. cbn [is_some_and]. rewrite String.eqb_eq.
  set (e := V1_NS +:+ s) in *.
  assert (forall b, Forall is_byte b -> bytes_str b = e <-> b = str_bytes e) as Hb.
  { intros b Hr. split; [intros <-; by rewrite str_bytes_str|intros ->; apply bytes_str_bytes]. }
  rewrite Hb by (apply replace_first_range; apply str_bytes_range).
  assert (forall x y, str_bytes x = str_bytes y <-> x = y) as Hi by (split; [apply str_bytes_inj|by intros ->]).
  split.
  - intros E. destruct (replace_first_spec (str_bytes V2_NS) (str_bytes V1_NS) (str_bytes v)) as [[_ Hr]|(pre & post & Hv & Hr)]; [done| |].
    + left. apply Hi. congruence.
    + right. rewrite Hr in E. destruct pre as [|x pre].
      * apply Hi. rewrite string_bytes_app, Hv. unfold e in E. rewrite string_bytes_app in E.
        cbn [app] in *. by apply app_inv_head in E as ->.
      * exfalso. rewrite <- E in H1. cbn [app tail] in H1. by rewrite (proj2 (has_window_spec _ _)) in H1 by eauto.
  - intros [->| ->].
    + destruct (replace_first_spec (str_bytes V2_NS) (str_bytes V1_NS) (str_bytes e)) as [[_ Hr]|(pre & post & Hv & _)]; [done|done|].
      by rewrite (proj2 (has_window_spec _ _)) in H2 by eauto.
    + rewrite string_bytes_app.
      assert (replace_first (str_bytes V2_NS) (str_bytes V1_NS) (str_bytes V2_NS ++ str_bytes s) = str_bytes V1_NS ++ str_bytes s) as Hr.
      { change (replace_first (str_bytes V2_NS) (str_bytes V1_NS) (str_bytes V2_NS ++ str_bytes s))
          with (if is_prefix (str_bytes V2_NS) (str_bytes V2_NS ++ str_bytes s)
                then str_bytes V1_NS ++ drop (length (str_bytes V2_NS)) (str_bytes V2_NS ++ str_bytes s)
                else replace_first (str_bytes V2_NS) (str_bytes V1_NS) (str_bytes V2_NS ++ str_bytes s)).
        rewrite (proj2 (is_prefix_spec _ _)) by eauto. by rewrite drop_app_length. }
      rewrite Hr. unfold e. by rewrite string_bytes_app.
Qed.

(** Every name the verifier compares. *)
Definition NAMES : list string :=
  [LOCAL_CONTEXT; LOCAL_REFUSAL_CONTEXT; TRUST_PACK; ACTION; AGENT_REF; RESOURCE_REF; PARTY_REF; CHALLENGE; ASA;
   PRESENTATION; ACKNOWLEDGEMENT; REFUSAL; ROOT_DELEGATION; TEMPLATE; ADMIN_BINDING; ADMIN_SELECTION; ADMIN_CHALLENGE;
   ADMIN_CONSUMPTION; AGENT_POP; CREDENTIAL; AGENT_SUCCESSOR; GRANT; CHECKPOINT; SNAPSHOT; MEMBERSHIP].
Lemma names_one_namespace n : n ∈ NAMES -> one_namespace n = true.
Proof.
  intros Hn. assert (forallb one_namespace NAMES = true) as Ha by (vm_compute; reflexivity).
  rewrite forallb_forall in Ha. by apply Ha, list_elem_of_In.
Qed.

(** A schema name is accepted in exactly two spellings, the v1 name itself and the same name
    in the v2 namespace; folding a v2 name back admits nothing else. *)
Theorem two_spellings (n s v : string) : n ∈ NAMES -> n = V1_NS +:+ s ->
  accepted_name (Some v) n = true <-> v = n \/ v = V2_NS +:+ s.
Proof. intros Hn ->. by apply accepted_name_cases, names_one_namespace. Qed.

(** No core makes a validator panic, whatever its value and the schema asked for, and a
    valid core has every member its schema asks for, with its type. *)
Theorem validate_core_typed (v : cbor) (schema : string) :
  exists b, validate_core v schema = Done b /\ (b = true -> shaped schema v).
Proof. apply (wp_total _ (fun b => b = true -> shaped schema v)), validate_core_ok. Qed.

(** ** Canonical values *)

Lemma mapM_weaken {A C} (f g : A -> option C) l k :
  Forall (fun x => forall y, f x = Some y -> g x = Some y) l -> mapM f l = Some k -> mapM g l = Some k.
Proof.
  intros Hl. revert k. induction Hl as [|x l Hx Hl IH]; intros k; [done|]. cbn [mapM].
  intros (y & Hy & Hk)%bind_Some. apply bind_Some in Hk as (t & Ht & [= <-]). by rewrite (Hx _ Hy), (IH _ Ht).
Qed.
Lemma write_value_mono v l l' p b : l <= l' -> write_value v l p = Some b -> write_value v l' p = Some b.
Proof.
  revert l l' b. induction v as [i|c|f|s|c| |t v|a IH|m IH] using cbor_ind'; intros l l' b Hl Hw;
    pose proof (write_value_written _ _ _ _ Hw) as [Hp _];
    assert ((l <? 0) = false) as E by (apply Z.ltb_ge; lia); assert ((l' <? 0) = false) as E' by (apply Z.ltb_ge; lia).
  1-7: cbn in Hw |- *; by rewrite E in Hw; rewrite E'.
  - rewrite write_array, E in Hw. rewrite write_array, E'. apply bind_Some in Hw as (xs & Hx & Hw).
    erewrite mapM_weaken; [exact Hw| |exact Hx]. eapply Forall_impl; [exact IH|]. cbn.
    intros x Hi y. apply Hi. lia.
  - rewrite write_map, E in Hw. rewrite write_map, E'. apply bind_Some in Hw as (xs & Hx & Hw).
    erewrite mapM_weaken; [exact Hw| |exact Hx]. eapply Forall_impl; [exact IH|]. cbn.
    intros x Hi y. unfold write_pair. intros (kb & Hk & Hv)%bind_Some. apply bind_Some in Hv as (vb & Hv & [= <-]).
    rewrite Hk. cbn. by rewrite (Hi (l - 1) (l' - 1) vb ltac:(lia) Hv).
Qed.

(** A value that the emitter writes below the root of a document. *)
Definition below (v : cbor) : Prop := exists b, write_value v (MAX_CBOR_DEPTH - 1) CWT_PROFILE = Some b.
Lemma below_canonical v : below v -> exists b, canonical v = Some b.
Proof. intros [b Hb]. exists b. eapply write_value_mono; [|exact Hb]. lia. Qed.

Lemma fold_doc_mem entries out doc k v : fold_doc entries out = Some doc -> doc !! k = Some v ->
  out !! k = Some v \/ (CText k, v) ∈ entries.
Proof.
  revert out. induction entries as [|[key x] entries IH]; intros out Hf Hk; cbn in Hf; [left; congruence|].
  destruct key as [| | |key| | | | |]; try done. case_step Hf.
  destruct (IH _ Hf Hk) as [Ho|Hin]; [|by right; right].
  destruct (decide (k = key)) as [->|Hne]; [rewrite lookup_insert_eq in Ho; injection Ho as ->; right; left|].
  rewrite lookup_insert_ne in Ho by done. by left.
Qed.
Lemma plain_mem v doc k x : plain v = Some doc -> doc !! k = Some x -> exists m, v = CMap m /\ (CText k, x) ∈ m.
Proof.
  destruct v as [| | | | | | | |m]; try done. cbn. intros Hf Hk. exists m. split; [done|].
  by destruct (fold_doc_mem _ _ _ _ _ Hf Hk) as [?|?].
Qed.
Lemma member_below v doc k x b : canonical v = Some b -> plain v = Some doc -> doc !! k = Some x -> below x.
Proof.
  intros Hc Hp Hk. destruct (plain_mem _ _ _ _ Hp Hk) as (m & -> & Hin).
  unfold canonical, canonical_bytes in Hc. rewrite write_map in Hc. cbn [Z.ltb] in Hc.
  destruct (MAX_CBOR_DEPTH <? 0); [done|]. apply bind_Some in Hc as (xs & Hx & _). apply mapM_Some in Hx.
  apply list_elem_of_lookup in Hin as [i Hi]. destruct (Forall2_lookup_l _ _ _ _ _ Hx Hi) as (e & _ & He).
  unfold write_pair in He. apply bind_Some in He as (kb & _ & He). apply bind_Some in He as (vb & Hv & _).
  by exists vb.
Qed.

(** Distinct keys pass the emitter's duplicate test. *)
Lemma windows2_nodup (q : list (bytes * bytes)) : NoDup q.*1 -> existsb (fun w => bytes_eqb w.1.1 w.2.1) (windows2 q) = false.
Proof.
  induction q as [|x [|y q] IH]; intros Hn; [done..|].
  inversion Hn as [|? ? Hx Hr]; subst. change (windows2 (x :: y :: q)) with ((x, y) :: windows2 (y :: q)).
  cbn [existsb fst snd]. rewrite IH by done. rewrite orb_false_r. apply bytes_eqb_neq. intros E. apply Hx.
  cbn. rewrite E. by left.
Qed.
Lemma emit_map_nodup q : NoDup q.*1 -> exists b, emit_map q = Some b.
Proof.
  intros Hn. unfold emit_map. rewrite windows2_nodup; [eauto|]. by rewrite (sort_by_perm key_leb q).
Qed.

(** A map of named members, each of them below a root, is canonical when the encoded names differ. *)
Lemma named_canonical (l : list (string * cbor)) : NoDup (map write_text l.*1) -> Forall (fun x => below x.2) l ->
  exists b, canonical (map_value l) = Some b.
Proof.
  intros Hn Hb. unfold canonical, canonical_bytes, map_value. rewrite write_map.
  destruct (MAX_CBOR_DEPTH <? 0) eqn:E; [done|]. clear E.
  assert (exists q, mapM (write_pair (MAX_CBOR_DEPTH - 1) CWT_PROFILE) (map (fun x => (CText x.1, x.2)) l) = Some q
    /\ q.*1 = map write_text l.*1) as (q & -> & Hq).
  { clear Hn. induction Hb as [|x l [b Hx] _ (q & Hq & Hk)]; [by exists []|]. cbn [map mapM fmap list_fmap].
    exists ((write_text x.1, b) :: q). rewrite Hq. unfold write_pair at 1. cbn [fst snd write_key mbind option_bind].
    rewrite Hx. cbn. by rewrite Hk. }
  cbn. apply emit_map_nodup. by rewrite Hq.
Qed.
End Core.

(** ** Accepted envelopes *)

Section Envelope.
Context {H : Hash} {B : Base64} {ED : Ed25519} {CA : CiboriumAt}.

Lemma decode_Some data cap v : decode data cap = Some v -> zlen data <= cap /\ canonical v = Some data.
Proof.
  unfold decode. intros Hd. case_step Hd. apply bind_Some in Hd as (n & _ & Hd). case_step Hd.
  apply bind_Some in Hd as ([w p] & _ & Hd). apply bind_Some in Hd as (c & Hc & Hd).
  apply then_some_Some in Hd as [He%bytes_eqb_true ->]. case_step Hc. bool_prop. by subst.
Qed.

(** The value an envelope encodes under tag 18, its header and its claims. *)
Definition envelope_value (c : Cwt) : cbor :=
  CArray [CBytes (protected c); CMap []; CBytes (payload c); CBytes (signature c)].
Definition header_entries (h : list (cbor * cbor)) (kid : string) : Prop :=
  zlen h = 3 /\ integer h 1 = Some (CInteger (-8)) /\ integer h 3 = Some (CText MEDIA)
  /\ exists raw, integer h 4 = Some (CBytes raw) /\ from_utf8 raw = Some kid.
Definition claims_value (profile : string) (core : cbor) : cbor :=
  CMap [(CInteger CWT_PROFILE_CLAIM, CText profile); (CInteger B28_CORE_CLAIM, core)].

(** An envelope [raw] with parts [c] whose core is valid for [schema]. *)
Record cwt_envelope (raw : bytes) (schema : string) (c : Cwt) : Prop := {
  ce_raw : exists body, raw = CWT_TAG :: body /\ canonical (envelope_value c) = Some body;
  ce_size : zlen raw <= MAX_CWT /\ zlen (signature c) = 64;
  ce_kid : header_kid (protected c) = Some (kid c);
  ce_header : exists h, canonical (CMap h) = Some (protected c) /\ header_entries h (kid c);
  ce_claims : claims_core (payload c) = Some (core c);
  ce_payload : exists profile, profile_matches (Some profile) = true
    /\ canonical (claims_value profile (core c)) = Some (payload c);
  ce_core : canonical (core c) = Some (core_bytes c);
  ce_valid : validate_core (core c) schema = Done true;
}.

Lemma cwt_parts_Some raw p x s : cwt_parts raw = Some (p, x, s) ->
  zlen raw <= MAX_CWT /\ zlen s = 64 /\ exists body, raw = CWT_TAG :: body
  /\ canonical (CArray [CBytes p; CMap []; CBytes x; CBytes s]) = Some body.
Proof.
  unfold cwt_parts. intros Hp. case_step Hp. apply orb_false_iff in E as [Hl%Z.ltb_ge Ht%negb_false_iff%bool_decide_eq_true].
  apply bind_Some in Hp as (items & Hd%decode_Some & Hp). destruct Hd as [_ Hd].
  repeat case_step Hp; subst. apply then_some_Some in Hp as [[Hu%Z.eqb_eq Hs%Z.eqb_eq]%andb_true_iff [= -> -> ->]].
  split_and!; [done|done|]. destruct raw as [|t body]; [done|]. injection Ht as ->. exists body. split; [done|].
  cbn [drop] in Hd. match type of Hu with zlen ?m = 0 => destruct m as [|? t]; [done|] end.
  exfalso. revert Hu. rewrite zlen_cons. pose proof (zlen_nonneg t). lia.
Qed.

Lemma integer_is_true m k n : integer_is m k n = true -> integer m k = Some (CInteger n).
Proof. unfold integer_is. destruct (integer m k) as [[]|]; try done. by intros ->%Z.eqb_eq. Qed.
Lemma is_text_value o s : is_text (text o) s = true -> o = CText s.
Proof. unfold is_text. intros Ht%bool_decide_eq_true. destruct o; try done. cbn in Ht. congruence. Qed.

Lemma header_kid_Some p k : header_kid p = Some k ->
  exists h, canonical (CMap h) = Some p /\ header_entries h k.
Proof.
  unfold header_kid. intros Hk. apply bind_Some in Hk as (hv & Hd%decode_Some & Hk). destruct Hd as [_ Hd].
  destruct hv as [| | | | | | | |h]; try done. cbn [mbind option_bind] in Hk. case_step Hk.
  apply orb_false_iff in E as [Hn%negb_false_iff%Z.eqb_eq Ha%negb_false_iff%integer_is_true].
  apply bind_Some in Hk as (media & Hm & Hk). case_step Hk. apply negb_false_iff, is_text_value in E as ->.
  apply bind_Some in Hk as (kv & Hkv & Hk). apply bind_Some in Hk as (raw & Hr & Hk).
  destruct kv; try done. injection Hr as ->. apply bind_Some in Hk as (k' & Hu & Hk).
  apply then_some_Some in Hk as [_ ->]. exists h. split; [done|]. split_and!; eauto.
Qed.

Lemma claims_core_Some x core : claims_core x = Some core ->
  exists profile, profile_matches (Some profile) = true /\ canonical (claims_value profile core) = Some x.
Proof.
  unfold claims_core. intros Hk. apply bind_Some in Hk as (cv & Hd%decode_Some & Hk). destruct Hd as [_ Hd].
  destruct cv as [| | | | | | | |m]; try done. cbn [mbind option_bind] in Hk. case_step Hk.
  apply orb_false_iff in E as [Hn%negb_false_iff%Z.eqb_eq Hf%negb_false_iff].
  apply bind_Some in Hk as (pv & Hp & Hk). case_step Hk. apply negb_false_iff in E.
  destruct m as [|[k1 v1] [|[k2 v2] [|? t]]]; try done.
  2: { rewrite !zlen_cons in Hn. pose proof (zlen_nonneg t). lia. }
  cbn [forallb fst] in Hf. destruct k1 as [k1| | | | | | | |], k2 as [k2| | | | | | | |]; rewrite ?andb_false_r in Hf; try done.
  assert (exists s, pv = CText s /\ profile_matches (Some s) = true) as (s & -> & Hs).
  { destruct pv; try done. by eexists. }
  exists s. split; [done|]. rewrite <- Hd. unfold canonical, canonical_bytes, claims_value.
  cbn [integer] in Hp, Hk. apply andb_true_iff in Hf as [[H1|H1]%orb_true_iff Hf]; apply Z.eqb_eq in H1 as ->;
    rewrite andb_true_r in Hf; apply orb_true_iff in Hf as [H2|H2]; apply Z.eqb_eq in H2 as ->; cbn in Hp, Hk; try done.
  - by injection Hp as ->; injection Hk as ->.
  - injection Hp as ->; injection Hk as ->. apply write_value_equiv.
    eapply (equiv_map _ _ _ _ (Permutation_refl _) (Permutation_swap _ _ _)).
    repeat constructor.
Qed.

Lemma inspect_cwt_ok raw schema : wp (inspect_cwt raw schema) (fun o => forall c, o = Some c -> cwt_envelope raw schema c).
Proof.
  unfold inspect_cwt. destruct (cwt_parts raw) as [[[p x] s]|] eqn:Ep; [|by apply wp_done].
  destruct (header_kid p) as [k|] eqn:Ek; [|by apply wp_done].
  destruct (claims_core x) as [v|] eqn:Ec; [|by apply wp_done].
  destruct (canonical v) as [b|] eqn:Eb; [|by apply wp_done].
  destruct (wp_total _ _ (validate_core_ok v schema)) as (ok & Ev & _). rewrite Ev. apply wp_bind, wp_done, wp_done.
  intros c [-> <-]%then_some_Some. apply cwt_parts_Some in Ep as (? & ? & ?).
  constructor; cbn [core core_bytes payload protected signature kid]; eauto using header_kid_Some, claims_core_Some.
Qed.

Lemma inspected raw schema c : inspect_cwt raw schema = Done (Some c) -> cwt_envelope raw schema c.
Proof. intros Hi. exact (wp_result _ _ _ (inspect_cwt_ok _ _) Hi _ eq_refl). Qed.

(** [c] is signed by the key of [keys] that its kid names. *)
Definition signed_by (keys : gmap string bytes) (c : Cwt) : Prop :=
  exists key message, keys !! kid c = Some key /\ kid c = key_id key
    /\ sig_message (protected c) (payload c) = Some message /\ verify_ed25519 key message (signature c) = true.

Lemma cwt_signature_signed c key : cwt_signature_valid c key = true ->
  exists message, kid c = key_id key /\ sig_message (protected c) (payload c) = Some message
    /\ verify_ed25519 key message (signature c) = true.
Proof.
  unfold cwt_signature_valid. intros (m & Hm & [Hk%String.eqb_eq Hv]%andb_true_iff)%is_some_and_true. eauto.
Qed.
Lemma signed_cwt_ok raw schema keys :
  wp (signed_cwt raw schema keys) (fun o => forall c, o = Some c -> cwt_envelope raw schema c /\ signed_by keys c).
Proof.
  unfold signed_cwt. apply wp_bind. eapply wp_mono; [apply inspect_cwt_ok|]. intros [c|] Hc; [|by apply wp_done].
  destruct (keys !! kid c) as [key|] eqn:Ek; [|by apply wp_done]. apply wp_done.
  intros d [Hv <-]%then_some_Some. split; [auto|]. apply cwt_signature_signed in Hv as (m & ? & ? & ?).
  exists key, m. auto.
Qed.

(** The envelope check never panics, and it accepts only the canonical encoding, under tag 18,
    of a protected header that names an EdDSA key and the media type and of two claims, an
    accepted profile and a core that is canonical and valid for the schema; the key its kid names
    is one of the given keys, has that kid, and signed the Sig_structure of header and payload. *)
Theorem signed_cwt_sound (raw : bytes) (schema : string) (keys : gmap string bytes) :
  exists o, signed_cwt raw schema keys = Done o
    /\ forall c, o = Some c -> cwt_envelope raw schema c /\ signed_by keys c.
Proof. apply (wp_total _ (fun o => forall c, o = Some c -> _)), signed_cwt_ok. Qed.

Lemma array_parts_equiv l l' : Forall (fun v => forall w, cbor_equiv v w -> w = v) l -> cbor_equiv (CArray l) (CArray l') -> l = l'.
Proof.
  intros Hl E. inversion E as [|? ? Hf|]; subst; [done|]. clear E. induction Hf as [|v w l l' Hv _ IH]; [done|].
  inversion Hl as [|? ? Hv' Hl']; subst. f_equal; [symmetry; by apply Hv'|by apply IH].
Qed.
Lemma equiv_bytes_eq b w : cbor_equiv (CBytes b) w -> w = CBytes b.
Proof. by inversion 1. Qed.
Lemma equiv_text_eq t w : cbor_equiv (CText t) w -> w = CText t.
Proof. by inversion 1. Qed.
Lemma equiv_nil_eq w : cbor_equiv (CMap []) w -> w = CMap [].
Proof.
  inversion 1 as [| |m m' m1 m1' Hp Hp' Hf]; subst; [done|]. apply Permutation_nil_r in Hp as ->.
  inversion Hf; subst. by apply Permutation_nil_l in Hp' as ->.
Qed.

(** The bytes of an envelope determine its parts. *)
Lemma envelope_unique raw schema schema' c c' : cwt_envelope raw schema c -> cwt_envelope raw schema' c' -> c = c'.
Proof.
  intros [(body & Er & Hb) [Hz _] Hk _ Hcl _ Hc _] [(body' & Er' & Hb') _ Hk' _ Hcl' _ Hc' _].
  assert (body' = body) as -> by congruence.
  assert (zlen body <= USIZE_MAX) as Hl by (rewrite Er, zlen_cons in Hz; unfold MAX_CWT, USIZE_MAX, U64_MAX in *; lia).
  pose proof (canonical_bytes_binds _ _ _ _ _ _ _ Hl Hb Hb') as E. apply array_parts_equiv in E;
    [|repeat constructor; auto using equiv_bytes_eq, equiv_nil_eq].
  injection E as Ep Ex Es. destruct c, c'. cbn in *. subst. congruence.
Qed.

(** C32: the bytes a statement's signature covers name one protected header and one payload, hence
    one signer and one core: a signature cannot be moved to another statement. *)
Theorem signature_binds (raw raw' : bytes) (schema schema' : string) (c c' : Cwt) (message : bytes) :
  inspect_cwt raw schema = Done (Some c) -> inspect_cwt raw' schema' = Done (Some c') ->
  sig_message (protected c) (payload c) = Some message -> sig_message (protected c') (payload c') = Some message ->
  zlen message <= USIZE_MAX -> kid c = kid c' /\ core c = core c' /\ core_bytes c = core_bytes c'.
Proof.
  intros Hc Hc' Hm Hm' Hl. pose proof (canonical_bytes_binds _ _ _ _ _ _ _ Hl Hm Hm') as E.
  apply inspected in Hc, Hc'.
  apply array_parts_equiv in E; [|repeat constructor; auto using equiv_bytes_eq, equiv_text_eq].
  injection E as Ep Ex.
  destruct Hc, Hc'. rewrite Ep, Ex in *. assert (core c = core c') as Er by congruence.
  split_and!; [congruence|done|congruence].
Qed.
End Envelope.
