(* ===== verification/Counterparty.v ===== *)
(** * Counterparty: the relying party's context and acknowledgements (b28.rs)

    What the verifier is given beside the exchange: tables of keys, registered
    checkpoints, authority heads and pinned roots, each read by [sorted_entries]; and the
    first consumer of a signed statement, [verified_acknowledgement].  The theorems: a
    table is accepted only in strict key order, the trust pack is the pinned bytes and
    its anchors are what they say, and an acknowledgement is a fact one of the relying
    party's keys signed. *)
From S2P Require Import Prelude Hash Text Json Jcs Utc Dsse KeyLog Checkpoint Trust Entries Bundle.
From S2P Require Import CborWire Exec Cwt CwtTypes.

(** ** Tables *)

Section Entries.
Context {K V : Type} `{Countable K} (ltb : K -> K -> bool).

(** The loop of [fn sorted_entries]: the map and the keys in the order they came. *)
Fixpoint entries_loop (parse : gmap string cbor -> exec (option (K * V))) (fields : string)
    (entries : list cbor) (out : gmap K V) (order : list K) : exec (option (gmap K V * list K)) :=
  match entries with
  | [] => Done (Some (out, order))
  | item :: entries =>
      let_some doc := document item None fields else Done None;
      let_do (key, value) := parse doc else Done None;
      reject_if is_some (out !! key) with Done None;
      entries_loop parse fields entries (<[key := value]> out) (order ++ [key])
  end.

(** [fn sorted_entries]. *)
Definition sorted_entries (value : cbor) (fields : string) (parse : gmap string cbor -> exec (option (K * V)))
    : exec (option (gmap K V)) :=
  let_some entries := array value MAX_LOCAL_ITEMS else Done None;
  let_do (out, order) := entries_loop parse fields entries ∅ [] else Done None;
  Done (then_some (forallb (fun pair => ltb pair.1 pair.2) (windows2 order)) out).
End Entries.

(** [type Head], [type Heads], [type Checkpoints]. *)
Record Head := { head_sequence : Z; head_authority_root : bytes; head_log_root : bytes; head_log_size : Z }.
Abbreviation Heads := (gmap (string * bytes) Head) (only parsing).
Record Pin := {
  pin_tenant : string; pin_root : bytes; pin_sequence : Z; pin_authority_root : bytes; pin_log_root : bytes;
  pin_log_size : Z;
}.
Abbreviation Checkpoints := (gmap bytes Pin) (only parsing).

Section Counterparty.
Context {H : Hash} {B : Base64} {ED : Ed25519} {CA : CiboriumAt}.

(** [fn local_keys]: the entry parser and the table. *)
Definition key_entry (entry : Doc) : exec (option (string * bytes)) :=
  kid_value ← at_ entry "kid";
  let_some kid := bounded 128 kid_value else Done None;
  key_value ← at_ entry "public_key";
  let_some key := fixed 32 key_value else Done None;
  Done (then_some (String.eqb kid (key_id key) && is_some (vk_from_bytes key)) (kid, key)).
Definition local_keys (value : cbor) : exec (option (gmap string bytes)) :=
  sorted_entries str_ltb value "kid public_key" key_entry.

(** [fn verified_acknowledgement]. *)
Definition LOCAL_ACKNOWLEDGEMENT : string := "swarrm-b28/local-acknowledgement-context/v1".
Definition verified_acknowledgement (raw context : bytes) : exec (option json) :=
  let_some context_value := decode context MAX_LOCAL_CONTEXT else Done None;
  let_some local := document context_value (Some LOCAL_ACKNOWLEDGEMENT) "keys now" else Done None;
  keys_value ← at_ local "keys";
  let_do keys := local_keys keys_value else Done None;
  let_do signed := signed_cwt raw ACKNOWLEDGEMENT keys else Done None;
  let_some doc := plain (core signed) else Done None;
  schema ← at_ local "schema";
  reject_if negb (is_text (text schema) LOCAL_ACKNOWLEDGEMENT) with Done None;
  counterparty ← at_ doc "counterparty";
  reject_if negb (is_text (text counterparty) (kid signed)) with Done None;
  issued_value ← at_ doc "issued_at";
  let_some issued := uint issued_value else Done None;
  now_value ← at_ local "now";
  let_some now := uint now_value else Done None;
  reject_if now <? issued with Done None;
  from_value ← at_ doc "from_hash";
  to_value ← at_ doc "to_hash";
  reject_if cbor_eqb from_value to_value with Done None;
  origin_value ← at_ doc "origin";
  Done (Some (json_of_list [
    ("counterparty", JString (kid signed)); ("origin", json_of_opt (text origin_value));
    ("from_hash", json_of_opt (text from_value)); ("to_hash", json_of_opt (text to_value));
    ("issued_at", JNumber (PosInt issued))]%string)).

(** The argument of [verify_acknowledgement_json]. *)
Definition acknowledge (raw context : bytes) : option json :=
  match verified_acknowledgement raw context with Done o => o | Panic => None end.

(** ** Pinned roots *)

(** [struct RootAnchor]. *)
Record RootAnchor := { fingerprint : bytes; anchor_key : bytes }.

(** [fn parse_pinned_trust_pack]. *)
Definition root_entry (root : Doc) : exec (option (string * RootAnchor)) :=
  kid_value ← at_ root "kid";
  let_some kid := bounded 128 kid_value else Done None;
  root_value ← at_ root "organisation_root";
  let_some fp := fixed 32 root_value else Done None;
  key_value ← at_ root "public_key";
  let_some key := fixed 32 key_value else Done None;
  Done (then_some (String.eqb kid (key_id key) && bytes_eqb fp (sha [key]) && is_some (vk_from_bytes key))
         (kid, {| fingerprint := fp; anchor_key := key |})).
Definition parse_pinned_trust_pack (raw pin : bytes) : exec (option (gmap string RootAnchor)) :=
  reject_if negb (zlen pin =? 32) || negb (bytes_eqb pin (sha [raw])) || (MAX_CWT <? zlen raw) with Done None;
  let_some value := decode raw MAX_CWT else Done None;
  let_some doc := document value (Some TRUST_PACK) "roots" else Done None;
  roots_value ← at_ doc "roots";
  let_do roots := sorted_entries str_ltb roots_value "kid organisation_root public_key" root_entry else Done None;
  Done (then_some (negb (bool_decide (roots = ∅))) roots).

(** [fn root_cwt]. *)
Definition root_cwt (raw : bytes) (schema : string) (roots : gmap string RootAnchor) : exec (option Cwt) :=
  let_do cwt := inspect_cwt raw schema else Done None;
  let_some anchor := roots !! kid cwt else Done None;
  reject_if negb (cwt_signature_valid cwt (anchor_key anchor)) with Done None;
  let_some doc := plain (core cwt) else Done None;
  root_value ← at_ doc "organisation_root";
  let_some root := bytes_ root_value else Done None;
  Done (then_some (bytes_eqb root (fingerprint anchor)) cwt).

(** ** Local contexts *)

(** [type PresentationLocal], [type RefusalLocal], [enum LocalContext]. *)
Record PresentationLocal := {
  l_challenger_keys : gmap string bytes;
  l_checkpoints : Checkpoints;
  l_heads : Heads;
  l_origin : string;
  l_lifetime : Z;
  l_now : Z;
}.
Record RefusalLocal := {
  r_challenger_keys : gmap string bytes;
  r_responder_keys : gmap string bytes;
  r_now : Z;
}.
Inductive LocalContext :=
  | PresentationContext (local : PresentationLocal)
  | RefusalContextOf (local : RefusalLocal).

(** [fn checkpoints]. *)
Definition checkpoint_entry (entry : Doc) : exec (option (bytes * Pin)) :=
  digest_value ← at_ entry "digest"; let_some digest := fixed 32 digest_value else Done None;
  tenant_value ← at_ entry "tenant"; let_some tenant := bounded 128 tenant_value else Done None;
  root_value ← at_ entry "organisation_root"; let_some root := fixed 32 root_value else Done None;
  sequence_value ← at_ entry "sequence"; let_some sequence := uint sequence_value else Done None;
  authority_value ← at_ entry "authority_root"; let_some authority := fixed 32 authority_value else Done None;
  log_value ← at_ entry "log_root"; let_some log := fixed 32 log_value else Done None;
  size_value ← at_ entry "log_size"; let_some size_ := uint size_value else Done None;
  Done (Some (digest, {| pin_tenant := tenant; pin_root := root; pin_sequence := sequence;
                         pin_authority_root := authority; pin_log_root := log; pin_log_size := size_ |})).
Definition checkpoints (value : cbor) : exec (option Checkpoints) :=
  sorted_entries bytes_ltb value "digest tenant organisation_root sequence authority_root log_root log_size" checkpoint_entry.

(** [fn heads]; the keys are ordered as [(String, Vec<u8>)]. *)
Definition head_entry (entry : Doc) : exec (option ((string * bytes) * Head)) :=
  tenant_value ← at_ entry "tenant"; let_some tenant := bounded 128 tenant_value else Done None;
  root_value ← at_ entry "organisation_root"; let_some root := opaque root_value else Done None;
  sequence_value ← at_ entry "sequence"; let_some sequence := uint sequence_value else Done None;
  authority_value ← at_ entry "authority_root"; let_some authority := fixed 32 authority_value else Done None;
  log_value ← at_ entry "log_root"; let_some log := fixed 32 log_value else Done None;
  size_value ← at_ entry "log_size"; let_some size_ := uint size_value else Done None;
  Done (Some ((tenant, root), {| head_sequence := sequence; head_authority_root := authority;
                                 head_log_root := log; head_log_size := size_ |})).
Definition head_ltb (a b : string * bytes) : bool :=
  str_ltb a.1 b.1 || (String.eqb a.1 b.1 && bytes_ltb a.2 b.2).
Definition heads (value : cbor) : exec (option Heads) :=
  sorted_entries head_ltb value "tenant organisation_root sequence authority_root log_root log_size" head_entry.

(** [fn presentation_context], [fn refusal_context]. *)
Definition presentation_context (local : Doc) : exec (option PresentationLocal) :=
  lifetime_value ← at_ local "max_action_lifetime_s";
  let_some lifetime := opt_filter (positive_ lifetime_value) (fun value => value <=? 300) else Done None;
  keys_value ← at_ local "challenger_keys"; let_do keys := local_keys keys_value else Done None;
  checkpoints_value ← at_ local "registered_checkpoints"; let_do pins := checkpoints checkpoints_value else Done None;
  heads_value ← at_ local "authority_heads"; let_do hs := heads heads_value else Done None;
  origin_value ← at_ local "expected_admin_origin"; let_some origin := bounded 2048 origin_value else Done None;
  now_value ← at_ local "now"; let_some now := uint now_value else Done None;
  Done (Some {| l_challenger_keys := keys; l_checkpoints := pins; l_heads := hs; l_origin := origin;
                l_lifetime := lifetime; l_now := now |}).
Definition refusal_context (local : Doc) : exec (option RefusalLocal) :=
  challenger_value ← at_ local "challenger_keys"; let_do challenger := local_keys challenger_value else Done None;
  responder_value ← at_ local "responder_keys"; let_do responder := local_keys responder_value else Done None;
  now_value ← at_ local "now"; let_some now := uint now_value else Done None;
  Done (Some {| r_challenger_keys := challenger; r_responder_keys := responder; r_now := now |}).

(** [fn parse_local_context]: [inr] is [Err]. *)
Definition parse_local_context (raw : bytes) : exec (LocalContext + string) :=
  let_some value := decode raw MAX_LOCAL_CONTEXT else Done (inr "VERIFIER_CONTEXT_INVALID"%string);
  match document value (Some LOCAL_CONTEXT) "challenger_keys registered_checkpoints authority_heads expected_admin_origin max_action_lifetime_s now" with
  | Some local =>
      now ← at_ local "now";
      reject_if is_none (uint now) with Done (inr "LOCAL_CLOCK_INVALID"%string);
      let_do context := presentation_context local else Done (inr "VERIFIER_CONTEXT_INVALID"%string);
      Done (inl (PresentationContext context))
  | None =>
      let_some local := document value (Some LOCAL_REFUSAL_CONTEXT) "challenger_keys responder_keys now"
        else Done (inr "VERIFIER_CONTEXT_INVALID"%string);
      now ← at_ local "now";
      reject_if is_none (uint now) with Done (inr "LOCAL_CLOCK_INVALID"%string);
      let_do context := refusal_context local else Done (inr "VERIFIER_CONTEXT_INVALID"%string);
      Done (inl (RefusalContextOf context))
  end.
End Counterparty.

(** ** Tables: the accepted ones are strictly sorted lists of parsed entries *)

Section Tables.
Context {K V : Type} `{Countable K} (ltb : K -> K -> bool).
Context (parse : gmap string cbor -> exec (option (K * V))) (fields : string).

(** An entry of the array parses to a pair. *)
Definition parses (item : cbor) (kv : K * V) : Prop :=
  exists doc, document item None fields = Some doc /\ parse doc = Done (Some kv).

(** A table: the pairs of the entries, in strictly increasing key order, and the map they make. *)
Record table_of (entries : list cbor) (m : gmap K V) : Prop := {
  t_pairs : exists l, Forall2 parses entries l /\ m = list_to_map l
    /\ forallb (fun pair => ltb pair.1 pair.2) (windows2 l.*1) = true /\ NoDup l.*1;
  t_size : zlen entries <= MAX_LOCAL_ITEMS;
}.

(** The entry parser does not panic on a document of its fields, and what it returns satisfies [P]. *)
Context (P : K * V -> Prop).
Context (parse_ok : forall item doc, document item None fields = Some doc ->
  wp (parse doc) (fun o => forall kv, o = Some kv -> P kv)).

Lemma entries_loop_ok entries out order :
  wp (entries_loop parse fields entries out order) (fun o => forall m keys, o = Some (m, keys) ->
    exists l, Forall2 parses entries l /\ Forall P l /\ keys = order ++ l.*1 /\ NoDup l.*1
      /\ (forall k, k ∈ l.*1 -> out !! k = None) /\ m = list_to_map l ∪ out).
Proof.
  revert out order. induction entries as [|item entries IH]; intros out order; cbn [entries_loop].
  { apply wp_done. intros m keys [= <- <-]. exists []. cbn. rewrite app_nil_r, (left_id_L ∅ (∪)).
    split_and!; try done; try constructor. intros k Hk. by apply elem_of_nil in Hk. }
  destruct (document item None fields) as [doc|] eqn:Hd; [|by apply wp_done].
  destruct (wp_total _ _ (parse_ok _ _ Hd)) as (o & Eo & Ho). rewrite Eo. apply wp_bind, wp_done.
  destruct o as [[key value]|]; [|by apply wp_done].
  destruct (out !! key) eqn:Ek; cbn [is_some]; [by apply wp_done|].
  eapply wp_mono; [apply IH|]. cbn. intros o' Ho' m keys ->. destruct (Ho' m keys eq_refl) as (l & Hl & HP & -> & Hn & Hout & ->).
  assert (key ∉ l.*1) as Hkey.
  { intros Hin. specialize (Hout _ Hin). by rewrite lookup_insert_eq in Hout. }
  exists ((key, value) :: l). split_and!.
  - constructor; [exists doc; auto|done].
  - constructor; [by apply Ho|done].
  - by rewrite <- app_assoc.
  - by constructor.
  - intros k [->|Hin]%elem_of_cons; [done|]. specialize (Hout _ Hin). rewrite lookup_insert_ne in Hout; [done|].
    intros ->. done.
  - cbn. rewrite <- insert_union_l, insert_union_r; [done|]. by apply not_elem_of_list_to_map_1.
Qed.

Lemma sorted_entries_ok value :
  wp (sorted_entries ltb value fields parse) (fun o => forall m, o = Some m ->
    exists entries, value = CArray entries /\ table_of entries m /\ map_Forall (fun k v => P (k, v)) m).
Proof.
  unfold sorted_entries. destruct (array value MAX_LOCAL_ITEMS) as [entries|] eqn:Ea; [|by apply wp_done].
  assert (value = CArray entries /\ zlen entries <= MAX_LOCAL_ITEMS) as [-> Hz].
  { unfold array in Ea. destruct value; try done. apply then_some_Some in Ea as [?%Z.leb_le ->]. done. }
  apply wp_bind. eapply wp_mono; [apply entries_loop_ok|]. intros [[m keys]|] Ho; [|by apply wp_done].
  apply wp_done. intros d [Hs <-]%then_some_Some.
  destruct (Ho m keys eq_refl) as (l & Hl & HP & -> & Hn & _ & ->). rewrite (right_id_L ∅ (∪)).
  exists entries. split_and!; [done| |].
  - constructor; [|done]. exists l. auto.
  - intros k v Hk. apply elem_of_list_to_map_2 in Hk. rewrite Forall_forall in HP. by apply HP.
Qed.
End Tables.

(** One [let] of a parser: a member that is there, or a reader that stops it. *)
Ltac parse_step :=
  lazymatch goal with
  | |- wp (mbind _ (at_ _ _)) _ => apply wp_bind, wp_at; [present|intros ? ?]
  | |- wp (match ?e with Some _ => _ | None => _ end) _ => let E := fresh "E" in destruct e eqn:E; [|by apply wp_done]
  | |- wp (if ?c then _ else _) _ => let E := fresh "E" in destruct c eqn:E; [by apply wp_done|]
  end.
(** A reader that cannot panic, by its lemma. *)
Ltac read_with lem :=
  apply wp_bind; eapply wp_mono; [apply lem|]; cbn beta; intros [?|] ?; [|by apply wp_done].

Section Facts.
Context {H : Hash} {B : Base64} {ED : Ed25519} {CA : CiboriumAt}.

(** A key under its own id. *)
Definition key_ok (kid : string) (key : bytes) : Prop :=
  zlen key = 32 /\ kid = key_id key /\ is_some (vk_from_bytes key) = true.

Lemma fixed_length n v b : fixed n v = Some b -> v = CBytes b /\ zlen b = n.
Proof. unfold fixed. destruct v; try done. cbn. intros [Hz%Z.eqb_eq ->]%then_some_Some. done. Qed.

Lemma local_keys_ok value : wp (local_keys value) (fun o => forall m, o = Some m -> map_Forall key_ok m).
Proof.
  eapply wp_mono; [apply (sorted_entries_ok _ _ _ (fun kv => key_ok kv.1 kv.2))|].
  - intros item doc Hd. unfold key_entry. repeat parse_step. apply wp_done.
    intros kv [[Hk%String.eqb_eq Hv]%andb_true_iff <-]%then_some_Some. cbn.
    match goal with Hf : fixed _ _ = Some _ |- _ => apply fixed_length in Hf as [_ ?] end. by subst.
  - cbn. intros o Ho m Hm. by destruct (Ho m Hm) as (_ & _ & _ & ?).
Qed.

(** The anchor of a root: its fingerprint is the digest of its key. *)
Definition anchor_ok (kid : string) (a : RootAnchor) : Prop :=
  key_ok kid (anchor_key a) /\ fingerprint a = sha [anchor_key a].

Lemma parse_pinned_trust_pack_ok raw pin : wp (parse_pinned_trust_pack raw pin) (fun o => forall m, o = Some m ->
  pin = sha [raw] /\ zlen raw <= MAX_CWT /\ m <> ∅ /\ map_Forall anchor_ok m).
Proof.
  unfold parse_pinned_trust_pack. parse_step. apply orb_false_iff in E as [E Hl%Z.ltb_ge].
  apply orb_false_iff in E as [_ Hp%negb_false_iff%bytes_eqb_true].
  repeat parse_step. apply wp_bind. eapply wp_mono; [apply (sorted_entries_ok _ _ _ (fun kv => anchor_ok kv.1 kv.2))|].
  - intros item doc Hd. unfold root_entry. repeat parse_step. apply wp_done.
    intros kv [[[Hk%String.eqb_eq Hf%bytes_eqb_true]%andb_true_iff Hv]%andb_true_iff <-]%then_some_Some. cbn.
    repeat match goal with Hf : fixed _ _ = Some _ |- _ => apply fixed_length in Hf as [_ ?] end. by subst.
  - cbn. intros [m|] Ho; [|by apply wp_done]. apply wp_done.
    intros m' [Hn%negb_true_iff%bool_decide_eq_false <-]%then_some_Some.
    destruct (Ho m eq_refl) as (_ & _ & _ & ?). done.
Qed.

(** A statement of a pinned root: signed by the anchor its kid names, about that anchor's organisation. *)
Definition rooted_by (roots : gmap string RootAnchor) (c : Cwt) : Prop :=
  exists a doc, roots !! kid c = Some a /\ cwt_signature_valid c (anchor_key a) = true
    /\ plain (core c) = Some doc /\ doc !! "organisation_root"%string = Some (CBytes (fingerprint a)).

Lemma envelope_shaped raw schema c : cwt_envelope raw schema c -> shaped schema (core c).
Proof. intros He. exact (wp_result _ _ _ (validate_core_ok _ _) (ce_valid _ _ _ He) eq_refl). Qed.

Lemma root_cwt_ok raw schema roots : is_some (field_test (schema_fields schema) "organisation_root") = true ->
  wp (root_cwt raw schema roots) (fun o => forall c, o = Some c -> cwt_envelope raw schema c /\ rooted_by roots c).
Proof.
  intros Hs. unfold root_cwt. apply wp_bind. eapply wp_mono; [apply inspect_cwt_ok|]. intros [c|] Hc; [|by apply wp_done].
  specialize (Hc c eq_refl). destruct (envelope_shaped _ _ _ Hc) as (doc & Hp & Ht).
  destruct (roots !! kid c) as [a|] eqn:Ea; [|by apply wp_done]. parse_step. apply negb_false_iff in E. rewrite Hp.
  apply wp_bind, wp_at; [by eapply field_present|]. intros v Hv. parse_step. apply wp_done.
  intros d [Hb%bytes_eqb_true <-]%then_some_Some. split; [done|]. exists a, doc. split_and!; [done..|].
  destruct v; try done. cbn in E0. congruence.
Qed.

(** ** Local contexts *)

Definition pin_ok (digest : bytes) (p : Pin) : Prop :=
  zlen digest = 32 /\ zlen (pin_root p) = 32 /\ zlen (pin_authority_root p) = 32 /\ zlen (pin_log_root p) = 32.
Definition head_ok (key : string * bytes) (h : Head) : Prop :=
  zlen key.2 = 32 /\ zlen (head_authority_root h) = 32 /\ zlen (head_log_root h) = 32.

Lemma opaque_length v b : opaque v = Some b -> v = CBytes b /\ zlen b = 32.
Proof. intros Ho%opaque_fixed. by apply fixed_length. Qed.

Lemma checkpoints_ok value : wp (checkpoints value) (fun o => forall m, o = Some m -> map_Forall pin_ok m).
Proof.
  eapply wp_mono; [apply (sorted_entries_ok _ _ _ (fun kv => pin_ok kv.1 kv.2))|].
  - intros item doc Hd. unfold checkpoint_entry. repeat parse_step. apply wp_done. intros kv [= <-].
    repeat match goal with Hf : fixed _ _ = Some _ |- _ => apply fixed_length in Hf as [_ ?] end. by split_and!.
  - cbn. intros o Ho m Hm. by destruct (Ho m Hm) as (_ & _ & _ & ?).
Qed.
Lemma heads_ok value : wp (heads value) (fun o => forall m, o = Some m -> map_Forall head_ok m).
Proof.
  eapply wp_mono; [apply (sorted_entries_ok _ _ _ (fun kv => head_ok kv.1 kv.2))|].
  - intros item doc Hd. unfold head_entry. repeat parse_step. apply wp_done. intros kv [= <-].
    repeat match goal with Hf : fixed _ _ = Some _ |- _ => apply fixed_length in Hf as [_ ?] end.
    match goal with Hf : opaque _ = Some _ |- _ => apply opaque_length in Hf as [_ ?] end. by split_and!.
  - cbn. intros o Ho m Hm. by destruct (Ho m Hm) as (_ & _ & _ & ?).
Qed.

Lemma uint_range v n : uint v = Some n -> v = CInteger n /\ 0 <= n <= I64_MAX.
Proof. unfold uint. destruct v; try done. intros [[??]%andb_true_iff ->]%then_some_Some. bool_prop. done. Qed.

(** A context the relying party may have: its keys are under their ids, the lifetime it grants
    actions is at most 300 seconds, and its clock fits. *)
Definition presentation_ok (l : PresentationLocal) : Prop :=
  map_Forall key_ok (l_challenger_keys l) /\ map_Forall pin_ok (l_checkpoints l) /\ map_Forall head_ok (l_heads l)
  /\ 0 < l_lifetime l <= 300 /\ 0 <= l_now l <= I64_MAX.
Definition refusal_ok (l : RefusalLocal) : Prop :=
  map_Forall key_ok (r_challenger_keys l) /\ map_Forall key_ok (r_responder_keys l) /\ 0 <= r_now l <= I64_MAX.
Definition context_ok (c : LocalContext) : Prop :=
  match c with PresentationContext l => presentation_ok l | RefusalContextOf l => refusal_ok l end.

Lemma presentation_context_ok v fs local : document v (Some LOCAL_CONTEXT) fs = Some local ->
  fs = "challenger_keys registered_checkpoints authority_heads expected_admin_origin max_action_lifetime_s now"%string ->
  wp (presentation_context local) (fun o => forall l, o = Some l -> presentation_ok l).
Proof.
  intros Hd ->. unfold presentation_context. parse_step. parse_step.
  parse_step. read_with local_keys_ok. parse_step. read_with checkpoints_ok. parse_step. read_with heads_ok.
  repeat parse_step. apply wp_done. intros l [= <-]. apply opt_filter_Some in E as [Hp Hl%Z.leb_le].
  apply uint_range in E1 as [_ ?]. unfold positive_ in Hp. apply bind_Some in Hp as (z' & _ & Hp).
  apply then_some_Some in Hp as [Hz%Z.ltb_lt ->]. split_and!; cbn; auto; lia.
Qed.
Lemma refusal_context_ok v fs local : document v (Some LOCAL_REFUSAL_CONTEXT) fs = Some local ->
  fs = "challenger_keys responder_keys now"%string ->
  wp (refusal_context local) (fun o => forall l, o = Some l -> refusal_ok l).
Proof.
  intros Hd ->. unfold refusal_context. parse_step. read_with local_keys_ok. parse_step. read_with local_keys_ok.
  repeat parse_step. apply wp_done. intros l [= <-]. apply uint_range in E as [_ ?]. split_and!; cbn; auto; lia.
Qed.
(** A context is read, or refused for one of two reasons. *)
Definition context_read (r : LocalContext + string) : Prop :=
  match r with
  | inl c => context_ok c
  | inr reason => str_in reason ["VERIFIER_CONTEXT_INVALID"; "LOCAL_CLOCK_INVALID"]%string = true
  end.
Lemma parse_local_context_ok raw : wp (parse_local_context raw) context_read.
Proof.
  unfold parse_local_context. destruct (decode raw MAX_LOCAL_CONTEXT) as [value|]; [|by apply wp_done].
  destruct (document value (Some LOCAL_CONTEXT) _) as [local|] eqn:Hd.
  - parse_step. parse_step. apply wp_bind. eapply wp_mono; [by eapply presentation_context_ok|].
    intros [l|] Hl; [|by apply wp_done]. apply wp_done. by apply Hl.
  - clear Hd. destruct (document value (Some LOCAL_REFUSAL_CONTEXT) _) as [local|] eqn:Hd; [|by apply wp_done].
    parse_step. parse_step. apply wp_bind. eapply wp_mono; [by eapply refusal_context_ok|].
    intros [l|] Hl; [|by apply wp_done]. apply wp_done. by apply Hl.
Qed.

(** The pinned trust pack is the bytes whose digest the relying party pinned; every root it
    yields is under the id of its key, and its organisation is the digest of that key. *)
Theorem pinned_trust_pack_sound (raw pin : bytes) :
  exists o, parse_pinned_trust_pack raw pin = Done o /\ forall m, o = Some m ->
    pin = sha [raw] /\ zlen raw <= MAX_CWT /\ m <> ∅ /\ map_Forall anchor_ok m.
Proof. apply (wp_total _ (fun o => forall m, o = Some m -> _)), parse_pinned_trust_pack_ok. Qed.

(** No local context makes its parser panic; an accepted one has every key under its own id,
    32-byte roots and digests, an action lifetime of 1 to 300 seconds and a signed 64-bit clock, and
    a refused one is refused for its clock or as a whole. *)
Theorem parse_local_context_total (raw : bytes) :
  exists r, parse_local_context raw = Done r /\ context_read r.
Proof. apply (wp_total _ context_read), parse_local_context_ok. Qed.
End Facts.

(** ** Acknowledgements *)

Section Acknowledgements.
Context {H : Hash} {B : Base64} {ED : Ed25519} {CA : CiboriumAt}.

(** The relying party's context of an acknowledgement: its keys and its clock. *)
Definition acknowledgement_context (context : bytes) (keys : gmap string bytes) (now : Z) : Prop :=
  exists value local keys_value, decode context MAX_LOCAL_CONTEXT = Some value
    /\ document value (Some LOCAL_ACKNOWLEDGEMENT) "keys now" = Some local
    /\ local !! "keys"%string = Some keys_value /\ local_keys keys_value = Done (Some keys)
    /\ local !! "now"%string = Some (CInteger now).

(** The facts an acknowledgement states: who signed, of which log, from and to which checkpoint, when. *)
Record statement_of (raw : bytes) (keys : gmap string bytes) (now : Z) (origin from_hash to_hash : string)
    (issued : Z) (c : Cwt) : Prop := {
  s_envelope : cwt_envelope raw ACKNOWLEDGEMENT c;
  s_signed : signed_by keys c;
  s_members : exists doc, plain (core c) = Some doc /\ doc !! "counterparty"%string = Some (CText (kid c))
    /\ doc !! "origin"%string = Some (CText origin) /\ doc !! "from_hash"%string = Some (CText from_hash)
    /\ doc !! "to_hash"%string = Some (CText to_hash) /\ doc !! "issued_at"%string = Some (CInteger issued);
  s_range : from_hash <> to_hash;
  s_past : 0 <= issued <= now;
}.
Definition acknowledgement_json (kid origin from_hash to_hash : string) (issued : Z) : json :=
  json_of_list [("counterparty", JString kid); ("origin", JString origin); ("from_hash", JString from_hash);
                ("to_hash", JString to_hash); ("issued_at", JNumber (PosInt issued))]%string.

Lemma typed_bounded (doc : Doc) k n : typed doc k (has (bounded n)) -> exists s, doc !! k = Some (CText s).
Proof.
  intros (v & Hv & (s & Hs & _)%has_bounded_text). exists s. rewrite Hv. by destruct v; simplify_eq/=.
Qed.

Lemma verified_acknowledgement_ok raw context : wp (verified_acknowledgement raw context) (fun o => forall ack, o = Some ack ->
  exists keys now origin from_hash to_hash issued c, acknowledgement_context context keys now
    /\ map_Forall key_ok keys /\ statement_of raw keys now origin from_hash to_hash issued c
    /\ ack = acknowledgement_json (kid c) origin from_hash to_hash issued).
Proof.
  unfold verified_acknowledgement. destruct (decode context MAX_LOCAL_CONTEXT) as [value|] eqn:Ed; [|by apply wp_done].
  destruct (document value _ _) as [local|] eqn:Hd; [|by apply wp_done].
  parse_step. rename v into keys_value. destruct (wp_total _ _ (local_keys_ok keys_value)) as (ok & Ek & Hk).
  rewrite Ek. apply wp_bind, wp_done. destruct ok as [keys|]; [|by apply wp_done]. specialize (Hk _ eq_refl).
  apply wp_bind. eapply wp_mono; [apply signed_cwt_ok|]. intros [c|] Hc; [|by apply wp_done].
  destruct (Hc c eq_refl) as [He Hs]. clear Hc.
  destruct (envelope_shaped _ _ _ He) as (doc & Hp & Ht). rewrite Hp. repeat parse_step. apply wp_done.
  intros ack [= <-].
  assert (forall k, field_test (schema_fields ACKNOWLEDGEMENT) k = Some (has (bounded 1024)) ->
    exists s, doc !! k = Some (CText s)) as Hb by (intros k Hk'; eapply typed_bounded, field_typed; eauto).
  destruct (Hb "from_hash"%string eq_refl) as [f Hf], (Hb "to_hash"%string eq_refl) as [t Hto],
    (Hb "origin"%string eq_refl) as [o Ho], (Hb "counterparty"%string eq_refl) as [p Hcp].
  simplify_eq. cbn in *.
  repeat match goal with Hx : negb _ = false |- _ => apply negb_false_iff in Hx end.
  repeat match goal with Hx : uint _ = Some _ |- _ => apply uint_range in Hx as [-> ?] end.
  match goal with Hx : is_text (Some p) _ = true |- _ => apply bool_decide_eq_true in Hx; injection Hx as -> end.
  match goal with Hx : (_ <? _) = false |- _ => apply Z.ltb_ge in Hx end.
  match goal with Hx : String.eqb f t = false |- _ => apply String.eqb_neq in Hx end.
  eexists keys, _, o, f, t, _, c. split_and!; [by exists value, local, keys_value|done| |reflexivity].
  constructor; [done|done|by exists doc|done|lia].
Qed.

(** No envelope and no context make the acknowledgement check panic, and what it returns was
    stated by a counterparty the relying party's context names: a canonical envelope signed by
    its key, whose signed members are exactly the reported ones, over two different checkpoints
    and issued no later than the relying party's clock. *)
Theorem verified_acknowledgement_sound (raw context : bytes) :
  exists o, verified_acknowledgement raw context = Done o /\ forall ack, o = Some ack ->
  exists keys now origin from_hash to_hash issued c, acknowledgement_context context keys now
    /\ map_Forall key_ok keys /\ statement_of raw keys now origin from_hash to_hash issued c
    /\ ack = acknowledgement_json (kid c) origin from_hash to_hash issued.
Proof. apply (wp_total _ (fun o => forall ack, o = Some ack -> _)), verified_acknowledgement_ok. Qed.
End Acknowledgements.

(** ** An acknowledgement of a bundle *)

Section Report.
Context {H : Hash} {SD : Serde} {B : Base64} {ED : Ed25519} {T : Tsa} {CA : CiboriumAt}.

(** [verify_acknowledgement_json] of lib.rs with the check above. *)
Definition acknowledgement_report (envelope context bundle : bytes) : json :=
  verify_acknowledgement_json acknowledge envelope context bundle.

Lemma acknowledge_Some raw context ack : acknowledge raw context = Some ack ->
  exists keys now origin from_hash to_hash issued c, acknowledgement_context context keys now
    /\ map_Forall key_ok keys /\ statement_of raw keys now origin from_hash to_hash issued c
    /\ ack = acknowledgement_json (kid c) origin from_hash to_hash issued.
Proof.
  unfold acknowledge. destruct (wp_total _ _ (verified_acknowledgement_ok raw context)) as (o & -> & Ho). intros ->.
  by apply Ho.
Qed.
Lemma acknowledgement_coverage_covered kid origin from_hash to_hash issued bundle facts :
  acknowledgement_coverage (acknowledgement_json kid origin from_hash to_hash issued) bundle facts = Some "covered"%string ->
  json_eqb (JString origin) (idx bundle "origin") = true /\ exists start end_,
    chain_sizes facts !! from_hash = Some start /\ chain_sizes facts !! to_hash = Some end_ /\ start < end_.
Proof.
  unfold acknowledgement_coverage.
  change (idx (acknowledgement_json kid origin from_hash to_hash issued) "origin") with (JString origin).
  change (idx (acknowledgement_json kid origin from_hash to_hash issued) "from_hash") with (JString from_hash).
  change (idx (acknowledgement_json kid origin from_hash to_hash issued) "to_hash") with (JString to_hash).
  destruct (json_eqb (JString origin) (idx bundle "origin")); [|done]. cbn. intros [= Hc]. split; [done|].
  destruct (chain_sizes facts !! from_hash) as [s|], (chain_sizes facts !! to_hash) as [e|]; try done.
  destruct (s <? e) eqn:E; [|done]. apply Z.ltb_lt in E. eauto.
Qed.

(** C31: a report of a covered acknowledgement rests on a verified bundle of the origin the
    counterparty named: both checkpoints its signed statement names are in the bundle's chain,
    the earlier one smaller. *)
Theorem covered_acknowledgement (envelope context bundle : bytes) :
  idx (acknowledgement_report envelope context bundle) "coverage" = JString "covered" ->
  exists value keys now origin from_hash to_hash issued c start end_,
    strict_json bundle = Some value /\ f_ok (verify_bundle_facts value None) = true
    /\ acknowledgement_context context keys now
    /\ statement_of envelope keys now origin from_hash to_hash issued c
    /\ json_eqb (JString origin) (idx value "origin") = true
    /\ chain_sizes (verify_bundle_facts value None) !! from_hash = Some start
    /\ chain_sizes (verify_bundle_facts value None) !! to_hash = Some end_ /\ start < end_.
Proof.
  unfold acknowledgement_report, verify_acknowledgement_json.
  destruct (verify_acknowledgement _ _ _ _) as [[[ack cover] digest]|] eqn:E.
  2: { discriminate. }
  intros Hj. assert (cover = "covered"%string) as -> by (vm_compute in Hj; congruence). clear Hj. unfold verify_acknowledgement in E.
  case_step E. apply bind_Some in E as (value & Hv & E). case_step E. apply negb_false_iff in E1.
  apply bind_Some in E as (a & Ha & E). apply bind_Some in E as (cov & Hc & E). apply bind_Some in E as (canon & _ & [= -> -> _]).
  destruct (acknowledge_Some _ _ _ Ha) as (keys & now & o & f & t & i & c & Hctx & _ & Hs & ->).
  apply acknowledgement_coverage_covered in Hc as (Ho & s & e & Hf & Ht & Hl). exists value, keys, now, o, f, t, i, c, s, e. done.
Qed.
End Report.
