(* ===== verification/AdminProof.v ===== *)
(** * AdminProof: the registrar's WebAuthn assertion (b28.rs)

    A passport is issued after an administrator of the organisation selected its template
    with a security key.  This file checks that assertion: the client data, the
    authenticator data with its flags and counter, and the P-256 signature.  The
    theorems: the scan for duplicate members ends, the counter never goes back, and an
    accepted assertion was made for the pinned origin, by the bound key, over the bytes
    of the selection. *)
From S2P Require Import Prelude Hash Text Json Jcs Dsse CborWire Exec Cwt CwtTypes.

(** ** Outside the repository: the p256 crate *)

Class P256 := {
  p256_key : Type;
  p256_signature : Type;
  (** [VerifyingKey::from_sec1_bytes], [Signature::from_der], [normalize_s], [==] and [verify]. *)
  from_sec1_bytes : bytes -> option p256_key;
  from_der : bytes -> option p256_signature;
  normalize_s : p256_signature -> p256_signature;
  p256_signature_eqb : p256_signature -> p256_signature -> bool;
  p256_verify : p256_key -> bytes -> p256_signature -> bool;
}.

(** ** Client data *)

(** [fn json_string_end], from the byte after the opening quote: how many bytes the rest of the
    string has, its closing quote included. *)
Fixpoint json_string_end (raw : bytes) : option nat :=
  match raw with
  | [] => None
  | x :: rest =>
      if x =? 34 then Some 1%nat
      else if x =? 92 then match rest with [] => None | _ :: rest => n ← json_string_end rest; Some (S (S n)) end
      else n ← json_string_end rest; Some (S n)
  end.

Definition is_ascii_whitespace (b : u8) : bool := existsb (Z.eqb b) [9; 10; 12; 13; 32].
(** [while raw.get(look).is_some_and(u8::is_ascii_whitespace) { look += 1 }]. *)
Fixpoint skip_white (raw : bytes) : bytes :=
  match raw with x :: rest => if is_ascii_whitespace x then skip_white rest else raw | [] => [] end.

Section Admin.
Context {H : Hash} {SD : Serde} {B : Base64} {ED : Ed25519} {CA : CiboriumAt} {PC : P256}.

(** [serde_json::from_slice::<String>]: the value is a string. *)
Definition from_slice_string (raw : bytes) : option string := v ← from_slice raw; as_str v.

(** The loop of [fn top_level_json_keys] from [raw[at..]]; a turn for each byte is enough
    ([keys_loop_fuel]). *)
Fixpoint keys_loop (fuel : nat) (raw : bytes) (depth : Z) (keys : gset string) : option (gset string) :=
  match fuel, raw with
  | _, [] => Some keys
  | O, _ :: _ => None
  | S fuel, x :: rest =>
      if (x =? #"{") || (x =? #"[") then keys_loop fuel rest (depth + 1) keys
      else if (x =? #"}") || (x =? #"]") then keys_loop fuel rest (depth - 1) keys
      else if x =? 34 then
        n ← json_string_end rest;
        let after := drop n rest in
        if (depth =? 1) && bool_decide (head (skip_white after) = Some #":") then
          key ← from_slice_string (x :: take n rest);
          reject_if bool_decide (key ∈ keys) with None;
          keys_loop fuel after depth ({[ key ]} ∪ keys)
        else keys_loop fuel after depth keys
      else keys_loop fuel rest depth keys
  end.
(** [fn top_level_json_keys]. *)
Definition top_level_json_keys (raw : bytes) : option (gset string) := keys_loop (length raw) raw 0 ∅.

(** [fn strict_client_json]. *)
Definition strict_client_json (raw : bytes) : option (list (string * json)) :=
  value ← from_slice raw;
  object ← as_object value;
  reject_if negb ((zlen object =? 4)
                  && forallb (fun name => contains_key object name) ["type"; "challenge"; "origin"; "crossOrigin"]%string)
  with None;
  keys ← top_level_json_keys raw;
  then_some (Z.of_nat (size keys) =? 4) object.

(** [fn canonical_origin]. *)
Definition origin_label (part : bytes) : bool :=
  negb (zlen part =? 0) && (zlen part <=? 63) && negb (bool_decide (head part = Some #"-"))
  && negb (bool_decide (last part = Some #"-"))
  && forallb (fun byte => is_ascii_lowercase byte || is_ascii_digit byte || (byte =? #"-")) part.
Definition canonical_origin (origin rp_id : string) : bool :=
  let rp := str_bytes rp_id in
  negb (is_empty rp_id) && forallb (fun byte => byte <? 128) rp
  && forallb origin_label (split_on (fun b => b =? #".") [] rp)
  && is_some_and (strip_prefix "https://" origin) (fun host =>
       bytes_eqb host rp || bytes_eqb host (rp ++ [ #"/" ])).

(** [fn admin_context]. *)
Definition admin_context (admin picked : Doc) (now : Z) : exec bool :=
  all_held [
    on admin "role" (fun v => is_text (text v) "agent-registrar");
    (from ← at_ admin "valid_from"; to ← at_ admin "valid_to"; Done (current (uint from) (uint to) now));
    same picked "tenant" admin "tenant";
    same picked "binding_id" admin "binding_id";
    same picked "credential_id" admin "credential_id";
    (selected ← at_ picked "selected_at";
     match uint selected with
     | Some at_time => from ← at_ admin "valid_from"; Done (is_none_or (uint from) (fun f => f <=? at_time) && (at_time <=? now))
     | None => Done false
     end)].

(** [fn client_binding]. *)
Definition client_binding (client : list (string * json)) (auth : bytes) (admin picked : Doc) (origin : string) : exec bool :=
  reject_if negb (zlen auth =? 37) with Done false;
  challenge_value ← at_ picked "challenge"; rp_value ← at_ admin "rp_id";
  let_some challenge := bytes_ challenge_value else Done false;
  let_some rp_id := text rp_value else Done false;
  let member name value := is_some_and (obj_get client name) (fun v => json_eqb v value) in
  Done (member "type"%string (JString "webauthn.get") && member "challenge"%string (JString (url_encode challenge))
        && member "origin"%string (JString origin) && member "crossOrigin"%string (JBool false)
        && bytes_eqb (take 32 auth) (sha [str_bytes rp_id])).

(** [fn counter_progresses]. *)
Definition counter_progresses (previous current : Z) : bool :=
  (previous =? 0) && (current =? 0) || (previous <? current).

(** [fn admin_flags]: (backup eligible, backup state, counter). *)
Definition admin_flags (auth : bytes) (previous : Z) : option (bool * bool * Z) :=
  flags ← byte_get auth 32;
  let backup_eligible := negb (Z.land flags 8 =? 0) in
  let backup_state := negb (Z.land flags 16 =? 0) in
  reject_if negb ((Z.land flags 226 =? 0) && (Z.land flags 5 =? 5) && (negb backup_state || backup_eligible)) with None;
  raw ← range_get auth 33 37;
  let counter := foldl (fun arg byte => Z.lor (Z.shiftl arg 8) byte) 0 raw in
  then_some (counter_progresses previous counter) (backup_eligible, backup_state, counter).

(** [fn admin_p256_key]. *)
Definition admin_p256_key (admin : Doc) : exec (option p256_key) :=
  key_value ← at_ admin "cose_public_key";
  let_some raw := bytes_ key_value else Done None;
  let_some value := decode raw 256 else Done None;
  Done (match value with
        | CMap cose =>
            x ← (v ← integer cose (-2); bytes_ v);
            y ← (v ← integer cose (-3); bytes_ v);
            reject_if negb ((zlen cose =? 5) && integer_is cose 1 2 && integer_is cose 3 (-7) && integer_is cose (-1) 1)
                      || negb (zlen x =? 32) || negb (zlen y =? 32) with None;
            from_sec1_bytes ([4] ++ x ++ y)
        | _ => None
        end).

(** [struct CounterState]. *)
Record CounterState := { c_before : Z; c_after : Z; c_backup_eligible : bool; c_backup_state : bool }.

(** [fn verify_admin]. *)
Definition verify_admin (admin : Doc) (selection : cbor) (origin : string) (previous now : Z) : exec (option CounterState) :=
  let_some picked := plain selection else Done None;
  context ← all_held [admin_context admin picked now;
                      (rp ← at_ admin "rp_id"; Done (canonical_origin origin (unwrap_or (text rp) EmptyString)))];
  reject_if negb context with Done None;
  client_value ← at_ picked "client_data_json"; let_some client_raw := bytes_ client_value else Done None;
  auth_value ← at_ picked "authenticator_data"; let_some auth := bytes_ auth_value else Done None;
  signature_value ← at_ picked "signature"; let_some signature_raw := bytes_ signature_value else Done None;
  let_some client := strict_client_json client_raw else Done None;
  bound ← client_binding client auth admin picked origin;
  reject_if negb bound with Done None;
  let_some (backup_eligible, backup_state, counter) := admin_flags auth previous else Done None;
  let_some signature := from_der signature_raw else Done None;
  reject_if negb (p256_signature_eqb (normalize_s signature) signature) with Done None;
  let_do key := admin_p256_key admin else Done None;
  Done (then_some (p256_verify key (auth ++ sha [client_raw]) signature)
          {| c_before := previous; c_after := counter; c_backup_eligible := backup_eligible; c_backup_state := backup_state |}).

(** ** The scan of the member names *)

Lemma keys_loop_enough fuel fuel' raw depth keys : (length raw <= fuel)%nat -> (length raw <= fuel')%nat ->
  keys_loop fuel raw depth keys = keys_loop fuel' raw depth keys.
Proof.
  revert fuel' raw depth keys. induction fuel as [|fuel IH]; intros [|fuel'] [|x raw] depth keys Hf Hf';
    cbn [length] in *; try lia; [done..|].
  cbn [keys_loop]. assert (forall n, (length (drop n raw) <= length raw)%nat) as Hd by (intros n; rewrite length_drop; lia).
  destruct (_ || _); [apply IH; lia|]. destruct (_ || _); [apply IH; lia|]. destruct (x =? 34); [|apply IH; lia].
  destruct (json_string_end raw) as [n|]; cbn; [|done]. specialize (Hd n).
  destruct (_ && _); [|apply IH; lia]. destruct (from_slice_string _) as [key|]; cbn; [|done].
  destruct (bool_decide _); [done|]. apply IH; lia.
Qed.

(** The scan for the top-level member names ends within a turn for each byte of the client
    data, quoted strings and escapes included: more turns change nothing. *)
Theorem keys_loop_fuel (fuel : nat) (raw : bytes) (depth : Z) (keys : gset string) : (length raw <= fuel)%nat ->
  keys_loop fuel raw depth keys = keys_loop (length raw) raw depth keys.
Proof. intros Hf. by apply keys_loop_enough. Qed.

(** ** Accepted assertions *)

(** The members of [picked] and [admin] an accepted assertion relates. *)
Definition equal_members (a : Doc) (x : string) (b : Doc) (y : string) : Prop :=
  exists v w, a !! x = Some v /\ b !! y = Some w /\ cbor_eqb v w = true.

(** The counter a proof shows: unused on both sides, or strictly larger. *)
Definition counter_advances (st : CounterState) : Prop :=
  c_before st = 0 /\ c_after st = 0 \/ c_before st < c_after st.

Record admin_proof (admin picked : Doc) (origin : string) (previous now : Z) (st : CounterState) : Prop := {
  ap_context : exists from to selected, typed admin "role" (fun v => is_text (text v) "agent-registrar")
    /\ typed admin "valid_from" (fun v => bool_decide (uint v = Some from))
    /\ typed admin "valid_to" (fun v => bool_decide (uint v = Some to))
    /\ typed picked "selected_at" (fun v => bool_decide (uint v = Some selected))
    /\ from <= selected <= now /\ now < to;
  ap_same : Forall (fun name => equal_members picked name admin name) ["tenant"; "binding_id"; "credential_id"]%string;
  ap_counter : c_before st = previous /\ counter_advances st;
  ap_backup : c_backup_state st = true -> c_backup_eligible st = true;
  ap_signed : exists challenge rp client_raw client auth key signature,
    picked !! "challenge"%string = Some (CBytes challenge) /\ admin !! "rp_id"%string = Some (CText rp)
    /\ picked !! "client_data_json"%string = Some (CBytes client_raw) /\ strict_client_json client_raw = Some client
    /\ picked !! "authenticator_data"%string = Some (CBytes auth)
    /\ canonical_origin origin rp = true /\ take 32 auth = sha [str_bytes rp]
    /\ is_some_and (obj_get client "challenge") (fun v => json_eqb v (JString (url_encode challenge))) = true
    /\ is_some_and (obj_get client "origin") (fun v => json_eqb v (JString origin)) = true
    /\ admin_flags auth previous = Some (c_backup_eligible st, c_backup_state st, c_after st)
    /\ admin_p256_key admin = Done (Some key)
    /\ p256_verify key (auth ++ sha [client_raw]) signature = true;
}.

Lemma admin_p256_key_wp admin : is_Some (admin !! "cose_public_key"%string) -> wp (admin_p256_key admin) (fun _ => True).
Proof. intros Hk. unfold admin_p256_key. apply wp_bind, wp_at; [done|]. intros v _. by repeat case_match. Qed.

Lemma admin_flags_Some auth previous e s n : admin_flags auth previous = Some (e, s, n) ->
  (s = true -> e = true) /\ counter_progresses previous n = true.
Proof.
  unfold admin_flags. intros Hf. apply bind_Some in Hf as (flags & _ & Hf). case_step Hf.
  apply bind_Some in Hf as (raw & _ & Hf). apply then_some_Some in Hf as [Hc [= <- <- <-]].
  apply negb_false_iff, andb_true_iff in E as [_ E]. split; [|done]. intros Hs. by rewrite Hs in E.
Qed.

Lemma current_true a b now : current a b now = true -> exists x y, a = Some x /\ b = Some y /\ x <= now < y.
Proof. destruct a as [x|], b as [y|]; try done. cbn. intros [??]%andb_true_iff. bool_prop. exists x, y. auto. Qed.

Lemma admin_context_ok (admin picked : Doc) now :
  fields_typed admin (schema_fields ADMIN_BINDING) -> fields_typed picked (schema_fields ADMIN_SELECTION) ->
  holds (admin_context admin picked now)
    ((exists from to selected, typed admin "role" (fun v => is_text (text v) "agent-registrar")
      /\ typed admin "valid_from" (fun v => bool_decide (uint v = Some from))
      /\ typed admin "valid_to" (fun v => bool_decide (uint v = Some to))
      /\ typed picked "selected_at" (fun v => bool_decide (uint v = Some selected))
      /\ from <= selected <= now /\ now < to)
     /\ Forall (fun name => equal_members picked name admin name) ["tenant"; "binding_id"; "credential_id"]%string).
Proof.
  intros Ha Hp.
  assert (forall k, is_some (field_test (schema_fields ADMIN_BINDING) k) = true -> is_Some (admin !! k)) as Pa
    by (intros; by eapply field_present).
  assert (forall k, is_some (field_test (schema_fields ADMIN_SELECTION) k) = true -> is_Some (picked !! k)) as Pp
    by (intros; by eapply field_present).
  destruct (Pa "valid_from"%string eq_refl) as [fv Hfv], (Pa "valid_to"%string eq_refl) as [tv Htv],
    (Pp "selected_at"%string eq_refl) as [sv Hsv].
  eapply holds_mono.
  - unfold admin_context. apply holds_all_cons; [apply holds_on; by apply Pa|].
    apply holds_all_cons.
    { apply holds_at; [by apply Pa|]. intros v Hv. apply holds_at; [by apply Pa|]. intros w Hw. apply holds_done.
      instantiate (1 := current (uint fv) (uint tv) now = true). simplify_eq. done. }
    do 3 (apply holds_all_cons; [apply holds_same; [by apply Pp|by apply Pa]|]).
    apply holds_all_cons; [|apply holds_all_nil].
    apply holds_at; [by apply Pp|]. intros v Hv. simplify_eq.
    instantiate (1 := exists s, uint sv = Some s /\ is_none_or (uint fv) (fun f => f <=? s) = true /\ s <= now).
    destruct (uint sv) as [s|]; [|by apply holds_done]. apply holds_at; [by apply Pa|]. intros w Hw. simplify_eq.
    apply holds_done. intros [Hn Hl%Z.leb_le]%andb_true_iff. eauto.
  - intros (Hr & Hc & H1 & H2 & H3 & (s & Es & Hn & Hl) & _).
    apply current_true in Hc as (x & y & Ex & Ey & Hxy). rewrite Ex in Hn. cbn in Hn. apply Z.leb_le in Hn.
    split; [|by repeat constructor]. exists x, y, s. split_and!; try done; try lia.
    + exists fv. split; [done|]. by apply bool_decide_eq_true.
    + exists tv. split; [done|]. by apply bool_decide_eq_true.
    + exists sv. split; [done|]. by apply bool_decide_eq_true.
Qed.

Lemma client_binding_ok client auth (admin picked : Doc) origin :
  is_Some (picked !! "challenge"%string) -> is_Some (admin !! "rp_id"%string) ->
  holds (client_binding client auth admin picked origin)
    (exists challenge rp, picked !! "challenge"%string = Some (CBytes challenge) /\ admin !! "rp_id"%string = Some (CText rp)
     /\ take 32 auth = sha [str_bytes rp]
     /\ is_some_and (obj_get client "challenge") (fun v => json_eqb v (JString (url_encode challenge))) = true
     /\ is_some_and (obj_get client "origin") (fun v => json_eqb v (JString origin)) = true).
Proof.
  intros Hc Hr. unfold client_binding. destruct (negb (zlen auth =? 37)); [by apply holds_done|].
  apply holds_at; [done|]. intros v Hv. apply holds_at; [done|]. intros w Hw.
  destruct v as [|challenge| | | | | | |]; try by apply holds_done. cbn [bytes_].
  destruct w as [| | |rp| | | | |]; try by apply holds_done. cbn [text].
  apply holds_done. rewrite !andb_true_iff, bytes_eqb_true. intros [[[[_ ?] ?] _] ?]. exists challenge, rp. auto.
Qed.

Lemma verify_admin_ok (admin picked : Doc) selection origin previous now :
  fields_typed admin (schema_fields ADMIN_BINDING) -> plain selection = Some picked ->
  fields_typed picked (schema_fields ADMIN_SELECTION) ->
  wp (verify_admin admin selection origin previous now) (fun o => forall st, o = Some st ->
    admin_proof admin picked origin previous now st).
Proof.
  intros Ha Hs Hp. unfold verify_admin. rewrite Hs.
  assert (forall k, is_some (field_test (schema_fields ADMIN_BINDING) k) = true -> is_Some (admin !! k)) as Pa
    by (intros; by eapply field_present).
  assert (forall k, is_some (field_test (schema_fields ADMIN_SELECTION) k) = true -> is_Some (picked !! k)) as Pp
    by (intros; by eapply field_present).
  destruct (Pa "rp_id"%string eq_refl) as [rv Hrv].
  apply wp_bind. eapply wp_mono.
  { apply holds_all_cons; [by apply admin_context_ok|]. apply holds_all_cons; [|apply holds_all_nil].
    apply holds_at; [by apply Pa|]. intros v Hv. simplify_eq. apply holds_id. }
  cbn beta. intros [] Hctx; cbn [negb]; [|by apply wp_done]. destruct (Hctx eq_refl) as ([Hc Hsame] & Ho & _). clear Hctx.
  apply wp_bind, wp_at; [by apply Pp|]. intros cv Hcv. destruct (bytes_ cv) as [client_raw|] eqn:Ecv; [|by apply wp_done].
  apply wp_bind, wp_at; [by apply Pp|]. intros av Hav. destruct (bytes_ av) as [auth|] eqn:Eav; [|by apply wp_done].
  apply wp_bind, wp_at; [by apply Pp|]. intros gv Hgv. destruct (bytes_ gv) as [sig_raw|] eqn:Egv; [|by apply wp_done].
  destruct (strict_client_json client_raw) as [client|] eqn:Ecl; [|by apply wp_done].
  apply wp_bind. eapply wp_mono; [apply client_binding_ok; [by apply Pp|by apply Pa]|].
  intros [] Hb; cbn [negb]; [|by apply wp_done]. destruct (Hb eq_refl) as (challenge & rp & Hch & Hrp & Hauth & Hcc & Hco). clear Hb.
  destruct (admin_flags auth previous) as [[[e s] n]|] eqn:Ef; [|by apply wp_done].
  destruct (from_der sig_raw) as [signature|] eqn:Eg; [|by apply wp_done].
  destruct (negb _); [by apply wp_done|]. destruct (wp_total _ _ (admin_p256_key_wp admin (Pa "cose_public_key"%string eq_refl))) as (ok & Ek & _).
  rewrite Ek. apply wp_bind, wp_done. destruct ok as [key|]; [|by apply wp_done]. apply wp_done.
  intros st [Hv <-]%then_some_Some. destruct (admin_flags_Some _ _ _ _ _ Ef) as [Hes Hn].
  destruct cv; try done; destruct av; try done. cbn in Ecv, Eav. simplify_eq. cbn in Ho.
  constructor; cbn [c_before c_after c_backup_state c_backup_eligible]; [done|done| |done|].
  - split; [done|]. unfold counter_advances, counter_progresses in *. cbn.
    apply orb_true_iff in Hn as [[?%Z.eqb_eq ?%Z.eqb_eq]%andb_true_iff|?%Z.ltb_lt]; auto.
  - exists challenge, rp, client_raw, client, auth, key, signature. split_and!; done.
Qed.

(** C30: on a bound administrator and a selection, both valid, the assertion check never panics,
    and it accepts only when the administrator holds the registrar role at the time of the
    selection, the selection is theirs, the client data and the authenticator data were made for
    the selection's challenge, the pinned origin and the bound relying party, the signature
    counter advanced from the recorded one, and the bound P-256 key signed both. *)
Theorem verify_admin_sound (admin picked : Doc) (selection : cbor) (origin : string) (previous now : Z) :
  fields_typed admin (schema_fields ADMIN_BINDING) -> plain selection = Some picked ->
  fields_typed picked (schema_fields ADMIN_SELECTION) ->
  exists o, verify_admin admin selection origin previous now = Done o
    /\ forall st, o = Some st -> admin_proof admin picked origin previous now st.
Proof. intros. apply (wp_total _ (fun o => forall st, o = Some st -> _)). by apply verify_admin_ok. Qed.
End Admin.
