(* ===== verification/Assurance.v ===== *)
(** * Assurance: evaluating a presentation or a refusal (b28.rs)

    [evaluate] runs the stages of a presentation in the source's order: the challenge, the
    chain of pinned roots, the delegated signatures, the passport, its registration, the
    checkpoint, the proofs of authority state, the exact action and the transcript.  A
    stage takes the [Evaluation] and returns it updated, or the result the verifier ends
    with.  [verify_b28_cwt] reads the inputs and evaluates one exchange.  The theorems
    about them are in [AssuranceSpec]. *)
From S2P Require Import Prelude Hash Merkle Text Json Jcs Utc Dsse CborWire Exec Cwt.
From S2P Require Import Bundle.
From S2P Require Import Counterparty AdminProof.

(** ** Results *)

Definition VERIFIED : list string := ["passport_identity"; "live_key_control"; "root_chain"; "template_admin_pop"; "fresh_status"; "binding"; "grant"; "delegation"; "exact_action"; "asa_reservation"; "challenge"; "transcript"; "replay"]%string.
Definition UNEVALUATED : list string := ["node_basis"; "source_basis"; "coverage_basis"; "history"; "post_action_evidence_readiness"]%string.

(** The vector: a [BTreeMap<String, String>]. *)
Abbreviation Vector := (gmap string string) (only parsing).

(** [struct ResultValue] and its [new]. *)
Record ResultValue := result_value { verdict : string; reason : string; vector : Vector }.

(** [ResultValue::json]. *)
Definition result_json (r : ResultValue) : json :=
  json_of_list [
    ("verdict", JString (verdict r)); ("reasons", JArray [JString (reason r)]);
    ("vector", json_of_list (map (fun kv => (kv.1, JString kv.2)) (map_to_list (vector r))));
    ("should_execute", JBool false)]%string.

(** [fn initial_vector], [fn mark]. *)
Definition initial_vector : Vector :=
  foldl (fun out name => <[name := "NOT_EVALUATED_V1"%string]> out)
    (list_to_map (map (fun name => (name, "INDETERMINATE"%string)) VERIFIED)) UNEVALUATED.
Definition mark (v : Vector) (names : list string) (state : string) : Vector :=
  foldl (fun v name => <[name := state]> v) v names.

(** [struct InputContext], [struct RefusalContext], [struct ConsumeContext]. *)
Record InputContext := {
  i_challenge : bytes;
  i_presentation : bytes;
  i_roots : gmap string RootAnchor;
  i_challenger_keys : gmap string bytes;
  i_checkpoints : Checkpoints;
  i_heads : Heads;
  i_origin : string;
  i_max_action_lifetime_s : Z;
  i_now : Z;
}.
Record RefusalContext := {
  f_challenge : bytes;
  f_refusal : bytes;
  f_challenger_keys : gmap string bytes;
  f_responder_keys : gmap string bytes;
  f_now : Z;
}.
Record ConsumeContext := {
  consume_key : string * bytes * bytes * bytes;
  consume_action_key : string * bytes * bytes;
  consume_action_digest : bytes;
  consume_presentation_digest : bytes;
  consume_vector : Vector;
}.

#[export] Instance pin_eq_dec : EqDecision Pin.
Proof. solve_decision. Defined.
#[export] Instance counter_state_eq_dec : EqDecision CounterState.
Proof. solve_decision. Defined.

Section Assurance.
Context {H : Hash} {SD : Serde} {B : Base64} {ED : Ed25519} {CA : CiboriumAt} {PC : P256}.

(** [fn core_digest]. *)
Definition core_digest (canonical_core : bytes) : bytes := sha [str_bytes "swarrm-b28/core/v1" ++ [0]; canonical_core].

(** ** Proofs of authority state *)

(** [fn state_key]. *)
Definition state_key (kind : string) (object_id : bytes) : bytes :=
  sha [str_bytes "swarrm-authority-state/v1" ++ [0]; str_bytes kind; [0]; object_id].

(** [fn verify_state]. *)
Definition verify_state (proof : cbor) (root expected_key digest : bytes) (expected_state : string)
    (expected_version : option Z) : exec bool :=
  let_some proof := document proof (Some MEMBERSHIP) "key value index tree_size path" else Done false;
  value_value ← at_ proof "value";
  let_some value := document value_value None "key state version object_digest" else Done false;
  index_value ← at_ proof "index"; size_value ← at_ proof "tree_size"; path_value ← at_ proof "path";
  let_some index := uint index_value else Done false;
  let_some size_ := positive_ size_value else Done false;
  let_some path := (match path_value with CArray path => Some path | _ => None end) else Done false;
  checks ← all_held [
    Done (index <? size_); Done (zlen path <=? 64);
    on proof "key" (fun v => is_bytes (bytes_ v) expected_key);
    same value "key" proof "key";
    on value "state" (fun v => is_text (text v) expected_state);
    on value "version" (has positive_);
    (match expected_version with
     | Some version => on value "version" (fun v => bool_decide (uint v = Some version))
     | None => Done true
     end);
    on value "object_digest" (fun v => is_bytes (bytes_ v) digest)];
  reject_if negb checks with Done false;
  let_some siblings := mapM (fixed 32) path else Done false;
  let_some encoded := canonical value_value else Done false;
  Done (verify_inclusion (sha [[0]; encoded]) index size_ siblings root).

(** [fn verify_counter_head]. *)
Definition verify_counter_head (proof : cbor) (root binding_id : bytes) (minimum_version : Z) : exec bool :=
  let_some doc := document proof (Some MEMBERSHIP) "key value index tree_size path" else Done false;
  value_value ← at_ doc "value";
  let_some value := document value_value None "key state version object_digest" else Done false;
  version_value ← at_ value "version"; digest_value ← at_ value "object_digest";
  let_some version := positive_ version_value else Done false;
  let_some digest := fixed 32 digest_value else Done false;
  Done (minimum_version <=? version)
  &&& verify_state proof root (state_key "admin_counter" binding_id) digest "ACTIVE" (Some version).

(** [fn verify_consistency] of b28.rs. *)
Definition log_consistent (value : cbor) (first second : Z) (first_root second_root : bytes) : bool :=
  let_some path := (path ← array value 64; mapM (fixed 32) path) else false;
  verify_consistency first second first_root second_root path.

(** ** Digests of named members *)

(** [fn named_digest]. *)
Definition named_digest (doc : Doc) (names : list string) (domain : bytes) : exec (option bytes) :=
  items ← exec_map (fun name => v ← at_ doc name; Done (name, v)) names;
  Done (encoded ← canonical (map_value items); Some (sha [domain; encoded])).
Definition PROPOSAL_FIELDS : list string := ["tenant"; "birthtag"; "revision"; "agent_kid"; "agent_key"; "owner"; "purpose"; "mandate_digest"; "config_digest"; "template_id"; "template_version"; "principal_binding_id"]%string.
Definition ACTION_SCOPE_FIELDS : list string := ["actor"; "operation"; "parameter_schema"; "parameter_digest"; "unit"; "source"; "destination"; "counterparty"; "recipient"; "policy_version"; "policy_digest"]%string.
(** [fn selected_digest], [fn action_scope_digest]. *)
Definition selected_digest (credential : Doc) : exec (option bytes) :=
  named_digest credential PROPOSAL_FIELDS (str_bytes "swarrm-b28/agent-proposal/v1" ++ [0]).
Definition action_scope_digest (action : Doc) : exec (option bytes) :=
  named_digest action ACTION_SCOPE_FIELDS (str_bytes "swarrm-b28/action-scope/v1" ++ [0]).

(** [fn successor_matches]. *)
Definition successor_matches (credential : Doc) (envelope : option Cwt) (now : Z) : exec bool :=
  digest_value ← at_ credential "agent_successor_digest";
  match digest_value, envelope with
  | CNull, None => Done true
  | CBytes digest, Some envelope =>
      link ← unwrap (plain (core envelope));
      Done (bytes_eqb digest (core_digest (core_bytes envelope)))
      &&& same link "successor_birthtag" credential "birthtag"
      &&& same link "successor_revision" credential "revision"
      &&& (proposal ← at_ link "successor_proposal_digest"; selected ← selected_digest credential;
           Done (bool_decide (bytes_ proposal = selected)))
      &&& on link "effective_at" (fun v => is_some_and (uint v) (fun at_time => at_time <=? now))
  | _, _ => Done false
  end.

(** [fn checkpoint_head_error]. *)
Definition checkpoint_head_error (checkpoint : Doc) (sequence : Z) (head_ : Head) : exec (option (string * string)) :=
  reject_if sequence <? head_sequence head_ with Done (Some ("FAIL", "AUTHORITY_CHECKPOINT_ROLLBACK")%string);
  reject_if head_sequence head_ <? sequence with Done (Some ("INDETERMINATE", "AUTHORITY_CHECKPOINT_AHEAD_OF_LOCAL_HEAD")%string);
  agrees ← on checkpoint "authority_root" (fun v => is_bytes (bytes_ v) (head_authority_root head_))
    &&& on checkpoint "log_root" (fun v => is_bytes (bytes_ v) (head_log_root head_))
    &&& on checkpoint "log_size" (fun v => bool_decide (uint v = Some (head_log_size head_)));
  Done (then_some (negb agrees) ("FAIL", "AUTHORITY_CHECKPOINT_FORK")%string).

(** [fn registration_digests_match]. *)
Definition registration_digests_match (credential : Doc) (selection pop : bytes) : exec bool :=
  on credential "admin_selection_digest" (fun v => is_bytes (bytes_ v) (core_digest selection))
  &&& on credential "agent_pop_digest" (fun v => is_bytes (bytes_ v) (core_digest pop)).
End Assurance.

(** ** The evaluation *)

(** [struct Evaluation]. *)
Record Evaluation := {
  input : InputContext;
  e_vector : Vector;
  e_challenge : Cwt;
  challenge_doc : gmap string cbor;
  e_action : gmap string cbor;
  action_bytes : bytes;
  pres : gmap string cbor;
  rooted : gmap string Cwt;
  signed : gmap string Cwt;
  credential : option Cwt;
  selection : option cbor;
  selection_raw : bytes;
  head_root : bytes;
}.

(** The fields the stages assign. *)
Definition set_vector (e : Evaluation) (v : Vector) : Evaluation :=
  {| input := input e; e_vector := v; e_challenge := e_challenge e; challenge_doc := challenge_doc e; e_action := e_action e;
     action_bytes := action_bytes e; pres := pres e; rooted := rooted e; signed := signed e; credential := credential e;
     selection := selection e; selection_raw := selection_raw e; head_root := head_root e |}.
Definition set_rooted (e : Evaluation) (r : gmap string Cwt) : Evaluation :=
  {| input := input e; e_vector := e_vector e; e_challenge := e_challenge e; challenge_doc := challenge_doc e; e_action := e_action e;
     action_bytes := action_bytes e; pres := pres e; rooted := r; signed := signed e; credential := credential e;
     selection := selection e; selection_raw := selection_raw e; head_root := head_root e |}.
Definition set_signed (e : Evaluation) (s : gmap string Cwt) (c : option Cwt) : Evaluation :=
  {| input := input e; e_vector := e_vector e; e_challenge := e_challenge e; challenge_doc := challenge_doc e; e_action := e_action e;
     action_bytes := action_bytes e; pres := pres e; rooted := rooted e; signed := s; credential := c;
     selection := selection e; selection_raw := selection_raw e; head_root := head_root e |}.
Definition set_selection (e : Evaluation) (s : option cbor) (raw : bytes) : Evaluation :=
  {| input := input e; e_vector := e_vector e; e_challenge := e_challenge e; challenge_doc := challenge_doc e; e_action := e_action e;
     action_bytes := action_bytes e; pres := pres e; rooted := rooted e; signed := signed e; credential := credential e;
     selection := s; selection_raw := raw; head_root := head_root e |}.
Definition set_head_root (e : Evaluation) (root : bytes) : Evaluation :=
  {| input := input e; e_vector := e_vector e; e_challenge := e_challenge e; challenge_doc := challenge_doc e; e_action := e_action e;
     action_bytes := action_bytes e; pres := pres e; rooted := rooted e; signed := signed e; credential := credential e;
     selection := selection e; selection_raw := selection_raw e; head_root := root |}.
(** [mark(&mut self.vector, names, "VERIFIED")]. *)
Definition verified (e : Evaluation) (names : list string) : Evaluation := set_vector e (mark (e_vector e) names "VERIFIED").

(** [Result<T, ResultValue>], of a computation that may panic. *)
Abbreviation outcome A := (exec (A + ResultValue)) (only parsing).
Definition stop {A} (verdict reason : string) (v : Vector) : outcome A := Done (inr (result_value verdict reason v)).
(** [self.reject(verdict, reason)]. *)
Definition reject {A} (e : Evaluation) (verdict reason : string) : outcome A := stop verdict reason (e_vector e).
Definition proceed {A} (a : A) : outcome A := Done (inl a).
(** The [?] operator on a [Result]. *)
Definition then_ {A B} (x : outcome A) (k : A -> outcome B) : outcome B :=
  match x with Done (inl a) => k a | Done (inr stopped) => Done (inr stopped) | Panic => Panic end.

Section Evaluate.
Context {H : Hash} {SD : Serde} {B : Base64} {ED : Ed25519} {CA : CiboriumAt} {PC : P256}.

(** [plain(&cwt.core).unwrap()]. *)
Definition plain_core (cwt : Cwt) : exec Doc := unwrap (plain (core cwt)).
(** [plain(&self.rooted[name].core).unwrap()], and of [self.signed]. *)
Definition rooted_doc (e : Evaluation) (name : string) : exec Doc := c ← at_ (rooted e) name; plain_core c.
Definition signed_doc (e : Evaluation) (name : string) : exec Doc := c ← at_ (signed e) name; plain_core c.
Definition credential_doc (e : Evaluation) : exec Doc := c ← unwrap (credential e); plain_core c.
(** [plain(&doc[name]).unwrap()], [uint(&doc[name]).unwrap()], [bytes(..).unwrap()], [text(..).unwrap()]. *)
Definition inner_doc (doc : Doc) (name : string) : exec Doc := v ← at_ doc name; unwrap (plain v).
Definition uint_at (doc : Doc) (name : string) : exec Z := v ← at_ doc name; unwrap (uint v).
Definition bytes_at (doc : Doc) (name : string) : exec bytes := v ← at_ doc name; unwrap (bytes_ v).
Definition text_at (doc : Doc) (name : string) : exec string := v ← at_ doc name; unwrap (text v).

(** [bytes(&doc[name]) == Some(expected)]. *)
Definition digest_is (doc : Doc) (name : string) (expected : bytes) : exec bool :=
  on doc name (fun v => is_bytes (bytes_ v) expected).
(** [matches!((uint(&a[x]), uint(&a[y])), (Some(a), Some(b)) if a <= now && now < b)]. *)
Definition current_at (doc : Doc) (x y : string) (now : Z) : exec bool :=
  from ← at_ doc x; to ← at_ doc y; Done (current (uint from) (uint to) now).
(** [matches!((x, y, z), (Some(a), Some(b), Some(c)) if a <= b && b < c)]. *)
Definition ordered3 (a b c : option Z) : bool :=
  match a, b, c with Some a, Some b, Some c => (a <=? b) && (b <? c) | _, _, _ => false end.

(** [Evaluation::start]. *)
Definition start (i : InputContext) : outcome Evaluation :=
  let v := initial_vector in
  reject_if bool_decide (i_challenger_keys i = ∅) with stop "INDETERMINATE" "NO_LOCAL_CHALLENGER_KEY" v;
  let_do challenge := signed_cwt (i_challenge i) CHALLENGE (i_challenger_keys i)
    else stop "FAIL" "CHALLENGE_SIGNATURE_OR_PROFILE_INVALID" v;
  challenge_doc ← plain_core challenge;
  challenger ← inner_doc challenge_doc "challenger";
  signer ← on challenger "agent_kid" (fun k => is_text (text k) (kid challenge));
  reject_if negb signer with stop "FAIL" "CHALLENGE_SIGNER_MISMATCH" v;
  action ← inner_doc challenge_doc "action";
  issued ← uint_at challenge_doc "issued_at";
  reject_if i_now i <? issued with stop "INDETERMINATE" "CHALLENGE_NOT_CURRENT" v;
  expires ← uint_at action "expires_at";
  reject_if expires <=? i_now i with stop "FAIL" "CHALLENGE_EXPIRED" v;
  lifetime ← u64_sub expires issued;
  reject_if i_max_action_lifetime_s i <? lifetime with stop "INDETERMINATE" "ACTION_LIFETIME_EXCEEDS_LOCAL_POLICY" v;
  let v := mark v ["challenge"%string] "VERIFIED" in
  let_do presentation := inspect_cwt (i_presentation i) PRESENTATION else stop "FAIL" "PRESENTATION_NOT_STRICT_CWT" v;
  pres ← plain_core presentation;
  action_value ← at_ challenge_doc "action";
  action_bytes ← unwrap (canonical action_value);
  bindings ← all_held [
    digest_is pres "challenge_envelope_hash" (sha [i_challenge i]);
    digest_is pres "challenge_digest" (core_digest (core_bytes challenge));
    digest_is pres "action_digest" (core_digest action_bytes)];
  reject_if negb bindings with stop "FAIL" "PRESENTATION_CHALLENGE_OR_ACTION_MISMATCH" v;
  proceed {| input := i; e_vector := v; e_challenge := challenge; challenge_doc := challenge_doc; e_action := action;
             action_bytes := action_bytes; pres := pres; rooted := ∅; signed := ∅; credential := None; selection := None;
             selection_raw := []; head_root := [] |}.

(** The loop of [Evaluation::roots]. *)
Definition ROOT_ITEMS : list (string * string) :=
  [("root_delegation", ROOT_DELEGATION); ("registration_template", TEMPLATE); ("admin_binding", ADMIN_BINDING);
   ("admin_challenge", ADMIN_CHALLENGE); ("admin_consumption", ADMIN_CONSUMPTION); ("limit_grant", GRANT);
   ("authority_checkpoint", CHECKPOINT)]%string.
Fixpoint roots_loop (e : Evaluation) (items : list (string * string)) : outcome Evaluation :=
  match items with
  | [] => proceed e
  | (name, schema) :: items =>
      raw_value ← at_ (pres e) name;
      let_do cwt := (match bytes_ raw_value with Some raw => root_cwt raw schema (i_roots (input e)) | None => Done None end)
        else reject e "FAIL" "ROOT_AUTHORITY_CHAIN_INVALID";
      roots_loop (set_rooted e (<[name := cwt]> (rooted e))) items
  end.

(** [values()] of a [BTreeMap<&str, Cwt>]: in the order of the keys. *)
Definition btree_values (m : gmap string Cwt) : list Cwt :=
  (sort_by (fun a b => negb (str_ltb b.1 a.1)) (map_to_list m)).*2.

(** [Evaluation::roots]. *)
Definition roots (e : Evaluation) : outcome Evaluation :=
  then_ (roots_loop e ROOT_ITEMS) (fun e =>
  successor_value ← at_ (pres e) "agent_successor";
  then_ (match bytes_ successor_value with
         | Some raw =>
             let_do successor := root_cwt raw AGENT_SUCCESSOR (i_roots (input e))
               else reject e "FAIL" "ROOT_AUTHORITY_CHAIN_INVALID";
             proceed (set_rooted e (<["agent_successor"%string := successor]> (rooted e)))
         | None => proceed e
         end) (fun e =>
  delegation ← rooted_doc e "root_delegation";
  substituted ← exec_any (fun cwt =>
    match plain (core cwt) with
    | None => Done true
    | Some doc =>
        root ← same doc "organisation_root" delegation "organisation_root";
        if negb root then Done true else tenant ← same doc "tenant" delegation "tenant"; Done (negb tenant)
    end) (btree_values (rooted e));
  reject_if (substituted : bool) with reject e "FAIL" "ROOT_OR_TENANT_SUBSTITUTION";
  actor ← inner_doc (e_action e) "actor";
  organisation ← same actor "organisation_root" delegation "organisation_root";
  reject_if negb organisation with reject e "FAIL" "ACTOR_ORGANISATION_MISMATCH";
  active ← current_at delegation "valid_from" "valid_to" (i_now (input e));
  reject_if negb active with reject e "FAIL" "AUTHORITY_DELEGATION_INACTIVE";
  proceed (verified e ["root_chain"; "delegation"]%string))).

(** The loop of [Evaluation::signatures]. *)
Fixpoint signatures_loop (e : Evaluation) (items : list (string * string * gmap string bytes)) : outcome Evaluation :=
  match items with
  | [] => proceed e
  | (name, schema, keys) :: items =>
      raw_value ← at_ (pres e) name;
      let_do cwt := (match bytes_ raw_value with Some raw => signed_cwt raw schema keys | None => Done None end)
        else reject e "FAIL" "DELEGATED_OR_AGENT_SIGNATURE_INVALID";
      signatures_loop (set_signed e (<[name := cwt]> (signed e)) (credential e)) items
  end.

(** [Evaluation::signatures]. *)
Definition signatures (e : Evaluation) : outcome Evaluation :=
  delegation ← rooted_doc e "root_delegation";
  psa_kid ← text_at delegation "passport_authority_kid"; psa_key ← bytes_at delegation "passport_authority_key";
  action_kid ← text_at delegation "action_authority_kid"; action_key ← bytes_at delegation "action_authority_key";
  let psa : gmap string bytes := {[ psa_kid := psa_key ]} in
  let action : gmap string bytes := {[ action_kid := action_key ]} in
  passport_value ← at_ (pres e) "passport";
  let_do passport := (match bytes_ passport_value with Some raw => signed_cwt raw CREDENTIAL psa | None => Done None end)
    else reject e "FAIL" "DELEGATED_OR_AGENT_SIGNATURE_INVALID";
  holder_value ← at_ (pres e) "passport_holder_proof";
  let_do holder := (match bytes_ holder_value with Some raw => inspect_cwt raw CREDENTIAL | None => Done None end)
    else reject e "FAIL" "DELEGATED_OR_AGENT_SIGNATURE_INVALID";
  reject_if negb (cbor_eqb (core holder) (core passport)) with reject e "FAIL" "PASSPORT_HOLDER_CORE_MISMATCH";
  doc ← plain_core passport;
  agent_kid ← text_at doc "agent_kid"; agent_key ← bytes_at doc "agent_key";
  let agent : gmap string bytes := {[ agent_kid := agent_key ]} in
  then_ (signatures_loop e [("passport_holder_proof", CREDENTIAL, agent); ("agent_pop", AGENT_POP, agent);
                            ("status_snapshot", SNAPSHOT, psa); ("asa", ASA, action)]%string) (fun e =>
  let_do _ := signed_cwt (i_presentation (input e)) PRESENTATION agent
    else reject e "FAIL" "DELEGATED_OR_AGENT_SIGNATURE_INVALID";
  proceed (verified (set_signed e (signed e) (Some passport)) ["live_key_control"; "passport_identity"]%string)).

(** [Evaluation::passport]. *)
Definition passport (e : Evaluation) : outcome Evaluation :=
  credential ← credential_doc e;
  delegation ← rooted_doc e "root_delegation";
  template ← rooted_doc e "registration_template";
  actor ← inner_doc (e_action e) "actor";
  pairs ← all_held [
    same credential "organisation_root" delegation "organisation_root"; same credential "tenant" delegation "tenant";
    same credential "authority_delegation_id" delegation "delegation_id"; same credential "birthtag" actor "birthtag";
    same credential "revision" actor "revision"; same credential "agent_kid" actor "agent_kid"];
  is_psa ← same credential "agent_key" delegation "passport_authority_key";
  role_collision ← (if (is_psa : bool) then Done true else same credential "agent_key" delegation "action_authority_key");
  live ← current_at credential "valid_from" "valid_to" (i_now (input e));
  reject_if (role_collision : bool) with reject e "FAIL" "AUTHORITY_KEY_ROLE_COLLISION";
  reject_if negb pairs || negb live with reject e "FAIL" "PASSPORT_BINDING_OR_VALIDITY_INVALID";
  successor ← successor_matches credential (rooted e !! "agent_successor"%string) (i_now (input e));
  reject_if negb successor with reject e "FAIL" "AGENT_SUCCESSOR_INVALID";
  template_live ← current_at template "valid_from" "valid_to" (i_now (input e));
  equal ← exec_all (fun name => same credential name template name)
    ["template_id"; "template_version"; "owner"; "purpose"; "mandate_digest"; "config_digest"]%string;
  reject_if negb equal || negb template_live with reject e "FAIL" "PASSPORT_TEMPLATE_MISMATCH";
  proceed (verified e ["binding"%string]).

(** [decode(raw, 16_384).filter(validate_selection)]. *)
Definition decode_selection (raw : bytes) : exec (option cbor) :=
  let_some value := decode raw 16384 else Done None;
  valid ← validate_selection value;
  Done (then_some valid value).

(** The first checks of [Evaluation::registration]: proposal, template, administrator and challenge. *)
Definition issuance_checks (credential template admin challenge pop selection : Doc) (proposal : bytes) : exec bool :=
  all_held [
    digest_is selection "proposed_agent_digest" proposal;
    same selection "template_id" template "template_id";
    same selection "template_version" template "template_version";
    same selection "binding_id" admin "binding_id";
    same credential "principal_binding_id" admin "binding_id";
    same selection "challenge_id" challenge "challenge_id";
    same selection "challenge" challenge "challenge";
    same selection "binding_id" challenge "binding_id";
    same selection "template_id" challenge "template_id";
    same selection "template_version" challenge "template_version";
    same selection "proposed_agent_digest" challenge "proposed_agent_digest";
    digest_is pop "proposed_agent_digest" proposal;
    same pop "challenge" selection "challenge";
    same pop "birthtag" credential "birthtag";
    same pop "revision" credential "revision";
    same pop "agent_kid" credential "agent_kid";
    same challenge "tenant" credential "tenant";
    same challenge "organisation_root" credential "organisation_root";
    (a ← at_ admin "valid_from"; b ← at_ challenge "issued_at"; c ← at_ admin "valid_to";
     Done (ordered3 (uint a) (uint b) (uint c)));
    (a ← at_ challenge "issued_at"; b ← at_ selection "selected_at"; c ← at_ challenge "expires_at";
     Done (ordered3 (uint a) (uint b) (uint c)))].

(** The consumption checks: the recorded challenge, selection and credential, and the times. *)
Definition consumption_checks (admin challenge consumption selection : Doc)
    (challenge_bytes selection_bytes credential_bytes : bytes) (now : Z) : exec bool :=
  all_held [
    same consumption "tenant" challenge "tenant";
    same consumption "organisation_root" challenge "organisation_root";
    same consumption "binding_id" admin "binding_id";
    same consumption "challenge_id" challenge "challenge_id";
    digest_is consumption "challenge_digest" (core_digest challenge_bytes);
    digest_is consumption "selection_digest" (core_digest selection_bytes);
    digest_is consumption "credential_digest" (core_digest credential_bytes);
    (a ← at_ selection "selected_at"; b ← at_ consumption "consumed_at"; c ← at_ challenge "expires_at";
     Done (match uint a, uint b, uint c with
           | Some a, Some b, Some c => (a <=? b) && (b <=? now) && (b <? c)
           | _, _, _ => false
           end))].

(** The counter state the consumption records. *)
Definition signed_state (consumption : Doc) : exec CounterState :=
  eligible ← at_ consumption "backup_eligible"; state ← at_ consumption "backup_state";
  match eligible, state with
  | CBool eligible, CBool state =>
      before_ ← uint_at consumption "sign_count_before"; after ← uint_at consumption "sign_count_after";
      Done {| c_before := before_; c_after := after; c_backup_eligible := eligible; c_backup_state := state |}
  | _, _ => Panic
  end.

(** [Evaluation::registration]. *)
Definition registration (e : Evaluation) : outcome Evaluation :=
  credential_cwt ← unwrap (credential e);
  credential ← plain_core credential_cwt;
  template ← rooted_doc e "registration_template";
  admin ← rooted_doc e "admin_binding";
  challenge_cwt ← at_ (rooted e) "admin_challenge";
  challenge ← plain_core challenge_cwt;
  consumption ← rooted_doc e "admin_consumption";
  pop_cwt ← at_ (signed e) "agent_pop";
  pop ← plain_core pop_cwt;
  raw ← bytes_at (pres e) "admin_selection";
  let e := set_selection e (selection e) raw in
  let_do selection_value := decode_selection raw else reject e "FAIL" "TEMPLATE_ADMIN_POP_ISSUANCE_INVALID";
  selection ← unwrap (plain selection_value);
  selected ← selected_digest credential;
  proposal ← unwrap selected;
  checks ← issuance_checks credential template admin challenge pop selection proposal;
  reject_if negb checks with reject e "FAIL" "TEMPLATE_ADMIN_POP_ISSUANCE_INVALID";
  state ← signed_state consumption;
  proven ← verify_admin admin selection_value (i_origin (input e)) (c_before state) (i_now (input e));
  reject_if negb (bool_decide (proven = Some state)) with reject e "FAIL" "TEMPLATE_ADMIN_POP_CONSUMPTION_INVALID";
  digests ← registration_digests_match credential raw (core_bytes pop_cwt);
  reject_if negb digests with reject e "FAIL" "TEMPLATE_ADMIN_POP_ISSUANCE_INVALID";
  consumed ← consumption_checks admin challenge consumption selection (core_bytes challenge_cwt) raw
               (core_bytes credential_cwt) (i_now (input e));
  reject_if negb consumed with reject e "FAIL" "TEMPLATE_ADMIN_POP_CONSUMPTION_INVALID";
  proceed (verified (set_selection e (Some selection_value) raw) ["template_admin_pop"%string]).

(** The status checks of [Evaluation::checkpoint]. *)
Definition snapshot_checks (snapshot checkpoint delegation : Doc) (digest proofs : bytes) : exec bool :=
  all_held [
    same snapshot "organisation_root" checkpoint "organisation_root";
    same snapshot "tenant" checkpoint "tenant";
    same snapshot "authority_delegation_id" delegation "delegation_id";
    digest_is snapshot "checkpoint_digest" digest;
    digest_is snapshot "proofs_digest" (sha [str_bytes "swarrm-b28/proofs/v1" ++ [0]; proofs])].

(** The checkpoint as a registered one, and the key of its head. *)
Definition checkpoint_pin (checkpoint : Doc) : exec Pin :=
  tenant ← text_at checkpoint "tenant"; root ← bytes_at checkpoint "organisation_root";
  sequence ← uint_at checkpoint "sequence"; authority ← bytes_at checkpoint "authority_root";
  log ← bytes_at checkpoint "log_root"; size_ ← uint_at checkpoint "log_size";
  Done {| pin_tenant := tenant; pin_root := root; pin_sequence := sequence; pin_authority_root := authority;
          pin_log_root := log; pin_log_size := size_ |}.

(** [Evaluation::checkpoint]. *)
Definition checkpoint (e : Evaluation) : outcome Evaluation :=
  checkpoint_cwt ← at_ (rooted e) "authority_checkpoint";
  checkpoint ← plain_core checkpoint_cwt;
  credential ← credential_doc e;
  delegation ← rooted_doc e "root_delegation";
  let digest := core_digest (core_bytes checkpoint_cwt) in
  pin ← checkpoint_pin checkpoint;
  let i := input e in
  reject_if negb (bool_decide (i_checkpoints i !! digest = Some pin)) with
    reject e "INDETERMINATE" "AUTHORITY_CHECKPOINT_UNREGISTERED";
  let_some head_ := i_heads i !! (pin_tenant pin, pin_root pin)
    else reject e "INDETERMINATE" "LOCAL_AUTHORITY_HEAD_UNAVAILABLE";
  error ← checkpoint_head_error checkpoint (pin_sequence pin) head_;
  match error with Some (verdict, reason) => reject e verdict reason | None =>
  issuance ← bytes_at credential "issuance_checkpoint";
  let_some issued := opt_filter (i_checkpoints i !! issuance) (fun entry =>
      String.eqb (pin_tenant entry) (pin_tenant pin) && bytes_eqb (pin_root entry) (pin_root pin)
      && (pin_sequence entry <=? pin_sequence pin))
    else reject e "INDETERMINATE" "PASSPORT_ISSUANCE_CHECKPOINT_UNREGISTERED";
  consistency ← at_ (pres e) "issuance_consistency_proof";
  reject_if negb (log_consistent consistency (pin_log_size issued) (pin_log_size pin) (pin_log_root issued) (pin_log_root pin))
    with reject e "FAIL" "PASSPORT_ISSUANCE_LOG_NOT_ANCESTOR";
  snapshot ← signed_doc e "status_snapshot";
  proofs_value ← at_ (pres e) "state_proofs";
  proof_bytes ← unwrap (canonical proofs_value);
  checks ← snapshot_checks snapshot checkpoint delegation digest proof_bytes;
  reject_if negb checks with reject e "FAIL" "STATUS_CHECKPOINT_BINDING_INVALID";
  issued_at ← uint_at checkpoint "issued_at";
  stale ← (if issued_at <=? i_now i
           then maximum ← uint_at (challenge_doc e) "max_checkpoint_age"; Done (maximum <? i_now i - issued_at)
           else Done true);
  reject_if (stale : bool) with reject e "INDETERMINATE" "STATUS_CHECKPOINT_STALE";
  as_of ← same checkpoint "issued_at" snapshot "status_as_of";
  reject_if negb as_of with reject e "FAIL" "STATUS_CHECKPOINT_BINDING_INVALID";
  expires ← uint_at snapshot "expires_at";
  reject_if expires <=? i_now i with reject e "INDETERMINATE" "STATUS_CHECKPOINT_STALE";
  proceed (set_head_root e (head_authority_root head_))
  end.

(** An object whose state is proven: its name, kind, id, digest, state and version. *)
Record StateObject := {
  o_name : string; o_kind : string; o_id : bytes; o_digest : bytes; o_state : string; o_version : option Z;
}.
Definition state_object (name kind : string) (id digest : bytes) (state : string) (version : option Z) : StateObject :=
  {| o_name := name; o_kind := kind; o_id := id; o_digest := digest; o_state := state; o_version := version |}.

(** The array [objects] of [Evaluation::authority_proofs]. *)
Definition state_objects (e : Evaluation) : exec (list StateObject) :=
  credential_cwt ← unwrap (credential e);
  credential ← plain_core credential_cwt;
  delegation_cwt ← at_ (rooted e) "root_delegation"; delegation ← plain_core delegation_cwt;
  template_cwt ← at_ (rooted e) "registration_template"; template ← plain_core template_cwt;
  admin_cwt ← at_ (rooted e) "admin_binding"; admin ← plain_core admin_cwt;
  grant_cwt ← at_ (rooted e) "limit_grant"; grant ← plain_core grant_cwt;
  selection_value ← unwrap (selection e); selection ← unwrap (plain selection_value);
  challenge_cwt ← at_ (rooted e) "admin_challenge"; challenge ← plain_core challenge_cwt;
  consumption_cwt ← at_ (rooted e) "admin_consumption"; consumption ← plain_core consumption_cwt;
  pop_cwt ← at_ (signed e) "agent_pop";
  birthtag ← bytes_at credential "birthtag"; revision ← uint_at credential "revision";
  selection_id ← bytes_at selection "challenge_id";
  grant_id ← bytes_at grant "grant_id"; grant_version ← uint_at grant "grant_version";
  delegation_id ← bytes_at delegation "delegation_id"; template_id ← bytes_at template "template_id";
  mandate ← bytes_at template "mandate_digest"; mandate_digest ← array32 mandate;
  config ← bytes_at template "config_digest"; config_digest ← array32 config;
  binding_id ← bytes_at admin "binding_id"; challenge_id ← bytes_at challenge "challenge_id";
  consumption_id ← bytes_at consumption "challenge_id";
  revision_value ← at_ credential "revision";
  let credential_digest := core_digest (core_bytes credential_cwt) in
  let agent_revision := birthtag ++ be_bytes 8 revision in
  Done [
    state_object "root_delegation" "root_delegation" delegation_id (core_digest (core_bytes delegation_cwt)) "ACTIVE" None;
    state_object "registration_template" "registration_template" template_id (core_digest (core_bytes template_cwt)) "ACTIVE" None;
    state_object "mandate" "mandate" mandate mandate_digest "ACTIVE" None;
    state_object "agent_config" "agent_config" config config_digest "ACTIVE" None;
    state_object "admin_binding" "admin_binding" binding_id (core_digest (core_bytes admin_cwt)) "ACTIVE" None;
    state_object "admin_selection" "admin_selection" selection_id (core_digest (selection_raw e)) "ACTIVE" None;
    state_object "admin_challenge" "admin_challenge" challenge_id (core_digest (core_bytes challenge_cwt)) "SUPERSEDED" None;
    state_object "admin_consumption" "admin_consumption" consumption_id (core_digest (core_bytes consumption_cwt)) "ACTIVE" None;
    state_object "agent_pop" "agent_pop" agent_revision (core_digest (core_bytes pop_cwt)) "ACTIVE" None;
    state_object "passport" "agent_credential" agent_revision credential_digest "ACTIVE" None;
    state_object "agent_head" "agent_head" birthtag credential_digest "ACTIVE" (uint revision_value);
    state_object "limit_grant" "limit_grant" (grant_id ++ be_bytes 8 grant_version) (core_digest (core_bytes grant_cwt)) "ACTIVE" None;
    state_object "grant_head" "grant_head" grant_id (core_digest (core_bytes grant_cwt)) "ACTIVE" None]%string.

(** The loop over the objects: the name of the first whose proof fails. *)
Fixpoint objects_loop (objects : list StateObject) (proofs : Doc) (root : bytes) : exec (option string) :=
  match objects with
  | [] => Done None
  | o :: objects =>
      proof ← at_ proofs (o_name o);
      ok ← verify_state proof root (state_key (o_kind o) (o_id o)) (o_digest o) (o_state o) (o_version o);
      if (ok : bool) then objects_loop objects proofs root else Done (Some (o_name o))
  end.

(** The successor link of [Evaluation::authority_proofs]: the reason it is rejected for. *)
Definition successor_error (e : Evaluation) (credential proofs : Doc) : exec (option string) :=
  match rooted e !! "agent_successor"%string with
  | Some envelope =>
      link ← plain_core envelope;
      successor_proof ← at_ proofs "agent_successor"; birthtag ← bytes_at credential "birthtag";
      successor ← verify_state successor_proof (head_root e) (state_key "agent_successor" birthtag)
                    (core_digest (core_bytes envelope)) "ACTIVE" (Some 1);
      predecessor_proof ← at_ proofs "predecessor_head"; previous ← bytes_at link "predecessor_birthtag";
      previous_digest ← bytes_at link "predecessor_credential_digest"; revision ← at_ link "predecessor_revision";
      predecessor ← verify_state predecessor_proof (head_root e) (state_key "agent_head" previous) previous_digest
                      "SUPERSEDED" (version ← uint revision; then_some (version + 1 <=? U64_MAX) (version + 1));
      Done (if negb successor then Some "AUTHORITY_STATE_PROOF_INVALID:agent_successor"%string
            else if negb predecessor then Some "AUTHORITY_STATE_PROOF_INVALID:predecessor_head"%string else None)
  | None =>
      absent ← on proofs "agent_successor" cbor_is_null &&& on proofs "predecessor_head" cbor_is_null;
      Done (then_some (negb absent) "AGENT_SUCCESSOR_INVALID"%string)
  end.

(** [Evaluation::authority_proofs]. *)
Definition authority_proofs (e : Evaluation) : outcome Evaluation :=
  objects ← state_objects e;
  proofs ← inner_doc (pres e) "state_proofs";
  failed ← objects_loop objects proofs (head_root e);
  match failed with
  | Some name => reject e "FAIL" ("AUTHORITY_STATE_PROOF_INVALID:" +:+ name)
  | None =>
      credential ← credential_doc e;
      error ← successor_error e credential proofs;
      match error with
      | Some reason => reject e "FAIL" reason
      | None =>
          consumption ← rooted_doc e "admin_consumption";
          counter_proof ← at_ proofs "admin_counter";
          binding_id ← bytes_at consumption "binding_id"; version ← uint_at consumption "counter_version";
          counter ← verify_counter_head counter_proof (head_root e) binding_id version;
          reject_if negb counter with reject e "FAIL" "AUTHORITY_STATE_PROOF_INVALID:admin_counter";
          proceed (verified e ["fresh_status"%string])
      end
  end.

(** The grant checks and the ASA checks of [Evaluation::exact_action]. *)
Definition grant_checks (grant delegation actor recipient action : Doc) (action_scope : bytes) (now : Z) : exec bool :=
  all_held [
    same grant "tenant" delegation "tenant";
    same grant "organisation_root" delegation "organisation_root";
    same grant "authority_delegation_id" delegation "delegation_id";
    same grant "actor_birthtag" actor "birthtag";
    same grant "recipient_organisation_root" recipient "organisation_root";
    same grant "operation" action "operation";
    same grant "unit" action "unit";
    digest_is grant "action_scope_digest" action_scope;
    same grant "grant_id" action "grant_id";
    same grant "grant_version" action "grant_version";
    current_at grant "valid_from" "valid_to" now;
    current_at grant "window_start" "window_end" now;
    (value ← at_ action "value"; ceiling ← at_ grant "ceiling"; Done (decimal_at_most value ceiling))].
Definition asa_checks (asa delegation action : Doc) (action_digest challenge_digest : bytes) (now : Z) : exec bool :=
  all_held [
    same asa "organisation_root" delegation "organisation_root";
    same asa "tenant" delegation "tenant";
    same asa "authority_delegation_id" delegation "delegation_id";
    same asa "asa_id" action "asa_id";
    digest_is asa "action_digest" action_digest;
    digest_is asa "challenge_digest" challenge_digest;
    same asa "grant_id" action "grant_id";
    same asa "grant_version" action "grant_version";
    same asa "expires_at" action "expires_at";
    current_at asa "issued_at" "expires_at" now].

(** [Evaluation::exact_action]. *)
Definition exact_action (e : Evaluation) : outcome Evaluation :=
  delegation ← rooted_doc e "root_delegation";
  grant ← rooted_doc e "limit_grant";
  actor ← inner_doc (e_action e) "actor";
  recipient ← inner_doc (e_action e) "recipient";
  scope ← action_scope_digest (e_action e);
  action_scope ← unwrap scope;
  granted ← grant_checks grant delegation actor recipient (e_action e) action_scope (i_now (input e));
  reject_if negb granted with reject e "FAIL" "ACTION_OUTSIDE_ROOT_LIMIT_GRANT";
  let e := verified e ["grant"%string] in
  asa ← signed_doc e "asa";
  held ← asa_checks asa delegation (e_action e) (core_digest (action_bytes e)) (core_digest (core_bytes (e_challenge e))) (i_now (input e));
  reject_if negb held with reject e "FAIL" "ASA_EXACT_BINDING_OR_VALIDITY_INVALID";
  proceed (verified e ["asa_reservation"; "exact_action"]%string).

(** The transcript of [Evaluation::finish]. *)
Definition transcript (e : Evaluation) (asa_raw asa_bytes : bytes) : cbor :=
  map_value [
    ("schema", CText "swarrm-b28/transcript/v1");
    ("challenge_envelope_hash", CBytes (sha [i_challenge (input e)]));
    ("challenge_digest", CBytes (core_digest (core_bytes (e_challenge e))));
    ("action_digest", CBytes (core_digest (action_bytes e)));
    ("asa_envelope_hash", CBytes (sha [asa_raw]));
    ("asa_digest", CBytes (core_digest asa_bytes))]%string.

(** The times of the documents a presentation rests on: none is after it. *)
Definition assurance_times (asa checkpoint snapshot : Doc) (created_at : Z) : exec bool :=
  a ← at_ asa "issued_at"; b ← at_ checkpoint "issued_at"; c ← at_ snapshot "status_as_of";
  Done (match uint a, uint b, uint c with
        | Some a, Some b, Some c => (a <=? created_at) && (b <=? created_at) && (c <=? created_at)
        | _, _, _ => false
        end).

(** The keys and digests a relying party records to refuse a replay. *)
Definition consume_context (e : Evaluation) (delegation : Doc) : exec ConsumeContext :=
  actor ← inner_doc (e_action e) "actor";
  tenant ← text_at delegation "tenant";
  root ← bytes_at delegation "organisation_root"; delegation_id ← bytes_at delegation "delegation_id";
  asa_id ← bytes_at (e_action e) "asa_id";
  actor_root ← bytes_at actor "organisation_root"; action_id ← bytes_at (e_action e) "action_id";
  Done {| consume_key := (tenant, root, delegation_id, asa_id);
          consume_action_key := (tenant, actor_root, action_id);
          consume_action_digest := core_digest (action_bytes e);
          consume_presentation_digest := sha [i_presentation (input e)];
          consume_vector := e_vector e |}.

(** [Evaluation::finish]. *)
Definition finish (e : Evaluation) : outcome ConsumeContext :=
  delegation ← rooted_doc e "root_delegation";
  asa_raw ← bytes_at (pres e) "asa";
  asa_cwt ← at_ (signed e) "asa";
  encoded ← unwrap (canonical (transcript e asa_raw (core_bytes asa_cwt)));
  bound ← digest_is (pres e) "transcript_digest" (sha [str_bytes "swarrm-b28/transcript/v1" ++ [0]; encoded]);
  reject_if negb bound with reject e "FAIL" "TRANSCRIPT_BINDING_INVALID";
  issued ← at_ (challenge_doc e) "issued_at"; expires ← at_ (e_action e) "expires_at"; created ← at_ (pres e) "created_at";
  reject_if negb (ordered3 (uint issued) (uint created) (uint expires)) with
    reject e "FAIL" "PRESENTATION_TIME_OUTSIDE_CHALLENGE";
  asa ← plain_core asa_cwt;
  checkpoint ← rooted_doc e "authority_checkpoint";
  snapshot ← signed_doc e "status_snapshot";
  created_at ← uint_at (pres e) "created_at";
  assured ← assurance_times asa checkpoint snapshot created_at;
  reject_if negb assured with reject e "FAIL" "PRESENTATION_TIME_OUTSIDE_ASSURANCE";
  reject_if i_now (input e) <? created_at with reject e "FAIL" "PRESENTATION_TIME_OUTSIDE_LOCAL_CLOCK";
  let e := verified e ["transcript"%string] in
  dimensions ← at_ (challenge_doc e) "required_dimensions";
  required ← unwrap (match dimensions with CArray required => Some required | _ => None end);
  let unavailable := List.filter (fun name => str_in name UNEVALUATED) (omap text required) in
  reject_if negb (zlen unavailable =? 0) with
    reject e "INDETERMINATE" ("REQUIRED_DIMENSION_NOT_EVALUATED_V1:" +:+ String.concat "," unavailable);
  context ← consume_context e delegation;
  proceed context.

(** [fn evaluate]: the stages in order, each on the evaluation the one before left. *)
Definition stages (i : InputContext) : outcome ConsumeContext :=
  then_ (start i) (fun e => then_ (roots e) (fun e => then_ (signatures e) (fun e => then_ (passport e) (fun e =>
  then_ (registration e) (fun e => then_ (checkpoint e) (fun e => then_ (authority_proofs e) (fun e =>
  then_ (exact_action e) finish))))))).
Definition evaluate (i : InputContext) : exec (ResultValue * option ConsumeContext) :=
  r ← stages i;
  Done (match r with
        | inl context => (result_value "INDETERMINATE" "DURABLE_REPLAY_REQUIRED" (consume_vector context), Some context)
        | inr result => (result, None)
        end).

(** ** Refusals *)

(** [fn refusal_time_reason]. *)
Definition refusal_time_reason (challenge refusal action : Doc) (now : Z) : exec (option string) :=
  created_value ← at_ refusal "created_at";
  let_some created := uint created_value else Done (Some "REFUSAL_TIME_OUTSIDE_LOCAL_CLOCK"%string);
  reject_if now <? created with Done (Some "REFUSAL_TIME_OUTSIDE_LOCAL_CLOCK"%string);
  issued ← at_ challenge "issued_at"; expires ← at_ action "expires_at";
  Done (then_some (negb (current (uint issued) (uint expires) created)) "REFUSAL_TIME_OUTSIDE_CHALLENGE"%string).

(** [fn evaluate_refusal]. *)
Definition evaluate_refusal (i : RefusalContext) : exec ResultValue :=
  let v := initial_vector in
  let result verdict reason := Done (result_value verdict reason v) in
  reject_if bool_decide (f_challenger_keys i = ∅) with result "INDETERMINATE"%string "NO_LOCAL_CHALLENGER_KEY"%string;
  reject_if bool_decide (f_responder_keys i = ∅) with result "INDETERMINATE"%string "NO_LOCAL_RESPONDER_KEY"%string;
  let_do challenge := signed_cwt (f_challenge i) CHALLENGE (f_challenger_keys i)
    else result "FAIL"%string "SIGNED_REFUSAL_INVALID"%string;
  challenge_doc ← plain_core challenge;
  challenger ← inner_doc challenge_doc "challenger";
  signer ← on challenger "agent_kid" (fun k => is_text (text k) (kid challenge));
  reject_if negb signer with result "FAIL"%string "CHALLENGE_SIGNER_MISMATCH"%string;
  action ← inner_doc challenge_doc "action";
  issued ← at_ challenge_doc "issued_at"; expires ← at_ action "expires_at";
  reject_if negb (current (uint issued) (uint expires) (f_now i)) with result "FAIL"%string "CHALLENGE_EXPIRED"%string;
  let_do refusal := signed_cwt (f_refusal i) REFUSAL (f_responder_keys i)
    else result "FAIL"%string "SIGNED_REFUSAL_INVALID"%string;
  refusal_doc ← plain_core refusal;
  actor ← inner_doc action "actor";
  responder ← on actor "agent_kid" (fun k => is_text (text k) (kid refusal));
  reject_if negb responder with result "FAIL"%string "REFUSAL_SIGNER_MISMATCH"%string;
  bindings ← all_held [
    digest_is refusal_doc "challenge_envelope_hash" (sha [f_challenge i]);
    digest_is refusal_doc "challenge_digest" (core_digest (core_bytes challenge))];
  reject_if negb bindings with result "FAIL"%string "REFUSAL_CHALLENGE_MISMATCH"%string;
  time ← refusal_time_reason challenge_doc refusal_doc action (f_now i);
  match time with
  | Some reason => result "FAIL"%string reason
  | None => Done (result_value "FAIL" "SIGNED_REFUSAL" (mark v ["challenge"; "binding"]%string "VERIFIED"))
  end.

(** ** The entry point *)

(** [fn parse_input], [fn parse_refusal]; the roots are filled in later. *)
Definition parse_input (exchange : bytes) (l : PresentationLocal) : exec (option InputContext) :=
  let_some value := decode exchange MAX_INPUT else Done None;
  let_some doc := document value None "challenge presentation" else Done None;
  challenge_value ← at_ doc "challenge"; let_some challenge := bytes_ challenge_value else Done None;
  presentation_value ← at_ doc "presentation"; let_some presentation := bytes_ presentation_value else Done None;
  Done (Some {| i_challenge := challenge; i_presentation := presentation; i_roots := ∅;
                i_challenger_keys := l_challenger_keys l; i_checkpoints := l_checkpoints l; i_heads := l_heads l;
                i_origin := l_origin l; i_max_action_lifetime_s := l_lifetime l; i_now := l_now l |}).
Definition parse_refusal (exchange : bytes) (l : RefusalLocal) : exec (option RefusalContext) :=
  let_some value := decode exchange MAX_INPUT else Done None;
  let_some doc := document value None "challenge refusal" else Done None;
  challenge_value ← at_ doc "challenge"; let_some challenge := bytes_ challenge_value else Done None;
  refusal_value ← at_ doc "refusal"; let_some refusal := bytes_ refusal_value else Done None;
  Done (Some {| f_challenge := challenge; f_refusal := refusal; f_challenger_keys := r_challenger_keys l;
                f_responder_keys := r_responder_keys l; f_now := r_now l |}).
Definition with_roots (i : InputContext) (roots : gmap string RootAnchor) : InputContext :=
  {| i_challenge := i_challenge i; i_presentation := i_presentation i; i_roots := roots;
     i_challenger_keys := i_challenger_keys i; i_checkpoints := i_checkpoints i; i_heads := i_heads i;
     i_origin := i_origin i; i_max_action_lifetime_s := i_max_action_lifetime_s i; i_now := i_now i |}.

(** [fn verify_b28_cwt], up to the JSON value it prints. *)
Definition verify_b28_cwt (exchange local_context trust_pack expected_digest : bytes) : exec json :=
  let done_ verdict reason := Done (result_json (result_value verdict reason initial_vector)) in
  local ← parse_local_context local_context;
  match local with
  | inr reason => done_ "INDETERMINATE"%string reason
  | inl (PresentationContext local) =>
      let_do i := parse_input exchange local else done_ "INDETERMINATE"%string "VERIFIER_CONTEXT_INVALID"%string;
      reject_if mixed_generation [i_challenge i; i_presentation i] with
        done_ "FAIL"%string "MIXED_PROFILE_GENERATION"%string;
      let_do roots := parse_pinned_trust_pack trust_pack expected_digest
        else done_ "INDETERMINATE"%string "NO_PINNED_TRUST_PACK"%string;
      r ← evaluate (with_roots i roots);
      Done (result_json r.1)
  | inl (RefusalContextOf local) =>
      let_do i := parse_refusal exchange local else done_ "INDETERMINATE"%string "VERIFIER_CONTEXT_INVALID"%string;
      reject_if mixed_generation [f_challenge i; f_refusal i] with
        done_ "FAIL"%string "MIXED_PROFILE_GENERATION"%string;
      let_do _ := parse_pinned_trust_pack trust_pack expected_digest
        else done_ "INDETERMINATE"%string "NO_PINNED_TRUST_PACK"%string;
      r ← evaluate_refusal i;
      Done (result_json r)
  end.
End Evaluate.
