(* ===== verification/AssuranceSpec.v ===== *)
(** * AssuranceSpec: what an evaluated exchange rests on

    The theorems about [Assurance].  Each stage has a lemma in weakest-precondition form:
    on an evaluation whose documents have the members their schemas ask for, it does not
    panic, it ends with FAIL or INDETERMINATE and a vector that never claims replay, or it
    goes on with the facts it checked.  Composed, they give the two statements a relying
    party needs: no exchange makes the verifier panic, and DURABLE_REPLAY_REQUIRED is only
    reached with the whole chain of authority, from a pinned root to the exact action. *)
From S2P Require Import Prelude Hash Merkle Text Json Jcs Utc Dsse CborWire Exec Cwt CwtTypes.
From S2P Require Import Bundle.
From S2P Require Import Counterparty AdminProof Assurance.

(** ** Vectors and results *)

(** A vector never claims what this verifier does not evaluate. *)
Definition vector_ok (v : gmap string string) : Prop :=
  v !! "replay"%string = Some "INDETERMINATE"%string
  /\ (forall name, name ∈ UNEVALUATED -> v !! name = Some "NOT_EVALUATED_V1"%string)
  /\ dom v = list_to_set (VERIFIED ++ UNEVALUATED).

#[local] Arguments mark : simpl never.
#[local] Arguments initial_vector : simpl never.

(** The names the stages mark. *)
Definition markable (names : list string) : bool :=
  forallb (fun name => str_in name VERIFIED && negb (String.eqb name "replay")) names.

Lemma initial_vector_ok : vector_ok initial_vector.
Proof.
  split; [|split].
  - apply (bool_decide_unpack _). vm_compute. exact I.
  - assert (forallb (fun name => bool_decide (initial_vector !! name = Some "NOT_EVALUATED_V1"%string)) UNEVALUATED = true) as Ha
      by (vm_compute; reflexivity).
    intros name Hn. rewrite forallb_forall in Ha. by apply (bool_decide_eq_true_1 _), Ha, list_elem_of_In.
  - apply (bool_decide_unpack _). vm_compute. exact I.
Qed.
Lemma verified_unevaluated name : name ∈ VERIFIED -> name ∉ UNEVALUATED.
Proof.
  intros Hv%str_in_elem. rewrite <- str_in_elem.
  assert (forallb (fun y => negb (str_in y UNEVALUATED)) VERIFIED = true) as Hd by (vm_compute; reflexivity).
  rewrite forallb_forall in Hd. apply str_in_elem, list_elem_of_In in Hv. specialize (Hd _ Hv).
  by destruct (str_in name UNEVALUATED).
Qed.
Lemma mark_ok v names state : vector_ok v -> markable names = true -> vector_ok (mark v names state).
Proof.
  unfold markable, mark. revert v. induction names as [|name names IH]; intros v Hv Hm; [done|].
  cbn [forallb foldl] in *. apply andb_true_iff in Hm as [[Hin%str_in_elem Hne%negb_true_iff%String.eqb_neq]%andb_true_iff Hm].
  apply IH; [|done]. destruct Hv as (Hr & Hu & Hd). split_and!.
  - by rewrite lookup_insert_ne by congruence.
  - intros x Hx. rewrite lookup_insert_ne; [by apply Hu|]. intros <-. by apply (verified_unevaluated name).
  - rewrite dom_insert_L, Hd. apply subseteq_union_1_L. intros x ->%elem_of_singleton.
    apply elem_of_list_to_set, elem_of_app. by left.
Qed.

(** A reason that neither accepts an exchange nor reports a refusal. *)
Definition early (reason : string) : Prop := reason <> "DURABLE_REPLAY_REQUIRED"%string /\ reason <> "SIGNED_REFUSAL"%string.
(** A result the verifier may end with before the last stage. *)
Definition stopped (r : ResultValue) : Prop :=
  (verdict r = "FAIL"%string \/ verdict r = "INDETERMINATE"%string) /\ vector_ok (vector r)
  /\ early (reason r).
(** A stage ends stopped, or with a value that satisfies [Q]. *)
Definition ends {A} (Q : A -> Prop) (r : A + ResultValue) : Prop :=
  match r with inl a => Q a | inr result => stopped result end.

Lemma ends_stop {A} (Q : A -> Prop) verdict reason v : vector_ok v ->
  verdict = "FAIL"%string \/ verdict = "INDETERMINATE"%string -> early reason ->
  wp (stop verdict reason v) (ends Q).
Proof. intros. apply wp_done. done. Qed.
Lemma ends_proceed {A} (Q : A -> Prop) a : Q a -> wp (proceed a) (ends Q).
Proof. intros. by apply wp_done. Qed.
Lemma ends_then {A B} (x : exec (A + ResultValue)) (k : A -> exec (B + ResultValue)) P Q :
  wp x (ends P) -> (forall a, P a -> wp (k a) (ends Q)) -> wp (then_ x k) (ends Q).
Proof. unfold then_. destruct x as [[a|r]|]; cbn; auto. Qed.
Lemma ends_mono {A} (x : exec (A + ResultValue)) (P Q : A -> Prop) :
  wp x (ends P) -> (forall a, P a -> Q a) -> wp x (ends Q).
Proof. intros Hx HPQ. eapply wp_mono; [exact Hx|]. intros [a|r]; cbn; auto. Qed.

(** ** Reading typed members *)

Lemma field_uint (doc : Doc) table k : fields_typed doc table ->
  field_test table k = Some (has uint) \/ field_test table k = Some (has positive_) ->
  exists n, doc !! k = Some (CInteger n) /\ 0 <= n <= I64_MAX.
Proof.
  intros Hf Hk. assert (typed doc k (has uint)) as (v & Hv & Ht).
  { destruct Hk as [Hk|Hk]; [by eapply field_typed|]. eapply typed_weaken; [by eapply field_typed|]. apply has_positive_uint. }
  unfold has in Ht. destruct (uint v) as [n|] eqn:E; [|done]. apply uint_range in E as [-> Hr]. eauto.
Qed.
Lemma field_bytes32 (doc : Doc) table k : fields_typed doc table ->
  field_test table k = Some (has (fixed 32)) \/ field_test table k = Some (has opaque) ->
  exists b, doc !! k = Some (CBytes b) /\ zlen b = 32.
Proof.
  intros Hf Hk. assert (typed doc k (has (fixed 32))) as (v & Hv & Ht).
  { destruct Hk as [Hk|Hk]; [by eapply field_typed|]. eapply typed_weaken; [by eapply field_typed|]. apply has_opaque_fixed. }
  apply has_fixed_bytes in Ht as (b & -> & Hb & _). eauto.
Qed.
Lemma field_sized (doc : Doc) table k lo hi : fields_typed doc table -> field_test table k = Some (sized lo hi) ->
  exists b, doc !! k = Some (CBytes b).
Proof.
  intros Hf Hk. destruct (field_typed _ _ _ _ Hf Hk) as (v & Hv & Ht). unfold sized in Ht.
  destruct v as [|b| | | | | | |]; try done. eauto.
Qed.
Lemma field_text (doc : Doc) table k n : fields_typed doc table -> field_test table k = Some (has (bounded n)) ->
  exists s, doc !! k = Some (CText s).
Proof. intros Hf Hk. eapply typed_bounded, field_typed; eauto. Qed.

Section Reads.
Context {H : Hash} {SD : Serde} {B : Base64} {ED : Ed25519} {CA : CiboriumAt} {PC : P256}.

Lemma wp_uint_at (doc : Doc) table k (Q : Z -> Prop) : fields_typed doc table ->
  field_test table k = Some (has uint) \/ field_test table k = Some (has positive_) ->
  (forall n, doc !! k = Some (CInteger n) -> 0 <= n <= I64_MAX -> Q n) -> wp (uint_at doc k) Q.
Proof.
  intros Hf Hk Hq. destruct (field_uint _ _ _ Hf Hk) as (n & Hn & Hr). unfold uint_at, at_. rewrite Hn. cbn.
  unfold then_some. rewrite (proj2 (andb_true_iff _ _)); [cbn; by apply Hq|]. split; apply Z.leb_le; lia.
Qed.
Lemma wp_bytes32_at (doc : Doc) table k (Q : bytes -> Prop) : fields_typed doc table ->
  field_test table k = Some (has (fixed 32)) \/ field_test table k = Some (has opaque) ->
  (forall b, doc !! k = Some (CBytes b) -> zlen b = 32 -> Q b) -> wp (bytes_at doc k) Q.
Proof.
  intros Hf Hk Hq. destruct (field_bytes32 _ _ _ Hf Hk) as (b & Hb & Hz). unfold bytes_at, at_. rewrite Hb. cbn. auto.
Qed.
Lemma wp_sized_at (doc : Doc) table k lo hi (Q : bytes -> Prop) : fields_typed doc table ->
  field_test table k = Some (sized lo hi) -> (forall b, doc !! k = Some (CBytes b) -> Q b) -> wp (bytes_at doc k) Q.
Proof.
  intros Hf Hk Hq. destruct (field_sized _ _ _ _ _ Hf Hk) as (b & Hb). unfold bytes_at, at_. rewrite Hb. cbn. auto.
Qed.
Lemma wp_text_at (doc : Doc) table k n (Q : string -> Prop) : fields_typed doc table ->
  field_test table k = Some (has (bounded n)) -> (forall s, doc !! k = Some (CText s) -> Q s) -> wp (text_at doc k) Q.
Proof.
  intros Hf Hk Hq. destruct (field_text _ _ _ _ Hf Hk) as (s & Hs). unfold text_at, at_. rewrite Hs. cbn. auto.
Qed.
Lemma wp_agent_at (doc : Doc) table k (Q : Doc -> Prop) : fields_typed doc table -> field_test table k = Some is_agent ->
  (forall v d, doc !! k = Some v -> plain v = Some d -> fields_typed d agent_fields -> Q d) -> wp (inner_doc doc k) Q.
Proof.
  intros Hf Hk Hq. destruct (field_typed _ _ _ _ Hf Hk) as (v & Hv & Ha). destruct (is_agent_doc _ Ha) as (d & Hp & Hd).
  unfold inner_doc, at_. rewrite Hv. cbn. rewrite Hp. cbn. eauto.
Qed.
Lemma wp_action_at (doc : Doc) table k (Q : Doc -> Prop) : fields_typed doc table -> field_test table k = Some is_action ->
  (forall v d, doc !! k = Some v -> plain v = Some d -> fields_typed d action_fields -> Q d) -> wp (inner_doc doc k) Q.
Proof.
  intros Hf Hk Hq. destruct (field_typed _ _ _ _ Hf Hk) as (v & Hv & Ha). destruct (is_action_doc _ Ha) as (d & _ & Hp & Hd).
  unfold inner_doc, at_. rewrite Hv. cbn. rewrite Hp. cbn. eauto.
Qed.

(** A member equal to a byte string. *)
Lemma holds_digest_is (doc : Doc) k b : is_Some (doc !! k) -> holds (digest_is doc k b) (doc !! k = Some (CBytes b)).
Proof.
  intros Hk. eapply holds_mono; [by apply holds_on|]. intros (v & Hv & He). rewrite Hv. f_equal.
  unfold is_bytes in He. apply bool_decide_eq_true in He. destruct v; try done. cbn in He. congruence.
Qed.
(** A member equal to a text. *)
Lemma holds_text_is (doc : Doc) k s : is_Some (doc !! k) ->
  holds (on doc k (fun v => is_text (text v) s)) (doc !! k = Some (CText s)).
Proof.
  intros Hk. eapply holds_mono; [by apply holds_on|]. intros (v & Hv & He). rewrite Hv. f_equal. by apply is_text_value.
Qed.
Lemma holds_current_at (doc : Doc) x y now : is_Some (doc !! x) -> is_Some (doc !! y) ->
  holds (current_at doc x y now)
    (exists a b, doc !! x = Some (CInteger a) /\ doc !! y = Some (CInteger b) /\ a <= now < b).
Proof.
  intros Hx Hy. apply holds_at; [done|]. intros v Hv. apply holds_at; [done|]. intros w Hw. apply holds_done.
  intros (a & b & Ha & Hb & Hl)%current_true. apply uint_range in Ha as [-> _], Hb as [-> _]. eauto.
Qed.
End Reads.

(** One step of a stage: a member read through its table, a checked condition, an early end. *)
Ltac in_table := first [ left; reflexivity | right; reflexivity ].
Ltac vector := repeat first [ assumption | apply initial_vector_ok | apply mark_ok; [|reflexivity] ].
Ltac stop := apply ends_stop; [vector|auto|by split].
Ltac wp_step :=
  lazymatch goal with
  | |- wp (mbind _ (at_ _ _)) _ => apply wp_bind, wp_at; [present|intros ? ?]
  | |- wp (mbind _ (uint_at _ _)) _ => apply wp_bind; eapply wp_uint_at; [eassumption|in_table|intros ? ? ?]
  | |- wp (mbind _ (inner_doc _ _)) _ =>
      apply wp_bind; first [ eapply wp_agent_at; [eassumption|reflexivity|intros ? ? ? ? ?]
                           | eapply wp_action_at; [eassumption|reflexivity|intros ? ? ? ? ?] ]
  | |- wp (stop _ _ _) _ => stop
  | |- wp (reject _ _ _) _ => unfold reject; stop
  end.
(** A boolean computation with a known meaning: the branch where it fails ends. *)
Ltac check lem :=
  apply wp_bind; eapply wp_mono; [lem|]; cbn beta;
  let Hb := fresh "Hb" in intros [] Hb; cbn [negb]; [specialize (Hb eq_refl)|clear Hb; try wp_step].

Section Stages.
Context {H : Hash} {SD : Serde} {B : Base64} {ED : Ed25519} {CA : CiboriumAt} {PC : P256}.

Lemma envelope_doc raw schema c : cwt_envelope raw schema c ->
  exists doc, plain (core c) = Some doc /\ fields_typed doc (schema_fields schema).
Proof. apply envelope_shaped. Qed.
Lemma envelope_below raw schema c doc k v : cwt_envelope raw schema c -> plain (core c) = Some doc ->
  doc !! k = Some v -> below v.
Proof. intros He. eapply member_below, ce_core, He. Qed.
Lemma wp_plain_core c doc (Q : Doc -> Prop) : plain (core c) = Some doc -> Q doc -> wp (plain_core c) Q.
Proof. intros Hp Hq. unfold plain_core. rewrite Hp. done. Qed.

(** ** The opening: challenge, action and presentation *)

Record opened (i : InputContext) (e : Evaluation) : Prop := {
  op_input : input e = i;
  op_vector : vector_ok (e_vector e);
  op_challenge : cwt_envelope (i_challenge i) CHALLENGE (e_challenge e) /\ signed_by (i_challenger_keys i) (e_challenge e);
  op_doc : plain (core (e_challenge e)) = Some (challenge_doc e) /\ fields_typed (challenge_doc e) (schema_fields CHALLENGE);
  op_signer : exists v d, challenge_doc e !! "challenger"%string = Some v /\ plain v = Some d
    /\ d !! "agent_kid"%string = Some (CText (kid (e_challenge e)));
  op_action : exists v, challenge_doc e !! "action"%string = Some v /\ plain v = Some (e_action e)
    /\ canonical v = Some (action_bytes e);
  op_action_doc : fields_typed (e_action e) action_fields;
  op_times : exists issued expires, challenge_doc e !! "issued_at"%string = Some (CInteger issued)
    /\ e_action e !! "expires_at"%string = Some (CInteger expires)
    /\ issued <= i_now i < expires /\ expires - issued <= i_max_action_lifetime_s i;
  op_presentation : exists c, cwt_envelope (i_presentation i) PRESENTATION c /\ plain (core c) = Some (pres e);
  op_pres : fields_typed (pres e) (schema_fields PRESENTATION);
  op_bindings : pres e !! "challenge_envelope_hash"%string = Some (CBytes (sha [i_challenge i]))
    /\ pres e !! "challenge_digest"%string = Some (CBytes (core_digest (core_bytes (e_challenge e))))
    /\ pres e !! "action_digest"%string = Some (CBytes (core_digest (action_bytes e)));
}.

Lemma start_ok i : wp (start i) (ends (fun e => opened i e /\ rooted e = ∅ /\ signed e = ∅)).
Proof.
  unfold start. destruct (bool_decide _); [stop|].
  apply wp_bind. eapply wp_mono; [apply signed_cwt_ok|]. intros [ch|] Hch; [|stop].
  destruct (Hch ch eq_refl) as [He Hs]. clear Hch. destruct (envelope_doc _ _ _ He) as (cd & Hcd & Hct).
  apply wp_bind. eapply wp_plain_core; [exact Hcd|].
  wp_step. rename v into chv, d into chd.
  check ltac:(apply holds_text_is; present).
  wp_step. wp_step.
  destruct (i_now i <? n) eqn:En; [stop|].
  wp_step. destruct (n0 <=? i_now i) eqn:Ex; [stop|].
  bool_prop. unfold u64_sub. rewrite (proj2 (Z.leb_le _ _)) by lia. apply wp_bind, wp_done.
  destruct (_ <? n0 - n) eqn:El; [stop|]. bool_prop.
  apply wp_bind. eapply wp_mono; [apply inspect_cwt_ok|]. intros [pr|] Hpr; [|stop].
  specialize (Hpr pr eq_refl). destruct (envelope_doc _ _ _ Hpr) as (pd & Hpd & Hpt).
  apply wp_bind. eapply wp_plain_core; [exact Hpd|]. wp_step. simplify_eq.
  destruct (below_canonical v) as [ab Hab]; [eapply (envelope_below _ _ _ _ _ _ He Hcd); eassumption|]. rewrite Hab. apply wp_bind, wp_done.
  check ltac:(repeat apply holds_all_cons; [apply holds_digest_is; present..|apply holds_all_nil]).
  destruct Hb0 as (Hd1 & Hd2 & Hd3 & _). apply ends_proceed. split; [|done].
  constructor; cbn; eauto 6; [vector|exists n, n0; split_and!; auto; lia].
Qed.

(** What a later stage may assume: the opening is still there. *)
Lemma opened_keep i e e' : opened i e -> vector_ok (e_vector e') -> input e' = input e -> e_challenge e' = e_challenge e ->
  challenge_doc e' = challenge_doc e -> e_action e' = e_action e -> action_bytes e' = action_bytes e -> pres e' = pres e ->
  opened i e'.
Proof. intros [] Hv E1 E2 E3 E4 E5 E6. constructor; rewrite ?E1, ?E2, ?E3, ?E4, ?E5, ?E6; done. Qed.
Lemma opened_verified i e names : opened i e -> markable names = true -> opened i (verified e names).
Proof. intros Ho Hm. eapply opened_keep; [exact Ho|..]; try done. apply mark_ok; [apply Ho|done]. Qed.

(** ** The chain of pinned roots *)

(** A statement of the presentation: its envelope's parts and the members of its core. *)
Record Statement := { st_cwt : Cwt; st_doc : gmap string cbor }.

(** [s] is the statement [name] of the presentation, signed by a pinned root. *)
Record root_item (i : InputContext) (e : Evaluation) (name schema : string) (s : Statement) : Prop := {
  ri_raw : exists raw, pres e !! name = Some (CBytes raw) /\ cwt_envelope raw schema (st_cwt s);
  ri_rooted : rooted e !! name = Some (st_cwt s);
  ri_signed : rooted_by (i_roots i) (st_cwt s);
  ri_plain : plain (core (st_cwt s)) = Some (st_doc s);
  ri_typed : fields_typed (st_doc s) (schema_fields schema);
}.

(** A schema whose cores name a tenant and its organisation. *)
Definition tenant_schema (schema : string) : Prop := exists rest, schema_fields schema = (rooted_fields ++ rest)%list.
Lemma tenant_schema_root schema : tenant_schema schema ->
  is_some (field_test (schema_fields schema) "organisation_root") = true.
Proof. by intros [rest ->]. Qed.
Definition tenant_typed (c : Cwt) : Prop := exists doc, plain (core c) = Some doc /\ fields_typed doc rooted_fields.
Lemma root_item_tenant i e name schema s : tenant_schema schema -> root_item i e name schema s -> tenant_typed (st_cwt s).
Proof.
  intros [rest Hr] Hi. exists (st_doc s). split; [apply Hi|]. pose proof (ri_typed _ _ _ _ _ Hi) as Ht. rewrite Hr in Ht.
  unfold fields_typed in *. by apply Forall_app in Ht as [? _].
Qed.

Lemma root_item_keep i e e' name schema s : root_item i e name schema s -> pres e' = pres e ->
  rooted e' !! name = rooted e !! name -> root_item i e' name schema s.
Proof. intros [] Hp Hr. constructor; rewrite ?Hp, ?Hr; auto. Qed.

(** Reading a pinned statement of the presentation. *)
Lemma wp_root_item i e name schema raw_value (Q : Evaluation + ResultValue -> Prop) (k : Cwt -> exec (Evaluation + ResultValue)) :
  opened i e -> tenant_schema schema -> pres e !! name = Some raw_value ->
  (forall c s, st_cwt s = c -> root_item i (set_rooted e (<[name := c]> (rooted e))) name schema s -> wp (k c) Q) ->
  wp (reject e "FAIL" "ROOT_AUTHORITY_CHAIN_INVALID") Q ->
  wp (let_do cwt := (match bytes_ raw_value with Some raw => root_cwt raw schema (i_roots (input e)) | None => Done None end)
      else reject e "FAIL" "ROOT_AUTHORITY_CHAIN_INVALID"; k cwt) Q.
Proof.
  intros Ho Hs Hr Hk Hn. apply wp_bind. destruct raw_value as [|raw| | | | | | |]; try by apply wp_done.
  cbn [bytes_]. eapply wp_mono; [apply root_cwt_ok, tenant_schema_root, Hs|]. rewrite (op_input _ _ Ho).
  intros [c|] Hc; [|done]. destruct (Hc c eq_refl) as [He Hroot]. destruct (envelope_doc _ _ _ He) as (doc & Hp & Ht).
  apply (Hk c {| st_cwt := c; st_doc := doc |}); [done|]. constructor; cbn; eauto. by rewrite lookup_insert_eq.
Qed.

Lemma roots_loop_ok i items e : opened i e -> map_Forall (fun _ c => tenant_typed c) (rooted e) ->
  Forall (fun it => tenant_schema it.2 /\ is_Some (pres e !! it.1)) items -> NoDup items.*1 ->
  wp (roots_loop e items) (ends (fun e' => opened i e' /\ map_Forall (fun _ c => tenant_typed c) (rooted e')
    /\ (forall it, it ∈ items -> exists s, root_item i e' it.1 it.2 s)
    /\ (forall k, k ∉ items.*1 -> rooted e' !! k = rooted e !! k) /\ pres e' = pres e)).
Proof.
  intros Ho Hm Hi. revert e Ho Hm Hi. induction items as [|[name schema] items IH]; intros e Ho Hm Hi Hn; cbn [roots_loop].
  { apply ends_proceed. split_and!; [done..| |done|done]. intros it Hin. by apply elem_of_nil in Hin. }
  inversion Hi as [|? ? [Hs [rv Hrv]] Hi']; subst. inversion Hn as [|? ? Hname Hn']; subst. cbn [fst snd] in *.
  apply wp_bind, wp_at; [by eexists|]. intros v Hv. simplify_eq.
  eapply (wp_root_item i); [exact Ho|exact Hs|exact Hrv| |pose proof (op_vector _ _ Ho); wp_step].
  intros c s <- Hs'. eapply ends_mono; [apply IH|].
  - eapply opened_keep; [exact Ho|..]; try done. apply Ho.
  - cbn. apply map_Forall_insert_2; [|done]. by eapply root_item_tenant.
  - done.
  - done.
  - intros e' (Ho' & Hm' & Hit & Hk & Hpr). cbn in Hk, Hpr. split_and!; [done|done| | |done].
    + intros it [->|Hin]%elem_of_cons; [|by apply Hit]. exists s. cbn. eapply root_item_keep; [exact Hs'|done|].
      rewrite Hk by done. done.
    + intros k Hk'. apply not_elem_of_cons in Hk' as [Hne Hk']. rewrite Hk by done.
      apply lookup_insert_ne. intros ->. by apply Hne.
Qed.

(** The statements of a presentation that pinned roots signed. *)
Record RootChain := {
  delegation : Statement; template : Statement; admin : Statement; admin_challenge : Statement;
  consumption : Statement; grant : Statement; authority : Statement; successor : option Statement;
}.
Record root_chain (i : InputContext) (e : Evaluation) (D : RootChain) : Prop := {
  rc_delegation : root_item i e "root_delegation" ROOT_DELEGATION (delegation D);
  rc_template : root_item i e "registration_template" TEMPLATE (template D);
  rc_admin : root_item i e "admin_binding" ADMIN_BINDING (admin D);
  rc_challenge : root_item i e "admin_challenge" ADMIN_CHALLENGE (admin_challenge D);
  rc_consumption : root_item i e "admin_consumption" ADMIN_CONSUMPTION (consumption D);
  rc_grant : root_item i e "limit_grant" GRANT (grant D);
  rc_authority : root_item i e "authority_checkpoint" CHECKPOINT (authority D);
  rc_successor : match successor D with
                 | Some s => root_item i e "agent_successor" AGENT_SUCCESSOR s
                 | None => rooted e !! "agent_successor"%string = None
                 end;
}.

(** Two statements are of one tenant of one organisation. *)
Definition one_tenant (a b : Statement) : Prop :=
  equal_members (st_doc a) "organisation_root" (st_doc b) "organisation_root"
  /\ equal_members (st_doc a) "tenant" (st_doc b) "tenant".
(** A validity window of a document that holds at the relying party's clock. *)
Definition current_member (doc : Doc) (x y : string) (now : Z) : Prop :=
  exists a b, doc !! x = Some (CInteger a) /\ doc !! y = Some (CInteger b) /\ a <= now < b.
(** A member that is a reference to an agent. *)
Definition agent_member (doc : Doc) (name : string) (agent : Doc) : Prop :=
  exists v, doc !! name = Some v /\ plain v = Some agent /\ fields_typed agent agent_fields.

Record root_facts (i : InputContext) (action : Doc) (D : RootChain) : Prop := {
  rf_tenant : Forall (fun s => one_tenant s (delegation D))
    ([template D; admin D; admin_challenge D; consumption D; grant D; authority D] ++ option_list (successor D));
  rf_actor : exists actor, agent_member action "actor" actor
    /\ equal_members actor "organisation_root" (st_doc (delegation D)) "organisation_root";
  rf_current : current_member (st_doc (delegation D)) "valid_from" "valid_to" (i_now i);
}.

Lemma root_chain_keep i e e' D : root_chain i e D -> pres e' = pres e -> rooted e' = rooted e -> root_chain i e' D.
Proof.
  intros [] Hp Hr. constructor; try (eapply root_item_keep; [eassumption|done|by rewrite Hr]).
  destruct (successor D); [eapply root_item_keep; [eassumption|done|by rewrite Hr]|by rewrite Hr].
Qed.

Lemma btree_values_mem (m : gmap string Cwt) c : c ∈ btree_values m <-> exists k, m !! k = Some c.
Proof.
  unfold btree_values. rewrite sort_by_perm, list_elem_of_fmap. split.
  - intros ([k x] & -> & Hx). exists k. by apply elem_of_map_to_list.
  - intros [k Hk]. exists (k, c). split; [done|]. by apply elem_of_map_to_list.
Qed.

Lemma holds_same_typed (a b : Doc) x y ta tb : fields_typed a ta -> fields_typed b tb ->
  is_some (field_test ta x) = true -> is_some (field_test tb y) = true -> holds (same a x b y) (equal_members a x b y).
Proof. intros Ha Hb Hx Hy. apply holds_same; by eapply field_present. Qed.

(** No rooted statement names another organisation or tenant. *)
Lemma substitution_ok (m : gmap string Cwt) (d : Doc) : map_Forall (fun _ c => tenant_typed c) m -> fields_typed d rooted_fields ->
  wp (exec_any (fun cwt =>
        match plain (core cwt) with
        | None => Done true
        | Some doc =>
            root ← same doc "organisation_root" d "organisation_root";
            if negb root then Done true else tenant ← same doc "tenant" d "tenant"; Done (negb tenant)
        end) (btree_values m))
     (fun b => b = false -> Forall (fun c => exists doc, plain (core c) = Some doc
        /\ equal_members doc "organisation_root" d "organisation_root" /\ equal_members doc "tenant" d "tenant") (btree_values m)).
Proof.
  intros Hm Hd. apply exec_any_wp. intros c [k Hk]%btree_values_mem. destruct (Hm _ _ Hk) as (doc & -> & Ht).
  apply wp_bind. eapply wp_mono; [by eapply holds_same_typed|]. intros [] Hr; cbn [negb]; [|by apply wp_done].
  apply wp_bind. eapply wp_mono; [by eapply holds_same_typed|]. intros [] Hb; apply wp_done; [|done].
  intros _. exists doc. auto.
Qed.

Lemma wp_rooted_doc i e name schema s (Q : Doc -> Prop) : root_item i e name schema s -> Q (st_doc s) -> wp (rooted_doc e name) Q.
Proof.
  intros [] Hq. unfold rooted_doc, at_. rewrite ri_rooted0. cbn [unwrap]. apply wp_bind, wp_done. by eapply wp_plain_core.
Qed.
Lemma root_items_pres i e it : opened i e -> it ∈ ROOT_ITEMS -> tenant_schema it.2 /\ is_Some (pres e !! it.1).
Proof.
  intros Ho Hit. pose proof (op_pres _ _ Ho) as Hp. unfold ROOT_ITEMS in Hit.
  repeat (apply elem_of_cons in Hit as [->|Hit]; [split; [by eexists|cbn [fst]; by eapply field_present]|]).
  by apply elem_of_nil in Hit.
Qed.

Lemma field_app t u doc : fields_typed doc (t ++ u) -> fields_typed doc t.
Proof. unfold fields_typed. by intros [? _]%Forall_app. Qed.
Lemma root_item_rooted i e name schema s : tenant_schema schema -> root_item i e name schema s ->
  fields_typed (st_doc s) rooted_fields.
Proof. intros [rest Hr] Hi. pose proof (ri_typed _ _ _ _ _ Hi) as Ht. rewrite Hr in Ht. by eapply field_app. Qed.

(** The seven statements of the loop, and the successor's when there is one. *)
Lemma collect_roots i e : (forall it, it ∈ ROOT_ITEMS -> exists s, root_item i e it.1 it.2 s) ->
  (exists s, root_item i e "agent_successor" AGENT_SUCCESSOR s) \/ rooted e !! "agent_successor"%string = None ->
  exists D, root_chain i e D.
Proof.
  intros Hit Hs. unfold ROOT_ITEMS in Hit.
  assert (forall name schema, (name, schema) ∈ ROOT_ITEMS -> exists s, root_item i e name schema s) as Hg
    by (intros name schema Hin; exact (Hit _ Hin)).
  destruct (Hg "root_delegation" ROOT_DELEGATION ltac:(set_solver))%string as [s1 H1],
    (Hg "registration_template" TEMPLATE ltac:(set_solver))%string as [s2 H2],
    (Hg "admin_binding" ADMIN_BINDING ltac:(set_solver))%string as [s3 H3],
    (Hg "admin_challenge" ADMIN_CHALLENGE ltac:(set_solver))%string as [s4 H4],
    (Hg "admin_consumption" ADMIN_CONSUMPTION ltac:(set_solver))%string as [s5 H5],
    (Hg "limit_grant" GRANT ltac:(set_solver))%string as [s6 H6],
    (Hg "authority_checkpoint" CHECKPOINT ltac:(set_solver))%string as [s7 H7].
  destruct Hs as [[s Hs]|Hn];
    [exists (Build_RootChain s1 s2 s3 s4 s5 s6 s7 (Some s))|exists (Build_RootChain s1 s2 s3 s4 s5 s6 s7 None)]; by constructor.
Qed.

Lemma root_items_successor it : it ∈ ROOT_ITEMS -> it.1 <> "agent_successor"%string.
Proof.
  intros Hit. unfold ROOT_ITEMS in Hit. repeat (apply elem_of_cons in Hit as [->|Hit]; [done|]). by apply elem_of_nil in Hit.
Qed.

Lemma roots_ok i e : opened i e -> rooted e = ∅ ->
  wp (roots e) (ends (fun e' => opened i e' /\ exists D, root_chain i e' D /\ root_facts i (e_action e') D)).
Proof.
  intros Ho Hr. unfold roots. eapply ends_then.
  { apply (roots_loop_ok i); [done|by rewrite Hr; apply map_Forall_empty| |].
    - apply Forall_forall. intros it. by apply (root_items_pres i).
    - apply (bool_decide_unpack _). vm_compute. exact I. }
  intros e1 (Ho1 & Hm1 & Hit & Hk & Hpr). pose proof (op_pres _ _ Ho1) as Hp1.
  wp_step. rename v into sv, H0 into Hsv.
  assert (rooted e1 !! "agent_successor"%string = None) as Hns.
  { rewrite Hk; [by rewrite Hr|]. apply (bool_decide_unpack _). vm_compute. exact I. }
  apply (ends_then _ _ (fun e2 => opened i e2 /\ map_Forall (fun _ c => tenant_typed c) (rooted e2)
           /\ exists D, root_chain i e2 D)).
  { destruct (bytes_ sv) as [raw|] eqn:Eraw.
    - assert (sv = CBytes raw) as -> by (destruct sv; simplify_eq/=; done).
      eapply (wp_root_item i e1 "agent_successor" AGENT_SUCCESSOR (CBytes raw));
        [done|by eexists|done| |pose proof (op_vector _ _ Ho1); wp_step].
      intros c s <- Hs. apply ends_proceed. split_and!.
      + eapply opened_keep; [exact Ho1|..]; try done. apply Ho1.
      + cbn. apply map_Forall_insert_2; [|done]. eapply (root_item_tenant _ _ _ AGENT_SUCCESSOR); [by eexists|exact Hs].
      + apply collect_roots; [|left; by exists s]. intros it Hin. destruct (Hit it Hin) as [s' Hs'].
        exists s'. eapply root_item_keep; [exact Hs'|done|]. cbn. rewrite lookup_insert_ne; [done|].
        intros E. by apply (root_items_successor it).
    - apply ends_proceed. split_and!; [done|done|]. apply collect_roots; auto. }
  intros e2 (Ho2 & Hm2 & D & HD).
  apply wp_bind. eapply wp_rooted_doc; [apply HD|]. pose proof (ri_typed _ _ _ _ _ (rc_delegation _ _ _ HD)) as Hdt.
  pose proof (root_item_rooted _ _ _ ROOT_DELEGATION _ ltac:(by eexists) (rc_delegation _ _ _ HD)) as Hdr.
  apply wp_bind. eapply wp_mono; [by apply substitution_ok|]. intros [] Hsub; [pose proof (op_vector _ _ Ho2); wp_step|].
  specialize (Hsub eq_refl). pose proof (op_action_doc _ _ Ho2) as Ha.
  apply wp_bind. eapply wp_agent_at; [exact Ha|reflexivity|]. intros av actor Hav Hap Hat.
  pose proof (op_vector _ _ Ho2) as Hv.
  check ltac:(by eapply holds_same_typed). check ltac:(apply holds_current_at; present).
  apply ends_proceed. split; [by apply opened_verified|]. exists D. split.
  - by eapply root_chain_keep.
  - rewrite (op_input _ _ Ho2) in Hb0. constructor; [|exists actor; split; [by exists av|done]|exact Hb0].
    rewrite Forall_forall in Hsub.
    assert (forall name schema s, root_item i e2 name schema s -> one_tenant s (delegation D)) as Hone.
    { intros name schema s Hs. destruct (Hsub (st_cwt s)) as (doc & Hp & H1 & H2).
      - apply btree_values_mem. exists name. apply Hs.
      - rewrite (ri_plain _ _ _ _ _ Hs) in Hp. injection Hp as <-. by split. }
    destruct HD. repeat (apply List.Forall_cons; [eapply Hone; eassumption|]).
    destruct (successor D); cbn; [repeat constructor; eapply Hone; eassumption|apply List.Forall_nil].
Qed.

(** ** Delegated and agent signatures *)

(** [s] is the statement [name] of the presentation, signed by one of [keys]. *)
Record statement_item (e : Evaluation) (name schema : string) (keys : gmap string bytes) (s : Statement) : Prop := {
  si_raw : exists raw, pres e !! name = Some (CBytes raw) /\ cwt_envelope raw schema (st_cwt s);
  si_signed : signed_by keys (st_cwt s);
  si_plain : plain (core (st_cwt s)) = Some (st_doc s);
  si_typed : fields_typed (st_doc s) (schema_fields schema);
}.
(** The same, kept by the evaluation under its name. *)
Definition signed_item (e : Evaluation) (name schema : string) (keys : gmap string bytes) (s : Statement) : Prop :=
  statement_item e name schema keys s /\ signed e !! name = Some (st_cwt s).

Lemma statement_item_keep e e' name schema keys s : pres e' = pres e ->
  statement_item e name schema keys s -> statement_item e' name schema keys s.
Proof. intros Hp []. constructor; rewrite ?Hp; auto. Qed.

Lemma signed_item_keep e e' name schema keys s : signed_item e name schema keys s -> pres e' = pres e ->
  signed e' !! name = signed e !! name -> signed_item e' name schema keys s.
Proof. intros [Hs He] Hp Hn. split; [by eapply statement_item_keep|by rewrite Hn]. Qed.

Lemma wp_signed_item e name schema keys raw_value (Q : Evaluation + ResultValue -> Prop) (k : Cwt -> exec (Evaluation + ResultValue)) :
  pres e !! name = Some raw_value -> vector_ok (e_vector e) ->
  (forall c s, st_cwt s = c -> statement_item e name schema keys s -> wp (k c) Q) ->
  wp (reject e "FAIL" "DELEGATED_OR_AGENT_SIGNATURE_INVALID") Q ->
  wp (let_do cwt := (match bytes_ raw_value with Some raw => signed_cwt raw schema keys | None => Done None end)
      else reject e "FAIL" "DELEGATED_OR_AGENT_SIGNATURE_INVALID"; k cwt) Q.
Proof.
  intros Hr Hv Hk Hn. apply wp_bind. destruct raw_value as [|raw| | | | | | |]; try by apply wp_done.
  cbn [bytes_]. eapply wp_mono; [apply signed_cwt_ok|].
  intros [c|] Hc; [|done]. destruct (Hc c eq_refl) as [He Hs]. destruct (envelope_doc _ _ _ He) as (doc & Hp & Ht).
  apply (Hk c {| st_cwt := c; st_doc := doc |}); [done|]. constructor; cbn; eauto.
Qed.

Lemma signatures_loop_ok i D items e : opened i e -> root_chain i e D ->
  Forall (fun it => is_Some (pres e !! it.1.1)) items -> NoDup (map (fun it => it.1.1) items) ->
  wp (signatures_loop e items) (ends (fun e' => opened i e' /\ root_chain i e' D
    /\ (forall it, it ∈ items -> exists s, signed_item e' it.1.1 it.1.2 it.2 s)
    /\ (forall k, k ∉ map (fun it => it.1.1) items -> signed e' !! k = signed e !! k) /\ pres e' = pres e)).
Proof.
  intros Ho HD Hi. revert e Ho HD Hi. induction items as [|[[name schema] keys] items IH]; intros e Ho HD Hi Hn; cbn [signatures_loop].
  { apply ends_proceed. split_and!; [done..| |done|done]. intros it Hin. by apply elem_of_nil in Hin. }
  inversion Hi as [|? ? [rv Hrv] Hi']; subst. inversion Hn as [|? ? Hname Hn']; subst. cbn [fst snd] in *.
  apply wp_bind, wp_at; [by eexists|]. intros v Hv. simplify_eq. pose proof (op_vector _ _ Ho) as Hvec.
  eapply wp_signed_item; [exact Hrv|exact Hvec| |wp_step].
  intros c s <- Hs. eapply ends_mono; [apply IH|].
  - eapply opened_keep; [exact Ho|..]; try done.
  - by eapply root_chain_keep.
  - done.
  - done.
  - intros e' (Ho' & HD' & Hit & Hk & Hpr). cbn in Hk, Hpr. split_and!; [done|done| | |done].
    + intros it [->|Hin]%elem_of_cons; [|by apply Hit]. exists s. split; [by eapply statement_item_keep|].
      cbn. rewrite Hk by done. by rewrite lookup_insert_eq.
    + intros k Hk'. cbn in Hk'. apply not_elem_of_cons in Hk' as [Hne Hk']. rewrite Hk by done.
      apply lookup_insert_ne. intros ->. by apply Hne.
Qed.

(** The keys the delegation and the passport name, by their ids, and the statements they signed. *)
Record AgentChain := {
  psa : string * bytes; action_authority : string * bytes; agent_key : string * bytes;
  passport_st : Statement; holder : Statement; pop : Statement; snapshot : Statement; asa : Statement;
}.
Definition key_map (k : string * bytes) : gmap string bytes := {[ k.1 := k.2 ]}.
(** [k] is the key the members of [doc] name. *)
Definition names_key (doc : Doc) (kid_ key_ : string) (k : string * bytes) : Prop :=
  doc !! kid_ = Some (CText k.1) /\ doc !! key_ = Some (CBytes k.2).
Record agent_chain (e : Evaluation) (D : RootChain) (A : AgentChain) : Prop := {
  ac_psa : names_key (st_doc (delegation D)) "passport_authority_kid" "passport_authority_key" (psa A);
  ac_action : names_key (st_doc (delegation D)) "action_authority_kid" "action_authority_key" (action_authority A);
  ac_agent : names_key (st_doc (passport_st A)) "agent_kid" "agent_key" (agent_key A);
  ac_passport : statement_item e "passport" CREDENTIAL (key_map (psa A)) (passport_st A);
  ac_credential : credential e = Some (st_cwt (passport_st A));
  ac_holder : signed_item e "passport_holder_proof" CREDENTIAL (key_map (agent_key A)) (holder A)
    /\ cbor_eqb (core (st_cwt (holder A))) (core (st_cwt (passport_st A))) = true;
  ac_pop : signed_item e "agent_pop" AGENT_POP (key_map (agent_key A)) (pop A);
  ac_snapshot : signed_item e "status_snapshot" SNAPSHOT (key_map (psa A)) (snapshot A);
  ac_asa : signed_item e "asa" ASA (key_map (action_authority A)) (asa A);
  ac_presentation : exists c, cwt_envelope (i_presentation (input e)) PRESENTATION c
    /\ plain (core c) = Some (pres e) /\ signed_by (key_map (agent_key A)) c;
}.

(** The names of the loop. *)
Definition signed_items (agent psa action : gmap string bytes) : list (string * string * gmap string bytes) :=
  [("passport_holder_proof", CREDENTIAL, agent); ("agent_pop", AGENT_POP, agent);
   ("status_snapshot", SNAPSHOT, psa); ("asa", ASA, action)]%string.
Lemma signed_items_pres e agent psa action : fields_typed (pres e) (schema_fields PRESENTATION) ->
  Forall (fun it => is_Some (pres e !! it.1.1)) (signed_items agent psa action).
Proof. intros Hp. repeat (apply List.Forall_cons; [cbn [fst]; by eapply field_present|]). apply List.Forall_nil. Qed.

Lemma holder_same e raw keys h s : pres e !! "passport_holder_proof"%string = Some (CBytes raw) ->
  cwt_envelope raw CREDENTIAL h -> signed_item e "passport_holder_proof" CREDENTIAL keys s -> st_cwt s = h.
Proof.
  intros Hr Hh [[(raw' & Hr' & He) _ _ _] _]. assert (raw' = raw) as -> by congruence. by eapply envelope_unique.
Qed.

Lemma signatures_ok i e D : opened i e -> root_chain i e D ->
  wp (signatures e) (ends (fun e' => opened i e' /\ root_chain i e' D /\ exists A, agent_chain e' D A)).
Proof.
  intros Ho HD. unfold signatures. pose proof (op_vector _ _ Ho) as Hv. pose proof (op_pres _ _ Ho) as Hp.
  apply wp_bind. eapply wp_rooted_doc; [apply HD|]. pose proof (ri_typed _ _ _ _ _ (rc_delegation _ _ _ HD)) as Hdt.
  apply wp_bind. eapply wp_text_at; [exact Hdt|reflexivity|]. intros psa_kid Hpk.
  apply wp_bind. eapply wp_bytes32_at; [exact Hdt|in_table|]. intros psa_key Hpsa _.
  apply wp_bind. eapply wp_text_at; [exact Hdt|reflexivity|]. intros action_kid Hak.
  apply wp_bind. eapply wp_bytes32_at; [exact Hdt|in_table|]. intros action_key Hakey _.
  wp_step. rename v into pv, H0 into Hpv. eapply wp_signed_item; [exact Hpv|done| |wp_step].
  intros pc ps <- Hps. wp_step. rename v into hv, H0 into Hhv.
  apply wp_bind. destruct hv as [|hraw| | | | | | |]; try (apply wp_done; wp_step).
  cbn [bytes_]. eapply wp_mono; [apply inspect_cwt_ok|]. intros [h|] Hh; [|wp_step]. specialize (Hh h eq_refl).
  destruct (cbor_eqb (core h) (core (st_cwt ps))) eqn:Eq; cbn [negb]; [|wp_step].
  apply wp_bind. eapply wp_plain_core; [apply Hps|]. pose proof (si_typed _ _ _ _ _ Hps) as Hpt.
  apply wp_bind. eapply wp_text_at; [exact Hpt|reflexivity|]. intros agent_kid Hagk.
  apply wp_bind. eapply wp_bytes32_at; [exact Hpt|in_table|]. intros agent_key' Hagent _.
  eapply ends_then.
  { apply (signatures_loop_ok i D (signed_items {[agent_kid := agent_key']} {[psa_kid := psa_key]} {[action_kid := action_key]}));
      [done|done|by apply signed_items_pres|]. apply (bool_decide_unpack _). vm_compute. exact I. }
  intros e1 (Ho1 & HD1 & Hit & _ & Hpr). pose proof (op_vector _ _ Ho1) as Hv1.
  apply wp_bind. eapply wp_mono; [apply signed_cwt_ok|]. intros [c|] Hc; [|wp_step].
  destruct (Hc c eq_refl) as [Hce Hcs]. clear Hc. apply ends_proceed.
  destruct (Hit ("passport_holder_proof", CREDENTIAL, {[agent_kid := agent_key']})%string) as [s1 H1]; [by left|].
  destruct (Hit ("agent_pop", AGENT_POP, {[agent_kid := agent_key']})%string) as [s2 H2]; [by right; left|].
  destruct (Hit ("status_snapshot", SNAPSHOT, {[psa_kid := psa_key]})%string) as [s3 H3]; [by do 2 right; left|].
  destruct (Hit ("asa", ASA, {[action_kid := action_key]})%string) as [s4 H4]; [by do 3 right; left|].
  split_and!.
  - eapply opened_keep; [exact Ho1|..]; try done. by apply mark_ok.
  - by eapply root_chain_keep.
  - exists {| psa := (psa_kid, psa_key); action_authority := (action_kid, action_key); agent_key := (agent_kid, agent_key');
              passport_st := ps; holder := s1; pop := s2; snapshot := s3; asa := s4 |}.
    constructor; cbn; try done; [by eapply statement_item_keep| |by eapply signed_item_keep..|].
    + split; [by eapply signed_item_keep|]. by rewrite (holder_same _ _ _ _ _ ltac:(by rewrite Hpr) Hh H1).
    + destruct (op_presentation _ _ Ho1) as (c' & Hc' & Hp').
      rewrite (op_input _ _ Ho1) in *. assert (c' = c) as -> by by eapply envelope_unique. by exists c.
Qed.

(** ** The passport *)

(** What the stages after the signatures work on. *)
Record held (i : InputContext) (e : Evaluation) (D : RootChain) (A : AgentChain) : Prop := {
  h_opened : opened i e;
  h_roots : root_chain i e D;
  h_agent : agent_chain e D A;
}.
Lemma held_keep i e e' D A : held i e D A -> vector_ok (e_vector e') -> input e' = input e -> e_challenge e' = e_challenge e ->
  challenge_doc e' = challenge_doc e -> e_action e' = e_action e -> action_bytes e' = action_bytes e -> pres e' = pres e ->
  rooted e' = rooted e -> signed e' = signed e -> credential e' = credential e -> held i e' D A.
Proof.
  intros [Ho HD HA] Hv E1 E2 E3 E4 E5 Ep Er Es Ec. constructor; [by eapply opened_keep|by eapply root_chain_keep|].
  assert (forall name schema keys s, signed_item e name schema keys s -> signed_item e' name schema keys s) as Hsi
    by (intros; eapply signed_item_keep; [eassumption|done|by rewrite Es]).
  destruct HA. constructor; try done; rewrite ?E1, ?Ep, ?Ec; auto.
  - by eapply statement_item_keep.
  - destruct ac_holder0; auto.
Qed.
Lemma held_verified i e D A names : held i e D A -> markable names = true -> held i (verified e names) D A.
Proof. intros Hh Hm. eapply held_keep; [exact Hh|..]; try done. apply mark_ok; [apply Hh|done]. Qed.

Lemma wp_signed_doc e name schema keys s (Q : Doc -> Prop) : signed_item e name schema keys s -> Q (st_doc s) -> wp (signed_doc e name) Q.
Proof.
  intros [[] Hs] Hq. unfold signed_doc, at_. rewrite Hs. apply wp_bind, wp_done. by eapply wp_plain_core.
Qed.
Lemma wp_credential_doc e D A (Q : Doc -> Prop) : agent_chain e D A -> Q (st_doc (passport_st A)) -> wp (credential_doc e) Q.
Proof.
  intros [] Hq. unfold credential_doc. rewrite ac_credential0. apply wp_bind, wp_done.
  eapply wp_plain_core; [apply ac_passport0|done].
Qed.

(** A digest of named members is a digest when they are all there. *)
Lemma named_digest_ok (doc : Doc) names domain : Forall (fun name => exists v, doc !! name = Some v /\ below v) names ->
  NoDup (map write_text names) -> exists d, named_digest doc names domain = Done (Some d).
Proof.
  intros Hn Hd. unfold named_digest.
  assert (exists items, exec_map (fun name => v ← at_ doc name; Done (name, v)) names = Done items
    /\ items.*1 = names /\ Forall (fun x => below x.2) items) as (items & -> & Hi & Hb).
  { clear Hd. induction Hn as [|name names (v & Hv & Hb) _ (items & IH & Hi & Hbs)]; [by exists []|].
    assert (at_ doc name = Done v) as Ha by (unfold at_; by rewrite Hv).
    exists ((name, v) :: items). cbn [exec_map]. rewrite Ha, IH. cbn. rewrite Hi. split_and!; [done|done|by constructor]. }
  destruct (named_canonical items) as [b Hc]; [by rewrite Hi|done|]. cbn [mbind exec_bind].
  rewrite Hc. cbn. eauto.
Qed.
Lemma members_below raw schema s names : cwt_envelope raw schema (st_cwt s) -> plain (core (st_cwt s)) = Some (st_doc s) ->
  fields_typed (st_doc s) (schema_fields schema) -> forallb (fun name => is_some (field_test (schema_fields schema) name)) names = true ->
  Forall (fun name => exists v, st_doc s !! name = Some v /\ below v) names.
Proof.
  intros He Hp Ht Hn. apply Forall_forall. intros name Hin. rewrite forallb_forall in Hn.
  destruct (field_present _ _ name Ht) as [v Hv]; [by apply Hn, list_elem_of_In|]. exists v. split; [done|].
  by eapply envelope_below.
Qed.
Lemma selected_digest_ok e keys s : statement_item e "passport" CREDENTIAL keys s ->
  exists d, selected_digest (st_doc s) = Done (Some d).
Proof.
  intros [(raw & _ & He) _ Hp Ht]. apply named_digest_ok.
  - eapply members_below; [exact He|exact Hp|exact Ht|reflexivity].
  - apply (bool_decide_unpack _). vm_compute. exact I.
Qed.

(** The passport is the actor's, of the delegation's organisation, under the template, by its own key. *)
Record passport_facts (i : InputContext) (action : Doc) (D : RootChain) (A : AgentChain) : Prop := {
  pf_delegation : Forall (fun xy => equal_members (st_doc (passport_st A)) xy.1 (st_doc (delegation D)) xy.2)
    [("organisation_root", "organisation_root"); ("tenant", "tenant"); ("authority_delegation_id", "delegation_id")]%string;
  pf_actor : exists actor, agent_member action "actor" actor /\
    Forall (fun name => equal_members (st_doc (passport_st A)) name actor name) ["birthtag"; "revision"; "agent_kid"]%string;
  pf_keys : (agent_key A).2 <> (psa A).2 /\ (agent_key A).2 <> (action_authority A).2;
  pf_live : current_member (st_doc (passport_st A)) "valid_from" "valid_to" (i_now i);
  pf_template : Forall (fun name => equal_members (st_doc (passport_st A)) name (st_doc (template D)) name)
    ["template_id"; "template_version"; "owner"; "purpose"; "mandate_digest"; "config_digest"]%string;
  pf_template_live : current_member (st_doc (template D)) "valid_from" "valid_to" (i_now i);
  pf_successor : match successor D with
    | None => st_doc (passport_st A) !! "agent_successor_digest"%string = Some CNull
    | Some s => st_doc (passport_st A) !! "agent_successor_digest"%string = Some (CBytes (core_digest (core_bytes (st_cwt s))))
        /\ equal_members (st_doc s) "successor_birthtag" (st_doc (passport_st A)) "birthtag"
        /\ equal_members (st_doc s) "successor_revision" (st_doc (passport_st A)) "revision"
        /\ exists d, selected_digest (st_doc (passport_st A)) = Done (Some d)
            /\ st_doc s !! "successor_proposal_digest"%string = Some (CBytes d)
    end;
}.

Lemma holds_same_names (a b : Doc) names ta tb : fields_typed a ta -> fields_typed b tb ->
  forallb (fun name => is_some (field_test ta name) && is_some (field_test tb name)) names = true ->
  holds (exec_all (fun name => same a name b name) names) (Forall (fun name => equal_members a name b name) names).
Proof.
  intros Ha Hb Hn. apply holds_exec_all. intros name Hin. rewrite forallb_forall in Hn.
  destruct (proj1 (andb_true_iff _ _) (Hn name ltac:(by apply list_elem_of_In))) as [H1 H2]. by eapply holds_same_typed.
Qed.

Lemma same_bytes (a b : Doc) x y u v : a !! x = Some (CBytes u) -> b !! y = Some (CBytes v) -> same a x b y = Done (bytes_eqb u v).
Proof. intros Ha Hb. unfold same, at_. by rewrite Ha, Hb. Qed.

Lemma successor_matches_ok i e D A now : held i e D A ->
  holds (successor_matches (st_doc (passport_st A)) (rooted e !! "agent_successor"%string) now)
    (match successor D with
    | None => st_doc (passport_st A) !! "agent_successor_digest"%string = Some CNull
    | Some s => st_doc (passport_st A) !! "agent_successor_digest"%string = Some (CBytes (core_digest (core_bytes (st_cwt s))))
        /\ equal_members (st_doc s) "successor_birthtag" (st_doc (passport_st A)) "birthtag"
        /\ equal_members (st_doc s) "successor_revision" (st_doc (passport_st A)) "revision"
        /\ exists d, selected_digest (st_doc (passport_st A)) = Done (Some d)
            /\ st_doc s !! "successor_proposal_digest"%string = Some (CBytes d)
    end).
Proof.
  intros [_ HD HA]. pose proof (ac_passport _ _ _ HA) as Hps. pose proof (si_typed _ _ _ _ _ Hps) as Hpt.
  pose proof (rc_successor _ _ _ HD) as Hs. unfold successor_matches.
  apply holds_at; [present|]. intros v Hv. destruct (successor D) as [s|].
  2: { rewrite Hs. destruct v; try by apply holds_done. }
  rewrite (ri_rooted _ _ _ _ _ Hs). pose proof (ri_typed _ _ _ _ _ Hs) as Hst.
  destruct v as [|digest| | | | | | |]; try by apply holds_done.
  rewrite (ri_plain _ _ _ _ _ Hs). apply holds_bind_done. destruct (selected_digest_ok _ _ _ Hps) as [d Hd].
  eapply holds_mono.
  - apply holds_and; [apply holds_and; [apply holds_and; [apply holds_and; [apply holds_id|]|]|]|]; intros _.
    + by eapply holds_same_typed.
    + by eapply holds_same_typed.
    + apply holds_at; [present|]. intros p Hp. rewrite Hd. apply holds_bind_done.
      instantiate (1 := st_doc s !! "successor_proposal_digest"%string = Some (CBytes d)).
      apply holds_done. intros E%bool_decide_eq_true. rewrite Hp. destruct p; try done. cbn in E. congruence.
    + apply holds_on. present.
  - intros ((((E%bytes_eqb_true & H1) & H2) & H3) & _). subst digest. eauto 6.
Qed.

Lemma passport_ok i e D A : held i e D A ->
  wp (passport e) (ends (fun e' => held i e' D A /\ e' = verified e ["binding"%string] /\ passport_facts i (e_action e) D A)).
Proof.
  intros Hh. pose proof Hh as [Ho HD HA]. unfold passport. pose proof (op_vector _ _ Ho) as Hv.
  pose proof (ri_typed _ _ _ _ _ (rc_delegation _ _ _ HD)) as Hdt. pose proof (ri_typed _ _ _ _ _ (rc_template _ _ _ HD)) as Htt.
  pose proof (si_typed _ _ _ _ _ (ac_passport _ _ _ HA)) as Hpt. pose proof (op_action_doc _ _ Ho) as Hat.
  apply wp_bind. eapply wp_credential_doc; [exact HA|]. apply wp_bind. eapply wp_rooted_doc; [apply HD|].
  apply wp_bind. eapply wp_rooted_doc; [apply HD|]. apply wp_bind. eapply wp_agent_at; [exact Hat|reflexivity|].
  intros av actor Hav Hap Hact.
  apply wp_bind. eapply wp_mono; [repeat (apply holds_all_cons; [by eapply holds_same_typed|]); apply holds_all_nil|].
  cbn beta. intros pairs Hpairs.
  destruct (ac_psa _ _ _ HA) as [_ Hpk], (ac_action _ _ _ HA) as [_ Hak], (ac_agent _ _ _ HA) as [_ Hgk].
  rewrite (same_bytes _ _ _ _ _ _ Hgk Hpk). apply wp_bind, wp_done.
  rewrite (same_bytes _ _ _ _ _ _ Hgk Hak). apply wp_bind.
  apply (wp_mono _ (fun b => b = false -> (agent_key A).2 <> (psa A).2 /\ (agent_key A).2 <> (action_authority A).2)).
  { destruct (bytes_eqb _ (psa A).2) eqn:E1; [by apply wp_done|]. apply wp_done. intros E2.
    by split; apply bytes_eqb_neq. }
  intros collision Hcol. apply wp_bind. eapply wp_mono; [apply holds_current_at; present|]. cbn beta. intros live Hlive.
  destruct collision; [wp_step|]. specialize (Hcol eq_refl).
  destruct pairs; cbn [negb orb]; [|wp_step]. destruct live; cbn [negb orb]; [|wp_step].
  destruct (Hpairs eq_refl) as (H1 & H2 & H3 & H4 & H5 & H6 & _). specialize (Hlive eq_refl). clear Hpairs.
  check ltac:(eapply successor_matches_ok; exact Hh).
  apply wp_bind. eapply wp_mono; [apply holds_current_at; present|]. cbn beta. intros tlive Htlive.
  apply wp_bind. eapply wp_mono; [by eapply holds_same_names|]. cbn beta. intros equal Hequal.
  destruct equal; cbn [negb orb]; [|wp_step]. destruct tlive; cbn [negb orb]; [|wp_step].
  specialize (Hequal eq_refl). specialize (Htlive eq_refl). rewrite (op_input _ _ Ho) in *.
  apply ends_proceed. split_and!; [by apply held_verified|done|].
  constructor; [by repeat constructor|exists actor; split; [by exists av|by repeat constructor]|done..].
Qed.

(** ** The registration *)

Definition equal_names (a : Doc) (names : list string) (b : Doc) : Prop := Forall (fun name => equal_members a name b name) names.
(** [a.x <= b.y < c.z], three times of three documents. *)
Definition within (a : Doc) (x : string) (b : Doc) (y : string) (c : Doc) (z : string) : Prop :=
  exists l m n, a !! x = Some (CInteger l) /\ b !! y = Some (CInteger m) /\ c !! z = Some (CInteger n) /\ l <= m < n.

Record issuance_facts (cred tmpl adm chal pop_ sel : Doc) (proposal : bytes) : Prop := {
  if_proposal : sel !! "proposed_agent_digest"%string = Some (CBytes proposal)
    /\ pop_ !! "proposed_agent_digest"%string = Some (CBytes proposal);
  if_template : equal_names sel ["template_id"; "template_version"]%string tmpl;
  if_admin : equal_members sel "binding_id" adm "binding_id" /\ equal_members cred "principal_binding_id" adm "binding_id";
  if_challenge : equal_names sel ["challenge_id"; "challenge"; "binding_id"; "template_id"; "template_version"; "proposed_agent_digest"]%string chal;
  if_pop : equal_members pop_ "challenge" sel "challenge" /\ equal_names pop_ ["birthtag"; "revision"; "agent_kid"]%string cred;
  if_tenant : equal_names chal ["tenant"; "organisation_root"]%string cred;
  if_times : within adm "valid_from" chal "issued_at" adm "valid_to"
    /\ within chal "issued_at" sel "selected_at" chal "expires_at";
}.

Lemma holds_within (a b c : Doc) x y z : is_Some (a !! x) -> is_Some (b !! y) -> is_Some (c !! z) ->
  holds (u ← at_ a x; v ← at_ b y; w ← at_ c z; Done (ordered3 (uint u) (uint v) (uint w))) (within a x b y c z).
Proof.
  intros Ha Hb Hc. apply holds_at; [done|]. intros u Hu. apply holds_at; [done|]. intros v Hv.
  apply holds_at; [done|]. intros w Hw. apply holds_done. unfold ordered3.
  destruct (uint u) as [l|] eqn:El, (uint v) as [m|] eqn:Em, (uint w) as [n|] eqn:En; try done.
  intros [??]%andb_true_iff. apply uint_range in El as [-> _], Em as [-> _], En as [-> _]. bool_prop. exists l, m, n. auto.
Qed.

Lemma issuance_checks_ok (cred tmpl adm chal pop_ sel : Doc) proposal :
  fields_typed cred (schema_fields CREDENTIAL) -> fields_typed tmpl (schema_fields TEMPLATE) ->
  fields_typed adm (schema_fields ADMIN_BINDING) -> fields_typed chal (schema_fields ADMIN_CHALLENGE) ->
  fields_typed pop_ (schema_fields AGENT_POP) -> fields_typed sel (schema_fields ADMIN_SELECTION) ->
  holds (issuance_checks cred tmpl adm chal pop_ sel proposal) (issuance_facts cred tmpl adm chal pop_ sel proposal).
Proof.
  intros H1 H2 H3 H4 H5 H6. unfold issuance_checks. eapply holds_mono.
  - repeat (apply holds_all_cons;
      [first [apply holds_digest_is; present | by eapply holds_same_typed | apply holds_within; present]|]).
    apply holds_all_nil.
  - intros Hh. decompose [and] Hh. constructor; try by split.
    all: try (split; [done|]). all: repeat constructor; done.
Qed.

Record consumption_facts (adm chal cons sel : Doc) (challenge_bytes selection_bytes credential_bytes : bytes) (now : Z) : Prop := {
  cf_challenge : equal_names cons ["tenant"; "organisation_root"; "challenge_id"]%string chal;
  cf_admin : equal_members cons "binding_id" adm "binding_id";
  cf_digests : cons !! "challenge_digest"%string = Some (CBytes (core_digest challenge_bytes))
    /\ cons !! "selection_digest"%string = Some (CBytes (core_digest selection_bytes))
    /\ cons !! "credential_digest"%string = Some (CBytes (core_digest credential_bytes));
  cf_times : within sel "selected_at" cons "consumed_at" chal "expires_at"
    /\ exists n, cons !! "consumed_at"%string = Some (CInteger n) /\ n <= now;
}.
Lemma consumption_checks_ok (adm chal cons sel : Doc) cb sb pb now :
  fields_typed adm (schema_fields ADMIN_BINDING) -> fields_typed chal (schema_fields ADMIN_CHALLENGE) ->
  fields_typed cons (schema_fields ADMIN_CONSUMPTION) -> fields_typed sel (schema_fields ADMIN_SELECTION) ->
  holds (consumption_checks adm chal cons sel cb sb pb now) (consumption_facts adm chal cons sel cb sb pb now).
Proof.
  intros H1 H2 H3 H4. unfold consumption_checks. eapply holds_mono.
  - repeat (apply holds_all_cons; [first [apply holds_digest_is; present | by eapply holds_same_typed]|]).
    apply holds_all_cons; [|apply holds_all_nil].
    apply holds_at; [present|]. intros u Hu. apply holds_at; [present|]. intros v Hv. apply holds_at; [present|]. intros w Hw.
    instantiate (1 := within sel "selected_at" cons "consumed_at" chal "expires_at"
      /\ exists n, cons !! "consumed_at"%string = Some (CInteger n) /\ n <= now).
    apply holds_done. destruct (uint u) as [l|] eqn:El, (uint v) as [m|] eqn:Em, (uint w) as [n|] eqn:En; try done.
    rewrite !andb_true_iff. apply uint_range in El as [-> _], Em as [-> _], En as [-> _]. intros [[??] ?]. bool_prop.
    split; [exists l, m, n|exists m]; auto.
  - intros Hh. decompose [and] Hh. constructor; [by repeat constructor|done|by split_and!|by split_and!].
Qed.

Lemma signed_state_ok (cons : Doc) : fields_typed cons (schema_fields ADMIN_CONSUMPTION) ->
  exists st, signed_state cons = Done st.
Proof.
  intros Hc. destruct (field_typed _ _ "backup_eligible" cbor_is_bool Hc eq_refl) as (v & Hv & Hb).
  destruct (field_typed _ _ "backup_state" cbor_is_bool Hc eq_refl) as (w & Hw & Hb').
  destruct v as [| | | |e| | | |]; try done. destruct w as [| | | |s| | | |]; try done.
  unfold signed_state, at_. rewrite Hv, Hw. cbn [unwrap mbind exec_bind].
  assert (wp (before_ ← uint_at cons "sign_count_before"; after ← uint_at cons "sign_count_after";
    Done {| c_before := before_; c_after := after; c_backup_eligible := e; c_backup_state := s |}) (fun _ => True)) as Hwp.
  { wp_step. wp_step. by apply wp_done. }
  destruct (wp_total _ _ Hwp) as (st & E & _). by exists st.
Qed.
Lemma decode_selection_ok raw : wp (decode_selection raw) (fun o => forall v, o = Some v ->
  decode raw 16384 = Some v /\ exists doc, plain v = Some doc /\ fields_typed doc (schema_fields ADMIN_SELECTION)).
Proof.
  unfold decode_selection. destruct (decode raw 16384) as [v|]; [|by apply wp_done].
  apply wp_bind. eapply wp_mono; [apply validate_selection_ok|]. intros b Hb. apply wp_done.
  intros v' [-> <-]%then_some_Some. split; [done|]. by apply Hb.
Qed.

(** The selection of the presentation, and the facts of the passport's registration. *)
Record registration_facts (i : InputContext) (presented : Doc) (D : RootChain) (A : AgentChain) (raw : bytes) (value : cbor)
    (sel : gmap string cbor) : Prop := {
  gf_selection : presented !! "admin_selection"%string = Some (CBytes raw) /\ decode raw 16384 = Some value
    /\ plain value = Some sel /\ fields_typed sel (schema_fields ADMIN_SELECTION);
  gf_issuance : exists proposal, selected_digest (st_doc (passport_st A)) = Done (Some proposal)
    /\ issuance_facts (st_doc (passport_st A)) (st_doc (template D)) (st_doc (admin D)) (st_doc (admin_challenge D))
         (st_doc (pop A)) sel proposal;
  gf_admin : exists st, signed_state (st_doc (consumption D)) = Done st
    /\ admin_proof (st_doc (admin D)) sel (i_origin i) (c_before st) (i_now i) st;
  gf_digests : st_doc (passport_st A) !! "admin_selection_digest"%string = Some (CBytes (core_digest raw))
    /\ st_doc (passport_st A) !! "agent_pop_digest"%string = Some (CBytes (core_digest (core_bytes (st_cwt (pop A)))));
  gf_consumption : consumption_facts (st_doc (admin D)) (st_doc (admin_challenge D)) (st_doc (consumption D)) sel
    (core_bytes (st_cwt (admin_challenge D))) raw (core_bytes (st_cwt (passport_st A))) (i_now i);
}.

Lemma registration_ok i e D A : held i e D A ->
  wp (registration e) (ends (fun e' => held i e' D A /\ exists raw value sel, registration_facts i (pres e) D A raw value sel
    /\ e' = verified (set_selection e (Some value) raw) ["template_admin_pop"%string])).
Proof.
  intros Hh. pose proof Hh as [Ho HD HA]. unfold registration. pose proof (op_vector _ _ Ho) as Hv.
  pose proof (ri_typed _ _ _ _ _ (rc_template _ _ _ HD)) as Htt. pose proof (ri_typed _ _ _ _ _ (rc_admin _ _ _ HD)) as Hat.
  pose proof (ri_typed _ _ _ _ _ (rc_challenge _ _ _ HD)) as Hct. pose proof (ri_typed _ _ _ _ _ (rc_consumption _ _ _ HD)) as Hnt.
  pose proof (si_typed _ _ _ _ _ (ac_passport _ _ _ HA)) as Hpt. pose proof (op_pres _ _ Ho) as Hpres.
  destruct (ac_pop _ _ _ HA) as [Hpop Hpops]. pose proof (si_typed _ _ _ _ _ Hpop) as Hpopt.
  rewrite (ac_credential _ _ _ HA). apply wp_bind, wp_done.
  apply wp_bind. eapply wp_plain_core; [apply (si_plain _ _ _ _ _ (ac_passport _ _ _ HA))|].
  apply wp_bind. eapply wp_rooted_doc; [apply HD|]. apply wp_bind. eapply wp_rooted_doc; [apply HD|].
  apply wp_bind. unfold at_ at 1. rewrite (ri_rooted _ _ _ _ _ (rc_challenge _ _ _ HD)). apply wp_done, wp_bind.
  eapply wp_plain_core; [apply (ri_plain _ _ _ _ _ (rc_challenge _ _ _ HD))|].
  apply wp_bind. eapply wp_rooted_doc; [apply HD|].
  apply wp_bind. unfold at_ at 1. rewrite Hpops. apply wp_done, wp_bind.
  eapply wp_plain_core; [apply (si_plain _ _ _ _ _ Hpop)|].
  apply wp_bind. eapply wp_sized_at; [exact Hpres|reflexivity|]. intros raw Hraw.
  apply wp_bind. eapply wp_mono; [apply decode_selection_ok|]. cbn beta. intros [value|] Hsel; [|wp_step].
  destruct (Hsel value eq_refl) as (Hdec & sel & Hselp & Hselt). clear Hsel. rewrite Hselp. apply wp_bind, wp_done.
  destruct (selected_digest_ok _ _ _ (ac_passport _ _ _ HA)) as [proposal Hprop]. rewrite Hprop.
  apply wp_bind, wp_done, wp_bind, wp_done.
  check ltac:(by apply issuance_checks_ok).
  destruct (signed_state_ok _ Hnt) as [st Hst]. rewrite Hst. apply wp_bind, wp_done.
  apply wp_bind. eapply wp_mono; [by eapply verify_admin_ok|]. cbn beta. intros proven Hproven.
  destruct (bool_decide (proven = Some st)) eqn:Ep; cbn [negb]; [|wp_step]. apply bool_decide_eq_true in Ep.
  specialize (Hproven st Ep).
  check ltac:(apply holds_and; [apply holds_digest_is; present|intros _; apply holds_digest_is; present]).
  check ltac:(by apply consumption_checks_ok). cbn [set_selection input] in *. rewrite (op_input _ _ Ho) in *.
  apply ends_proceed. split; [|exists raw, value, sel; split; [|done]].
  - apply held_verified; [|done]. by eapply held_keep.
  - constructor; eauto.
Qed.

(** ** The authority checkpoint *)

Definition pin_of (doc : Doc) (p : Pin) : Prop :=
  doc !! "tenant"%string = Some (CText (pin_tenant p)) /\ doc !! "organisation_root"%string = Some (CBytes (pin_root p))
  /\ doc !! "sequence"%string = Some (CInteger (pin_sequence p))
  /\ doc !! "authority_root"%string = Some (CBytes (pin_authority_root p))
  /\ doc !! "log_root"%string = Some (CBytes (pin_log_root p)) /\ doc !! "log_size"%string = Some (CInteger (pin_log_size p)).

Lemma checkpoint_pin_ok (doc : Doc) : fields_typed doc (schema_fields CHECKPOINT) -> wp (checkpoint_pin doc) (pin_of doc).
Proof.
  intros Hd. unfold checkpoint_pin. apply wp_bind. eapply wp_text_at; [exact Hd|reflexivity|]. intros t Ht.
  apply wp_bind. eapply wp_bytes32_at; [exact Hd|in_table|]. intros r Hr _. wp_step.
  apply wp_bind. eapply wp_bytes32_at; [exact Hd|in_table|]. intros a Ha _.
  apply wp_bind. eapply wp_bytes32_at; [exact Hd|in_table|]. intros l Hl _. wp_step. by apply wp_done.
Qed.

(** The registered head of the organisation is the checkpoint itself. *)
Definition head_is (h : Head) (p : Pin) : Prop :=
  head_sequence h = pin_sequence p /\ head_authority_root h = pin_authority_root p /\ head_log_root h = pin_log_root p
  /\ head_log_size h = pin_log_size p.
Lemma checkpoint_head_error_ok (doc : Doc) p h : fields_typed doc (schema_fields CHECKPOINT) -> pin_of doc p ->
  wp (checkpoint_head_error doc (pin_sequence p) h) (fun o => match o with
    | None => head_is h p
    | Some (v, r) => (v = "FAIL"%string \/ v = "INDETERMINATE"%string) /\ early r
    end).
Proof.
  intros Hd (_ & _ & _ & Ha & Hl & Hz). unfold checkpoint_head_error.
  destruct (pin_sequence p <? head_sequence h) eqn:E1; [apply wp_done; split; [auto|by split]|].
  destruct (head_sequence h <? pin_sequence p) eqn:E2; [apply wp_done; split; [auto|by split]|]. bool_prop.
  apply wp_bind. eapply wp_mono.
  { apply holds_and; [apply holds_and; [apply holds_on; present|intros _; apply holds_on; present]|intros _; apply holds_on; present]. }
  intros [] Hb; apply wp_done; cbn; [|split; [auto|by split]]. destruct (Hb eq_refl) as [[(v1 & Hv1 & H1) (v2 & Hv2 & H2)] (v3 & Hv3 & H3)].
  simplify_eq. unfold is_bytes in H1, H2. cbn in H1, H2. apply bool_decide_eq_true in H1, H2, H3.
  unfold uint in H3. apply then_some_Some in H3 as [_ H3]. simplify_eq. split_and!; congruence || lia.
Qed.

Record snapshot_facts (snap auth deleg : Doc) (digest proofs : bytes) : Prop := {
  sf_tenant : equal_names snap ["organisation_root"; "tenant"]%string auth;
  sf_delegation : equal_members snap "authority_delegation_id" deleg "delegation_id";
  sf_digests : snap !! "checkpoint_digest"%string = Some (CBytes digest)
    /\ snap !! "proofs_digest"%string = Some (CBytes (sha [str_bytes "swarrm-b28/proofs/v1" ++ [0]; proofs]));
}.
Lemma snapshot_checks_ok (snap auth deleg : Doc) digest proofs : fields_typed snap (schema_fields SNAPSHOT) ->
  fields_typed auth (schema_fields CHECKPOINT) -> fields_typed deleg (schema_fields ROOT_DELEGATION) ->
  holds (snapshot_checks snap auth deleg digest proofs) (snapshot_facts snap auth deleg digest proofs).
Proof.
  intros H1 H2 H3. unfold snapshot_checks. eapply holds_mono.
  - repeat (apply holds_all_cons; [first [apply holds_digest_is; present | by eapply holds_same_typed]|]). apply holds_all_nil.
  - intros Hh. decompose [and] Hh. constructor; [by repeat constructor|done|done].
Qed.

(** The checkpoint is registered and is the head; the passport was issued under an earlier one of
    its log; the status is bound to it and fresh at the relying party's clock. *)
Record checkpoint_facts (i : InputContext) (challenge presented : Doc) (D : RootChain) (A : AgentChain) (root : bytes) : Prop := {
  kf_pin : exists p h, pin_of (st_doc (authority D)) p
    /\ i_checkpoints i !! core_digest (core_bytes (st_cwt (authority D))) = Some p
    /\ i_heads i !! (pin_tenant p, pin_root p) = Some h /\ head_is h p /\ root = head_authority_root h
    /\ exists digest issued proof, st_doc (passport_st A) !! "issuance_checkpoint"%string = Some (CBytes digest)
        /\ i_checkpoints i !! digest = Some issued
        /\ pin_tenant issued = pin_tenant p /\ pin_root issued = pin_root p /\ pin_sequence issued <= pin_sequence p
        /\ presented !! "issuance_consistency_proof"%string = Some proof
        /\ log_consistent proof (pin_log_size issued) (pin_log_size p) (pin_log_root issued) (pin_log_root p) = true;
  kf_snapshot : exists v proofs, presented !! "state_proofs"%string = Some v /\ canonical v = Some proofs
    /\ snapshot_facts (st_doc (snapshot A)) (st_doc (authority D)) (st_doc (delegation D))
         (core_digest (core_bytes (st_cwt (authority D)))) proofs;
  kf_fresh : exists issued maximum expires, st_doc (authority D) !! "issued_at"%string = Some (CInteger issued)
    /\ challenge !! "max_checkpoint_age"%string = Some (CInteger maximum)
    /\ st_doc (snapshot A) !! "expires_at"%string = Some (CInteger expires)
    /\ equal_members (st_doc (authority D)) "issued_at" (st_doc (snapshot A)) "status_as_of"
    /\ issued <= i_now i < expires /\ i_now i - issued <= maximum;
}.

Lemma state_proofs_below i e : opened i e -> exists v doc, pres e !! "state_proofs"%string = Some v /\ below v
  /\ document v None STATE_PROOFS = Some doc.
Proof.
  intros Ho. destruct (op_presentation _ _ Ho) as (c & Hc & Hp).
  destruct (field_typed _ _ "state_proofs" (has (fun v => document v None STATE_PROOFS)) (op_pres _ _ Ho) eq_refl) as (v & Hv & Hd).
  unfold has in Hd. destruct (document v None STATE_PROOFS) as [doc|] eqn:E; [|done]. exists v, doc.
  split_and!; [done| |done]. by eapply envelope_below.
Qed.
Lemma held_head_root i e D A r : held i e D A -> held i (set_head_root e r) D A.
Proof. intros Hh. eapply held_keep; [exact Hh|..]; try done. apply Hh. Qed.

Lemma checkpoint_ok i e D A : held i e D A ->
  wp (checkpoint e) (ends (fun e' => held i e' D A /\ exists root, e' = set_head_root e root
    /\ checkpoint_facts i (challenge_doc e) (pres e) D A root)).
Proof.
  intros Hh. pose proof Hh as [Ho HD HA]. unfold checkpoint. pose proof (op_vector _ _ Ho) as Hv.
  pose proof (ri_typed _ _ _ _ _ (rc_authority _ _ _ HD)) as Hat. pose proof (ri_typed _ _ _ _ _ (rc_delegation _ _ _ HD)) as Hdt.
  pose proof (si_typed _ _ _ _ _ (ac_passport _ _ _ HA)) as Hpt. destruct (ac_snapshot _ _ _ HA) as [Hsn _].
  pose proof (si_typed _ _ _ _ _ Hsn) as Hst. pose proof (op_doc _ _ Ho) as [_ Hcd]. pose proof (op_pres _ _ Ho) as Hpres.
  apply wp_bind. unfold at_ at 1. rewrite (ri_rooted _ _ _ _ _ (rc_authority _ _ _ HD)). apply wp_done, wp_bind.
  eapply wp_plain_core; [apply (ri_plain _ _ _ _ _ (rc_authority _ _ _ HD))|].
  apply wp_bind. eapply wp_credential_doc; [exact HA|]. apply wp_bind. eapply wp_rooted_doc; [apply HD|].
  apply wp_bind. eapply wp_mono; [by apply checkpoint_pin_ok|]. intros p Hp. rewrite (op_input _ _ Ho).
  destruct (bool_decide _) eqn:Er; cbn [negb]; [|wp_step]. apply bool_decide_eq_true in Er.
  destruct (i_heads i !! _) as [h|] eqn:Eh; [|wp_step].
  apply wp_bind. eapply wp_mono; [by apply checkpoint_head_error_ok|]. cbn beta.
  intros [[ve re]|] Hhead; [destruct Hhead; by apply ends_stop|].
  apply wp_bind. eapply wp_bytes32_at; [exact Hpt|in_table|]. intros issuance Hiss _.
  destruct (opt_filter _ _) as [issued|] eqn:Ei; [|wp_step]. apply opt_filter_Some in Ei as [Ei Hi].
  apply andb_true_iff in Hi as [[Hi1%String.eqb_eq Hi2%bytes_eqb_true]%andb_true_iff Hi3%Z.leb_le].
  wp_step. rename v into proof, H0 into Hproof.
  destruct (log_consistent _ _ _ _ _) eqn:El; cbn [negb]; [|wp_step].
  apply wp_bind. eapply wp_signed_doc; [apply HA|].
  destruct (state_proofs_below _ _ Ho) as (pv & _ & Hpv & Hb & _). destruct (below_canonical _ Hb) as [proofs Hc].
  apply wp_bind. unfold at_ at 1. rewrite Hpv. apply wp_done. rewrite Hc. apply wp_bind, wp_done.
  check ltac:(by apply snapshot_checks_ok). wp_step.
  apply wp_bind. apply (wp_mono _ (fun stale => stale = false -> n <= i_now i /\
    exists m, challenge_doc e !! "max_checkpoint_age"%string = Some (CInteger m) /\ i_now i - n <= m)).
  { destruct (n <=? i_now i) eqn:En; [|by apply wp_done]. wp_step. apply wp_done. intros Hm. bool_prop. eauto. }
  cbn beta. intros [] Hfresh; [wp_step|]. destruct (Hfresh eq_refl) as (Hn & m & Hm & Hage).
  check ltac:(by eapply holds_same_typed). wp_step. destruct (_ <=? i_now i) eqn:Ex; [wp_step|]. bool_prop.
  apply ends_proceed. split; [by apply held_head_root|]. exists (head_authority_root h). split; [done|].
  constructor; [exists p, h; split_and!; eauto 10|eauto 6|eauto 10].
Qed.

(** ** Proofs of authority state *)

(** [proof] shows, under the root of the authority's state, that the object with this key is in
    this state with this digest, at this version when one is asked for. *)
Record state_proven (proof : cbor) (root key digest : bytes) (state : string) (version : option Z) : Prop := {
  sp_proof : exists doc value encoded index size_ path, document proof (Some MEMBERSHIP) "key value index tree_size path" = Some doc
    /\ doc !! "value"%string = Some value /\ canonical value = Some encoded
    /\ verify_inclusion (sha [[0]; encoded]) index size_ path root = true
    /\ exists v, document value None "key state version object_digest" = Some v
        /\ v !! "state"%string = Some (CText state) /\ v !! "object_digest"%string = Some (CBytes digest)
        /\ equal_members v "key" doc "key" /\ doc !! "key"%string = Some (CBytes key)
        /\ forall n, version = Some n -> v !! "version"%string = Some (CInteger n);
}.

Lemma verify_state_ok proof root key digest state version :
  holds (verify_state proof root key digest state version) (state_proven proof root key digest state version).
Proof.
  unfold verify_state. destruct (document proof _ _) as [doc|] eqn:Hd; [|by apply holds_done].
  apply holds_at; [present|]. intros value Hvalue.
  destruct (document value None _) as [v|] eqn:Hv; [|by apply holds_done].
  assert (forall k, str_in k (split_whitespace "key state version object_digest") = true -> is_Some (v !! k)) as Pv
    by (intros k Hk; by eapply document_has).
  assert (forall k, str_in k (split_whitespace "key value index tree_size path") = true -> is_Some (doc !! k)) as Pd
    by (intros k Hk; by eapply document_has).
  apply holds_at; [by apply Pd|]. intros iv Hiv. apply holds_at; [by apply Pd|]. intros sv Hsv.
  apply holds_at; [by apply Pd|]. intros pv Hpv.
  destruct (uint iv) as [index|] eqn:Ei; [|by apply holds_done]. destruct (positive_ sv) as [size_|] eqn:Es; [|by apply holds_done].
  destruct pv as [| | | | | | |path|]; try by apply holds_done.
  apply wp_bind. eapply wp_mono.
  { do 2 (apply holds_all_cons; [apply holds_id|]). apply holds_all_cons; [apply holds_on; by apply Pd|].
    apply holds_all_cons; [apply holds_same; [by apply Pv|by apply Pd]|]. apply holds_all_cons; [apply holds_text_is; by apply Pv|].
    apply holds_all_cons; [apply holds_on; by apply Pv|]. apply holds_all_cons; [|apply holds_all_cons; [|apply holds_all_nil]].
    - instantiate (1 := forall n, version = Some n -> v !! "version"%string = Some (CInteger n)).
      destruct version as [n|]; [|by apply holds_done]. eapply holds_mono; [apply holds_on; by apply Pv|].
      intros (x & Hx & E%bool_decide_eq_true) m [= <-]. apply uint_range in E as [-> _]. done.
    - apply (holds_digest_is v "object_digest" digest). by apply Pv. }
  cbn beta. intros [] Hb; cbn [negb]; [|by apply wp_done].
  destruct (Hb eq_refl) as (_ & _ & (kv & Hkv & Hk) & Hsame & Hstate & _ & Hver & Hdig & _).
  destruct (mapM (fixed 32) path) as [siblings|]; [|by apply wp_done].
  destruct (canonical value) as [encoded|] eqn:Ec; [|by apply wp_done].
  apply wp_done. intros Hinc. constructor. exists doc, value, encoded, index, size_, siblings. split_and!; [done..|].
  exists v. split_and!; [done..| |done]. rewrite Hkv. f_equal. unfold is_bytes in Hk. apply bool_decide_eq_true in Hk.
  destruct kv; try done. cbn in Hk. congruence.
Qed.

Lemma verify_counter_head_ok proof root binding minimum :
  holds (verify_counter_head proof root binding minimum) (exists version digest, minimum <= version
    /\ state_proven proof root (state_key "admin_counter" binding) digest "ACTIVE" (Some version)).
Proof.
  unfold verify_counter_head. destruct (document proof _ _) as [doc|] eqn:Hd; [|by apply holds_done].
  apply holds_at; [present|]. intros value Hvalue. clear Hd.
  destruct (document value None _) as [v|] eqn:Hv; [|by apply holds_done].
  apply holds_at; [present|]. intros vv Hvv. apply holds_at; [present|]. intros dv Hdv.
  destruct (positive_ vv) as [version|]; [|by apply holds_done]. destruct (fixed 32 dv) as [digest|]; [|by apply holds_done].
  eapply holds_mono; [apply holds_and; [apply holds_id|intros _; apply verify_state_ok]|].
  intros [Hl%Z.leb_le Hs]. exists version, digest. auto.
Qed.

Definition object_proven (proofs : Doc) (root : bytes) (o : StateObject) : Prop :=
  exists proof, proofs !! o_name o = Some proof
    /\ state_proven proof root (state_key (o_kind o) (o_id o)) (o_digest o) (o_state o) (o_version o).
Lemma objects_loop_ok objects (proofs : Doc) root : Forall (fun o => is_Some (proofs !! o_name o)) objects ->
  wp (objects_loop objects proofs root) (fun r => match r with
    | None => Forall (object_proven proofs root) objects | Some name => name ∈ map o_name objects end).
Proof.
  induction 1 as [|o objects Ho _ IH]; cbn [objects_loop]; [by apply wp_done; constructor|].
  apply wp_bind, wp_at; [done|]. intros proof Hp. apply wp_bind. eapply wp_mono; [apply verify_state_ok|].
  intros [] Hb; [|apply wp_done; by left]. eapply wp_mono; [exact IH|]. cbn beta. intros [name|] Hr; [by right|].
  constructor; [|done]. exists proof. auto.
Qed.

(** The ids under which the authority keeps the objects of a presentation. *)
Record ObjectIds := {
  id_delegation : bytes; id_template : bytes; id_mandate : bytes; id_config : bytes; id_binding : bytes;
  id_selection : bytes; id_challenge : bytes; id_consumption : bytes; id_agent : bytes; id_revision : Z;
  id_grant : bytes; id_grant_version : Z;
}.
Record ids_of (D : RootChain) (A : AgentChain) (sel : Doc) (I : ObjectIds) : Prop := {
  io_delegation : st_doc (delegation D) !! "delegation_id"%string = Some (CBytes (id_delegation I));
  io_template : st_doc (template D) !! "template_id"%string = Some (CBytes (id_template I));
  io_mandate : st_doc (template D) !! "mandate_digest"%string = Some (CBytes (id_mandate I));
  io_config : st_doc (template D) !! "config_digest"%string = Some (CBytes (id_config I));
  io_binding : st_doc (admin D) !! "binding_id"%string = Some (CBytes (id_binding I));
  io_selection : sel !! "challenge_id"%string = Some (CBytes (id_selection I));
  io_challenge : st_doc (admin_challenge D) !! "challenge_id"%string = Some (CBytes (id_challenge I));
  io_consumption : st_doc (consumption D) !! "challenge_id"%string = Some (CBytes (id_consumption I));
  io_agent : st_doc (passport_st A) !! "birthtag"%string = Some (CBytes (id_agent I));
  io_revision : st_doc (passport_st A) !! "revision"%string = Some (CInteger (id_revision I)) /\ 0 <= id_revision I <= I64_MAX;
  io_grant : st_doc (grant D) !! "grant_id"%string = Some (CBytes (id_grant I));
  io_grant_version : st_doc (grant D) !! "grant_version"%string = Some (CInteger (id_grant_version I));
}.
(** The objects, with the state each must be in. *)
Definition authority_objects (D : RootChain) (A : AgentChain) (raw : bytes) (I : ObjectIds) : list StateObject :=
  let digest s := core_digest (core_bytes (st_cwt s)) in
  let revision := id_agent I ++ be_bytes 8 (id_revision I) in
  [state_object "root_delegation" "root_delegation" (id_delegation I) (digest (delegation D)) "ACTIVE" None;
   state_object "registration_template" "registration_template" (id_template I) (digest (template D)) "ACTIVE" None;
   state_object "mandate" "mandate" (id_mandate I) (id_mandate I) "ACTIVE" None;
   state_object "agent_config" "agent_config" (id_config I) (id_config I) "ACTIVE" None;
   state_object "admin_binding" "admin_binding" (id_binding I) (digest (admin D)) "ACTIVE" None;
   state_object "admin_selection" "admin_selection" (id_selection I) (core_digest raw) "ACTIVE" None;
   state_object "admin_challenge" "admin_challenge" (id_challenge I) (digest (admin_challenge D)) "SUPERSEDED" None;
   state_object "admin_consumption" "admin_consumption" (id_consumption I) (digest (consumption D)) "ACTIVE" None;
   state_object "agent_pop" "agent_pop" revision (digest (pop A)) "ACTIVE" None;
   state_object "passport" "agent_credential" revision (digest (passport_st A)) "ACTIVE" None;
   state_object "agent_head" "agent_head" (id_agent I) (digest (passport_st A)) "ACTIVE" (Some (id_revision I));
   state_object "limit_grant" "limit_grant" (id_grant I ++ be_bytes 8 (id_grant_version I)) (digest (grant D)) "ACTIVE" None;
   state_object "grant_head" "grant_head" (id_grant I) (digest (grant D)) "ACTIVE" None]%string.

Lemma wp_rooted_at i e name schema s (Q : Cwt -> Prop) : root_item i e name schema s -> Q (st_cwt s) -> wp (at_ (rooted e) name) Q.
Proof. intros [] Hq. unfold at_. by rewrite ri_rooted0. Qed.
Lemma wp_array32 b (Q : bytes -> Prop) : zlen b = 32 -> Q b -> wp (array32 b) Q.
Proof. intros Hz Hq. unfold array32. by rewrite (proj2 (Z.eqb_eq _ _) Hz). Qed.
(** The statement of a root, then its document. *)
Ltac rooted_pair := apply wp_bind; eapply wp_rooted_at; [eassumption|]; apply wp_bind; eapply wp_plain_core; [eapply ri_plain; eassumption|].
Ltac bytes_step := apply wp_bind; eapply wp_bytes32_at; [eassumption|in_table|intros ? ? ?].

Lemma state_objects_ok i e D A raw value sel : held i e D A -> selection e = Some value -> selection_raw e = raw ->
  plain value = Some sel -> fields_typed sel (schema_fields ADMIN_SELECTION) ->
  wp (state_objects e) (fun objects => exists I, ids_of D A sel I /\ objects = authority_objects D A raw I).
Proof.
  intros [Ho HD HA] Hs Hraw Hp Hst. unfold state_objects. destruct HD as [R1 R2 R3 R4 R5 R6 R7 _].
  pose proof (ri_typed _ _ _ _ _ R1) as T1. pose proof (ri_typed _ _ _ _ _ R2) as T2. pose proof (ri_typed _ _ _ _ _ R3) as T3.
  pose proof (ri_typed _ _ _ _ _ R4) as T4. pose proof (ri_typed _ _ _ _ _ R5) as T5. pose proof (ri_typed _ _ _ _ _ R6) as T6.
  pose proof (si_typed _ _ _ _ _ (ac_passport _ _ _ HA)) as Tp. destruct (ac_pop _ _ _ HA) as [_ Hpop].
  rewrite (ac_credential _ _ _ HA). apply wp_bind, wp_done, wp_bind.
  eapply wp_plain_core; [apply (si_plain _ _ _ _ _ (ac_passport _ _ _ HA))|].
  do 4 rooted_pair. rewrite Hs. apply wp_bind, wp_done. rewrite Hp. apply wp_bind, wp_done. do 2 rooted_pair.
  apply wp_bind. unfold at_ at 1. rewrite Hpop. apply wp_done.
  bytes_step. wp_step. bytes_step. bytes_step. wp_step. bytes_step. bytes_step.
  bytes_step. apply wp_bind, wp_array32; [done|]. bytes_step. apply wp_bind, wp_array32; [done|].
  bytes_step. bytes_step. bytes_step. wp_step. apply wp_done.
  match goal with Hv : st_doc (passport_st A) !! "revision"%string = Some (CInteger ?n), Hw : _ !! "revision"%string = Some ?v |- _ =>
    assert (uint v = Some n) as -> by (simplify_eq; cbn; unfold then_some; rewrite (proj2 (andb_true_iff _ _)); [done|split; apply Z.leb_le; lia])
  end.
  subst raw. eexists (Build_ObjectIds _ _ _ _ _ _ _ _ _ _ _ _). split; [constructor; cbn; eauto|reflexivity].
Qed.

(** What the proofs of a presentation show under the head's state root. *)
Record proof_facts (presented : Doc) (D : RootChain) (A : AgentChain) (sel : Doc) (raw root : bytes) : Prop := {
  qf_objects : exists v proofs I, presented !! "state_proofs"%string = Some v /\ document v None STATE_PROOFS = Some proofs
    /\ ids_of D A sel I /\ Forall (object_proven proofs root) (authority_objects D A raw I)
    /\ match successor D with
       | Some s => exists proof previous previous_digest previous_proof,
           proofs !! "agent_successor"%string = Some proof
           /\ state_proven proof root (state_key "agent_successor" (id_agent I)) (core_digest (core_bytes (st_cwt s))) "ACTIVE" (Some 1)
           /\ st_doc s !! "predecessor_birthtag"%string = Some (CBytes previous)
           /\ st_doc s !! "predecessor_credential_digest"%string = Some (CBytes previous_digest)
           /\ proofs !! "predecessor_head"%string = Some previous_proof
           /\ exists n, st_doc s !! "predecessor_revision"%string = Some (CInteger n)
              /\ state_proven previous_proof root (state_key "agent_head" previous) previous_digest "SUPERSEDED" (Some (n + 1))
       | None => True
       end
    /\ exists proof version digest minimum binding, proofs !! "admin_counter"%string = Some proof
         /\ st_doc (consumption D) !! "binding_id"%string = Some (CBytes binding)
         /\ st_doc (consumption D) !! "counter_version"%string = Some (CInteger minimum) /\ minimum <= version
         /\ state_proven proof root (state_key "admin_counter" binding) digest "ACTIVE" (Some version);
}.

Lemma successor_error_ok i e D A (proofs : Doc) birthtag : held i e D A ->
  is_Some (proofs !! "agent_successor"%string) -> is_Some (proofs !! "predecessor_head"%string) ->
  st_doc (passport_st A) !! "birthtag"%string = Some (CBytes birthtag) ->
  wp (successor_error e (st_doc (passport_st A)) proofs) (fun r => (forall reason, r = Some reason -> early reason) /\ (r = None ->
    match successor D with
       | Some s => exists proof previous previous_digest previous_proof,
           proofs !! "agent_successor"%string = Some proof
           /\ state_proven proof (head_root e) (state_key "agent_successor" birthtag) (core_digest (core_bytes (st_cwt s))) "ACTIVE" (Some 1)
           /\ st_doc s !! "predecessor_birthtag"%string = Some (CBytes previous)
           /\ st_doc s !! "predecessor_credential_digest"%string = Some (CBytes previous_digest)
           /\ proofs !! "predecessor_head"%string = Some previous_proof
           /\ exists n, st_doc s !! "predecessor_revision"%string = Some (CInteger n)
              /\ state_proven previous_proof (head_root e) (state_key "agent_head" previous) previous_digest "SUPERSEDED" (Some (n + 1))
       | None => True
       end)).
Proof.
  intros [Ho HD HA] Hp1 Hp2 Hbt. pose proof (si_typed _ _ _ _ _ (ac_passport _ _ _ HA)) as Tp.
  pose proof (rc_successor _ _ _ HD) as Hs. unfold successor_error. destruct (successor D) as [s|].
  2: { rewrite Hs. apply wp_bind. eapply wp_mono.
    - apply holds_and; [by apply holds_on|intros _; by apply holds_on].
    - intros [] _; apply wp_done; cbn; split; [by intros ? [= <-]|done|by intros ? [= <-]|done]. }
  rewrite (ri_rooted _ _ _ _ _ Hs). pose proof (ri_typed _ _ _ _ _ Hs) as Ts.
  apply wp_bind. eapply wp_plain_core; [apply (ri_plain _ _ _ _ _ Hs)|].
  apply wp_bind, wp_at; [done|]. intros sp Hsp. bytes_step. apply wp_bind. eapply wp_mono; [apply verify_state_ok|]. cbn beta.
  intros ok Hok. apply wp_bind, wp_at; [done|]. intros pp Hpp. bytes_step. bytes_step.
  destruct (field_uint _ _ "predecessor_revision" Ts ltac:(in_table)) as (n & Hn & Hr).
  apply wp_bind. unfold at_ at 1. rewrite Hn. apply wp_done. apply wp_bind. eapply wp_mono; [apply verify_state_ok|]. cbn beta.
  intros ok' Hok'. apply wp_done. destruct ok; cbn [negb]; [|by split; [intros ? [= <-]|]]. destruct ok'; cbn [negb]; [|by split; [intros ? [= <-]|]].
  split; [done|]. intros _. simplify_eq. do 4 eexists. split_and!; [exact Hsp|by apply Hok|eauto|eauto|exact Hpp|].
  exists n. split; [done|]. specialize (Hok' eq_refl). cbn in Hok'. revert Hok'. unfold then_some.
  rewrite (proj2 (andb_true_iff _ _)) by (split; apply Z.leb_le; lia). cbn.
  rewrite (proj2 (Z.leb_le _ _)) by (unfold I64_MAX, U64_MAX in *; lia). done.
Qed.
End Stages.
