(* ===== verification/AssuranceChain.v ===== *)
(** * AssuranceChain: the last stages and the whole evaluation (b28.rs)

    The proofs of authority state, the exact action and the transcript, as in
    [AssuranceSpec]; then the stages composed into the two statements about an exchange:
    no input makes the verifier panic or claim more than it evaluates, and
    DURABLE_REPLAY_REQUIRED is reached only with the whole chain of authority. *)
From S2P Require Import Prelude Hash Merkle Text Json Jcs Utc Dsse CborWire Exec Cwt CwtTypes.
From S2P Require Import Bundle.
From S2P Require Import Counterparty AdminProof Assurance AssuranceSpec.

#[local] Arguments mark : simpl never.
#[local] Arguments initial_vector : simpl never.

(** One condition of a list, with the fact it checks. *)
Ltac fact :=
  lazymatch goal with
  | |- holds (digest_is _ _ _) _ => apply holds_digest_is; present
  | |- holds (same _ _ _ _) _ => eapply holds_same_typed; [eassumption|eassumption|reflexivity|reflexivity]
  | |- holds (current_at _ _ _ _) _ => apply holds_current_at; present
  | |- holds (Done _) _ => apply holds_done
  end.

Section Chain.
Context {H : Hash} {SD : Serde} {B : Base64} {ED : Ed25519} {CA : CiboriumAt} {PC : P256}.

(** ** The proofs of authority state *)

Lemma authority_objects_named (D : RootChain) (A : AgentChain) raw I (v : cbor) (proofs : Doc) :
  document v None STATE_PROOFS = Some proofs ->
  Forall (fun o => is_Some (proofs !! o_name o)) (authority_objects D A raw I).
Proof.
  intros Hd. unfold authority_objects.
  repeat (apply List.Forall_cons; [cbn [o_name state_object]; eapply document_has; [exact Hd|reflexivity]|]).
  apply List.Forall_nil.
Qed.

Lemma authority_proofs_ok i e D A raw value sel : held i e D A -> selection e = Some value -> selection_raw e = raw ->
  plain value = Some sel -> fields_typed sel (schema_fields ADMIN_SELECTION) ->
  wp (authority_proofs e) (ends (fun e' => held i e' D A /\ e' = verified e ["fresh_status"%string]
    /\ proof_facts (pres e) D A sel raw (head_root e))).
Proof.
  intros Hh Hs Hraw Hp Ht. pose proof Hh as [Ho HD HA]. pose proof (op_vector _ _ Ho) as Hv. unfold authority_proofs.
  apply wp_bind. eapply wp_mono; [by eapply state_objects_ok|]. intros objects (I & HI & ->).
  destruct (state_proofs_below _ _ Ho) as (pv & proofs & Hpv & _ & Hdoc).
  apply wp_bind. unfold inner_doc, at_ at 1. rewrite Hpv. apply wp_bind, wp_done. rewrite (document_plain _ _ _ _ Hdoc).
  apply wp_done, wp_bind. eapply wp_mono; [by eapply objects_loop_ok, authority_objects_named|]. cbn beta.
  intros [name|] Hobjects; [wp_step|].
  apply wp_bind. eapply wp_credential_doc; [exact HA|]. apply wp_bind.
  eapply wp_mono; [apply (successor_error_ok i e D A proofs (id_agent I)); [done|present..|apply HI]|].
  cbn beta. intros [reason|] [Hne Hsucc]; [apply ends_stop; [done|auto|by apply Hne]|]. specialize (Hsucc eq_refl).
  pose proof (ri_typed _ _ _ _ _ (rc_consumption _ _ _ HD)) as Hct.
  apply wp_bind. eapply wp_rooted_doc; [apply HD|]. wp_step.
  apply wp_bind. eapply wp_bytes32_at; [exact Hct|in_table|]. intros binding Hb _. wp_step.
  check ltac:(apply verify_counter_head_ok). destruct Hb0 as (version & digest & Hmin & Hproven).
  apply ends_proceed. split_and!; [by apply held_verified|done|]. constructor. exists pv, proofs, I. split_and!; eauto 10.
Qed.

(** ** The exact action *)

(** The grant the delegation's authority gave for this action, and its ceiling. *)
Record grant_facts (i : InputContext) (action deleg grnt : Doc) (scope : bytes) : Prop := {
  tf_delegation : equal_names grnt ["tenant"; "organisation_root"]%string deleg
    /\ equal_members grnt "authority_delegation_id" deleg "delegation_id";
  tf_parties : exists actor recipient, agent_member action "actor" actor /\ agent_member action "recipient" recipient
    /\ equal_members grnt "actor_birthtag" actor "birthtag"
    /\ equal_members grnt "recipient_organisation_root" recipient "organisation_root";
  tf_action : equal_names grnt ["operation"; "unit"; "grant_id"; "grant_version"]%string action;
  tf_scope : action_scope_digest action = Done (Some scope) /\ grnt !! "action_scope_digest"%string = Some (CBytes scope);
  tf_live : current_member grnt "valid_from" "valid_to" (i_now i) /\ current_member grnt "window_start" "window_end" (i_now i);
  tf_ceiling : exists value ceiling, action !! "value"%string = Some value /\ grnt !! "ceiling"%string = Some ceiling
    /\ decimal_at_most value ceiling = true;
}.
(** The action authority reserved exactly this action for this challenge. *)
Record reservation_facts (i : InputContext) (action deleg asa_ : Doc) (action_digest challenge_digest : bytes) : Prop := {
  vf_delegation : equal_names asa_ ["organisation_root"; "tenant"]%string deleg
    /\ equal_members asa_ "authority_delegation_id" deleg "delegation_id";
  vf_action : equal_names asa_ ["asa_id"; "grant_id"; "grant_version"; "expires_at"]%string action;
  vf_digests : asa_ !! "action_digest"%string = Some (CBytes action_digest)
    /\ asa_ !! "challenge_digest"%string = Some (CBytes challenge_digest);
  vf_live : current_member asa_ "issued_at" "expires_at" (i_now i);
}.

Lemma grant_checks_ok i (action deleg grnt actor recipient : Doc) scope :
  fields_typed action action_fields -> fields_typed deleg (schema_fields ROOT_DELEGATION) ->
  fields_typed grnt (schema_fields GRANT) -> agent_member action "actor" actor -> agent_member action "recipient" recipient ->
  action_scope_digest action = Done (Some scope) ->
  holds (grant_checks grnt deleg actor recipient action scope (i_now i)) (grant_facts i action deleg grnt scope).
Proof.
  intros H1 H2 H3 Ha Hr Hs. pose proof Ha as (_ & _ & _ & Hat). pose proof Hr as (_ & _ & _ & Hrt).
  unfold grant_checks. eapply holds_mono.
  - do 12 (apply holds_all_cons; [fact|]). apply holds_all_cons; [|apply holds_all_nil].
    apply holds_at; [present|]. intros v Hv. apply holds_at; [present|]. intros w Hw.
    instantiate (1 := exists value ceiling, action !! "value"%string = Some value
      /\ grnt !! "ceiling"%string = Some ceiling /\ decimal_at_most value ceiling = true).
    fact. eauto.
  - intros Hh. decompose [and] Hh. constructor;
      [split; [by repeat constructor|done]|by exists actor, recipient|by repeat constructor|by split|by split|done].
Qed.
Lemma asa_checks_ok i (action deleg asa_ : Doc) ad cd : fields_typed action action_fields ->
  fields_typed deleg (schema_fields ROOT_DELEGATION) -> fields_typed asa_ (schema_fields ASA) ->
  holds (asa_checks asa_ deleg action ad cd (i_now i)) (reservation_facts i action deleg asa_ ad cd).
Proof.
  intros H1 H2 H3. unfold asa_checks. eapply holds_mono.
  - do 10 (apply holds_all_cons; [fact|]). apply holds_all_nil.
  - intros Hh. decompose [and] Hh. constructor; [split; [by repeat constructor|done]|by repeat constructor|done|done].
Qed.

Lemma action_scope_ok i e : opened i e -> exists scope, action_scope_digest (e_action e) = Done (Some scope).
Proof.
  intros Ho. destruct (op_action _ _ Ho) as (v & _ & Hp & Hc). apply named_digest_ok.
  - apply Forall_forall. intros name Hin.
    assert (forallb (fun name => is_some (field_test action_fields name)) ACTION_SCOPE_FIELDS = true) as Ha by reflexivity.
    rewrite forallb_forall in Ha.
    destruct (field_present _ _ name (op_action_doc _ _ Ho)) as [w Hw]; [by apply Ha, list_elem_of_In|].
    exists w. split; [done|]. by eapply member_below.
  - apply (bool_decide_unpack _). vm_compute. exact I.
Qed.

(** The digests a presentation binds: of the action, of the challenge's core. *)
Definition action_digest_of (e : Evaluation) : bytes := core_digest (action_bytes e).
Definition challenge_digest_of (e : Evaluation) : bytes := core_digest (core_bytes (e_challenge e)).

Lemma exact_action_ok i e D A : held i e D A ->
  wp (exact_action e) (ends (fun e' => held i e' D A
    /\ e' = verified (verified e ["grant"%string]) ["asa_reservation"; "exact_action"]%string
    /\ exists scope, grant_facts i (e_action e) (st_doc (delegation D)) (st_doc (grant D)) scope
      /\ reservation_facts i (e_action e) (st_doc (delegation D)) (st_doc (asa A)) (action_digest_of e) (challenge_digest_of e))).
Proof.
  intros Hh. pose proof Hh as [Ho HD HA]. pose proof (op_vector _ _ Ho) as Hv. unfold exact_action.
  pose proof (ri_typed _ _ _ _ _ (rc_delegation _ _ _ HD)) as Hdt. pose proof (ri_typed _ _ _ _ _ (rc_grant _ _ _ HD)) as Hgt.
  pose proof (op_action_doc _ _ Ho) as Hact. destruct (ac_asa _ _ _ HA) as [Hasa _]. pose proof (si_typed _ _ _ _ _ Hasa) as Hat.
  apply wp_bind. eapply wp_rooted_doc; [apply HD|]. apply wp_bind. eapply wp_rooted_doc; [apply HD|].
  apply wp_bind. eapply wp_agent_at; [exact Hact|reflexivity|]. intros av actor Hav Hap Hactor.
  apply wp_bind. eapply wp_agent_at; [exact Hact|reflexivity|]. intros rv recipient Hrv Hrp Hrecipient.
  destruct (action_scope_ok _ _ Ho) as [scope Hs]. rewrite Hs. apply wp_bind, wp_done, wp_bind, wp_done.
  rewrite (op_input _ _ Ho).
  check ltac:(apply grant_checks_ok; [done..|by exists av|by exists rv|done]).
  assert (held i (verified e ["grant"%string]) D A) as Hh' by by apply held_verified.
  apply wp_bind. eapply wp_signed_doc; [apply (h_agent _ _ _ _ Hh')|].
  pose proof (op_vector _ _ (h_opened _ _ _ _ Hh')) as Hv'. cbn [verified set_vector input e_action action_bytes e_challenge].
  rewrite (op_input _ _ Ho). check ltac:(by apply asa_checks_ok).
  apply ends_proceed. split_and!; [by apply held_verified|done|by exists scope].
Qed.

(** ** The transcript *)

(** The presentation is bound to this exchange, was made between the challenge and the expiry of
    the action, after the documents it rests on, and asks for nothing this verifier leaves out. *)
Record transcript_facts (i : InputContext) (e : Evaluation) (D : RootChain) (A : AgentChain) : Prop := {
  xf_transcript : exists asa_raw encoded, pres e !! "asa"%string = Some (CBytes asa_raw)
    /\ canonical (transcript e asa_raw (core_bytes (st_cwt (asa A)))) = Some encoded
    /\ pres e !! "transcript_digest"%string = Some (CBytes (sha [str_bytes "swarrm-b28/transcript/v1" ++ [0]; encoded]));
  xf_times : exists issued created expires, challenge_doc e !! "issued_at"%string = Some (CInteger issued)
    /\ pres e !! "created_at"%string = Some (CInteger created) /\ e_action e !! "expires_at"%string = Some (CInteger expires)
    /\ issued <= created < expires /\ created <= i_now i
    /\ exists a b c, st_doc (asa A) !! "issued_at"%string = Some (CInteger a)
      /\ st_doc (authority D) !! "issued_at"%string = Some (CInteger b)
      /\ st_doc (snapshot A) !! "status_as_of"%string = Some (CInteger c)
      /\ a <= created /\ b <= created /\ c <= created;
  xf_dimensions : exists required, challenge_doc e !! "required_dimensions"%string = Some (CArray required)
    /\ Forall (fun name => name ∉ UNEVALUATED) (omap text required);
}.
(** The keys under which the relying party must record the action to refuse a replay. *)
Record context_facts (i : InputContext) (e : Evaluation) (D : RootChain) (c : ConsumeContext) : Prop := {
  nf_reservation : exists tenant root delegation_id asa_id, consume_key c = (tenant, root, delegation_id, asa_id)
    /\ st_doc (delegation D) !! "tenant"%string = Some (CText tenant)
    /\ st_doc (delegation D) !! "organisation_root"%string = Some (CBytes root)
    /\ st_doc (delegation D) !! "delegation_id"%string = Some (CBytes delegation_id)
    /\ e_action e !! "asa_id"%string = Some (CBytes asa_id)
    /\ exists actor actor_root action_id, agent_member (e_action e) "actor" actor
      /\ actor !! "organisation_root"%string = Some (CBytes actor_root)
      /\ e_action e !! "action_id"%string = Some (CBytes action_id)
      /\ consume_action_key c = (tenant, actor_root, action_id);
  nf_digests : consume_action_digest c = action_digest_of e /\ consume_presentation_digest c = sha [i_presentation i];
  nf_vector : vector_ok (consume_vector c);
}.

Lemma transcript_canonical e raw b : exists encoded, canonical (transcript e raw b) = Some encoded.
Proof.
  apply named_canonical.
  - apply (bool_decide_unpack _). vm_compute. exact I.
  - repeat (apply List.Forall_cons; [by eexists|]). apply List.Forall_nil.
Qed.
Lemma ordered3_true x y z : ordered3 x y z = true -> exists a b c, x = Some a /\ y = Some b /\ z = Some c /\ a <= b < c.
Proof.
  unfold ordered3. destruct x as [a|], y as [b|], z as [c|]; try done. intros [Ha Hb]%andb_true_iff. bool_prop.
  by exists a, b, c.
Qed.
Lemma assurance_times_ok (asa_ auth snap : Doc) created : is_Some (asa_ !! "issued_at"%string) ->
  is_Some (auth !! "issued_at"%string) -> is_Some (snap !! "status_as_of"%string) ->
  holds (assurance_times asa_ auth snap created)
    (exists a b c, asa_ !! "issued_at"%string = Some (CInteger a) /\ auth !! "issued_at"%string = Some (CInteger b)
      /\ snap !! "status_as_of"%string = Some (CInteger c) /\ a <= created /\ b <= created /\ c <= created).
Proof.
  intros H1 H2 H3. apply holds_at; [done|]. intros u Hu. apply holds_at; [done|]. intros v Hv.
  apply holds_at; [done|]. intros w Hw. apply holds_done.
  destruct (uint u) as [a|] eqn:Ea, (uint v) as [b|] eqn:Eb, (uint w) as [c|] eqn:Ec; try done.
  intros [[??]%andb_true_iff ?]%andb_true_iff. apply uint_range in Ea as [-> _], Eb as [-> _], Ec as [-> _].
  bool_prop. exists a, b, c. auto 8.
Qed.

Lemma wp_signed_at e name schema keys s (Q : Cwt -> Prop) : signed_item e name schema keys s -> Q (st_cwt s) -> wp (at_ (signed e) name) Q.
Proof. intros [_ Hs] Hq. unfold at_. by rewrite Hs. Qed.
Lemma unavailable_none required : zlen (List.filter (fun name => str_in name UNEVALUATED) (omap text required)) = 0 ->
  Forall (fun name => name ∉ UNEVALUATED) (omap text required).
Proof.
  intros Hz. apply Forall_forall. intros name Hin Hu%str_in_elem.
  assert (In name (List.filter (fun name => str_in name UNEVALUATED) (omap text required))) as Hf
    by (apply filter_In; split; [by apply list_elem_of_In|done]).
  destruct (List.filter _ _) as [|x t]; [done|]. rewrite zlen_cons in Hz. pose proof (zlen_nonneg t). lia.
Qed.

Lemma consume_context_ok i e D : opened i e -> fields_typed (st_doc (delegation D)) (schema_fields ROOT_DELEGATION) ->
  wp (consume_context e (st_doc (delegation D))) (context_facts i e D).
Proof.
  intros Ho Hdt. unfold consume_context. pose proof (op_action_doc _ _ Ho) as Hact.
  wp_step. apply wp_bind. eapply wp_text_at; [exact Hdt|reflexivity|]. intros tenant Ht.
  do 5 (apply wp_bind; eapply wp_bytes32_at; [eassumption|in_table|intros ? ? _]). apply wp_done.
  constructor; cbn [consume_key consume_action_key consume_action_digest consume_presentation_digest consume_vector];
    [|by rewrite (op_input _ _ Ho)|apply Ho].
  do 4 eexists. split_and!; [done..|]. do 3 eexists. split_and!; [by eexists|done..].
Qed.

Lemma finish_ok i e D A : held i e D A ->
  wp (finish e) (ends (fun c => transcript_facts i e D A /\ context_facts i e D c)).
Proof.
  intros Hh. pose proof Hh as [Ho HD HA]. pose proof (op_vector _ _ Ho) as Hv. unfold finish.
  pose proof (ri_typed _ _ _ _ _ (rc_delegation _ _ _ HD)) as Hdt. pose proof (ri_typed _ _ _ _ _ (rc_authority _ _ _ HD)) as Hkt.
  pose proof (op_action_doc _ _ Ho) as Hact. pose proof (op_pres _ _ Ho) as Hpt. pose proof (op_doc _ _ Ho) as [_ Hct].
  destruct (ac_asa _ _ _ HA) as [Hasa _], (ac_snapshot _ _ _ HA) as [Hsn _].
  pose proof (si_typed _ _ _ _ _ Hasa) as Hat. pose proof (si_typed _ _ _ _ _ Hsn) as Hst.
  apply wp_bind. eapply wp_rooted_doc; [apply HD|].
  apply wp_bind. eapply wp_sized_at; [exact Hpt|reflexivity|]. intros raw Hraw.
  apply wp_bind. eapply wp_signed_at; [apply HA|].
  destruct (transcript_canonical e raw (core_bytes (st_cwt (asa A)))) as [encoded Hc]. rewrite Hc. apply wp_bind, wp_done.
  check ltac:(apply holds_digest_is; present). wp_step. wp_step. wp_step.
  destruct (ordered3 _ _ _) eqn:Et; cbn [negb]; [|wp_step].
  apply ordered3_true in Et as (issued & created & expires & Ei & Ec & Ee & Hl). apply uint_range in Ei as [-> _], Ec as [-> _], Ee as [-> _].
  apply wp_bind. eapply wp_plain_core; [apply (si_plain _ _ _ _ _ Hasa)|].
  apply wp_bind. eapply wp_rooted_doc; [apply HD|]. apply wp_bind. eapply wp_signed_doc; [apply HA|].
  wp_step. assert (n = created) as -> by congruence.
  check ltac:(apply assurance_times_ok; present). rewrite (op_input _ _ Ho).
  destruct (i_now i <? created) eqn:Eclock; [wp_step|]. apply Z.ltb_ge in Eclock.
  set (e2 := verified e ["transcript"%string]). assert (vector_ok (e_vector e2)) as Hv2 by (by apply mark_ok).
  change (e_action e2) with (e_action e). change (action_bytes e2) with (action_bytes e). change (challenge_doc e2) with (challenge_doc e).
  destruct (field_typed _ _ _ _ Hct (eq_refl : field_test (schema_fields CHALLENGE) "required_dimensions" = Some _)) as (dims & Hd & Hda).
  apply wp_bind. unfold at_ at 1. rewrite Hd. apply wp_done.
  destruct dims as [| | | | | | |required|]; try done. apply wp_bind, wp_done.
  destruct (zlen _ =? 0) eqn:Eu; cbn [negb]; [|wp_step]. apply Z.eqb_eq, unavailable_none in Eu.
  apply wp_bind. eapply wp_mono; [apply (consume_context_ok i e2 D); [by apply opened_verified|done]|]. cbn beta. intros c Hcx.
  apply ends_proceed. split; [|destruct Hcx; by constructor].
  constructor; [by exists raw, encoded|exists issued, created, expires; split_and!; try done; lia|by exists required].
Qed.


(** ** The stages together *)

(** A presentation decides its challenge, and so the action. *)
Lemma opened_action i e e' : opened i e -> opened i e' -> e_action e' = e_action e.
Proof.
  intros Ho Ho'. destruct (op_challenge _ _ Ho) as [Hc _], (op_challenge _ _ Ho') as [Hc' _].
  pose proof (envelope_unique _ _ _ _ _ Hc Hc') as E. destruct (op_doc _ _ Ho) as [Hd _], (op_doc _ _ Ho') as [Hd' _].
  destruct (op_action _ _ Ho) as (v & Hv & Hp & _), (op_action _ _ Ho') as (v' & Hv' & Hp' & _). congruence.
Qed.

(** What a presentation was evaluated to: the statements it holds and the registration's selection. *)
Record Exchange := {
  x_eval : Evaluation; x_roots : RootChain; x_agent : AgentChain;
  x_raw : bytes; x_selection : gmap string cbor; x_state_root : bytes;
}.
(** The whole chain of authority, from a root the relying party pinned to the exact action. *)
Record authority_chain (i : InputContext) (X : Exchange) (c : ConsumeContext) : Prop := {
  wc_held : held i (x_eval X) (x_roots X) (x_agent X);
  wc_roots : root_facts i (e_action (x_eval X)) (x_roots X);
  wc_passport : passport_facts i (e_action (x_eval X)) (x_roots X) (x_agent X);
  wc_registration : exists value, registration_facts i (pres (x_eval X)) (x_roots X) (x_agent X) (x_raw X) value (x_selection X);
  wc_checkpoint : checkpoint_facts i (challenge_doc (x_eval X)) (pres (x_eval X)) (x_roots X) (x_agent X) (x_state_root X);
  wc_proofs : proof_facts (pres (x_eval X)) (x_roots X) (x_agent X) (x_selection X) (x_raw X) (x_state_root X);
  wc_action : exists scope,
    grant_facts i (e_action (x_eval X)) (st_doc (delegation (x_roots X))) (st_doc (grant (x_roots X))) scope
    /\ reservation_facts i (e_action (x_eval X)) (st_doc (delegation (x_roots X))) (st_doc (asa (x_agent X)))
         (action_digest_of (x_eval X)) (challenge_digest_of (x_eval X));
  wc_transcript : transcript_facts i (x_eval X) (x_roots X) (x_agent X);
  wc_context : context_facts i (x_eval X) (x_roots X) c;
}.

Lemma stages_ok i : wp (stages i) (ends (fun c => exists X, authority_chain i X c)).
Proof.
  unfold stages. eapply ends_then; [apply start_ok|]. intros e0 (Ho & Hr & _).
  eapply ends_then; [by apply (roots_ok i)|]. intros e1 (Ho1 & D & HD & Hroots).
  eapply ends_then; [by apply (signatures_ok i _ D)|]. intros e2 (Ho2 & HD2 & A & HA).
  rewrite <- (opened_action _ _ _ Ho1 Ho2) in Hroots. assert (held i e2 D A) as Hh by by constructor.
  eapply ends_then; [by eapply (passport_ok i)|]. intros e3 (Hh3 & E3 & Hpass).
  eapply ends_then; [by eapply (registration_ok i)|]. intros e4 (Hh4 & raw & value & sel & Hreg & E4).
  eapply ends_then; [by eapply (checkpoint_ok i)|]. intros e5 (Hh5 & root & E5 & Hcheck).
  pose proof (gf_selection _ _ _ _ _ _ _ Hreg) as (_ & _ & Hp & Ht).
  eapply ends_then; [apply (authority_proofs_ok i e5 D A raw value sel); [done|by subst e5 e4..|done|done]|].
  intros e6 (Hh6 & E6 & Hproofs).
  eapply ends_then; [by eapply (exact_action_ok i)|]. intros e7 (Hh7 & E7 & scope & Hgrant & Hres).
  eapply ends_mono; [by apply (finish_ok i _ D A)|]. intros c [Hx Hc].
  exists {| x_eval := e7; x_roots := D; x_agent := A; x_raw := raw; x_selection := sel; x_state_root := root |}.
  subst e7 e6 e5 e4 e3. constructor; cbn; eauto.
Qed.

(** What an evaluation may claim. *)
Definition evaluated (i : InputContext) (r : ResultValue) (o : option ConsumeContext) : Prop :=
  (verdict r = "FAIL"%string \/ verdict r = "INDETERMINATE"%string) /\ vector_ok (vector r)
  /\ match o with
     | Some c => r = result_value "INDETERMINATE" "DURABLE_REPLAY_REQUIRED" (consume_vector c) /\ exists X, authority_chain i X c
     | None => early (reason r)
     end.
Lemma evaluate_ok i : wp (evaluate i) (fun r => evaluated i r.1 r.2).
Proof.
  unfold evaluate. apply wp_bind. eapply wp_mono; [apply stages_ok|]. intros [c|r] Hr; apply wp_done; cbn in Hr.
  - split; [by right|]. split; [|done]. destruct Hr as [X HX]. apply (nf_vector _ _ _ _ (wc_context _ _ _ HX)).
  - destruct Hr as (? & ? & ?). by split.
Qed.
End Chain.
