(* ===== verification/AssuranceReport.v ===== *)
(** * AssuranceReport: refusals and the entry point (b28.rs)

    The facts behind a signed refusal, what [verify_b28_cwt] prints for any inputs, and
    the properties of the counterparty verifier as a whole. *)
From S2P Require Import Prelude Hash Merkle Text Json Jcs Utc Dsse CborWire Exec Cwt CwtTypes.
From S2P Require Import Bundle.
From S2P Require Import Counterparty AdminProof Assurance AssuranceSpec AssuranceChain.

#[local] Arguments mark : simpl never.
#[local] Arguments initial_vector : simpl never.

Section Report.
Context {H : Hash} {SD : Serde} {B : Base64} {ED : Ed25519} {CA : CiboriumAt} {PC : P256}.

(** ** Refusals *)

(** [reference] names the agent whose key has this id. *)
Definition agent_named (doc : Doc) (reference kid_ : string) : Prop :=
  exists v d, doc !! reference = Some v /\ plain v = Some d /\ d !! "agent_kid"%string = Some (CText kid_).

(** The actor of a current challenge refused it: both statements are signed, by the agents they
    name, and the refusal binds the challenge's bytes and was made while the challenge was open. *)
Record refusal_facts (i : RefusalContext) : Prop := {
  lf_statements : exists challenge refusal doc refused action action_value,
    cwt_envelope (f_challenge i) CHALLENGE challenge /\ signed_by (f_challenger_keys i) challenge
    /\ plain (core challenge) = Some doc /\ agent_named doc "challenger" (kid challenge)
    /\ doc !! "action"%string = Some action_value /\ plain action_value = Some action
    /\ cwt_envelope (f_refusal i) REFUSAL refusal /\ signed_by (f_responder_keys i) refusal
    /\ plain (core refusal) = Some refused /\ agent_named action "actor" (kid refusal)
    /\ refused !! "challenge_envelope_hash"%string = Some (CBytes (sha [f_challenge i]))
    /\ refused !! "challenge_digest"%string = Some (CBytes (core_digest (core_bytes challenge)))
    /\ exists issued created expires, doc !! "issued_at"%string = Some (CInteger issued)
      /\ action !! "expires_at"%string = Some (CInteger expires)
      /\ refused !! "created_at"%string = Some (CInteger created)
      /\ issued <= created < expires /\ created <= f_now i < expires;
}.

Lemma refusal_time_reason_ok (challenge refusal action : Doc) now : is_Some (challenge !! "issued_at"%string) ->
  is_Some (refusal !! "created_at"%string) -> is_Some (action !! "expires_at"%string) ->
  wp (refusal_time_reason challenge refusal action now) (fun o => match o with
    | Some reason => early reason
    | None => exists issued created expires, challenge !! "issued_at"%string = Some (CInteger issued)
        /\ action !! "expires_at"%string = Some (CInteger expires)
        /\ refusal !! "created_at"%string = Some (CInteger created) /\ issued <= created < expires /\ created <= now
    end).
Proof.
  intros Hi Hc He. unfold refusal_time_reason. apply wp_bind, wp_at; [done|]. intros cv Hcv.
  destruct (uint cv) as [created|] eqn:Ec; [|by apply wp_done].
  destruct (now <? created) eqn:En; [by apply wp_done|]. apply wp_bind, wp_at; [done|]. intros iv Hiv.
  apply wp_bind, wp_at; [done|]. intros ev Hev. apply wp_done. destruct (current _ _ _) eqn:Er; cbn; [|done].
  apply current_true in Er as (a & b & Ha & Hb & Hl). apply uint_range in Ec as [-> _], Ha as [-> _], Hb as [-> _].
  apply Z.ltb_ge in En. exists a, created, b. auto.
Qed.

(** What a refusal may be evaluated to. *)
Definition refusal_evaluated (i : RefusalContext) (r : ResultValue) : Prop :=
  (verdict r = "FAIL"%string \/ verdict r = "INDETERMINATE"%string) /\ vector_ok (vector r)
  /\ reason r <> "DURABLE_REPLAY_REQUIRED"%string /\ (reason r = "SIGNED_REFUSAL"%string -> refusal_facts i).
Lemma refusal_ends i v re : v = "FAIL"%string \/ v = "INDETERMINATE"%string ->
  early re ->
  wp (Done (result_value v re initial_vector)) (refusal_evaluated i).
Proof. intros Hv [H1 H2]. apply wp_done. split_and!; [done|apply initial_vector_ok|done|done]. Qed.
Ltac refuse := apply refusal_ends; [auto|by split].

Lemma evaluate_refusal_ok i : wp (evaluate_refusal i) (refusal_evaluated i).
Proof.
  unfold evaluate_refusal. cbv zeta. do 2 (destruct (bool_decide _); [refuse|]).
  apply wp_bind. eapply wp_mono; [apply signed_cwt_ok|]. intros [ch|] Hch; [|refuse].
  destruct (Hch ch eq_refl) as [He Hs]. clear Hch. destruct (envelope_doc _ _ _ He) as (cd & Hcd & Hct).
  apply wp_bind. eapply wp_plain_core; [exact Hcd|]. wp_step. rename v into chv, d into chd.
  check ltac:(apply holds_text_is; present); [|refuse]. wp_step. rename v into av, d into action. wp_step. wp_step.
  destruct (current _ _ _) eqn:Ecur; cbn [negb]; [|refuse].
  apply current_true in Ecur as (a & b & Ha & Hb' & Hl). apply uint_range in Ha as [-> _], Hb' as [-> _].
  apply wp_bind. eapply wp_mono; [apply signed_cwt_ok|]. intros [rf|] Hrf; [|refuse].
  destruct (Hrf rf eq_refl) as [Hre Hrs]. clear Hrf. destruct (envelope_doc _ _ _ Hre) as (rd & Hrd & Hrt).
  apply wp_bind. eapply wp_plain_core; [exact Hrd|]. wp_step. rename v into acv, d into actor.
  check ltac:(apply holds_text_is; present); [|refuse].
  check ltac:(repeat apply holds_all_cons; [apply holds_digest_is; present..|apply holds_all_nil]); [|refuse].
  apply wp_bind. eapply wp_mono; [apply refusal_time_reason_ok; present|]. cbn beta.
  intros [reason|] Htime; [by apply refusal_ends; [left|]|].
  apply wp_done. split_and!; [by left|by apply mark_ok; [apply initial_vector_ok|]|done|]. intros _.
  destruct Htime as (issued & created & expires & Hi & Hx & Hc & Hw & Hn). destruct Hb1 as (Hd1 & Hd2 & _). simplify_eq.
  constructor. exists ch, rf, cd, rd, action, av. split_and!; try done; [by exists chv, chd|by exists acv, actor|].
  do 3 eexists. split_and!; try done; lia.
Qed.

(** ** The printed result *)

Lemma obj_get_elem {A} (l : list (string * A)) k v : NoDup l.*1 -> (k, v) ∈ l -> obj_get l k = Some v.
Proof.
  induction l as [|[j x] l IH]; intros Hn Hin; [by apply elem_of_nil in Hin|]. inversion Hn as [|? ? Hj Hn']; subst. cbn.
  apply elem_of_cons in Hin as [[= <- <-]|Hin]; [by rewrite String.eqb_refl|].
  destruct (String.eqb_spec k j) as [->|_]; [|by apply IH]. destruct Hj. apply list_elem_of_fmap. by exists (j, v).
Qed.
Lemma vector_get (v : gmap string string) name x : v !! name = Some x ->
  idx (json_of_list (map (fun kv => (kv.1, JString kv.2)) (map_to_list v))) name = JString x.
Proof.
  intros Hv. unfold idx. rewrite get_json_of_list. set (l := map _ _).
  assert (NoDup l.*1) as Hn.
  { unfold l. rewrite map_map. cbn. apply NoDup_fst_map_to_list. }
  rewrite (obj_get_elem _ name (JString x)); [done| |].
  - rewrite map_rev. by apply NoDup_ListNoDup, List.NoDup_rev, NoDup_ListNoDup.
  - apply list_elem_of_In, in_rev. rewrite rev_involutive. apply list_elem_of_In, list_elem_of_fmap.
    exists (name, x). split; [done|]. by apply elem_of_map_to_list.
Qed.
Lemma result_members r : idx (result_json r) "verdict" = JString (verdict r) /\ idx (result_json r) "reasons" = JArray [JString (reason r)]
  /\ idx (result_json r) "should_execute" = JBool false
  /\ idx (result_json r) "vector" = json_of_list (map (fun kv => (kv.1, JString kv.2)) (map_to_list (vector r))).
Proof. by split_and!. Qed.

(** A printed result claims no more than the verifier evaluates: it never tells to execute, never
    reports success, and never says that replay or a dimension left out was verified. *)
Record bounded_claim (out : json) : Prop := {
  bc_verdict : idx out "verdict" = JString "FAIL" \/ idx out "verdict" = JString "INDETERMINATE";
  bc_execute : idx out "should_execute" = JBool false;
  bc_replay : idx (idx out "vector") "replay" = JString "INDETERMINATE";
  bc_unevaluated : forall name, name ∈ UNEVALUATED -> idx (idx out "vector") name = JString "NOT_EVALUATED_V1";
}.
Lemma result_bounded r : verdict r = "FAIL"%string \/ verdict r = "INDETERMINATE"%string -> vector_ok (vector r) -> bounded_claim (result_json r).
Proof.
  intros Hv (Hr & Hu & _). destruct (result_members r) as (E1 & _ & E3 & E4).
  constructor; rewrite ?E1, ?E3, ?E4; [by destruct Hv as [-> | ->]; auto|done|by apply vector_get|].
  intros name Hn. by apply vector_get, Hu.
Qed.

(** ** The entry point *)

(** The exchange is a presentation to the relying party's context, under the roots of the pinned pack. *)
Record presented (exchange local_context pack pin : bytes) (i : InputContext) : Prop := {
  pr_context : exists l i0 roots, parse_local_context local_context = Done (inl (PresentationContext l))
    /\ context_ok (PresentationContext l)
    /\ parse_input exchange l = Done (Some i0) /\ i = with_roots i0 roots
    /\ parse_pinned_trust_pack pack pin = Done (Some roots) /\ pin = sha [pack] /\ map_Forall anchor_ok roots;
  pr_generation : mixed_generation [i_challenge i; i_presentation i] = false;
}.
Record refused (exchange local_context pack pin : bytes) (i : RefusalContext) : Prop := {
  fr_context : exists l, parse_local_context local_context = Done (inl (RefusalContextOf l))
    /\ context_ok (RefusalContextOf l) /\ parse_refusal exchange l = Done (Some i);
  fr_pinned : exists roots, parse_pinned_trust_pack pack pin = Done (Some roots) /\ pin = sha [pack];
  fr_generation : mixed_generation [f_challenge i; f_refusal i] = false;
}.
(** The result behind what is printed. *)
Record reported (exchange local_context pack pin : bytes) (r : ResultValue) : Prop := {
  rp_verdict : verdict r = "FAIL"%string \/ verdict r = "INDETERMINATE"%string;
  rp_vector : vector_ok (vector r);
  rp_durable : reason r = "DURABLE_REPLAY_REQUIRED"%string -> exists i X c, presented exchange local_context pack pin i
    /\ authority_chain i X c /\ vector r = consume_vector c;
  rp_refusal : reason r = "SIGNED_REFUSAL"%string -> exists i, refused exchange local_context pack pin i /\ refusal_facts i;
}.

Lemma reported_early exchange local pack pin v re : v = "FAIL"%string \/ v = "INDETERMINATE"%string -> early re ->
  reported exchange local pack pin (result_value v re initial_vector).
Proof. intros Hv [H1 H2]. constructor; [done|apply initial_vector_ok|done|done]. Qed.

Lemma parse_input_ok exchange l : wp (parse_input exchange l) (fun _ => True).
Proof.
  unfold parse_input. destruct (decode exchange MAX_INPUT) as [v|]; [|by apply wp_done].
  destruct (document v None _) as [doc|] eqn:Hd; [|by apply wp_done]. repeat parse_step. by apply wp_done.
Qed.
Lemma parse_refusal_ok exchange l : wp (parse_refusal exchange l) (fun _ => True).
Proof.
  unfold parse_refusal. destruct (decode exchange MAX_INPUT) as [v|]; [|by apply wp_done].
  destruct (document v None _) as [doc|] eqn:Hd; [|by apply wp_done]. repeat parse_step. by apply wp_done.
Qed.
Lemma context_error_early reason : str_in reason ["VERIFIER_CONTEXT_INVALID"; "LOCAL_CLOCK_INVALID"]%string = true -> early reason.
Proof. intros [->|[->| []%elem_of_nil]%elem_of_cons]%str_in_elem%elem_of_cons; by split. Qed.

Lemma verify_b28_cwt_ok exchange local pack pin :
  wp (verify_b28_cwt exchange local pack pin) (fun out => exists r, out = result_json r /\ reported exchange local pack pin r).
Proof.
  unfold verify_b28_cwt.
  assert (forall v re, v = "FAIL"%string \/ v = "INDETERMINATE"%string -> early re ->
    wp (Done (result_json (result_value v re initial_vector)))
      (fun out => exists r, out = result_json r /\ reported exchange local pack pin r)) as Hearly
    by (intros v re Hv Hr; apply wp_done; eexists; split; [done|by apply reported_early]).
  destruct (wp_total _ _ (parse_local_context_ok local)) as (ctx & Ectx & Hctx). rewrite Ectx. apply wp_bind, wp_done.
  destruct ctx as [[l|l]|reason]; [| |apply Hearly; [auto|by apply context_error_early]]; cbn [context_read] in Hctx.
  - destruct (wp_total _ _ (parse_input_ok exchange l)) as (i & Ei & _). rewrite Ei. apply wp_bind, wp_done.
    destruct i as [i|]; [|apply Hearly; [auto|by split]]. destruct (mixed_generation _) eqn:Em; [apply Hearly; [auto|by split]|].
    destruct (wp_total _ _ (parse_pinned_trust_pack_ok pack pin)) as (roots & Er & Hr). rewrite Er. apply wp_bind, wp_done.
    destruct roots as [roots|]; [|apply Hearly; [auto|by split]]. destruct (Hr roots eq_refl) as (Hpin & _ & _ & Hanchors).
    apply wp_bind. eapply wp_mono; [apply evaluate_ok|]. intros [r o] (Hv & Hvec & Ho). cbn [fst snd] in *. apply wp_done.
    exists r. split; [done|]. destruct o as [c|]; [|destruct Ho; by constructor].
    destruct Ho as [-> [X HX]]. constructor; [done|done| |done]. intros _. exists (with_roots i roots), X, c. split_and!; [|done|done].
    constructor; [|done]. exists l, i, roots. by split_and!.
  - destruct (wp_total _ _ (parse_refusal_ok exchange l)) as (i & Ei & _). rewrite Ei. apply wp_bind, wp_done.
    destruct i as [i|]; [|apply Hearly; [auto|by split]]. destruct (mixed_generation _) eqn:Em; [apply Hearly; [auto|by split]|].
    destruct (wp_total _ _ (parse_pinned_trust_pack_ok pack pin)) as (roots & Er & Hr). rewrite Er. apply wp_bind, wp_done.
    destruct roots as [roots|]; [|apply Hearly; [auto|by split]]. destruct (Hr roots eq_refl) as (Hpin & _).
    apply wp_bind. eapply wp_mono; [apply evaluate_refusal_ok|]. intros r (Hv & Hvec & Hd & Hs). apply wp_done.
    exists r. split; [done|]. constructor; [done|done|done|]. intros Hreason. exists i. split; [|by apply Hs].
    constructor; [by exists l|by exists roots|done].
Qed.

(** C7: whatever the exchange, the local context, the trust pack and the pin, the verifier returns
    a result without panicking, and the result is bounded: its verdict is FAIL or INDETERMINATE, it
    never tells to execute, it leaves replay to the relying party, and the dimensions it does not
    evaluate stay marked as not evaluated. *)
Theorem verify_b28_cwt_total (exchange local pack pin : bytes) :
  exists out, verify_b28_cwt exchange local pack pin = Done out /\ bounded_claim out.
Proof.
  destruct (wp_total _ _ (verify_b28_cwt_ok exchange local pack pin)) as (out & E & r & -> & Hr).
  exists (result_json r). split; [done|]. by apply result_bounded; destruct Hr.
Qed.

(** C6: DURABLE_REPLAY_REQUIRED, the best result there is, is printed only for a presentation
    whose whole chain of authority holds under the pinned roots: current delegation, template,
    administrator's registration with its WebAuthn proof, passport of the acting agent, fresh
    checkpoint at the registered head with every object's state proven under it, a grant that covers
    the action, a reservation of exactly this action for this challenge, and the transcript. *)
Theorem durable_replay_sound (exchange local pack pin : bytes) (out : json) :
  verify_b28_cwt exchange local pack pin = Done out -> idx out "reasons" = JArray [JString "DURABLE_REPLAY_REQUIRED"] ->
  exists i X c, presented exchange local pack pin i /\ authority_chain i X c.
Proof.
  intros E Hr. destruct (wp_result _ _ _ (verify_b28_cwt_ok exchange local pack pin) E) as (r & -> & Hp).
  destruct (result_members r) as (_ & E2 & _). rewrite E2 in Hr. injection Hr as Hr.
  destruct (rp_durable _ _ _ _ _ Hp Hr) as (i & X & c & ? & ? & _). by exists i, X, c.
Qed.

(** C29: SIGNED_REFUSAL is printed only when the agent that a current challenge addresses signed a
    refusal bound to that challenge's bytes, between the challenge and its expiry, and the challenge
    is signed by the challenger it names, both with keys of the relying party's context. *)
Theorem signed_refusal_sound (exchange local pack pin : bytes) (out : json) :
  verify_b28_cwt exchange local pack pin = Done out -> idx out "reasons" = JArray [JString "SIGNED_REFUSAL"] ->
  exists i, refused exchange local pack pin i /\ refusal_facts i.
Proof.
  intros E Hr. destruct (wp_result _ _ _ (verify_b28_cwt_ok exchange local pack pin) E) as (r & -> & Hp).
  destruct (result_members r) as (_ & E2 & _). rewrite E2 in Hr. injection Hr as Hr. by apply (rp_refusal _ _ _ _ _ Hp).
Qed.
End Report.
