(* ===== verification/Instances.v ===== *)
(** * Instances: concrete functions for the third-party operations

    The witnesses evaluate the development on concrete inputs, so every class of
    external operations has an executable instance here: a 32-byte digest, a
    signature scheme built on it, hex as the byte-to-text encoding, a JSON string
    writer, and parsers given by the documents of an example.  They satisfy the laws
    the theorems ask for; nothing outside the witnesses depends on them. *)
From S2P Require Import Prelude Hash Text Json Jcs Utc Dsse Bundle PyValue.

(** ** A digest *)

(** A 64-bit multiplicative digest, written four times over. *)
Definition digest_number (m : bytes) : Z :=
  fold_left (fun acc b => Z.land (Z.lxor (Z.shiftl acc 5 + acc) b + 1) 18446744073709551615) m 5381.
Fixpoint be_bytes (n : nat) (x : Z) : bytes :=
  match n with O => [] | Datatypes.S n => be_bytes n (Z.shiftr x 8) ++ [Z.land x 255] end.
Definition toy_digest (m : bytes) : bytes :=
  let d := be_bytes 8 (digest_number m) in d ++ d ++ d ++ d.
#[export] Instance toy_hash : Hash := toy_digest.

Lemma length_be_bytes n x : length (be_bytes n x) = n.
Proof. revert x. induction n as [|n IH]; intros x; [done|]. cbn [be_bytes]. rewrite length_app, IH. cbn [length]. lia. Qed.
Lemma be_bytes_range n x : Forall is_byte (be_bytes n x).
Proof.
  revert x. induction n as [|n IH]; intros x; [constructor|]. cbn [be_bytes]. apply Forall_app. split; [done|].
  constructor; [|done]. unfold is_byte. change 255 with (2 ^ 8 - 1). rewrite land_ones_mod by lia.
  apply Z.mod_pos_bound. lia.
Qed.
#[export] Instance toy_hash_laws : HashLaws.
Proof. split; intros m; unfold toy_hash, sha256_digest, toy_digest.
  - by rewrite !length_app, !length_be_bytes.
  - rewrite !Forall_app. auto using be_bytes_range. Defined.

(** ** A signature scheme *)

Definition toy_sign (key msg : bytes) : bytes := toy_digest (key ++ msg) ++ toy_digest (msg ++ key).
#[export] Instance toy_ed25519 : Ed25519 := {|
  verifying_key := bytes;
  vk_from_bytes := fun k => then_some (zlen k =? 32) k;
  vk_verify := fun k msg sig => bytes_eqb sig (toy_sign k msg);
|}.

(** ** A byte-to-text encoding *)

#[export] Instance hex_base64 : Base64 := {|
  b64_decode := hex_to_bytes; b64_encode := hex; url_decode := hex_to_bytes; url_encode := hex;
|}.
#[export] Instance hex_base64_laws : Base64Laws.
Proof. split; intros b Hb; by apply hex_to_bytes_hex. Defined.

(** ** A JSON string writer *)

Definition escape (b : u8) : bytes :=
  if (b =? 34) || (b =? 92) then [92; b]
  else if b <? 32 then [92; 117; 48; 48; hex_digit (Z.shiftr b 4); hex_digit (Z.land b 15)]
  else [b].
Definition toy_write_string (s : string) : bytes := 34 :: flat_map escape (str_bytes s) ++ [34].
(** A numeric literal for a finite binary number: mantissa and exponent. *)
Definition toy_format_finite (f : spec_float) : string :=
  match f with
  | S754_finite s m e => ((if s then "-" else "0") +:+ int_to_string (Zpos m) +:+ "e" +:+ int_to_string e)%string
  | _ => "0"%string
  end.

(** Parsers known by the documents of an example. *)
Definition table_parse {A} (docs : list (bytes * A)) (raw : bytes) : option A :=
  snd <$> List.find (fun d => bytes_eqb d.1 raw) docs.
Definition table_serde (values : list (bytes * json)) (events : list (bytes * event)) : Serde := {|
  from_slice := table_parse values; deserialize_events := table_parse events;
  write_string := toy_write_string; format_finite := toy_format_finite;
|}.

Lemma escape_inj b c r r' : is_byte b -> is_byte c -> escape b ++ r = escape c ++ r' -> b = c /\ r = r'.
Proof.
  unfold is_byte, escape. intros Hb Hc E.
  destruct ((b =? 34) || (b =? 92)) eqn:Eb, ((c =? 34) || (c =? 92)) eqn:Ec.
  - injection E as -> ->. done.
  - destruct (c <? 32); [injection E as Hx _; lia|injection E as Hx _; lia].
  - destruct (b <? 32); [injection E as Hx _; lia|injection E as Hx _; lia].
  - destruct (b <? 32) eqn:Lb, (c <? 32) eqn:Lc.
    + injection E as H1 H2 H3. split; [|done].
      destruct (byte_nibbles b Hb) as (Hb1 & Hb2 & Hb3), (byte_nibbles c Hc) as (Hc1 & Hc2 & Hc3).
      apply (f_equal hex_nibble) in H1, H2. rewrite !nibble_digit in H1, H2 by done. congruence.
    + injection E as Hx _. lia.
    + injection E as Hx _. lia.
    + injection E as -> ->. done.
Qed.
Lemma escaped_prefix a b r r' : Forall is_byte a -> Forall is_byte b ->
  flat_map escape a ++ 34 :: r = flat_map escape b ++ 34 :: r' -> a = b /\ r = r'.
Proof.
  assert (forall x s t, is_byte x -> escape x ++ s <> 34 :: t) as Hq.
  { intros x s t Hx E. unfold escape in E. destruct ((x =? 34) || (x =? 92)) eqn:Ex; [injection E as Hy _; lia|].
    destruct (x <? 32); injection E as Hy _; [lia|subst; done]. }
  intros Ha. revert b. induction Ha as [|x a Hx Ha IH]; intros b Hb; destruct Hb as [|y b Hy Hb]; cbn; intros E.
  - by injection E as ->.
  - rewrite <- app_assoc in E. symmetry in E. by apply Hq in E.
  - rewrite <- app_assoc in E. by apply Hq in E.
  - rewrite <- !app_assoc in E. apply escape_inj in E as [-> E]; [|done|done].
    apply IH in E as [-> ->]; auto.
Qed.
Lemma number_bytes_app a b :
  forallb number_byte (str_bytes a) = true -> forallb number_byte (str_bytes b) = true ->
  forallb number_byte (str_bytes (a +:+ b)) = true.
Proof. intros Ha Hb. rewrite string_bytes_app, forallb_app, Ha, Hb. done. Qed.
Lemma int_number_bytes n : forallb number_byte (str_bytes (int_to_string n)) = true.
Proof. destruct (int_text n) as (c & t & -> & Hc & Ht). cbn. by rewrite Hc. Qed.

#[export] Instance table_serde_laws values events : @SerdeLaws (table_serde values events).
Proof.
  split.
  - intros s. by eexists.
  - intros s t r r' E. cbn [write_string table_serde] in E. unfold toy_write_string in E.
    injection E as E. rewrite <- !app_assoc in E.
    apply escaped_prefix in E as [E ->]; [|apply str_bytes_range..]. by apply str_bytes_inj in E as ->.
  - intros f Hf. cbn [format_finite table_serde]. destruct f as [s|s| |s m e]; try done; [by exists 48, []|].
    assert (forallb number_byte (str_bytes (int_to_string (Zpos m) +:+ "e" +:+ int_to_string e)) = true) as Hr
      by (repeat apply number_bytes_app; auto using int_number_bytes).
    unfold toy_format_finite. destruct s; rewrite string_bytes_app;
      (eexists _, _; split; [reflexivity|split; [reflexivity|exact Hr]]).
Defined.

(** ** Timestamp tokens: none verifies *)
#[export] Instance no_tsa : Tsa := fun _ _ _ _ => None.
#[export] Instance no_tsa_laws : TsaLaws.
Proof. split; done. Defined.

(** ** Display: the canonical text, which is what serde_json prints on the examples' values *)
Definition toy_value_display (v : json) : string :=
  unwrap_or (bytes_str <$> @canonical_checked (table_serde [] []) v) EmptyString.
#[export] Instance toy_display : Display := {|
  number_display := fun n => toy_value_display (JNumber n); value_display := toy_value_display;
|}.
