(* ===== verification/Example.v ===== *)
(** * Example: a small log and the bundle exported from it

    Four receipts: the genesis key, a recorder key sponsored by it, an agent's receipt
    attested by both, and the recorder key's revocation; two checkpoints, at sizes one
    and four; a signed export manifest; a disclosure of the agent's committed payload.
    The witnesses of the theorems evaluate the development on it. *)
From S2P Require Import Prelude Hash Text Json Jcs Utc Dsse KeyLog Merkle Checkpoint Trust Entries Bundle Disclosure Instances.

#[local] Instance writer : Serde := table_serde [] [].
Definition str (s : string) : json := JString s.
Definition int (n : Z) : json := JNumber (num_of_int n).
Definition arr (l : list json) : json := JArray l.
Definition obj (l : list (string * json)) : json := json_of_list l.
Definition canon (v : json) : bytes := unwrap_or (canonical_checked v) [].

(** Keys. *)
Definition issuer_material : bytes := replicate 32 7.
Definition recorder_material : bytes := replicate 32 9.
Definition jwk_of (k : bytes) : json :=
  obj [("kty", str "OKP"); ("crv", str "Ed25519"); ("x", str (hex k)); ("kid", str (kid_of k))]%string.
Definition signature_of (k msg : bytes) : json :=
  obj [("keyid", str (kid_of k)); ("sig", str (hex (toy_sign k msg)))]%string.

(** Receipts. *)
Definition receipt_of (agent action : string) (seq : Z) (commitments context : list (string * json)) : json :=
  obj [("schema", str RECEIPT_SCHEMA); ("tenant_id", str "acme"); ("agent_id", str agent); ("seq", int seq);
       ("action_type", str action); ("commitments", obj commitments); ("context", obj context); ("parents", arr []);
       ("ts_client", str "2026-01-02T03:04:05Z"); ("ts_server", str "2026-01-02T03:04:06.5Z");
       ("idempotency_key", str (action +:+ "-1"))]%string.
Definition secret_nonce : bytes := replicate 16 42.
Definition secret_payload : bytes := [1; 0; 2; 3].
Definition body0 : json := Eval vm_compute in receipt_of "_system" "evd.key.created" 1 []
  [("jwk", jwk_of issuer_material); ("effective_ts", str "2026-01-01T00:00:00Z")]%string.
Definition body1 : json := Eval vm_compute in receipt_of "_system" "evd.key.created" 2 []
  [("jwk", jwk_of recorder_material); ("effective_ts", str "2026-01-01T00:00:00Z"); ("role", str "recorder")]%string.
Definition body2 : json := Eval vm_compute in receipt_of "agent-7" "tool.call" 1
  [("payload", str (disclosure_commitment "evd/v1/payload" secret_payload secret_nonce))]%string [].
Definition body3 : json := Eval vm_compute in receipt_of "_system" "evd.key.revoked" 3 []
  [("jwk", jwk_of recorder_material); ("effective_ts", str "2026-01-03T00:00:00Z")]%string.
Definition bodies : list json := [body0; body1; body2; body3].

Definition envelope_of (body : json) (signers : list bytes) : json :=
  obj [("payload", str (hex (canon body))); ("payloadType", str RECEIPT_TYPE);
       ("signatures", arr (map (fun k => signature_of k (pae RECEIPT_TYPE (canon body))) signers))]%string.
Definition leaves : list bytes := Eval vm_compute in map (fun b => leaf_hash_of (canon b)) bodies.
Definition hashes (l : list bytes) : json := arr (map (fun h => str (hex h)) l).
Definition entry_of (i : nat) (body : json) (signers : list bytes) : json :=
  obj [("envelope", envelope_of body signers); ("leaf_index", int (Z.of_nat i));
       ("inclusion_proof", hashes (path i leaves))]%string.
Definition entries : list json := Eval vm_compute in
  [entry_of 0 body0 [issuer_material]; entry_of 1 body1 [issuer_material];
   entry_of 2 body2 [issuer_material; recorder_material]; entry_of 3 body3 [issuer_material]].

(** Checkpoints. *)
Definition origin : string := "log.example/acme".
Definition checkpoint_of (size : nat) (ts prev_hash : string) : json :=
  let body := obj [("schema", str "evd/checkpoint/v1"); ("origin", str origin); ("tree_size", int (Z.of_nat size));
    ("root_hash", str (hex (mth (take size leaves)))); ("ts", str ts); ("prev_hash", str prev_hash)]%string in
  obj [("body", body); ("kid", str (kid_of issuer_material));
       ("sig", str (hex (toy_sign issuer_material (pae CHECKPOINT_TYPE (canon body)))))]%string.
Definition checkpoint1 : json := Eval vm_compute in checkpoint_of 1 "2026-01-02T03:04:10Z" EmptyString.
Definition hash_of (cp : json) : string := unwrap_or (checkpoint_body_hash cp) EmptyString.
Definition checkpoint4 : json := Eval vm_compute in checkpoint_of 4 "2026-01-03T00:00:10Z" (hash_of checkpoint1).
Definition chain : list json := [checkpoint1; checkpoint4].
Definition chain_entries : list json := Eval vm_compute in
  [obj [("checkpoint", checkpoint1)]%string;
   obj [("checkpoint", checkpoint4); ("consistency_from_prev", hashes (consistency_proof 1 leaves))]%string].

(** The export. *)
Definition manifest : json := Eval vm_compute in
  let body := obj [("schema", str "evd/export-manifest/v1"); ("origin", str origin);
    ("target_checkpoint_hash", str (hash_of checkpoint4)); ("ts", str "2026-01-03T00:00:10Z");
    ("receipt_hashes", arr (map (fun b => str (hex (sha256 (canon b)))) bodies))]%string in
  obj [("body", body); ("kid", str (kid_of issuer_material));
       ("sig", str (hex (toy_sign issuer_material (pae EXPORT_MANIFEST_TYPE (canon body)))))]%string.
Definition bundle : json := Eval vm_compute in
  obj [("schema", str "evd/bundle/v1"); ("origin", str origin); ("entries", arr entries);
       ("jwks", obj [("keys", arr [jwk_of issuer_material])]); ("target_checkpoint", checkpoint4);
       ("checkpoint_chain", arr chain_entries); ("export_manifest", manifest)]%string.
(** The relying party's context: it names the recorder's key and the log's. *)
Definition trust : json := Eval vm_compute in
  obj [("recorder_keys", obj [(kid_of recorder_material, str (hex recorder_material))]);
       ("log_keys", obj [(origin, str (hex issuer_material))])]%string.
Definition disclosure : json := Eval vm_compute in
  obj [("schema", str DISCLOSURE_SCHEMA); ("receipt_hash", str (hex (sha256 (canon body2)))); ("field", str "payload");
       ("domain", str "evd/v1/payload"); ("nonce_hex", str (hex secret_nonce)); ("payload_b64", str (hex secret_payload))]%string.

(** The parsers of the example: each receipt's payload is its canonical form. *)
#[export] Instance example_serde : Serde := table_serde (map (fun b => (canon b, b)) bodies) [].
