(* ===== verification/ExampleWire.v ===== *)
(** * ExampleWire: a registered statement, its receipt and the pack that carries them

    A certificate id signed by an issuer under COSE, a transparency service's receipt for
    it in a log of three leaves, and the pack with a registration policy signed by a
    local root.  The witnesses of the CBOR, COSE and SCITT theorems evaluate it. *)
From S2P Require Import Prelude Hash Text Json Jcs Dsse Merkle CborWire Cose Scitt Disclosure Instances Example.

Definition bytes_of (o : option bytes) : bytes := unwrap_or o [].
Definition cert_hash : bytes := Eval vm_compute in sha256 [1; 2; 3].
Definition cert_id : string := Eval vm_compute in hex cert_hash.
Definition service_material : bytes := replicate 32 11.
Definition root_material : bytes := replicate 32 13.
(** The key that signs statements: it has the scitt-issuer role in its log. *)
Definition scitt_material : bytes := replicate 32 15.
Definition scitt_kid : string := Eval vm_compute in Dsse.kid_of scitt_material.
Definition issuers : gmap string bytes := {[ scitt_kid := scitt_material ]}.
Definition service_kid : string := Eval vm_compute in Dsse.kid_of service_material.
Definition services : gmap string bytes := {[ service_kid := service_material ]}.

(** A COSE_Sign1 of the given parts: its protected bytes and the envelope. *)
Definition protected_of (pr : cbor) : bytes := bytes_of (canonical_bytes pr 16 COSE_PROFILE).
Definition framing_of (key : bytes) (pr u : cbor) (p : option bytes) : cbor :=
  framing (protected_of pr) u p (toy_sign key (bytes_of (sig_structure (protected_of pr) p))).
Definition raw_of (key : bytes) (pr u : cbor) (p : option bytes) : bytes :=
  bytes_of (canonical_bytes (framing_of key pr u p) 16 COSE_PROFILE).

(** The statement. *)
Definition statement_protected : cbor := Eval vm_compute in
  CMap [(CInteger 1, CInteger (-8)); (CInteger 3, CText STATEMENT_CTY); (CInteger 4, CBytes (str_bytes scitt_kid));
        (CInteger 15, CMap [(CInteger 1, CText "issuer"); (CInteger 2, CText cert_id)])].
Definition statement_raw : bytes := Eval vm_compute in
  raw_of scitt_material statement_protected (CMap []) (Some cert_hash).
Definition statement : bytes := TAG_SIGN1 :: statement_raw.

(** The log and its checkpoint. *)
Definition log_leaves : list bytes := Eval vm_compute in
  [sha256 [0; 1]; statement_leaf statement; sha256 [0; 2]].
Definition log_body : cbor := Eval vm_compute in
  CMap [(CText "schema", CText CHECKPOINT_SCHEMA); (CText "origin", CText "ts.example/log"); (CText "tree_size", CInteger 3);
        (CText "root_hash", CText (hex (mth log_leaves))); (CText "ts", CText "2026-01-02T03:04:10Z");
        (CText "prev_hash", CText EmptyString)].
Definition log_object : json := Eval vm_compute in
  match checkpoint_body log_body with Some (o, _, _) => o | None => JNull end.

(** The receipt. *)
Definition receipt_protected : cbor := Eval vm_compute in
  CMap [(CInteger 1, CInteger (-8)); (CInteger 4, CBytes (str_bytes service_kid)); (CInteger 395, CInteger 1)].
Definition receipt_unprotected : cbor := Eval vm_compute in
  CMap [(CInteger 396, CMap [(CInteger (-1), CArray [CInteger 3; CInteger 1; CArray (map CBytes (path 1 log_leaves))])]);
        (CInteger (-2), log_body)].
Definition receipt_payload : bytes := Eval vm_compute in sha256 (canon log_object).
Definition receipt_raw : bytes := Eval vm_compute in
  raw_of service_material receipt_protected receipt_unprotected (Some receipt_payload).
Definition receipt : bytes := TAG_SIGN1 :: receipt_raw.

(** The decoder, on the documents of the example. *)
Definition documents : list (bytes * cbor) := Eval vm_compute in
  [(statement_raw, framing_of scitt_material statement_protected (CMap []) (Some cert_hash));
   (protected_of statement_protected, statement_protected);
   (receipt_raw, framing_of service_material receipt_protected receipt_unprotected (Some receipt_payload));
   (protected_of receipt_protected, receipt_protected)].
#[export] Instance example_ciborium : Ciborium := table_parse documents.

(** The pack. *)
Definition service_jwk : json := Eval vm_compute in
  obj [("alg", str "EdDSA"); ("crv", str "Ed25519"); ("kid", str service_kid); ("kty", str "OKP"); ("use", str "sig");
       ("x", str (hex service_material))]%string.
Definition outer_checkpoint : json := Eval vm_compute in
  obj [("body", log_object); ("kid", str service_kid);
       ("sig", str (hex (toy_sign service_material (pae CHECKPOINT_TYPE (canon log_object)))))]%string.
Definition policy_members : list (string * json) :=
  [("schema", str POLICY_SCHEMA); ("policy_version", str "1"); ("ts_origin", str "ts.example/log");
   ("accepted_profiles", arr [str POLICY_PROFILE]); ("max_statement_bytes", int 4096);
   ("ts_keys", arr [obj [("kid", str service_kid); ("jwk", service_jwk)]])]%string.
Definition policy : json := Eval vm_compute in
  obj (app policy_members [("signature", str (hex (toy_sign root_material (canon (obj policy_members)))))%string]).
Definition pack : json := Eval vm_compute in
  obj [("schema", str PACK_SCHEMA); ("certificate_id", str cert_id); ("signed_statement", str (hex statement));
       ("receipt", str (hex receipt)); ("checkpoint", outer_checkpoint); ("registration_policy", policy);
       ("ts_jwks", obj [("keys", arr [service_jwk])])]%string.
Definition roots : gmap string bytes := {[ "local"%string := root_material ]}.
