(* ===== verification/ExampleAction.v ===== *)
(** * ExampleAction: a log with an evaluated action, and the bundle exported from it

    Six receipts: the genesis key, an agent's birth, the enrolment of the organisation's
    root, the binding of the agent's runtime key and the grant it issues, each signed by
    that root, and the agent's intent; checkpoints before and after the intent, both
    anchored; the anchors of a relying party and a verdict input that earns every
    favourable value under them.  The witnesses of the verdict, authority, certificate
    and dispute theorems evaluate it. *)
From S2P Require Import Prelude Hash Text Json Jcs Utc Dsse KeyLog Merkle Checkpoint Trust Entries Bundle PyValue Verdict Authority.
From S2P Require Import Instances Example.

#[local] Instance writer : Serde := table_serde [] [].
Definition root_key : bytes := replicate 32 21.
Definition signed_by (key : bytes) (domain : bytes) (member : string) (ctx : list (string * json)) : json :=
  let bare := List.filter (fun kv => negb (ends_with "_sig" kv.1)) ctx in
  obj (app ctx [(member, str (hex (toy_sign key (domain ++ unwrap_or (canonical_integer_checked (obj bare)) []))))]).
Definition members (v : json) : list (string * json) := unwrap_or (as_object v) [].
Definition hash_of_body (body : json) : string := hex (sha256 (canon body)).
Definition VALID_FROM : string := "2026-01-01T00:00:00Z".
Definition VALID_TO : string := "2026-02-01T00:00:00Z".
Definition digest (n : Z) : json := str (hex (sha256 [n])).

(** A log of one organisation: its name and its issuer. *)
Definition key_body (issuer : bytes) : json :=
  receipt_of "_system" "evd.key.created" 1 []
    [("jwk", jwk_of issuer); ("effective_ts", str "2026-01-01T00:00:00Z")]%string.
Definition born_body : json := receipt_of "agent-7" "lineage.born" 1 [] [].
Definition root_body : json :=
  receipt_of "_authority" "authority.root.enrolled" 1 []
    (members (signed_by root_key (dom "authority.root.enrolled") "self_sig"
      [("root_jwk", jwk_of root_key); ("root_kid", str (kid_of root_key)); ("legal_entity", obj [("name", str "Acme Ltd")])]))%string.
Definition bound_body (issuer : bytes) : json :=
  receipt_of "_authority" "authority.principal.bound" 2 []
    (members (signed_by root_key (dom "authority.principal.bound") "root_sig"
      [("birthtag_id", str (hash_of_body born_body)); ("revision_id", str (hash_of_body born_body));
       ("runtime_kid", str (kid_of issuer)); ("valid_from", str VALID_FROM); ("valid_to", str VALID_TO)]))%string.
Definition grant_body : json :=
  receipt_of "_authority" "authority.grant.issued" 3 []
    (members (signed_by root_key (dom "authority.grant.issued") "root_sig"
      [("subject_birthtag_id", str (hash_of_body born_body)); ("action_classes", arr [str "payment.send"]);
       ("valid_from", str VALID_FROM); ("valid_to", str VALID_TO); ("limits", obj [("kind", str "ONE_SHOT")])]))%string.
Definition intent_body (issuer : bytes) (amount : string) : json :=
  receipt_of "agent-7" "action.intent" 2 [("inputs", digest 1); ("context_doc", digest 2)]%string
    [("action_id", str "act-1"); ("action_class", str "payment.send"); ("grant_id", str (hash_of_body grant_body));
     ("grant_version", int 1); ("binding_id", str (hash_of_body (bound_body issuer))); ("policy_version", str "1");
     ("value", str amount)]%string.
Definition log_bodies (issuer : bytes) (amount : string) : list json :=
  [key_body issuer; born_body; root_body; bound_body issuer; grant_body; intent_body issuer amount].

Definition log_leaves (bodies : list json) : list bytes := map (fun b => leaf_hash_of (canon b)) bodies.
Definition log_entries (issuer : bytes) (bodies : list json) : list json :=
  let leaves := log_leaves bodies in
  imap (fun i body => obj [("envelope", envelope_of body [issuer]); ("leaf_index", int (Z.of_nat i));
                           ("inclusion_proof", hashes (path i leaves))]%string) bodies.
Definition log_checkpoint (issuer : bytes) (name : string) (leaves : list bytes) (size : nat) (ts prev_hash : string) : json :=
  let body := obj [("schema", str "evd/checkpoint/v1"); ("origin", str name); ("tree_size", int (Z.of_nat size));
    ("root_hash", str (hex (mth (take size leaves)))); ("ts", str ts); ("prev_hash", str prev_hash)]%string in
  obj [("body", body); ("kid", str (kid_of issuer));
       ("sig", str (hex (toy_sign issuer (pae CHECKPOINT_TYPE (canon body)))))]%string.
Definition anchor (cp : json) (block : Z) (ts : string) : json :=
  obj [("checkpoint_body_hash", str (hash_of cp)); ("chain_id", int 1); ("tx_hash", digest block);
       ("block_number", int block); ("block_ts", str ts); ("contract", str "0xlog")]%string.
Definition log_bundle (issuer : bytes) (name amount : string) : json :=
  let bodies := log_bodies issuer amount in
  let leaves := log_leaves bodies in
  let before_ := log_checkpoint issuer name leaves 5 "2026-01-02T03:04:10Z" EmptyString in
  let after_ := log_checkpoint issuer name leaves 6 "2026-01-02T03:05:10Z" (hash_of before_) in
  obj [("schema", str "evd/bundle/v1"); ("origin", str name); ("entries", arr (log_entries issuer bodies));
       ("jwks", obj [("keys", arr [jwk_of issuer])]); ("target_checkpoint", after_);
       ("checkpoint_chain", arr [obj [("checkpoint", before_)];
          obj [("checkpoint", after_); ("consistency_from_prev", hashes (consistency_proof 5 leaves))]]);
       ("anchor_records", arr [anchor before_ 71 "2026-01-02T03:04:30Z"; anchor after_ 72 "2026-01-02T03:05:30.25Z"])]%string.

Definition action_bodies : list json := Eval vm_compute in log_bodies issuer_material "10.00".
Definition action_bundle : json := Eval vm_compute in log_bundle issuer_material origin "10.00".

(** The counterparty's log: another organisation, which recorded another amount. *)
Definition peer_material : bytes := replicate 32 8.
Definition peer_bodies : list json := Eval vm_compute in log_bodies peer_material "12.00".
Definition peer_bundle : json := Eval vm_compute in log_bundle peer_material "log.peer/acme" "12.00".

(** A short log: the issuer's key and one intent. *)
Definition short_bodies : list json := Eval vm_compute in [key_body issuer_material; intent_body issuer_material "10.00"].
Definition short_bundle : json := Eval vm_compute in
  let leaves := log_leaves short_bodies in
  let head_ := log_checkpoint issuer_material origin leaves 2 "2026-01-02T03:04:10Z" EmptyString in
  obj [("schema", str "evd/bundle/v1"); ("origin", str origin); ("entries", arr (log_entries issuer_material short_bodies));
       ("jwks", obj [("keys", arr [jwk_of issuer_material])]); ("target_checkpoint", head_);
       ("checkpoint_chain", arr [obj [("checkpoint", head_)]])]%string.

(** The parsers: each receipt's payload is its canonical form. *)
#[export] Instance action_serde : Serde :=
  table_serde (map (fun b => (canon b, b)) (action_bodies ++ peer_bodies)) [].

(** The relying party's anchors: one key for every category, under the name it signs as. *)
Definition anchor_key : bytes := replicate 32 33.
Definition anchors : json :=
  obj (map (fun c => (c, obj [("relying-party's", str (hex anchor_key))]))
    ["source_keys"; "evaluator_keys"; "population_keys"; "temporal_keys"; "scitt_ts_keys"])%string.
Definition ANCHOR : json := str "relying-party's".
Definition proof_of (domain : string) (l : list (string * json)) : json :=
  obj (app l [("signature", str (hex (toy_sign anchor_key (unwrap_or (signed_bytes domain (obj l)) []))))])%string.

(** A claim and the one event that matches it. *)
Definition claim_doc : json :=
  obj [("action_id", str "act-1"); ("action_class", str "payment.send"); ("value", str "10.00"); ("currency", str "EUR");
       ("counterparty", str "bob")]%string.
Definition event_doc (value : string) : json :=
  obj [("event_key", str "ev-1"); ("reference", str "act-1"); ("value", str value); ("currency", str "EUR");
       ("counterparty", str "bob"); ("finality", str "SETTLED")]%string.
Definition match_doc : json :=
  obj [("event_key", str "ev-1"); ("echoed_action_id", JBool true); ("immutable_ref_match", JBool false);
       ("unique_field_match", JBool false); ("final", JBool true); ("material_mismatch", JBool false)]%string.
Definition action_facts : json := Eval vm_compute in authority_facts action_bundle (Some "act-1"%string).

Definition input_of (value : string) : json := obj
  [("action", obj [("action_id", str "act-1"); ("action_class", str "payment.send")]); ("authority", action_facts);
   ("claim", claim_doc); ("events", arr [event_doc value]); ("event_matches", arr [match_doc]);
   ("batch", obj [("period_start", str VALID_FROM); ("period_end", str VALID_TO);
      ("population_proof", proof_of "population-proof" [("source_id", ANCHOR); ("source_scope_defined", JBool true)])]);
   ("temporal", obj
      [("intent_bounds", proof_of "temporal-bounds" [("attester", ANCHOR); ("upper", str "2026-01-02T03:05:30.25Z")]);
       ("event_bounds", proof_of "temporal-bounds" [("attester", ANCHOR); ("lower", str "2026-01-02T03:05:30.5Z")])]);
   ("source_identity", obj [("keys", arr [obj [("kid", ANCHOR)]])]);
   ("source_proofs", arr [proof_of "source-proof" [("proof_type", str "asymmetric_signature"); ("key_identity", ANCHOR)]]);
   ("control_evidence", proof_of "control-evidence"
      [("evaluator", ANCHOR); ("operator_ultimate_controller", str "Acme Holding");
       ("legal_evidence", obj [("source_registry", str "EU"); ("registry_id", str "1"); ("ultimate_controller", str "Bank Holding");
          ("retrieved_at", str VALID_FROM); ("retrieval_proof", digest 3)]);
       ("key_provenance", obj [("method", str "TRUST_LIST"); ("evidence", digest 4); ("valid_from", str VALID_FROM)])]);
   ("registration", obj [("scitt_receipt_valid", JBool true);
      ("scope_registration", proof_of "scope-registration"
         [("transparency_service", ANCHOR); ("covers_scope", JBool true); ("term_valid", JBool true);
          ("registration", obj [])])])]%string.
Definition action_input : json := Eval vm_compute in input_of "10.00".
(** The same action, settled for another amount. *)
Definition disputed_event : json := Eval vm_compute in event_doc "11.00".
Definition disputed_input : json := Eval vm_compute in input_of "11.00".
Definition action_anchors : json := Eval vm_compute in anchors.
Definition vector_of (vi : json) (trust : option json) : json := unwrap_or (derive_vector_with_trust vi trust) JNull.
