(* ===== verification/ExampleCertificate.v ===== *)
(** * ExampleCertificate: a certificate of the evaluated action, a view of it, and a dispute

    The core embeds a short log and the verdict input of its one action; the
    view carries the core's bytes and displays the mark recomputed without anchors; a
    tampered core keeps everything but the coverage count.  The dispute package sets the
    two organisations' bundles against each other. *)
From S2P Require Import Prelude Hash Text Json Jcs Utc Dsse KeyLog Merkle Checkpoint Trust Entries Bundle PyValue Verdict Authority.
From S2P Require Import CborWire Cose Scitt Certificate Dispute Instances Example ExampleWire ExampleAction.

(** JSON of the example as CBOR. *)
Fixpoint cbor_of (v : json) : cbor :=
  match v with
  | JNull => CNull
  | JBool b => CBool b
  | JNumber n => CInteger (unwrap_or (num_as_i64 n) 0)
  | JString s => CText s
  | JArray a => CArray (map cbor_of a)
  | JObject m => CMap (map (fun kx => (CText kx.1, cbor_of kx.2)) m)
  end.

Definition coverage_of (count : Z) : json :=
  obj [("event_count", int count); ("event_key_root", str (hex (sha256 (canon (arr [str "ev-1"])))));
       ("claim_refs", arr [str "act-1"]); ("claim_count", int 1); ("orphans", arr []); ("orphan_count", int 0);
       ("finality_rule", str "SETTLED")]%string.
Definition short_facts : json := Eval vm_compute in authority_facts short_bundle (Some "act-1"%string).
(** A registration whose pack was issued to another certificate. *)
Definition registration_doc : json :=
  obj [("scitt_receipt_valid", JBool true); ("scitt_pack", obj [("certificate_id", digest 7)])]%string.
Definition short_input : json := obj
  [("action", obj [("action_id", str "act-1"); ("action_class", str "payment.send")]); ("authority", short_facts);
   ("claim", claim_doc); ("events", arr [event_doc "10.00"]); ("event_matches", arr [match_doc]);
   ("registration", registration_doc)]%string.
Definition core_json (count : Z) : json := obj
  [("schema", str CORE_SCHEMA);
   ("subject", obj [("action_id", str "act-1"); ("action_class", str "payment.send"); ("origin", str origin);
      ("subject_ids", g short_facts "subject_ids")]);
   ("bundle", short_bundle); ("claim", claim_doc); ("events", arr [event_doc "10.00"]); ("event_matches", arr [match_doc]);
   ("coverage_doc", coverage_of count); ("open_findings", arr []); ("proof_digests", arr []);
   ("agent_context_digest", str ZERO_DIGEST); ("verdict_input", short_input);
   ("limitations", arr [str "AGENT_CONTEXT_UNBOUND"; str "COVERAGE_CONVENTIONS_UNBOUND"])]%string.
Definition encoded (v : cbor) : bytes := unwrap_or (canonical_cbor v) [].
Definition core : cbor := Eval vm_compute in cbor_of (core_json 1).
Definition core_bytes : bytes := Eval vm_compute in encoded core.
Definition core_id : string := Eval vm_compute in hex (sha256 core_bytes).
Definition tampered_core : cbor := Eval vm_compute in cbor_of (core_json 2).
Definition tampered_bytes : bytes := Eval vm_compute in encoded tampered_core.

Definition view_members (shown : string) : list (cbor * cbor) :=
  [(CText "schema", CText VIEW_SCHEMA); (CText "certificate_id", CText core_id); (CText "core", CBytes core_bytes);
   (CText "manifest", CMap [(CText "certificate_id", CText core_id); (CText "mark_result", CText shown);
      (CText "withheld_field_set", CArray [])])]%string.
Definition view_of (shown : string) : cbor :=
  CMap (app (view_members shown)
    [(CText "signature", CText (hex (toy_sign issuer_material (VIEW_DOMAIN ++ encoded (CMap (view_members shown))))))]).
Definition view : cbor := Eval vm_compute in view_of "UNMARKED_UNREGISTERED".
Definition view_bytes : bytes := Eval vm_compute in encoded view.

(** The decoder, on the documents of the example. *)
#[export] Instance certificate_ciborium : Ciborium :=
  table_parse ([(core_bytes, core); (tampered_bytes, tampered_core); (view_bytes, view)] ++ documents).

(** ** A dispute *)
Definition no_party : Party := {| claims := []; party_facts := JNull |}.
Definition our_party : Party := Eval vm_compute in unwrap_or (party action_bundle) no_party.
Definition peer_party : Party := Eval vm_compute in unwrap_or (party peer_bundle) no_party.
Definition reconciliation : json := Eval vm_compute in
  let ids := population_ids our_party peer_party ["act-9"]%string in
  recomputed ("acme", "peer")%string our_party peer_party
    (unwrap_or (statements ids our_party peer_party ("acme", "peer")%string) []).
Definition package : json := Eval vm_compute in obj
  [("schema", str "evd/dispute-artifact/v1"); ("case_ref", str "case-1"); ("party_labels", arr [str "acme"; str "peer"]);
   ("contested_claims", arr [str "act-9"]); ("bundles", obj [("acme", action_bundle); ("peer", peer_bundle)]);
   ("reconciliation", reconciliation)]%string.

(** ** A registration *)

(** The log that gave the statement's key its role. *)
Definition scitt_bodies : list json := Eval vm_compute in
  [key_body issuer_material;
   receipt_of "_system" "evd.key.created" 2 []
     [("jwk", jwk_of scitt_material); ("effective_ts", str "2026-01-01T00:00:00Z"); ("role", str "scitt-issuer")]%string].
Definition scitt_log : json := Eval vm_compute in obj [("entries", arr (log_entries issuer_material scitt_bodies))]%string.
Definition registration : json := Eval vm_compute in
  obj [("scope_registration", obj [("transparency_service", str "ts-1")]); ("scitt_pack", pack);
       ("scitt_receipt_valid", JBool false)]%string.
Definition registered_input : json := Eval vm_compute in obj [("registration", registration)]%string.
Definition service_anchors : json := Eval vm_compute in
  obj [("scitt_ts_keys", obj [("ts-1", str (hex root_material))])]%string.
Definition scitt_serde : Serde := table_serde (map (fun b => (canon b, b)) scitt_bodies) [].
