(* ===== verification/ExampleExchange.v ===== *)
(** * ExampleExchange: a presentation that passes every check, and a refusal

    An organisation's root delegates to a passport authority and an action authority; an
    administrator selected the agent's template with a security key; the agent answers a
    counterparty's challenge with its passport, its grant, a reservation of the exact
    action and the proofs of authority state, under a registered checkpoint.  The
    witnesses of the counterparty theorems evaluate the verifier on it. *)
From S2P Require Import Prelude Hash Merkle Text Json Jcs Dsse CborWire Exec Cwt.
From S2P Require Import Instances Example.
From S2P Require Import Counterparty AdminProof Assurance.

(** ** A reader of canonical CBOR *)

(** The head of an item: its major type and its argument. *)
Definition read_head (b : bytes) : option (Z * Z * bytes) :=
  match b with
  | [] => None
  | x :: rest =>
      let n := Z.land x 31 in
      let width := (if n <? 24 then 0 else 2 ^ (n - 24))%Z in
      let arg := if n <? 24 then n else foldl (fun acc byte => Z.lor (Z.shiftl acc 8) byte) 0 (take (Z.to_nat width) rest) in
      Some (Z.shiftr x 5, arg, drop (Z.to_nat width) rest)
  end.
(** [n] items read one after the other. *)
Fixpoint read_items {A} (read : bytes -> option (A * bytes)) (n : nat) (b : bytes) : option (list A * bytes) :=
  match n with
  | O => Some ([], b)
  | S n => '(x, b) ← read b; '(l, b) ← read_items read n b; Some (x :: l, b)
  end.
Fixpoint read_value (depth : nat) (b : bytes) : option (cbor * bytes) :=
  match depth with
  | O => None
  | S depth =>
      '(major, n, rest) ← read_head b;
      let size_ := Z.to_nat n in
      if major =? 0 then Some (CInteger n, rest)
      else if major =? 1 then Some (CInteger (-1 - n), rest)
      else if major =? 2 then Some (CBytes (take size_ rest), drop size_ rest)
      else if major =? 3 then Some (CText (bytes_str (take size_ rest)), drop size_ rest)
      else if major =? 4 then '(l, rest) ← read_items (read_value depth) size_ rest; Some (CArray l, rest)
      else if major =? 5 then
        '(l, rest) ← read_items (fun b => '(k, b) ← read_value depth b; '(v, b) ← read_value depth b; Some ((k, v), b)) size_ rest;
        Some (CMap l, rest)
      else if n =? 20 then Some (CBool false, rest)
      else if n =? 21 then Some (CBool true, rest)
      else if n =? 22 then Some (CNull, rest)
      else None
  end.
#[export] Instance canonical_reader : CiboriumAt := fun raw _ =>
  '(v, rest) ← read_value 66 raw; Some (v, zlen raw - zlen rest).

(** A P-256 signer, on the digest. *)
#[export] Instance toy_p256 : P256 := {|
  p256_key := bytes; p256_signature := bytes; from_sec1_bytes := Some; from_der := Some; normalize_s := fun s => s;
  p256_signature_eqb := bytes_eqb; p256_verify := fun k msg sig => bytes_eqb sig (toy_sign k msg);
|}.

(** ** Statements *)

Definition out (o : option bytes) : bytes := unwrap_or o [].
Definition encoded (v : cbor) : bytes := out (canonical v).
Definition doc_of (schema : string) (members : list (string * cbor)) : cbor := map_value (("schema"%string, CText schema) :: members).
(** An envelope of a core, signed by a key. *)
Definition signed_statement (key : bytes) (core : cbor) : bytes :=
  let p := encoded (CMap [(CInteger 1, CInteger (-8)); (CInteger 3, CText MEDIA); (CInteger 4, CBytes (str_bytes (key_id key)))]) in
  let x := encoded (CMap [(CInteger CWT_PROFILE_CLAIM, CText PROFILE); (CInteger B28_CORE_CLAIM, core)]) in
  CWT_TAG :: encoded (CArray [CBytes p; CMap []; CBytes x; CBytes (toy_sign key (out (sig_message p x)))]).
Definition digest_of (core : cbor) : bytes := core_digest (encoded core).
Definition tagged (domain : string) : bytes := str_bytes domain ++ [0].
Definition id (n : Z) : cbor := CBytes (sha256 [n]).

(** ** The organisation *)

Definition root_key : bytes := replicate 32 41.
Definition psa_key : bytes := replicate 32 42.
Definition action_key : bytes := replicate 32 43.
Definition agent_material : bytes := replicate 32 44.
Definition peer_key : bytes := replicate 32 45.
Definition organisation : cbor := Eval vm_compute in CBytes (sha [root_key]).
Definition peer_organisation : cbor := Eval vm_compute in CBytes (sha [peer_key]).
Definition rooted_members (members : list (string * cbor)) : list (string * cbor) :=
  (("tenant", CText "acme") :: ("organisation_root", organisation) :: members)%string.

Definition delegation_core : cbor := Eval vm_compute in doc_of ROOT_DELEGATION (rooted_members
  [("delegation_id", id 1); ("passport_authority_kid", CText (key_id psa_key)); ("passport_authority_key", CBytes psa_key);
   ("action_authority_kid", CText (key_id action_key)); ("action_authority_key", CBytes action_key);
   ("valid_from", CInteger 100); ("valid_to", CInteger 5000)]%string).
Definition template_members : list (string * cbor) :=
  [("template_id", id 2); ("template_version", CInteger 1); ("owner", CText "Acme Ltd"); ("purpose", CText "payments");
   ("mandate_digest", id 3); ("config_digest", id 4)]%string.
Definition template_core : cbor := Eval vm_compute in doc_of TEMPLATE (rooted_members
  (template_members ++ [("valid_from", CInteger 100); ("valid_to", CInteger 5000)]%string)).

(** ** The registration *)

Definition rp_id : string := "registrar.example".
Definition admin_origin : string := "https://registrar.example".
Definition admin_material : bytes := replicate 32 51.
Definition cose_key : bytes := Eval vm_compute in encoded
  (CMap [(CInteger 1, CInteger 2); (CInteger 3, CInteger (-7)); (CInteger (-1), CInteger 1);
         (CInteger (-2), CBytes admin_material); (CInteger (-3), CBytes (replicate 32 52))]).
Definition sec1_key : bytes := [4] ++ admin_material ++ replicate 32 52.
Definition credential_id : cbor := CBytes (replicate 16 53).
Definition admin_core : cbor := Eval vm_compute in doc_of ADMIN_BINDING (rooted_members
  [("binding_id", id 5); ("credential_id", credential_id); ("cose_public_key", CBytes cose_key); ("rp_id", CText rp_id);
   ("role", CText "agent-registrar"); ("valid_from", CInteger 100); ("valid_to", CInteger 5000);
   ("initial_state", CText "ACTIVE")]%string).

(** The agent, and the members of its passport that the selection is about. *)
Definition agent_members : list (string * cbor) := Eval vm_compute in
  [("birthtag", id 6); ("revision", CInteger 1); ("agent_kid", CText (key_id agent_material))]%string.
Definition proposal : bytes := Eval vm_compute in
  out (match selected_digest (list_to_map (("tenant", CText "acme") :: ("agent_key", CBytes agent_material)
    :: ("principal_binding_id", id 5) :: agent_members ++ template_members)%string) with Done d => d | Panic => None end).

Definition challenge_bytes : bytes := Eval vm_compute in sha256 [7].
Definition admin_challenge_core : cbor := Eval vm_compute in doc_of ADMIN_CHALLENGE (rooted_members
  [("challenge_id", id 8); ("binding_id", id 5); ("template_id", id 2); ("template_version", CInteger 1);
   ("proposed_agent_digest", CBytes proposal); ("challenge", CBytes challenge_bytes); ("issued_at", CInteger 200);
   ("expires_at", CInteger 300)]%string).

(** The client data of the assertion, and the authenticator's. *)
Definition quoted (s : string) : bytes := 34 :: str_bytes s ++ [34].
Definition client_members : list (string * json) := Eval vm_compute in
  [("type", JString "webauthn.get"); ("challenge", JString (url_encode challenge_bytes)); ("origin", JString admin_origin)]%string.
Definition client_data : bytes := Eval vm_compute in
  str_bytes "{" ++ concat (map (fun kv => quoted kv.1 ++ str_bytes ":" ++ toy_write_string (unwrap_or (as_str kv.2) EmptyString)
    ++ str_bytes ",") client_members) ++ quoted "crossOrigin" ++ str_bytes ":false}".
Definition client_json : json := Eval vm_compute in json_of_list (client_members ++ [("crossOrigin", JBool false)]%string).
#[export] Instance client_serde : Serde :=
  table_serde ((client_data, client_json)
    :: map (fun name => (quoted name, JString name)) ["type"; "challenge"; "origin"; "crossOrigin"]%string) [].
Definition authenticator_data : bytes := Eval vm_compute in sha [str_bytes rp_id] ++ [5; 0; 0; 0; 1].
Definition selection_core : cbor := Eval vm_compute in doc_of ADMIN_SELECTION
  [("tenant", CText "acme"); ("binding_id", id 5); ("template_id", id 2); ("template_version", CInteger 1);
   ("proposed_agent_digest", CBytes proposal); ("credential_id", credential_id); ("challenge_id", id 8);
   ("challenge", CBytes challenge_bytes); ("client_data_json", CBytes client_data);
   ("authenticator_data", CBytes authenticator_data);
   ("signature", CBytes (toy_sign sec1_key (authenticator_data ++ sha [client_data]))); ("selected_at", CInteger 210)]%string.
Definition pop_core : cbor := Eval vm_compute in doc_of AGENT_POP (("tenant", CText "acme") :: agent_members
  ++ [("proposed_agent_digest", CBytes proposal); ("challenge", CBytes challenge_bytes)])%string.

(** The registered checkpoint the passport was issued under, and the log behind both checkpoints. *)
Definition log_leaves : list bytes := Eval vm_compute in [sha256 [21]; sha256 [22]].
Definition issuance_digest : bytes := Eval vm_compute in sha256 [23].
Definition credential_core : cbor := Eval vm_compute in doc_of CREDENTIAL (rooted_members
  ([("authority_delegation_id", id 1); ("agent_key", CBytes agent_material); ("principal_binding_id", id 5);
    ("admin_selection_digest", CBytes (digest_of selection_core)); ("agent_pop_digest", CBytes (digest_of pop_core));
    ("agent_successor_digest", CNull); ("issuance_checkpoint", CBytes issuance_digest);
    ("valid_from", CInteger 100); ("valid_to", CInteger 5000)]%string ++ agent_members ++ template_members)).
Definition consumption_core : cbor := Eval vm_compute in doc_of ADMIN_CONSUMPTION (rooted_members
  [("binding_id", id 5); ("challenge_id", id 8); ("challenge_digest", CBytes (digest_of admin_challenge_core));
   ("selection_digest", CBytes (digest_of selection_core)); ("credential_digest", CBytes (digest_of credential_core));
   ("counter_version", CInteger 1); ("sign_count_before", CInteger 0); ("sign_count_after", CInteger 1);
   ("backup_eligible", CBool false); ("backup_state", CBool false); ("consumed_at", CInteger 220)]%string).

(** ** The action and the challenge *)

Definition agent_ref : cbor := Eval vm_compute in doc_of AGENT_REF (("organisation_root", organisation) :: agent_members)%string.
Definition peer_ref : cbor := Eval vm_compute in doc_of AGENT_REF
  [("organisation_root", peer_organisation); ("birthtag", id 9); ("revision", CInteger 1); ("agent_kid", CText (key_id peer_key))]%string.
Definition resource_ref (n : Z) : cbor := doc_of RESOURCE_REF [("namespace", CText "accounts"); ("identifier_digest", id n)]%string.
Definition scope_members : list (string * cbor) := Eval vm_compute in
  [("actor", agent_ref); ("operation", CText "payment.send"); ("parameter_schema", CText "payment/v1"); ("parameter_digest", id 10);
   ("unit", CText "iso4217:EUR:minor-2"); ("source", resource_ref 11); ("destination", resource_ref 12);
   ("counterparty", doc_of PARTY_REF [("party_id", CText "bob"); ("organisation_root", peer_organisation)]);
   ("recipient", peer_ref); ("policy_version", CText "1"); ("policy_digest", id 13)]%string.
Definition action_core : cbor := Eval vm_compute in doc_of ACTION (scope_members ++
  [("action_id", id 14); ("asa_id", id 15); ("value", CText "1000"); ("grant_id", id 16); ("grant_version", CInteger 1);
   ("nonce", id 17); ("expires_at", CInteger 1100)]%string).
Definition challenge_core : cbor := Eval vm_compute in doc_of CHALLENGE
  [("profile", CText PROFILE); ("challenger", peer_ref); ("action", action_core); ("accepted_encodings", CArray [CText MEDIA]);
   ("required_dimensions", CArray [CText "grant"; CText "transcript"]); ("max_checkpoint_age", CInteger 60);
   ("issued_at", CInteger 990)]%string.
Definition challenge_raw : bytes := Eval vm_compute in signed_statement peer_key challenge_core.

Definition action_scope : bytes := Eval vm_compute in
  out (match action_scope_digest (list_to_map scope_members) with Done d => d | Panic => None end).
Definition grant_core : cbor := Eval vm_compute in doc_of GRANT (rooted_members
  [("grant_id", id 16); ("grant_version", CInteger 1); ("authority_delegation_id", id 1); ("actor_birthtag", id 6);
   ("recipient_organisation_root", peer_organisation); ("operation", CText "payment.send"); ("unit", CText "iso4217:EUR:minor-2");
   ("action_scope_digest", CBytes action_scope); ("kind", CText "FLOW"); ("ceiling", CText "50000");
   ("max_unresolved_exposure", CText "5000"); ("window_start", CInteger 500); ("window_end", CInteger 2000);
   ("valid_from", CInteger 100); ("valid_to", CInteger 5000)]%string).
Definition asa_core : cbor := Eval vm_compute in doc_of ASA (rooted_members
  [("authority_delegation_id", id 1); ("asa_id", id 15); ("action_digest", CBytes (digest_of action_core));
   ("challenge_digest", CBytes (digest_of challenge_core)); ("grant_id", id 16); ("grant_version", CInteger 1);
   ("reservation_state", CText "ISSUED_HELD"); ("issued_at", CInteger 991); ("expires_at", CInteger 1100)]%string).

(** ** The authority's state *)

(** The objects, with their kind, id, digest, state and version, in the order of the tree. *)
Definition state_row (name kind : string) (object_id digest : bytes) (state : string) : string * (bytes * cbor) :=
  let key := state_key kind object_id in
  (name, (key, map_value [("key", CBytes key); ("state", CText state); ("version", CInteger 1); ("object_digest", CBytes digest)]%string)).
Definition revision_id : bytes := Eval vm_compute in sha256 [6] ++ CborWire.be_bytes 8 1.
Definition state_rows : list (string * (bytes * cbor)) := Eval vm_compute in
  [state_row "root_delegation" "root_delegation" (sha256 [1]) (digest_of delegation_core) "ACTIVE";
   state_row "registration_template" "registration_template" (sha256 [2]) (digest_of template_core) "ACTIVE";
   state_row "mandate" "mandate" (sha256 [3]) (sha256 [3]) "ACTIVE";
   state_row "agent_config" "agent_config" (sha256 [4]) (sha256 [4]) "ACTIVE";
   state_row "admin_binding" "admin_binding" (sha256 [5]) (digest_of admin_core) "ACTIVE";
   state_row "admin_selection" "admin_selection" (sha256 [8]) (digest_of selection_core) "ACTIVE";
   state_row "admin_challenge" "admin_challenge" (sha256 [8]) (digest_of admin_challenge_core) "SUPERSEDED";
   state_row "admin_consumption" "admin_consumption" (sha256 [8]) (digest_of consumption_core) "ACTIVE";
   state_row "admin_counter" "admin_counter" (sha256 [5]) (sha256 [24]) "ACTIVE";
   state_row "agent_pop" "agent_pop" revision_id (digest_of pop_core) "ACTIVE";
   state_row "passport" "agent_credential" revision_id (digest_of credential_core) "ACTIVE";
   state_row "agent_head" "agent_head" (sha256 [6]) (digest_of credential_core) "ACTIVE";
   state_row "limit_grant" "limit_grant" (sha256 [16] ++ CborWire.be_bytes 8 1) (digest_of grant_core) "ACTIVE";
   state_row "grant_head" "grant_head" (sha256 [16]) (digest_of grant_core) "ACTIVE"]%string.
Definition state_leaves : list bytes := Eval vm_compute in map (fun row => sha [[0]; encoded row.2.2]) state_rows.
Definition state_root : bytes := Eval vm_compute in mth state_leaves.
Definition state_proofs : cbor := Eval vm_compute in map_value
  (("agent_successor"%string, CNull) :: ("predecessor_head"%string, CNull)
   :: imap (fun i row => (row.1, doc_of MEMBERSHIP
        [("key", CBytes row.2.1); ("value", row.2.2); ("index", CInteger (Z.of_nat i)); ("tree_size", CInteger 14);
         ("path", CArray (map CBytes (path i state_leaves)))]%string)) state_rows).

Definition checkpoint_core : cbor := Eval vm_compute in doc_of CHECKPOINT (rooted_members
  [("sequence", CInteger 2); ("authority_root", CBytes state_root); ("log_root", CBytes (mth log_leaves));
   ("log_size", CInteger 2); ("issued_at", CInteger 980)]%string).
Definition snapshot_core : cbor := Eval vm_compute in doc_of SNAPSHOT (rooted_members
  [("authority_delegation_id", id 1); ("checkpoint_digest", CBytes (digest_of checkpoint_core));
   ("proofs_digest", CBytes (sha [tagged "swarrm-b28/proofs/v1"; encoded state_proofs]));
   ("status_as_of", CInteger 980); ("expires_at", CInteger 2000)]%string).

(** ** The presentation *)

Definition asa_raw : bytes := Eval vm_compute in signed_statement action_key asa_core.
Definition transcript_value : cbor := Eval vm_compute in map_value
  [("schema", CText "swarrm-b28/transcript/v1"); ("challenge_envelope_hash", CBytes (sha [challenge_raw]));
   ("challenge_digest", CBytes (digest_of challenge_core)); ("action_digest", CBytes (digest_of action_core));
   ("asa_envelope_hash", CBytes (sha [asa_raw])); ("asa_digest", CBytes (digest_of asa_core))]%string.
Definition by_root (core : cbor) : cbor := CBytes (signed_statement root_key core).
Definition presentation_core : cbor := Eval vm_compute in doc_of PRESENTATION
  [("profile", CText PROFILE); ("challenge_envelope_hash", CBytes (sha [challenge_raw]));
   ("challenge_digest", CBytes (digest_of challenge_core)); ("action_digest", CBytes (digest_of action_core));
   ("root_delegation", by_root delegation_core); ("registration_template", by_root template_core);
   ("admin_binding", by_root admin_core); ("admin_selection", CBytes (encoded selection_core));
   ("admin_challenge", by_root admin_challenge_core); ("admin_consumption", by_root consumption_core);
   ("agent_pop", CBytes (signed_statement agent_material pop_core)); ("agent_successor", CNull);
   ("passport", CBytes (signed_statement psa_key credential_core));
   ("passport_holder_proof", CBytes (signed_statement agent_material credential_core));
   ("limit_grant", by_root grant_core); ("authority_checkpoint", by_root checkpoint_core);
   ("issuance_consistency_proof", CArray (map CBytes (consistency_proof 1 log_leaves)));
   ("status_snapshot", CBytes (signed_statement psa_key snapshot_core)); ("state_proofs", state_proofs); ("asa", CBytes asa_raw);
   ("transcript_digest", CBytes (sha [tagged "swarrm-b28/transcript/v1"; encoded transcript_value]));
   ("non_assertion", CText NON_ASSERTION); ("created_at", CInteger 1000)]%string.
Definition presentation_raw : bytes := Eval vm_compute in signed_statement agent_material presentation_core.
Definition exchange : bytes := Eval vm_compute in
  encoded (map_value [("challenge", CBytes challenge_raw); ("presentation", CBytes presentation_raw)]%string).

(** ** The relying party *)

Definition key_row (key : bytes) : cbor := map_value [("kid", CText (key_id key)); ("public_key", CBytes key)]%string.
Definition pin_row (digest : bytes) (sequence : Z) (authority : bytes) (size_ : nat) : bytes * cbor :=
  (digest, map_value [("digest", CBytes digest); ("tenant", CText "acme"); ("organisation_root", organisation);
    ("sequence", CInteger sequence); ("authority_root", CBytes authority); ("log_root", CBytes (mth (take size_ log_leaves)));
    ("log_size", CInteger (Z.of_nat size_))]%string).
Definition pin_rows : list (bytes * cbor) := Eval vm_compute in
  sort_by (fun a b => negb (bytes_ltb b.1 a.1)) [pin_row (digest_of checkpoint_core) 2 state_root 2; pin_row issuance_digest 1 (sha256 [25]) 1].
Definition local_context : bytes := Eval vm_compute in encoded (doc_of LOCAL_CONTEXT
  [("challenger_keys", CArray [key_row peer_key]); ("registered_checkpoints", CArray (map snd pin_rows));
   ("authority_heads", CArray [map_value [("tenant", CText "acme"); ("organisation_root", organisation); ("sequence", CInteger 2);
      ("authority_root", CBytes state_root); ("log_root", CBytes (mth log_leaves)); ("log_size", CInteger 2)]]);
   ("expected_admin_origin", CText admin_origin); ("max_action_lifetime_s", CInteger 300); ("now", CInteger 1000)]%string).
Definition trust_pack : bytes := Eval vm_compute in encoded (doc_of TRUST_PACK
  [("roots", CArray [map_value [("kid", CText (key_id root_key)); ("organisation_root", organisation); ("public_key", CBytes root_key)]])]%string).
Definition trust_pin : bytes := Eval vm_compute in sha [trust_pack].

(** A refusal of the same challenge, by the agent it addresses. *)
Definition refusal_core : cbor := Eval vm_compute in doc_of REFUSAL
  [("profile", CText PROFILE); ("challenge_envelope_hash", CBytes (sha [challenge_raw]));
   ("challenge_digest", CBytes (digest_of challenge_core)); ("reason_code", CText "POLICY"); ("created_at", CInteger 995)]%string.
Definition refusal_raw : bytes := Eval vm_compute in signed_statement agent_material refusal_core.
Definition refusal_exchange : bytes := Eval vm_compute in
  encoded (map_value [("challenge", CBytes challenge_raw); ("refusal", CBytes refusal_raw)]%string).
Definition refusal_local : bytes := Eval vm_compute in encoded (doc_of LOCAL_REFUSAL_CONTEXT
  [("challenger_keys", CArray [key_row peer_key]); ("responder_keys", CArray [key_row agent_material]); ("now", CInteger 1000)]%string).

(** A second envelope of the challenge's statement, with another signature. *)
Definition challenge_resigned : bytes := Eval vm_compute in
  match cwt_parts challenge_raw with
  | Some (p, x, _) => CWT_TAG :: encoded (CArray [CBytes p; CMap []; CBytes x; CBytes (replicate 64 0)])
  | None => []
  end.

(** ** An acknowledgement of the example log *)

(** The event tree of a value. *)
Fixpoint event_of (v : json) : event :=
  match v with
  | JNull => EvUnit
  | JBool b => EvBool b
  | JNumber (PosInt n) => EvU64 n
  | JNumber (NegInt n) => EvI64 n
  | JNumber (Float f) => EvF64 f
  | JString s => EvStr s
  | JArray l => EvSeq (map event_of l)
  | JObject m => EvMap (map (fun kv => (kv.1, event_of kv.2)) m)
  end.
Definition acknowledgement_core : cbor := Eval vm_compute in doc_of ACKNOWLEDGEMENT
  [("profile", CText PROFILE); ("counterparty", CText (key_id peer_key)); ("origin", CText Example.origin);
   ("from_hash", CText (Example.hash_of Example.checkpoint1)); ("to_hash", CText (Example.hash_of Example.checkpoint4));
   ("issued_at", CInteger 900)]%string.
Definition acknowledgement_raw : bytes := Eval vm_compute in signed_statement peer_key acknowledgement_core.
Definition acknowledgement_local : bytes := Eval vm_compute in encoded (doc_of LOCAL_ACKNOWLEDGEMENT
  [("keys", CArray [key_row peer_key]); ("now", CInteger 1000)]%string).
Definition bundle_raw : bytes := Eval vm_compute in Example.canon Example.bundle.
Definition acknowledgement_serde : Serde :=
  table_serde (map (fun b => (Example.canon b, b)) Example.bodies) [(bundle_raw, event_of Example.bundle)].
