(* ===== verification/ExampleToken.v ===== *)
(** * ExampleToken: a timestamped checkpoint

    A concrete PKI with a one-byte-length DER, certificates encoded by their place in a
    table, and signatures that repeat the key and the digest; a timestamp authority under an
    intermediate CA under a root; a token over the head of the example log, and the example
    bundle carrying it. *)
From S2P Require Import Prelude Hash Text Json Jcs Utc Checkpoint Trust Bundle Instances Pki Token TokenPath TokenSpec Example.

(** ** Types and encodings *)
#[export] Instance toy_pki_types : PkiTypes :=
  {| SliceReader := bytes; BitString := bytes; GeneralizedTime := Z; Time := Z |}.

#[local] Instance time_eq : EqDecision Time := Z.eq_dec.
#[local] Instance bits_eq : EqDecision BitString := list_eq_dec (A := Z).
#[local] Instance name_eq : EqDecision Name.
Proof. unfold Name. solve_decision. Defined.
#[local] Instance extension_eq : EqDecision Extension.
Proof. solve_decision. Defined.
#[local] Instance validity_eq : EqDecision Validity.
Proof. solve_decision. Defined.
#[local] Instance spki_eq : EqDecision SubjectPublicKeyInfo.
Proof. solve_decision. Defined.
#[local] Instance tbs_eq : EqDecision TbsCertificate.
Proof. solve_decision. Defined.
#[local] Instance certificate_eq : EqDecision Certificate.
Proof. solve_decision. Defined.

(** Tag, length in one byte, value. *)
Definition tlv (tag : u8) (value : bytes) : bytes := tag :: zlen value :: value.
Definition tag_of (octet : u8) : Tag :=
  if octet =? 48 then Sequence else if octet =? 161 then ContextSpecific true 1 else OtherTag octet.
Definition toy_any (b : bytes) : option (Any * bytes) :=
  match b with
  | tag :: len :: rest =>
      if (0 <=? len) && (len <=? zlen rest) then
        Some ({| any_tag := tag_of tag; any_value := take (Z.to_nat len) rest |}, drop (Z.to_nat len) rest)
      else None
  | _ => None
  end.
Definition toy_value (tag : Tag) (b : bytes) : option (bytes * bytes) :=
  '(a, rest) ← toy_any b; if decide (any_tag a = tag) then Some (any_value a, rest) else None.
Definition whole {A} (d : bytes -> option (A * bytes)) (b : bytes) : option A :=
  '(a, rest) ← d b; if decide (rest = []) then Some a else None.
Definition toy_oid (b : bytes) : option (string * bytes) :=
  '(v, rest) ← toy_value (OtherTag 6) b; Some (bytes_str v, rest).
Definition toy_algorithm (b : bytes) : option (AlgorithmIdentifier * bytes) :=
  '(v, rest) ← toy_value Sequence b; o ← whole toy_oid v; Some ({| oid := o; parameters := None |}, rest).
Definition number (b : bytes) : Z := fold_left (fun acc x => acc * 256 + x) b 0.
Definition toy_u8 (b : bytes) : option (u8 * bytes) :=
  '(v, rest) ← toy_value (OtherTag 2) b; match v with [x] => Some (x, rest) | _ => None end.
Definition toy_content_info (b : bytes) : option ContentInfo :=
  v ← whole (toy_value Sequence) b; '(o, rest) ← toy_oid v; a ← whole toy_any rest;
  Some {| content_type := o; content := a |}.
Definition as_value (tag : Tag) (a : Any) : option bytes := if decide (any_tag a = tag) then Some (any_value a) else None.

Definition name_der (n : Name) : bytes := flat_map (flat_map (fun av => tlv 49 (str_bytes av.1 ++ any_value av.2))) n.
Definition attrs_der (l : list Attribute) : bytes :=
  flat_map (fun a => tlv 48 (str_bytes (attr_oid a) ++ flat_map any_value (values a))) l.
Definition tbs_der (t : TbsCertificate) : bytes :=
  serial_number t ++ name_der (issuer t) ++ name_der (subject t) ++ subject_public_key (subject_public_key_info t).

Definition extension (o : string) (t : TbsCertificate) : option Extension :=
  List.find (fun e => String.eqb (extn_id e) o) (unwrap_or (extensions t) []).
Definition get_extension {A} (o : string) (read : bytes -> A) (t : TbsCertificate) : option (option (bool * A)) :=
  Some ((fun e => (critical e, read (extn_value e))) <$> extension o t).
Definition same_signature (key digest sig : bytes) : bool := bytes_eqb sig (key ++ digest).
Definition toy_curve (extra : bytes) : EcdsaCurve :=
  {| VerifyingKey := bytes; EcSignature := bytes; from_sec1_bytes := Some; sig_from_der := Some;
     verify_prehash := fun key digest sig => same_signature (extra ++ key) digest sig |}.

(** ** The operations, over a table of certificates and of PEM files *)
Definition toy_pki (known : list Certificate) (pems : list (string * list Certificate)) : Pki := {|
  sha384_digest := fun m => toy_digest m ++ take 16 (toy_digest m);
  sha512_digest := fun m => toy_digest m ++ toy_digest m;
  p256_curve := toy_curve []; p384_curve := toy_curve [3; 84];
  RsaPublicKey := bytes; Pkcs1v15Sign := Z; rsa_from_pkcs1_der := Some;
  sign_sha256 := 1; sign_sha384 := 2; sign_sha512 := 3;
  rsa_verify := fun key scheme digest sig => same_signature (key ++ [scheme]) digest sig;
  reader_new := Some; is_finished := fun r => bool_decide (r = []);
  decode_oid := toy_oid; decode_any := toy_any; decode_u8 := toy_u8;
  decode_int := toy_value (OtherTag 2); decode_octets := toy_value (OtherTag 4); decode_algorithm := toy_algorithm;
  decode_generalized_time := fun r => '(v, r) ← toy_value (OtherTag 24) r; Some (number v, r);
  any_from_der := whole toy_any; any_to_der := fun a => Some (any_value a);
  any_as_oid := fun a => bytes_str <$> as_value (OtherTag 6) a; any_as_octets := as_value (OtherTag 4);
  content_info_from_der := toy_content_info; crl_from_der := fun _ => true;
  name_to_der := fun n => Some (name_der n); attrs_to_der := fun l => Some (attrs_der l);
  cert_to_der := fun c => (fun p => [Z.of_nat p.1]) <$> list_find (fun k => k = c) known;
  tbs_to_der := fun t => Some (tbs_der t);
  bit_bytes := Some;
  get_basic_constraints := get_extension OID_BASIC_CONSTRAINTS (fun v =>
    {| ca := bool_decide (head v = Some 1); path_len_constraint := v !! 1%nat |});
  get_key_usage := get_extension OID_KEY_USAGE (fun v => {| key_cert_sign := bool_decide (v = [1]) |});
  get_extended_key_usage := get_extension OID_EXTENDED_KEY_USAGE (fun v =>
    if bool_decide (v = [8]) then [OID_ID_KP_TIME_STAMPING] else []);
  load_pem_chain := fun b => snd <$> List.find (fun p => bytes_eqb (str_bytes p.1) b) pems;
  generalized_unix := id; time_unix := id;
  date_time_string := fun t => if t =? 60 then "2026-01-03T00:01:00Z"%string else EmptyString;
|}.

Lemma toy_pki_laws known pems : PkiLaws (P := toy_pki known pems).
Proof.
  split; cbn [cert_to_der tbs_to_der toy_pki]; [|done].
  intros c c' d ((i & k) & Hk & ->)%fmap_Some ((j & k') & Hk' & [= E])%fmap_Some.
  apply list_find_Some in Hk as (Hk & -> & _), Hk' as (Hk' & -> & _). apply Nat2Z.inj in E as ->. congruence.
Qed.

(** ** Certificates *)
Definition ca_name (s : string) : Name := [[("2.5.4.3"%string, {| any_tag := OtherTag 12; any_value := str_bytes s |})]].
Definition plain (o : string) : AlgorithmIdentifier := {| oid := o; parameters := None |}.
Definition ec_key (k : bytes) : SubjectPublicKeyInfo :=
  {| spki_algorithm := {| oid := OID_EC_PUBLIC_KEY;
       parameters := Some {| any_tag := OtherTag 6; any_value := str_bytes OID_PRIME256V1 |} |};
     subject_public_key := k |}.
Definition rsa_key (k : bytes) : SubjectPublicKeyInfo :=
  {| spki_algorithm := plain OID_RSA_ENCRYPTION; subject_public_key := k |}.
Definition ext (o : string) (v : bytes) : Extension := {| extn_id := o; critical := true; extn_value := v |}.
Definition ca_extensions (constraint : bytes) : list Extension :=
  [ext OID_BASIC_CONSTRAINTS constraint; ext OID_KEY_USAGE [1]].
Definition body_of_cert (serial : Z) (from to : string) (key : SubjectPublicKeyInfo) (a : string) (exts : list Extension)
    : TbsCertificate :=
  {| serial_number := [serial]; tbs_signature := plain a; issuer := ca_name from;
     validity := {| not_before := 0; not_after := 100 |}; subject := ca_name to;
     subject_public_key_info := key; extensions := Some exts |}.
Definition signed (a : string) (signature_of_digest : bytes) (t : TbsCertificate) : Certificate :=
  {| tbs_certificate := t; signature_algorithm := plain a; signature := signature_of_digest |}.

Definition root_key : bytes := [10; 11].
Definition inter_key : bytes := [20; 21].
Definition tsa_key : bytes := [30; 31].
Definition sha384_of (t : TbsCertificate) : bytes := let d := toy_digest (tbs_der t) in d ++ take 16 d.

(** The root is an RSA authority, with room for one below. *)
Definition root_cert : Certificate := Eval vm_compute in
  let t := body_of_cert 1 "Root" "Root" (rsa_key root_key) OID_SHA384_RSA (ca_extensions [1; 1]) in
  signed OID_SHA384_RSA (root_key ++ [2] ++ sha384_of t) t.
Definition inter_cert : Certificate := Eval vm_compute in
  let t := body_of_cert 2 "Root" "Inter" (ec_key inter_key) OID_SHA384_RSA (ca_extensions [1; 0]) in
  signed OID_SHA384_RSA (root_key ++ [2] ++ sha384_of t) t.
(** A certificate that names itself as its issuer, with the intermediate's key and no valid signature. *)
Definition hollow_cert : Certificate := Eval vm_compute in
  signed OID_SHA384_RSA [0] (body_of_cert 3 "Inter" "Inter" (ec_key inter_key) OID_SHA384_RSA []).
Definition tsa_cert : Certificate := Eval vm_compute in
  let t := body_of_cert 4 "Inter" "Tsa" (ec_key tsa_key) OID_ECDSA_SHA256 [ext OID_EXTENDED_KEY_USAGE [8]] in
  signed OID_ECDSA_SHA256 (inter_key ++ toy_digest (tbs_der t)) t.
Definition carried_pool : list Certificate := [inter_cert; root_cert].
Definition known_certs : list Certificate := [hollow_cert; tsa_cert; inter_cert; root_cert].

#[export] Instance example_pki : Pki :=
  toy_pki known_certs [("roots", [root_cert]); ("chain", carried_pool); ("hollow", [hollow_cert])]%string.
#[export] Instance example_pki_laws : PkiLaws := toy_pki_laws _ _.

(** ** The token *)
Definition token_time : Z := 60.
Definition tst_bytes (stamped : bytes) : bytes :=
  tlv 48 (tlv 2 [1] ++ tlv 6 (str_bytes "1.2.3") ++
    tlv 48 (tlv 48 (tlv 6 (str_bytes OID_SHA256)) ++ tlv 4 stamped) ++ tlv 2 [9] ++ tlv 24 [token_time]).
Definition tst_content : bytes := Eval vm_compute in tst_bytes (unwrap_or (hex_to_bytes (hash_of checkpoint4)) []).
Definition token_attrs : list Attribute := Eval vm_compute in
  [{| attr_oid := OID_CONTENT_TYPE; values := [{| any_tag := OtherTag 6; any_value := str_bytes OID_TST_INFO |}] |};
   {| attr_oid := OID_MESSAGE_DIGEST; values := [{| any_tag := OtherTag 4; any_value := toy_digest tst_content |}] |}].
Definition token_signer_info : SignerInfo := Eval vm_compute in
  {| si_version := V1; sid := IssuerAndSerial {| ias_issuer := ca_name "Inter"; ias_serial_number := [4] |};
     digest_alg := plain OID_SHA256; signed_attrs := Some token_attrs; si_signature_algorithm := plain OID_ECDSA_SHA256;
     si_signature := tsa_key ++ toy_digest (attrs_der token_attrs) |}.
Definition token_data : TimestampSignedData :=
  {| version := V3; digest_algorithms := [plain OID_SHA256];
     encap_content_info := {| econtent_type := OID_TST_INFO; econtent := Some {| any_tag := OtherTag 4; any_value := tst_content |} |};
     certificates := Some [ChoiceCertificate tsa_cert]; crls := None; signer_infos := [token_signer_info] |}.
#[export] Instance example_signed_data : SignedDataDecode := fun a =>
  if decide (any_value a = [9]) then Some token_data else None.
Definition token_der : bytes := Eval vm_compute in tlv 48 (tlv 6 (str_bytes OID_SIGNED_DATA) ++ tlv 160 [9]).

(** ** The bundle that carries it *)
Definition tst_record : json := Eval vm_compute in
  obj [("checkpoint_body_hash", str (hash_of checkpoint4)); ("token_der_b64", str (hex token_der));
       ("tsa_url", str "https://tsa.example"); ("gen_time", str "2026-01-03T00:01:00Z"); ("cert_chain_pem", str "chain");
       ("qualified", JBool false)]%string.
Definition stamped_bundle : json := Eval vm_compute in
  match bundle with JObject l => JObject (obj_insert l "tst_records" (arr [tst_record])) | v => v end.
Definition root_trust : json := Eval vm_compute in
  match trust with JObject l => JObject (obj_insert l "tsa_roots" (obj [("example", str "roots")]%string)) | v => v end.

(** The token is trusted under the root; the chain it carries passes without it; the bundle
    reports its head; a chain of the hollow certificate alone passes the gate, and earns no
    trust. *)
Example token_trusted : Token.verified_tst token_der (hash_of checkpoint4) "chain" (Some "roots"%string) = Some (token_time, true).
Proof. vm_compute. reflexivity. Qed.
Example token_hollow : Token.verified_tst token_der (hash_of checkpoint4) "hollow" (Some "roots"%string) = Some (token_time, false).
Proof. vm_compute. reflexivity. Qed.
Example head_trusted :
  trusted_tst_checkpoints (verify_bundle_facts (T := token_tsa) stamped_bundle (Some root_trust)) = [hash_of checkpoint4].
Proof. vm_compute. reflexivity. Qed.
