(* ===== verification/Witnesses.v ===== *)
(** * Witnesses: the theorems at concrete inputs

    One closed lemma per theorem with hypotheses: it applies the theorem to the
    example log (or to small literals) and discharges every hypothesis by evaluating
    the definitions. *)
From S2P Require Import Prelude Hash Text Json Jcs Utc Dsse KeyLog Merkle Checkpoint Trust Entries Bundle Disclosure.
From S2P Require Import Instances Example.

Ltac evaluate := vm_compute; reflexivity.

Lemma all_hashes l : forallb (fun b => (length b =? 32)%nat) l = true -> Forall is_hash l.
Proof. rewrite forallb_elem, Forall_forall. intros Hf x Hx. apply Nat.eqb_eq, Hf, Hx. Qed.
Lemma leaves_hashes : Forall is_hash leaves.
Proof. apply all_hashes. evaluate. Qed.
Lemma leaves_small : zlen leaves <= U64_MAX.
Proof. vm_compute. discriminate. Qed.

(** ** Merkle *)

Lemma inclusion_complete_witness :
  verify_inclusion (nth 2 leaves []) 2 (zlen leaves) (path 2 leaves) (mth leaves) = true.
Proof. apply (inclusion_complete leaves 2); [exact leaves_small|exact leaves_hashes|evaluate]. Defined.

Lemma inclusion_sound_witness :
  (leaves !! 2%nat = Some (nth 2 leaves []) /\ path 2 leaves = path 2 leaves) \/
  Collision (mth_inputs leaves) (inclusion_inputs 2 (zlen leaves - 1) (nth 2 leaves []) (path 2 leaves)).
Proof.
  apply (inclusion_sound leaves 2 (nth 2 leaves []) (path 2 leaves));
    [exact leaves_small|exact leaves_hashes|apply all_hashes; evaluate|discriminate|evaluate].
Defined.

Lemma consistency_complete_witness :
  verify_consistency 3 (zlen leaves) (mth (take 3 leaves)) (mth leaves) (consistency_proof 3 leaves) = true.
Proof. apply (consistency_complete leaves 3); [exact leaves_small|exact leaves_hashes|split; vm_compute; lia]. Defined.

Lemma consistency_sound_witness :
  ((1 <= 3 <= length leaves)%nat /\ mth (take 3 leaves) = mth (take 3 leaves) /\
   consistency_proof 3 leaves = consistency_proof 3 leaves) \/
  Collision (mth_inputs leaves) (consistency_inputs 3 (zlen leaves) (mth (take 3 leaves)) (consistency_proof 3 leaves)).
Proof.
  apply (consistency_sound leaves 3 (mth (take 3 leaves)) (consistency_proof 3 leaves));
    [exact leaves_small|exact leaves_hashes|apply all_hashes; evaluate|vm_compute; lia|evaluate].
Defined.

(** ** Canonical JSON *)

Lemma canonical_checked_injective_witness : jcs_equiv body2 body2.
Proof. apply (canonical_checked_injective body2 body2 (canon body2)); evaluate. Defined.

Lemma canonical_integer_injective_witness : body3 = body3.
Proof. apply (canonical_integer_injective body3 body3 (canon body3)); evaluate. Defined.

(** ** Time *)

Lemma utc_epoch_order_witness : exists a b,
  utc_epoch_micros "2024-02-29T23:59:59.25Z" = Some a /\ utc_epoch_micros "2024-03-01T00:00:00Z" = Some b /\
  (a < b <-> civil_before (fields "2024-02-29T23:59:59.25Z") (fields "2024-03-01T00:00:00Z")) /\
  (a = b <-> fields "2024-02-29T23:59:59.25Z" = fields "2024-03-01T00:00:00Z").
Proof. apply (utc_epoch_order "2024-02-29T23:59:59.25Z" "2024-03-01T00:00:00Z"); evaluate. Defined.

(** ** Envelopes *)

Lemma pae_injective_witness : RECEIPT_TYPE = RECEIPT_TYPE /\ [1; 2; 3] = [1; 2; 3].
Proof. apply (pae_injective RECEIPT_TYPE RECEIPT_TYPE [1; 2; 3] [1; 2; 3]). reflexivity. Defined.

(** ** The key log *)

Definition key_entries : list key_entry := collect_key_entries entries.
Definition key_entry_at (i : nat) : key_entry := nth i key_entries (0, JNull, JNull).
Definition log_after (n : nat) : KeyLog :=
  fold_left (fun kl i => unwrap_or (replay_entry (Z.of_nat i) kl (key_entry_at i)) kl) (seq 0 n) KeyLog_default.
Lemma log_step (i : nat) :
  replay_entry (Z.of_nat i) (log_after i) (key_entry_at i) = Some (log_after (Datatypes.S i)) ->
  key_step (Z.of_nat i) (log_after i) (key_entry_at i) (log_after (Datatypes.S i)).
Proof. apply replay_entry_step. lia. Qed.
(** The first two entries create the issuer and the recorder; the third revokes the recorder. *)
Lemma created_run : key_run 0 KeyLog_default [key_entry_at 0; key_entry_at 1] (log_after 2).
Proof.
  apply (run_cons _ _ _ (log_after 1)); [apply (log_step 0); evaluate|].
  apply (run_cons _ _ _ (log_after 2)); [apply (log_step 1); evaluate|constructor].
Qed.
Lemma revoking_run : key_run 2 (log_after 2) [key_entry_at 2] (log_after 3).
Proof. apply (run_cons _ _ _ (log_after 3)); [apply (log_step 2); evaluate|constructor]. Qed.
Lemma whole_run : key_run 0 KeyLog_default [key_entry_at 0; key_entry_at 1; key_entry_at 2] (log_after 3).
Proof.
  apply (run_cons _ _ _ (log_after 1)); [apply (log_step 0); evaluate|].
  apply (run_cons _ _ _ (log_after 2)); [apply (log_step 1); evaluate|]. exact revoking_run.
Qed.
Definition recorder_kid : string := kid_of recorder_material.
Definition issuer_kid : string := kid_of issuer_material.
Definition state_after (n : nat) (kid : string) : KeyState :=
  unwrap_or (state (log_after n) !! kid)
    {| introduced := (0, 0); revoked_at := None; non_issuer := false; recorder := false; scitt := false |}.

Lemma no_retroactive_authority_witness :
  active (log_after 1) issuer_kid 1767400000000000 1.
Proof.
  apply (no_retroactive_authority 1 (log_after 1) (log_after 3) [key_entry_at 1; key_entry_at 2]).
  - apply (run_cons _ _ _ (log_after 2)); [apply (log_step 1); evaluate|exact revoking_run].
  - repeat constructor; vm_compute; discriminate.
  - exists (state_after 3 issuer_kid). split; [evaluate|]. split; [evaluate|]. split; [vm_compute; discriminate|].
    intros leaf ts E. vm_compute in E. discriminate E.
Defined.


Lemma issuers_descend_from_genesis_witness :
  issuer_chain (key_entry_at 0) (collect_key_entries entries) issuer_kid.
Proof.
  apply (issuers_descend_from_genesis entries issuer_kid (state_after 3 issuer_kid) (key_entry_at 0)); evaluate.
Defined.

(** ** Checkpoints *)

Definition key_log : KeyLog := replay_key_log entries.

Lemma chain_append_only_witness :
  (forall cp, cp ∈ chain -> 0 < size_of cp -> root_of cp = Some (mth (take (Z.to_nat (size_of cp)) leaves))) \/
  Collision (tree_inputs leaves) (chain_inputs chain chain_entries).
Proof.
  apply (chain_append_only chain chain_entries key_log false leaves checkpoint4);
    [evaluate|evaluate|evaluate|evaluate|exact leaves_small|exact leaves_hashes].
Defined.

Lemma chain_bodies_wf : Forall (fun cp => json_wf (idx cp "body") = true) chain.
Proof. apply Forall_cons; split; [evaluate|]. apply Forall_cons; split; [evaluate|constructor]. Qed.

Lemma dense_chain_binding_witness :
  (canonical_of <$> chain) = (canonical_of <$> chain) \/ Collision (omap canonical_of chain) (omap canonical_of chain).
Proof.
  apply (dense_chain_binding chain chain chain_entries chain_entries key_log key_log checkpoint4 checkpoint4
    (hash_of checkpoint4)); [evaluate|evaluate|exact chain_bodies_wf|exact chain_bodies_wf|evaluate..].
Defined.

(** ** Entries *)

Definition covers : list (Z * Z) := unwrap_or (checkpoint_cover_deadlines chain) [].
Definition agent_entry : json := nth 2 entries JNull.

Lemma admitted_entry_in_log_witness :
  exists payload leaf proof, payload_of (idx agent_entry "envelope") = Some payload /\ 0 <= leaf < zlen leaves /\
    (leaves !! Z.to_nat leaf = Some (leaf_hash_of payload) \/
     Collision (mth_inputs leaves) (inclusion_inputs leaf (zlen leaves - 1) (leaf_hash_of payload) proof)).
Proof.
  apply (admitted_entry_in_log agent_entry key_log leaves covers "acme");
    [evaluate|exact leaves_small|exact leaves_hashes|evaluate].
Defined.

Lemma entry_not_after_first_cover_witness :
  exists ts admitted signed, body_str checkpoint4 "ts" = Some ts /\
    utc_epoch_micros "2026-01-02T03:04:06.5Z" = Some admitted /\ utc_epoch_micros ts = Some signed /\
    admitted <= signed + 300 * 1000000.
Proof.
  apply (entry_not_after_first_cover chain chain_entries key_log false covers 2 "2026-01-02T03:04:06.5Z" 1 checkpoint4);
    [evaluate|evaluate|evaluate|evaluate|evaluate|].
  intros j c Hj Hc. destruct j as [|j]; [|lia]. injection Hc as <-. vm_compute. discriminate.
Defined.

Lemma export_manifest_exact_witness :
  exists listed, manifest_signed bundle checkpoint4 key_log listed /\ list_to_set listed = carried_hashes entries /\
    forall entries', carried_hashes entries' <> carried_hashes entries ->
      check_export_manifest bundle entries' checkpoint4 key_log = Some false.
Proof. apply (export_manifest_exact bundle checkpoint4 entries key_log). evaluate. Defined.

Lemma bound_records_spec_witness : exists arr, JArray [] = JArray arr /\ zlen arr <= 256 /\
  NoDup ((fun r => unwrap_or (get_str r "checkpoint_body_hash") EmptyString) <$> arr) /\
  forall r, r ∈ arr -> exists cp h ts claimed c t, cp ∈ chain /\
    unwrap_or (get_str r "checkpoint_body_hash") EmptyString = h /\ checkpoint_body_hash cp = Some h /\
    body_str cp "ts" = Some ts /\ get_str r "block_ts" = Some claimed /\
    utc_epoch_micros claimed = Some c /\ utc_epoch_micros ts = Some t /\ t <= c /\
    forall f, f ∈ ANCHOR_REQUIRED -> exists v, get r f = Some v.
Proof.
  apply (bound_records_spec (JArray []) ANCHOR_REQUIRED "block_ts" chain (unwrap_or (checkpoint_facts chain) ∅)); evaluate.
Defined.

(** ** Bundles *)


Lemma bundle_verifies : f_ok (verify_bundle_facts bundle (Some trust)) = true.
Proof. evaluate. Qed.

Lemma verify_bundle_sound_witness :
  exists entries kl target chain_entries chain sparse covers root tenant,
    bundle_verified bundle entries kl target chain_entries chain sparse covers root tenant /\
    complete (verify_bundle_facts bundle (Some trust)) = check_export_manifest bundle entries target kl.
Proof. apply (verify_bundle_sound bundle (Some trust)). exact bundle_verifies. Defined.


Lemma rejected_bundle_earns_nothing_witness :
  let f := verify_bundle_facts (JObject []) (Some trust) in
  recorder_attested f = [] /\ trusted_tst_checkpoints f = [] /\ chain_sizes f = ∅ /\ f_origin_attested f = None.
Proof. apply (rejected_bundle_earns_nothing (JObject []) (Some trust)). evaluate. Defined.

Lemma recorder_attestation_sound_witness :
  exists e payload sigs s issuer key issuer_key st, e ∈ unwrap_or (get_array bundle "entries") [] /\
    get_u64 e "leaf_index" = Some 2 /\ payload_of (idx e "envelope") = Some payload /\
    get_array (idx e "envelope") "signatures" = Some sigs /\ s ∈ sigs /\ issuer ∈ sigs /\
    let kl := replay_key_log (unwrap_or (get_array bundle "entries") []) in
    state kl !! unwrap_or (get_str s "keyid") EmptyString = Some st /\ recorder st = true /\
    key_for (Some trust) "recorder_keys" (Some (unwrap_or (get_str s "keyid") EmptyString)) = Some key /\
    signature s (pae RECEIPT_TYPE payload) key /\
    is_non_issuer kl (unwrap_or (get_str issuer "keyid") EmptyString) = false /\
    keys kl !! unwrap_or (get_str issuer "keyid") EmptyString = Some issuer_key /\
    signature issuer (pae RECEIPT_TYPE payload) issuer_key.
Proof.
  apply (recorder_attestation_sound bundle (Some trust) 2).
  assert (recorder_attested (verify_bundle_facts bundle (Some trust)) = [2]) as -> by evaluate. by apply list_elem_of_singleton.
Defined.


(** ** Trust and disclosure *)

Lemma signed_bytes_binding_witness : "temporal"%string = "temporal"%string /\
  strip_signatures [("a", int 1); ("signature", str "x")]%string = strip_signatures [("a", int 1); ("b_sig", str "y")]%string.
Proof.
  apply (signed_bytes_binding "temporal" "temporal" _ _ (unwrap_or (signed_bytes "temporal"
    (JObject [("a", int 1); ("signature", str "x")]%string)) [])); evaluate.
Defined.

Lemma disclosure_domain_determines_field_witness : "prompt"%string = "prompt"%string.
Proof. apply (disclosure_domain_determines_field "prompt" "prompt" "evd/v1/llm.prompt"); evaluate. Defined.

Lemma disclosure_commitment_binding_witness :
  ("evd/v1/payload"%string = "evd/v1/payload"%string /\ secret_nonce = secret_nonce /\ secret_payload = secret_payload) \/
  Collision [commitment_input "evd/v1/payload" secret_payload secret_nonce]
    [commitment_input "evd/v1/payload" secret_payload secret_nonce].
Proof. apply disclosure_commitment_binding; evaluate. Defined.

Example disclosure_verifies : verify_disclosure disclosure bundle = true.
Proof. vm_compute. reflexivity. Qed.
