(* ===== verification/WitnessesWire.v ===== *)
(** * WitnessesWire: the CBOR, COSE and SCITT theorems at concrete inputs *)
From S2P Require Import Prelude Hash Merkle Text Json Jcs Dsse Checkpoint CborWire Cose Scitt Instances Example ExampleWire.

Ltac evaluate := vm_compute; reflexivity.

Lemma all_bytes (b : bytes) : forallb (fun x => (0 <=? x) && (x <? 256)) b = true -> Forall is_byte b.
Proof.
  rewrite forallb_forall. intros Hf. apply Forall_forall. intros x Hx%list_elem_of_In%Hf.
  apply andb_true_iff in Hx as [?%Z.leb_le ?%Z.ltb_lt]. done.
Qed.

Lemma head_roundtrip_witness :
  read_head ([9; 9] ++ write_head 3 70000 ++ [1]) 2 = Some (3, 70000, 2 + zlen (write_head 3 70000)).
Proof. apply (head_roundtrip 3 70000 [9; 9] [1]); split; vm_compute; discriminate. Defined.

Lemma structural_scan_spec_witness :
  structural_scan receipt_raw 16 100 = Some (zlen receipt_raw) <->
  exists n, item receipt_raw 16 0 (zlen receipt_raw) n /\ Z.of_nat n <= 100.
Proof. apply structural_scan_spec. apply all_bytes. evaluate. Defined.

(** A map written in two orders. *)
Definition here_first : cbor := CMap [(CText "a", CInteger 1); (CText "bb", CArray [CNull; CBytes [7]])].
Definition here_last : cbor := CMap [(CText "bb", CArray [CNull; CBytes [7]]); (CText "a", CInteger 1)].

Lemma canonical_bytes_injective_witness : cbor_equiv here_first here_last.
Proof.
  apply (canonical_bytes_injective here_first here_last 64 16 CERT_PROFILE COSE_PROFILE
    (bytes_of (canonical_cbor here_first))); [vm_compute; discriminate|evaluate|evaluate].
Defined.

Lemma decode_cbor_spec_witness : let reader : Ciborium := fun _ => Some here_first in
  let b := bytes_of (canonical_cbor here_first) in
  decode_cbor b MAX_DEPTH MAX_BYTES = Some here_first <->
  zlen b <= MAX_BYTES /\ (exists n, item b MAX_DEPTH 0 (zlen b) n /\ Z.of_nat n <= MAX_ITEMS) /\
  from_reader b = Some here_first /\ canonical_cbor here_first = Some b.
Proof. intros reader b. apply (decode_cbor_spec b MAX_DEPTH MAX_BYTES here_first). apply all_bytes. evaluate. Defined.

Definition here_first_pairs : list (cbor * cbor) := [(CText "a", CInteger 1); (CText "bb", CArray [CNull; CBytes [7]])].

Lemma decode_cbor_canonical_witness : let reader : Ciborium := fun _ => Some here_first in
  decode_cbor (bytes_of (canonical_cbor here_last)) MAX_DEPTH MAX_BYTES = Some here_first.
Proof.
  intros reader. apply (decode_cbor_canonical here_last here_first);
    [evaluate|vm_compute; discriminate|vm_compute; discriminate|vm_compute; discriminate|reflexivity| |].
  - eapply (equiv_map _ _ here_first_pairs); [apply Permutation_swap|reflexivity|].
    repeat constructor.
  - apply all_bytes. evaluate.
Defined.

Lemma sig_structure_injective_witness : [1; 2] = [1; 2] /\ unwrap_or None [] = unwrap_or (Some (@nil Z)) [].
Proof.
  apply (sig_structure_injective [1; 2] [1; 2] None (Some []) (bytes_of (sig_structure [1; 2] None)));
    [vm_compute; discriminate|evaluate|evaluate].
Defined.

Definition statement_sign1 : Sign1 :=
  {| protected := statement_protected; unprotected := CMap []; payload := Some cert_hash; kid := scitt_kid |}.
Lemma verify_sign1_sound_witness : zlen statement <= 65536 /\
  exists pb signature, sign1_envelope issuers 16 statement statement_sign1 pb signature.
Proof. apply (verify_sign1_sound statement issuers 65536 16 statement_sign1). evaluate. Defined.


Lemma scitt_pack_keys_sound_witness : pack_authorized pack roots statement services.
Proof. apply (scitt_pack_keys_sound pack roots statement services). evaluate. Defined.

Lemma checkpoint_hash_binds_witness :
  (mth log_leaves = mth log_leaves /\ 3 = 3) \/
  exists c1 c2, canonical_checked log_object = Some c1 /\ canonical_checked log_object = Some c2 /\ Collision [c1] [c2].
Proof.
  apply (checkpoint_hash_binds receipt_unprotected (CMap [(CInteger (-2), log_body)]) log_object log_object
    (hex (sha256 (canon log_object))) (mth log_leaves) (mth log_leaves) 3 3); evaluate.
Defined.
