(* ===== verification/WitnessesAction.v ===== *)
(** * WitnessesAction: the verdict, authority, certificate and dispute theorems at concrete inputs *)
From S2P Require Import Prelude Hash Text Json Jcs Utc Dsse KeyLog Merkle Checkpoint Trust Entries Bundle PyValue Times Verdict Authority.
From S2P Require Import CborWire Certificate Dispute Instances Example ExampleWire ExampleAction ExampleCertificate.

Ltac evaluate := vm_compute; reflexivity.

Lemma in_list {A} `{EqDecision A} (x : A) (l : list A) : bool_decide (x ∈ l) = true -> x ∈ l.
Proof. apply bool_decide_eq_true. Qed.
Lemma not_equal {A} `{EqDecision A} (x y : A) : bool_decide (x = y) = false -> x <> y.
Proof. apply bool_decide_eq_false. Qed.

(** ** Times *)

Lemma nts_chronological_witness : exists a b i j,
  nts (JString "2026-01-02T03:04:05Z") = Some a /\ nts (JString "2026-01-02T03:04:05.25Z") = Some b /\
  utc_epoch_micros "2026-01-02T03:04:05Z" = Some i /\ utc_epoch_micros "2026-01-02T03:04:05.25Z" = Some j /\
  (str_ltb a b = true <-> i < j) /\ (a = b <-> i = j).
Proof. apply (nts_chronological "2026-01-02T03:04:05Z" "2026-01-02T03:04:05.25Z"); evaluate. Defined.

(** ** The verdict engine *)

Definition action_vector : json := Eval vm_compute in vector_of action_input (Some action_anchors).

(** The example's favourable input, without anchors. *)
Lemma derive_vector_unanchored_witness :
  exists v, derive_vector_with_trust action_input None = Some v /\ unanchored v = true.
Proof. apply (derive_vector_unanchored action_input None). intros category name. unfold key_for. by destruct (str_in _ _). Defined.

Lemma eligible_sound_witness : eligible_basis action_input (Some action_anchors).
Proof. apply (eligible_sound action_input (Some action_anchors) action_vector); evaluate. Defined.

Lemma contradiction_terminal_witness : exists v,
  derive_vector_with_trust disputed_input (Some action_anchors) = Some v /\
  says v "technical_eligibility" "ELIGIBLE" = false /\
  (malformed disputed_input = false -> get v "outcome" = Some (JString "CONTRADICTED")).
Proof.
  apply (contradiction_terminal disputed_input (Some action_anchors) match_doc claim_doc disputed_event "value" "10.00" "11.00");
    [evaluate|evaluate|evaluate|left; apply in_list; evaluate|evaluate|evaluate|apply not_equal; evaluate].
Defined.

Lemma favourable_grounded_witness : let v := action_vector in
  let sr := g (g action_input "registration") "scope_registration" in
  says v "source_signature" "ASYMMETRIC" = true /\ says v "control_domain" "INDEPENDENT" = true /\
  flag (g action_input "registration") "scitt_receipt_valid" = true /\
  verified (Some action_anchors) "scitt_ts_keys" (get_str sr "transparency_service") "scope-registration" sr = true.
Proof.
  destruct (favourable_grounded action_input (Some action_anchors) action_vector)
    as (_ & _ & Hreg); [evaluate|].
  split; [evaluate|]. split; [evaluate|]. apply Hreg. evaluate.
Defined.

(** ** The authority facts *)

Lemma identity_verified_sound_witness : (verify_bundle_report action_bundle None).1.1 = true /\
  exists chosen dup timeline conflict,
    evaluated action_bundle (Some "act-1"%string) chosen dup timeline conflict /\ conflict = false /\
    binding_conflict (root_valid_auth (entry_rows action_bundle) timeline "authority.principal.bound") = false /\
    bound_runtime (entry_rows action_bundle) timeline chosen (interval_for action_bundle (r_leaf chosen)).
Proof. apply (identity_verified_sound action_bundle (Some "act-1"%string)). evaluate. Defined.

Lemma authority_verified_sound_witness : (verify_bundle_report action_bundle None).1.1 = true /\
  exists chosen dup timeline conflict issued pairs lo up,
    evaluated action_bundle (Some "act-1"%string) chosen dup timeline conflict /\
    grant_good action_bundle timeline chosen issued pairs lo up /\
    (exists subject, g (r_ctx issued) "subject_birthtag_id" = JString subject /\
       (Some subject = (identity_of action_bundle chosen timeline conflict).2 \/
        Some subject = l_birthtag_id <$> agent_lineage (entry_rows action_bundle) (r_agent chosen))).
Proof. apply (authority_verified_sound action_bundle (Some "act-1"%string)). evaluate. Defined.

(** ** Certificates *)

Definition no_report : Report := held false [] None false [].
Definition report_of (b : bytes) : Report := unwrap_or (run b (Some action_anchors)) no_report.
Definition core_report : Report := Eval vm_compute in report_of core_bytes.
Definition view_report : Report := Eval vm_compute in report_of view_bytes.
Definition tampered_report : Report := Eval vm_compute in report_of tampered_bytes.
Definition core_document : json := Eval vm_compute in unwrap_or (cbor_to_json core CborWire.MAX_DEPTH) JNull.


Lemma certificate_never_partial_witness :
  vector tampered_report = JNull \/ authority_weak (vector tampered_report).
Proof.
  apply (certificate_never_partial tampered_bytes (Some action_anchors) tampered_report "COVERAGE_INCONSISTENT");
    [evaluate|apply in_list; evaluate|evaluate].
Defined.

(** A pack that verifies, beside a flag that denies it: the flag handed on is true. *)
Lemma receipt_flag_derived_witness : exists pack root,
  get registration "scitt_pack" = Some pack /\
  key_for (Some service_anchors) "scitt_ts_keys"
    (scope ← get registration "scope_registration"; get_str scope "transparency_service") = Some root /\
  zlen root = 32 /\ @scitt_pack_valid _ scitt_serde _ _ _ pack cert_id scitt_log (Some root) = true.
Proof.
  apply (@receipt_flag_derived _ scitt_serde _ _ _ registered_input registration (JBool true) cert_id scitt_log
    (Some service_anchors)); evaluate.
Defined.

Lemma foreign_pack_worthless_witness : let r := core_report in
  says (vector r) "technical_eligibility" "ELIGIBLE" = false /\ says (vector r) "registration_status" "REGISTERED" = false.
Proof.
  apply (foreign_pack_worthless core_bytes (Some action_anchors) core_report core_id core None core_document);
    [evaluate|vm_compute; repeat split; discriminate|evaluate|apply not_equal; evaluate].
Defined.

(** ** Disputes *)

