(* ===== verification/WitnessesExchange.v ===== *)
(** * WitnessesExchange: the counterparty theorems at the example exchange *)
From S2P Require Import Prelude Hash Text Json Jcs Utc Dsse Merkle Bundle CborWire Exec Cwt CwtTypes.
From S2P Require Import Instances Example.
From S2P Require Import Counterparty AdminProof Assurance AssuranceSpec AssuranceChain AssuranceReport ExampleExchange.

Ltac evaluate := vm_compute; reflexivity.
Definition value_of {A} (e : exec A) (default : A) : A := match e with Done a => a | Panic => default end.

(** ** The verifier *)

Definition durable_result : json := Eval vm_compute in value_of (verify_b28_cwt exchange local_context trust_pack trust_pin) JNull.
Lemma durable_replay_sound_witness :
  exists i X c, presented exchange local_context trust_pack trust_pin i /\ authority_chain i X c.
Proof. apply (durable_replay_sound exchange local_context trust_pack trust_pin durable_result); evaluate. Defined.

Definition refusal_result : json := Eval vm_compute in value_of (verify_b28_cwt refusal_exchange refusal_local trust_pack trust_pin) JNull.
Lemma signed_refusal_sound_witness : exists i, refused refusal_exchange refusal_local trust_pack trust_pin i /\ refusal_facts i.
Proof. apply (signed_refusal_sound refusal_exchange refusal_local trust_pack trust_pin refusal_result); evaluate. Defined.

(** ** Statements *)

(** The two envelopes of the challenge's statement. *)
Definition no_cwt : Cwt := {| core := CNull; core_bytes := []; payload := []; protected := []; signature := []; kid := EmptyString |}.
Definition challenge_cwt : Cwt := Eval vm_compute in unwrap_or (value_of (inspect_cwt challenge_raw CHALLENGE) None) no_cwt.
Definition resigned_cwt : Cwt := Eval vm_compute in unwrap_or (value_of (inspect_cwt challenge_resigned CHALLENGE) None) no_cwt.
Lemma signature_binds_witness : signature challenge_cwt <> signature resigned_cwt
  /\ kid challenge_cwt = kid resigned_cwt /\ core challenge_cwt = core resigned_cwt
  /\ core_bytes challenge_cwt = core_bytes resigned_cwt.
Proof.
  split; [discriminate|].
  apply (signature_binds challenge_raw challenge_resigned CHALLENGE CHALLENGE challenge_cwt resigned_cwt
    (out (sig_message (protected challenge_cwt) (payload challenge_cwt)))); [evaluate|evaluate|evaluate|evaluate|].
  vm_compute. discriminate.
Defined.

Lemma two_spellings_witness : accepted_name (Some "swarrm/limit-grant/v1"%string) GRANT = true
  <-> "swarrm/limit-grant/v1"%string = GRANT \/ "swarrm/limit-grant/v1"%string = V2_NS +:+ "limit-grant/v1".
Proof.
  apply (two_spellings GRANT "limit-grant/v1" "swarrm/limit-grant/v1"); [|reflexivity].
  apply (bool_decide_eq_true_1 (GRANT ∈ NAMES)). evaluate.
Defined.

(** ** The administrator's assertion *)

Definition document_of (v : cbor) : gmap string cbor := unwrap_or (plain v) ∅.
Lemma typed_intro_b (doc : gmap string cbor) table :
  forallb (fun f => is_some_and (doc !! f.1) f.2) table = true -> fields_typed doc table.
Proof.
  intros Hf. apply Forall_forall. intros f Hin. rewrite forallb_forall in Hf. specialize (Hf f ltac:(by apply list_elem_of_In)).
  unfold typed. destruct (doc !! f.1) as [v|]; [|done]. by exists v.
Qed.
Lemma verify_admin_sound_witness : exists o,
  verify_admin (document_of admin_core) selection_core admin_origin 0 1000 = Done o /\ is_some o = true
  /\ forall st, o = Some st -> admin_proof (document_of admin_core) (document_of selection_core) admin_origin 0 1000 st.
Proof.
  destruct (verify_admin_sound (document_of admin_core) (document_of selection_core) selection_core admin_origin 0 1000)
    as (o & E & Ho); [apply typed_intro_b; evaluate|reflexivity|apply typed_intro_b; evaluate|].
  exists o. split; [exact E|]. split; [|exact Ho]. revert E. clear Ho. vm_compute. intros E. injection E as <-. reflexivity.
Defined.

Lemma keys_loop_fuel_witness : keys_loop 1000 client_data 0 ∅ = keys_loop (length client_data) client_data 0 ∅.
Proof. apply (keys_loop_fuel 1000 client_data 0 ∅). apply Nat.leb_le. evaluate. Defined.

(** ** Acknowledgements *)

Lemma covered_acknowledgement_witness :
  exists value keys now origin from_hash to_hash issued c start end_,
    @Trust.strict_json acknowledgement_serde bundle_raw = Some value
    /\ f_ok (@verify_bundle_facts _ acknowledgement_serde _ _ _ value None) = true
    /\ acknowledgement_context acknowledgement_local keys now
    /\ statement_of acknowledgement_raw keys now origin from_hash to_hash issued c
    /\ json_eqb (JString origin) (idx value "origin") = true
    /\ chain_sizes (@verify_bundle_facts _ acknowledgement_serde _ _ _ value None) !! from_hash = Some start
    /\ chain_sizes (@verify_bundle_facts _ acknowledgement_serde _ _ _ value None) !! to_hash = Some end_ /\ start < end_.
Proof.
  apply (@covered_acknowledgement _ acknowledgement_serde _ _ _ _ acknowledgement_raw acknowledgement_local bundle_raw). evaluate.
Defined.
