(* ===== verification/WitnessesToken.v ===== *)
(** * WitnessesToken: the timestamp theorems at concrete inputs *)
From S2P Require Import Prelude Hash Text Json Jcs Utc Dsse Checkpoint Trust Bundle Instances Pki Token TokenPath TokenSpec Example.
From S2P Require Import ExampleToken.

Lemma verified_tst_exact_witness : exists tst signer pool,
  token_verified token_der (hash_of checkpoint4) "chain" tst signer pool /\ token_time = gen_time tst /\
  (true = true <-> signer_trusted (Some "roots"%string) pool token_time signer).
Proof.
  apply (proj1 (verified_tst_exact (PT := toy_pki_types) token_der (hash_of checkpoint4) "chain" (Some "roots"%string) token_time true)).
  exact token_trusted.
Defined.

(** A link is what the builder's own test accepts among its candidates. *)
Lemma link_of_test current iss below der : iss ∈ [root_cert] ++ carried_pool ->
  bool_decide (subject (tbs_certificate iss) = issuer (tbs_certificate current)) = true -> cert_to_der iss = Some der ->
  path_candidate_ok current iss (tbs_der (tbs_certificate current)) true (Some token_time) below = true ->
  Link carried_pool (Some [root_cert]) (Some token_time) current iss below.
Proof.
  intros Hin Hn%bool_decide_eq_true_1 Hd Hok.
  apply (candidate_link carried_pool (Some [root_cert]) (Some token_time) _ _ (tbs_der (tbs_certificate current))); [done|].
  split; [|done]. exists der. by apply elem_of_candidates.
Qed.
Lemma example_path : CertPath carried_pool (Some [root_cert]) (Some token_time) [tsa_cert; inter_cert; root_cert].
Proof.
  intros [|? [|? [|? pre]]] current iss post E; simplify_eq/=.
  - apply (link_of_test _ _ _ [2]); [set_solver|by vm_compute..].
  - apply (link_of_test _ _ _ [3]); [set_solver|by vm_compute..].
  - by destruct pre.
Qed.

Lemma path_found_witness : walk_chain carried_pool (Some [root_cert]) (Some token_time) tsa_cert = true.
Proof.
  apply (path_found carried_pool [root_cert] token_time tsa_cert root_cert [tsa_cert; inter_cert; root_cert]).
  - exists [1]. vm_compute. reflexivity.
  - reflexivity.
  - reflexivity.
  - exists root_cert, [3]. split; [set_solver|]. split; vm_compute; reflexivity.
  - exact example_path.
Defined.

Lemma trusted_checkpoint_path_witness : exists chain_entries chain cp ts t_micros,
  get_array stamped_bundle "checkpoint_chain" = Some chain_entries /\
  mapM (fun entry => get entry "checkpoint") chain_entries = Some chain /\ cp ∈ chain /\
  checkpoint_body_hash cp = Some (hash_of checkpoint4) /\ body_str cp "ts" = Some ts /\ utc_epoch_micros ts = Some t_micros /\
  exists records record token chain_pem tst signer pool gen_micros,
  get stamped_bundle "tst_records" = Some (JArray records) /\
  record ∈ records /\ get_str record "checkpoint_body_hash" = Some (hash_of checkpoint4) /\
  get_str record "token_der_b64" ≫= b64_decode = Some token /\ get_str record "cert_chain_pem" = Some chain_pem /\
  token_verified token (hash_of checkpoint4) chain_pem tst signer pool /\
  get_str record "gen_time" = Some (date_time_string (gen_time tst)) /\
  utc_epoch_micros (date_time_string (gen_time tst)) = Some gen_micros /\ t_micros <= gen_micros /\
  exists roots_pem roots path root, tsa_roots_pem (Some root_trust) = Some roots_pem /\
  load_pem_chain (str_bytes roots_pem) = Some roots /\
  get_extended_key_usage (tbs_certificate signer) = Some (Some (true, [OID_ID_KP_TIME_STAMPING])) /\
  head path = Some signer /\ last path = Some root /\ is_root (Some roots) root /\
  CertPath pool (Some roots) (Some (gen_time tst)) path.
Proof.
  apply (trusted_checkpoint_path stamped_bundle (Some root_trust) (hash_of checkpoint4)). rewrite head_trusted. by left.
Defined.

(** The gate on the hollow certificate: self-issued, signer's issuer, unsigned. *)
Lemma carried_root_signature_unread_witness : walk_chain [hollow_cert] None None tsa_cert = true.
Proof.
  apply (carried_root_signature_unread [hollow_cert] tsa_cert hollow_cert).
  - exists [1]. vm_compute. reflexivity.
  - by left.
  - exists [0]. vm_compute. reflexivity.
  - reflexivity.
  - split; [reflexivity|]. eexists _, _. repeat split; vm_compute; reflexivity.
  - reflexivity.
Defined.
