(* ===== verification/WitnessesText.v ===== *)
(** * WitnessesText: a claim of two parties, compared by value

    The instances print integers in decimal and strings as the toy writer does; the two
    sides of the claim carry the same amount and status in receipts of their own, and a third
    side carries another amount. *)
From S2P Require Import Prelude Hash Text Unicode Json Jcs Utc Dsse Checkpoint Trust Bundle PyValue Verdict Dispute DisputeText.
From S2P Require Import Instances Example.

(** ** An instance of the laws *)
Definition exact_display (v : json) : string :=
  match v with
  | JNull => "null"
  | JBool b => if b then "true" else "false"
  | JNumber (PosInt n) | JNumber (NegInt n) => int_to_string n
  | _ => EmptyString
  end.
#[local] Instance plain_display : Display :=
  {| number_display := fun n => exact_display (JNumber n); value_display := exact_display |}.

Lemma escape_cases b : (0 <= b < 32 /\ escape b = 92 :: 117 :: hex4 b) \/ ((b = 34 \/ b = 92) /\ escape b = [92; b]) \/
  (32 <= b /\ b <> 34 /\ b <> 92 /\ escape b = [b]) \/ b < 0.
Proof.
  unfold escape. destruct (Z.eqb_spec b 34) as [->|]; [tauto|]. destruct (Z.eqb_spec b 92) as [->|]; [tauto|]. cbn [orb].
  destruct (Z.ltb_spec b 32); [|right; right; left; done]. destruct (Z.ltb_spec b 0); [tauto|]. left. split; [lia|]. rewrite hex4_digits by lia.
  change 15 with (2 ^ 4 - 1). rewrite land_ones_mod, Z.shiftr_div_pow2 by lia. change (2 ^ 4) with 16.
  replace (b / 4096) with 0 by (Z.to_euclidean_division_equations; lia).
  replace (b / 256 mod 16) with 0 by (Z.to_euclidean_division_equations; lia).
  by replace (b / 16 mod 16) with (b / 16) by (Z.to_euclidean_division_equations; lia).
Qed.
Lemma escape_escapes : Escapes escape.
Proof.
  split.
  - intros b Hb H34 H92. destruct (escape_cases b) as [[? _]|[[[|] _]|[(_ & _ & _ & ->)|?]]]; done || lia.
  - intros b Hb. destruct (escape_cases b) as [[? ->]|[[Hq ->]|[(? & ? & ? & _)|?]]]; [right|left|lia..]; [split; [lia|done]|].
    exists b. split_and!; [lia..|done].
  - intros b b' Hb Hb' E. destruct (escape_cases b) as [[H1 E1]|[[H1 E1]|[(H1 & H2 & H3 & E1)|?]]]; [| | |lia];
      (destruct (escape_cases b') as [[H1' E1']|[[H1' E1']|[(H1' & H2' & H3' & E1')|?]]]; [| | |lia]);
      rewrite E1, E1' in E; try (injection E; lia); try discriminate.
    + apply two_more in E. rewrite <- (app_nil_r (hex4 b)), <- (app_nil_r (hex4 b')) in E.
      apply hex4_prefix in E as [-> _]; [done|lia..].
Qed.
#[local] Instance plain_text : SerdeText (SD := example_serde) (D := plain_display).
Proof.
  split.
  - exists escape. split; [apply escape_escapes|done].
  - reflexivity.
  - by intros [].
  - by intros n.
Defined.

(** ** Three sides of one claim *)
Definition paid (amount : Z) (by_ : string) : json :=
  obj [("amount", int amount); ("status", str "paid"); ("_receipt_hash", str by_)]%string.
Definition side_of (l : list json) : Party := {| claims := [("order-1"%string, l)]; party_facts := obj [] |}.
Definition seller : Party := Eval vm_compute in side_of [paid 100 "aa"; paid 20 "ab"].
Definition buyer : Party := Eval vm_compute in side_of [paid 20 "ba"; paid 100 "bb"; paid 20 "bc"].
Definition denier : Party := Eval vm_compute in side_of [paid 100 "ca"].
Definition sides : string * string := ("seller", "other")%string.

(** Every value the receipts of the example carry is printable. *)
Lemma side_comparable l : forallb (fun view => forallb (fun field =>
    is_none_or (get view field) (fun v => json_wf v && nameable v)) FIELDS) l = true -> comparable l.
Proof.
  intros Hl field v Hf (view & Hin & Hv). rewrite forallb_elem in Hl. specialize (Hl _ Hin). rewrite forallb_elem in Hl.
  specialize (Hl _ Hf). rewrite Hv in Hl. by apply andb_true_iff in Hl.
Qed.

Example same_sums_agree : statement "order-1" seller buyer sides ≫= (fun s => get_str s "outcome") = Some "AGREEMENT"%string.
Proof. vm_compute. reflexivity. Qed.
Example other_sums_conflict : statement "order-1" seller denier sides ≫= (fun s => get_str s "outcome") = Some "CONFLICT"%string.
Proof. vm_compute. reflexivity. Qed.
